(* ===== verification/_CoqProject ===== *)
-Q . S2P
Prelude.v
PyText.v
PyFloat.v
FloatFacts.v
PyVal.v
Codec.v
Json.v
JsonFacts.v
Event.v
TextFacts.v
Ls1000.v
CoordFacts.v
Ls1000Facts.v
JsonNormalizer.v
NormalizerFacts.v
ValidFacts.v
Envelope.v
Tracing.v
Validate.v
UdpServer.v
ServerFacts.v
Migrations.v
Database.v
Repository.v
RepositoryFacts.v
MigrationsFacts.v
MemDriver.v
HistoryFacts.v
Broadcast.v
BroadcastFacts.v
Consumer.v
ConsumerFacts.v
Ws.v
WsFacts.v
Live.v
LiveFacts.v
PipelineFacts.v
Config.v
ConfigFacts.v
Api.v
ApiFacts.v
App.v
AppFacts.v
Client.v
ClientFacts.v
Publisher.v
PublisherFacts.v
Receiver.v
ReceiverFacts.v
System.v
SystemFacts.v
StorageFacts.v
LiveRefinement.v
Logging.v
LoggingFacts.v
Startup.v
StartupFacts.v
World.v
WorldFacts.v
WorldSessions.v
WorldLive.v
Writers.v
WritersFacts.v
