(* ===== verification/Prelude.v ===== *)
(** * RTLS stream visualizer: verification library (root file)

    ** The program

    A real-time locating system sends its positions as UDP datagrams.  A receiver
    ([src/udp_receiver/], [src/core/udp/server.py]) reads each datagram as an LS-1000
    frame or as a JSON document, wraps the event in a versioned envelope and publishes
    it to RabbitMQ.  The backend ([src/backend/]) consumes the envelopes, stores them in
    two PostgreSQL tables (the history of events and the current position of each tag),
    broadcasts them to the WebSocket sessions of browsers, and answers HTTP queries on
    the history.  A stream generator replays a JSONL file to the receiver.

<<
      generator --UDP--> receiver --publisher--> RabbitMQ --> consumer --> tables
      Client             UdpServer  Publisher    System       Consumer     Repository,
      (Generator)        Receiver                             App          Database
                         Ls1000, JsonNormalizer,                 |             |
                         Validate, Envelope, Tracing             v             v
                                                              Broadcast --> Ws, Api
                                                                 (Live)
>>
    [World] is all of it from the receiver to the sessions, interleaved.

    ** The files

    Every component has a file of its own, most of them a Module in it; its theorems
    are in the files named under "Facts".  Definitions keep the names of the code.

    - Python itself: [Prelude] (exceptions, computations that return or raise),
      [PyText] (the [str] methods, [int()]), [PyFloat] (binary64: [float()], [int(x)],
      [repr]), [PyVal] (values and dicts), [Codec] (UTF-8, -16, -32), [Json]
      ([json.loads], [json.dumps]).  Facts: [TextFacts], [FloatFacts], [JsonFacts].
    - Parsing: [Event] (the dataclasses and coercions of [stream_handler/]), [Ls1000]
      ([ls1000_parser.py]), [JsonNormalizer] ([json_normalizer.py]).  Facts:
      [CoordFacts], [Ls1000Facts], [NormalizerFacts], [ValidFacts] (what is parsed is
      well formed and can be serialised).
    - Receiver: [Envelope] ([core/envelope/]), [Tracing] ([core/tracing.py]),
      [Validate] ([core/validate.py]), [UdpServer] ([core/udp/server.py]: [prepare] is
      the body of the loop's [try] up to [publish], [iteration] one turn,
      [serve_forever] the loop), [Publisher] ([core/broker/]: the class [BrockerPublisher]
      is the interface that [interface.py] declares, its instance is [rabbitmq.py]'s),
      [Receiver] ([udp_receiver/main.py]: [start_udp]).  Facts: [ServerFacts], [PublisherFacts],
      [ReceiverFacts].
    - Storage: [Migrations] ([migrations/]: the columns, the statements on a catalog, the
      values that a column refuses and gives back), [Database] (the tables and what each
      SQL file does to them), [Repository] ([backend/repository/], [backend/db.py]),
      [MemDriver] (an instance of the driver's interface), [Writers] (the same block in
      many threads, call by call, on shared tables).  Facts: [MigrationsFacts],
      [RepositoryFacts], [HistoryFacts], [StorageFacts] (which events the columns hold),
      [WritersFacts].
    - Backend: [Broadcast] ([broadcast.py]), [Consumer] ([_on_message] of [app.py],
      [on_message] of [consumer.py]), [Ws] ([api/ws.py]), [Api] ([api/positions.py],
      [api/health.py], the middleware of [app.py]), [App] (the retry loop
      [_run_consumer], the standalone [main]), [Startup] ([create_app], [_lifespan],
      [create_pool], the generator's [init] and [main], the [main]s of [backend/consumer.py] and
      [backend/main.py]), [Config] ([core/config.py],
      [backend/config.py]), [Logging] ([core/logging_config.py]).  Facts: [<name>Facts].
    - Generator: [Client] (Modules [Client], [Generator]: [core/udp/client.py],
      [stream_generator/main.py]).  Facts: [ClientFacts].
    - Composition: [PipelineFacts] (one datagram to the tables), [Live] (the consumer's
      commits, the broadcast and one session, interleaved), [System] (receivers, queue
      and backend, a handler in one step), [World] (the same with handlers between their
      suspension points, the prefetch limit, reconnections, and any number of sessions).
      Facts: [LiveFacts], [SystemFacts], [LiveRefinement] (the handler takes the steps of
      [Live]), [WorldFacts], [WorldSessions], [WorldLive] (every session of [World] is a
      pipeline of [Live]).

    The steps of [World.step] and the code: [step_publish] is [UdpServer._publish_message]
    reaching the broker; [step_deliver] the call of [_on_message] in [app.py];
    [step_write] its part up to the end of [_write_to_db] in the executor's thread, and
    [step_start_ends] the early returns and exceptions before it; [step_resume] its part
    from there to the settlement; [step_reconnect] and [step_restart] a lost connection
    and a new process; [step_open], [step_read], [step_snapshot], [step_receive] and
    [step_cancel] the parts of [positions_ws] in [ws.py].  A write is one step there, at
    its commit; in [Writers] the threads of the executor (and of other processes) take
    the calls of [persist_envelope] one at a time ([step_call]), and [writers_serialize]
    shows that their commits are such steps.

    ** How the code is modelled

    Pure methods are functions into [res] (a value or an exception with its class and
    message).  Stateful code is in the state monad [io S] of [Database] (a computation
    that raises has changed the state all the same), loops are recursive over the
    sequence of what their surroundings do, coroutines that interleave are step
    relations with reachability ([Live.step], [System.step], [World.step], [Writers.step]) or machines over the events
    that resume them ([Ws.resume]).  A dict is an association list (its order is
    observable in JSON), a header map a [gmap], the subscribers' queues a heap of
    queues, because a session keeps its queue after it is unsubscribed.  Clock readings,
    sockets, files, the broker and the process environment are arguments.

    Code that is not in the repository is an interface, each with an instance or a
    concrete function for runs: [Interpreter] (the interpreter's tables for non-ASCII
    characters, and the depths at which [json] and [repr] raise [RecursionError];
    [ascii_unicode]), [Propagator] (OpenTelemetry's), [Columns] and [Driver] (psycopg and
    PostgreSQL: the laws are those of a column's type, of [ORDER BY] and of a
    transaction; [mem_columns], [mem_driver]), [ReadCommitted] (PostgreSQL's sessions on
    shared tables: what others see of a transaction, the row that an upsert locks;
    [mem_read_committed]), [Process] (aio-pika's
    [message.process]), [Framework] (FastAPI's parameters, pydantic's models, the strict
    JSON of a response; [plain_framework]), the error
    iterator of a JSON schema ([Validate.Validator]), the YAML reader of [Config].

    ** What the theorems show

    - The whole system, from the datagram to the client: with handlers, sessions,
      reconnections and restarts interleaved in any way, no accepted event is lost or
      invented and the prefetch limit holds (WorldFacts), subscriptions and gauge are those
      of the open sessions (WorldSessions); no client is told of what did
      not happen, and once nothing is under way every streaming client whose queue was
      never full has been told the newest event of each tag (WorldLive: by a simulation
      of each session by [Live], whose invariant carries the argument, and the ledger of
      WorldFacts).  With a handler as one step, a queue that is worked off leaves the
      newest event of each tag current (SystemFacts); one datagram to its rows
      (PipelineFacts).
    - The receiver: what every datagram leads to, one at a time and in order; the
      message that is published and that the consumer can decode it (ServerFacts);
      [start_udp] from set-up to clean-up, a refinement of the loop by the loop with any
      publisher that keeps its contract (ReceiverFacts); the publisher's account of its calls (PublisherFacts).
    - The parsers: the outcome on every text, each kind of frame, the JSON round trip,
      the agreement of the two JSON readers (Ls1000Facts, NormalizerFacts).
    - Storage: the migration and its rollback, the agreement of SQL files, parameters and
      columns (MigrationsFacts); atomicity of a persisted envelope, the current table as
      the latest event, the history and its pages (RepositoryFacts, HistoryFacts,
      ApiFacts); which events a column refuses, that their messages are requeued for
      ever, that a model is made of every stored row, and which responses are sent: those
      without NaN and infinities (StorageFacts); writers that run at
      the same time leave the tables of the same writes one after another, up to an order
      that no query shows, lose no update, and all end (WritersFacts).
    - The consumer: the outcome of every message, on every branch (ConsumerFacts);
      retries, release and termination of the shutdown, the other entry points
      (AppFacts, StartupFacts).
    - Live updates: bounded queues and order of delivery (BroadcastFacts); release of a
      session's resources (WsFacts); in the pipeline of one session, a client is told
      nothing that is not durable and misses nothing unless its queue was full
      (LiveFacts); the steps of the pipeline are those of the consumer's handler
      (LiveRefinement) and of all handlers and sessions together (WorldLive).
    - Configuration, logging, client: types, precedence and caching of settings
      (ConfigFacts); the width and round trip of trace identifiers (LoggingFacts); the
      batches of a sender, the release of its socket, and that its trace fields do not
      disturb the receiver (ClientFacts).

    ** Bounds and fuel

    Recursion that is not structural has fuel that is computed from its input and is
    never short.  [json_fuel] is twice the length of the text and one more, since each
    call of the scanner either consumes a character or is followed by one that does
    ([JsonFacts.scan_once_fuel]).  [digits_fuel] and [hex_fuel] take the number of bits
    and one more, at least the number of digits ([N_digits_fuel_ok],
    [LoggingFacts.hex_digits_value]); [findall_fuel] and [replace_fuel] the length of
    their text, of which every step consumes a character; [Client.batches] the number of
    objects, of which every batch takes one at least ([ClientFacts.batches_concat]).
    [shortest] tries 1 to 17 digits, and where none read back (no float needs more) it
    would give the exact expansion, so that its result reads back in any case
    ([FloatFacts.shortest_reads]).  Integers are unbounded, as Python's, with the
    interpreter's limit of 4300 digits for decimal conversions; floats are binary64.

    ** Not modelled

    - The frontend (TypeScript), the deployment files and the load tests: not part of
      the services' logic.
    - The rendering of the Prometheus registry ([/metrics]): the counters are state of
      the components that move them.
    - Log output, the spans' timing and the SDK behind [init_tracing]: no part of the
      code reads them back.
    - Cancellation of the event loop's tasks by the server, and memory exhaustion.  The
      interpreter's bounds on recursion are [nesting_limit] and [repr_limit], the same for
      every call and every process, although the frames that are on the stack at a call
      count too: how deep a value can be differs by a few levels from call to call.
    - Reconnection inside aio-pika's robust connections: its outcomes are inputs of [App],
      and its effect on deliveries is [World.step_reconnect].
    - The names that PostgreSQL chooses itself (indexes of primary keys, the sequence of
      [BIGSERIAL]), and the way in which it implements isolation: [ReadCommitted] states
      what is documented of it.  A query reads the tables that are committed when its
      connection is acquired. *)

From stdpp Require Export base list strings gmap numbers option sorting.
From Stdlib Require Export Lia ZifyBool ZifyN ZifyNat.
From Stdlib Require Export Ascii.

(** ** Text: a Python [str] as its sequence of Unicode code points *)

Definition text : Type := list N.

#[export] Instance text_eq_dec : EqDecision text := list_eq_dec.
#[export] Instance text_countable : Countable text := list_countable.
#[export] Instance text_inhabited : Inhabited text := populate [].

(** An ASCII literal; a coercion, so that the model's literals read like the
    code's. *)
Definition txt (s : string) : text := Ascii.N_of_ascii <$> String.list_ascii_of_string s.
Coercion txt : string >-> text.

Definition text_eqb (a b : text) : bool := bool_decide (a = b).

Lemma text_eqb_eq a b : text_eqb a b = true <-> a = b.
Proof. apply bool_decide_eq_true. Qed.

Lemma text_eqb_neq a b : text_eqb a b = false <-> a ≠ b.
Proof. apply bool_decide_eq_false. Qed.

Lemma text_eqb_refl a : text_eqb a a = true.
Proof. by apply text_eqb_eq. Qed.

(** ** Exceptions

    The exception classes that the modelled code raises, catches or lets
    through.  [Foreign] stands for the classes of third-party packages. *)
Inductive exn_class :=
  | ValueError | JSONDecodeError | UnicodeDecodeError | UnicodeEncodeError
  | OverflowError | TypeError | AttributeError | KeyError | IndexError | FileNotFoundError
  | OSError | QueueFull | TimeoutError | RecursionError | WebSocketDisconnect | Foreign.

#[export] Instance exn_class_eq_dec : EqDecision exn_class.
Proof. solve_decision. Defined.

Record exn := Exn { exn_cls : exn_class; exn_msg : text }.

#[export] Instance exn_eq_dec : EqDecision exn.
Proof. solve_decision. Defined.

(** Python's class hierarchy, as far as an [except] clause of the code can
    tell: [JSONDecodeError] and the codec errors derive from [ValueError],
    [FileNotFoundError] and [TimeoutError] from [OSError]. *)
Definition exn_isinstance (c parent : exn_class) : bool :=
  bool_decide (c = parent) ||
  match c, parent with
  | (JSONDecodeError | UnicodeDecodeError | UnicodeEncodeError), ValueError => true
  | (FileNotFoundError | TimeoutError), OSError => true
  | _, _ => false
  end.

(** ** Computations that return or raise *)

Inductive res (A : Type) :=
  | Ok (a : A)
  | Raise (e : exn).
Arguments Ok {A} a.
Arguments Raise {A} e.

#[export] Instance res_ret : MRet res := fun A a => Ok a.
#[export] Instance res_bind : MBind res := fun A B f m =>
  match m with Ok a => f a | Raise e => Raise e end.
#[export] Instance res_fmap : FMap res := fun A B f m =>
  match m with Ok a => Ok (f a) | Raise e => Raise e end.

Definition raise {A} (c : exn_class) (msg : text) : res A := Raise (Exn c msg).

(** [try: m except cs: h] *)
Definition try_except {A} (m : res A) (cs : list exn_class) (h : exn -> res A) : res A :=
  match m with
  | Ok a => Ok a
  | Raise e => if existsb (exn_isinstance (exn_cls e)) cs then h e else Raise e
  end.

(** [try: m except Exception: h] *)
Definition try_all {A} (m : res A) (h : exn -> res A) : res A :=
  match m with Ok a => Ok a | Raise e => h e end.

Definition returns {A} (m : res A) : Prop := exists a, m = Ok a.

Definition is_ok {A} (m : res A) : bool :=
  match m with Ok _ => true | Raise _ => false end.

Lemma bind_Ok {A B} (m : res A) (f : A -> res B) b :
  m ≫= f = Ok b <-> exists a, m = Ok a /\ f a = Ok b.
Proof.
  destruct m; simpl; split; try naive_solver.
Qed.

Lemma bind_Raise {A B} (m : res A) (f : A -> res B) e :
  m ≫= f = Raise e <-> m = Raise e \/ exists a, m = Ok a /\ f a = Raise e.
Proof. destruct m; simpl; split; naive_solver. Qed.

Lemma bind_returns {A B} (m : res A) (f : A -> res B) :
  returns m -> (forall a, m = Ok a -> returns (f a)) -> returns (m ≫= f).
Proof. intros [a ->] Hf. simpl. by apply Hf. Qed.

(** [mapM] over a list, in order, stopping at the first exception. *)
Fixpoint res_mapM {A B} (f : A -> res B) (l : list A) : res (list B) :=
  match l with
  | [] => Ok []
  | x :: r => y ← f x; ys ← res_mapM f r; Ok (y :: ys)
  end.

(** ** Tactics *)

(** Decides equalities and disequalities between closed texts. *)
Ltac text_decide :=
  solve [ reflexivity
        | let H := fresh in intro H; vm_compute in H; discriminate H ].

(** Splits every monadic hypothesis into its steps. *)
Ltac inv_res :=
  repeat match goal with
  | H : _ ≫= _ = Ok _ |- _ =>
      apply bind_Ok in H; destruct H as (?a & ?Ha & H)
  | H : Ok _ = Ok _ |- _ => injection H as H; subst
  | H : Raise _ = Ok _ |- _ => discriminate H
  | H : Ok _ = Raise _ |- _ => discriminate H
  end.

Ltac case_if :=
  match goal with
  | |- context [if ?b then _ else _] => destruct b eqn:?
  | H : context [if ?b then _ else _] |- _ => destruct b eqn:?
  end.

Create HintDb rtls discriminated.
#[export] Hint Resolve text_eqb_refl : rtls.
