(* ===== verification/PyText.v ===== *)
(** * Python text: the [str] methods and the [int()] constructor the code uses

    A [str] is its list of code points.  White space and decimal digits are the
    exact Unicode sets; the lower-case mapping and the printable set of the
    non-ASCII code points belong to the interpreter's Unicode database, which is
    the class [Interpreter]. *)

From S2P Require Export Prelude.

Definition ch (a : Ascii.ascii) : N := Ascii.N_of_ascii a.
Arguments ch _%_char_scope : simpl never.

Definition double_quote : N := 34.
Definition in_range (lo hi c : N) : bool := (lo <=? c)%N && (c <=? hi)%N.

(** ** Character classes *)

(** [str.isspace] of one code point. *)
Definition is_space (c : N) : bool :=
  in_range 0x09 0x0d c || in_range 0x1c 0x20 c || (c =? 0x85)%N || (c =? 0xa0)%N
  || (c =? 0x1680)%N || in_range 0x2000 0x200a c || (c =? 0x2028)%N || (c =? 0x2029)%N
  || (c =? 0x202f)%N || (c =? 0x205f)%N || (c =? 0x3000)%N.

(** The zero digits of the decimal systems (general category Nd); each is
    followed by its digits 1 to 9. *)
Definition decimal_zeros : list N :=
  [0x30; 0x660; 0x6f0; 0x7c0; 0x966; 0x9e6; 0xa66; 0xae6; 0xb66; 0xbe6; 0xc66; 0xce6;
   0xd66; 0xde6; 0xe50; 0xed0; 0xf20; 0x1040; 0x1090; 0x17e0; 0x1810; 0x1946; 0x19d0;
   0x1a80; 0x1a90; 0x1b50; 0x1bb0; 0x1c40; 0x1c50; 0xa620; 0xa8d0; 0xa900; 0xa9d0;
   0xa9f0; 0xaa50; 0xabf0; 0xff10; 0x104a0; 0x10d30; 0x11066; 0x110f0; 0x11136;
   0x111d0; 0x112f0; 0x11450; 0x114d0; 0x11650; 0x116c0; 0x11730; 0x118e0; 0x11950;
   0x11c50; 0x11d50; 0x11da0; 0x11f50; 0x16a60; 0x16ac0; 0x16b50; 0x1d7ce; 0x1d7d8;
   0x1d7e2; 0x1d7ec; 0x1d7f6; 0x1e140; 0x1e2f0; 0x1e4f0; 0x1e950; 0x1fbf0]%N.

Fixpoint find_decimal (zeros : list N) (c : N) : option N :=
  match zeros with
  | [] => None
  | z :: r => if in_range z (z + 9) c then Some (c - z)%N else find_decimal r c
  end.

(** The digit value of a decimal code point, [None] for any other. *)
Definition decimal_value (c : N) : option N := find_decimal decimal_zeros c.

Definition is_decimal (c : N) : bool :=
  match decimal_value c with Some _ => true | None => false end.

Definition is_ascii_digit (c : N) : bool := in_range 0x30 0x39 c.

(** ** What differs between interpreters

    The Unicode database, for the code points above 127: [u_lower before c after] is the
    lower-case form of [c] in its context (the final-sigma rule looks at it);
    [u_printable] is [str.isprintable].  [nesting_limit] is the number of containers that
    the C code of [json] enters before its guard against recursion raises; it depends
    on the version and the platform, and is hundreds at least.  [repr_limit] is the same
    for the objects within an object that [repr] enters. *)
Class Interpreter := {
  u_lower : text -> N -> text -> text;
  u_printable : N -> bool;
  nesting_limit : nat;
  nesting_limit_ok : 16 <= nesting_limit;
  repr_limit : nat;
}.

Definition ascii_lower (c : N) : N := if in_range 0x41 0x5a c then (c + 32)%N else c.

Section Lower.
Context `{Interpreter}.

Fixpoint lower_from (before s : text) : text :=
  match s with
  | [] => []
  | c :: r =>
      (if (c <? 128)%N then [ascii_lower c] else u_lower before c r)
      ++ lower_from (c :: before) r
  end.

(** [s.lower()] *)
Definition lower (s : text) : text := lower_from [] s.
End Lower.

(** The instance of concrete runs: no non-ASCII code point has a lower-case form. *)
Definition ascii_unicode : Interpreter :=
  {| u_lower := fun _ c _ => [c]; u_printable := fun _ => true; nesting_limit := 200;
     nesting_limit_ok := ltac:(lia); repr_limit := 200 |}.

(** ** strip, startswith, in, split, replace, count, rfind *)

Fixpoint drop_while (p : N -> bool) (s : text) : text :=
  match s with
  | [] => []
  | c :: r => if p c then drop_while p r else s
  end.

Definition strip_right (p : N -> bool) (s : text) : text := reverse (drop_while p (reverse s)).

(** [s.strip()] *)
Definition strip (s : text) : text := strip_right is_space (drop_while is_space s).

(** [s.startswith(p)] *)
Fixpoint starts_with (p s : text) : bool :=
  match p, s with
  | [], _ => true
  | a :: p', b :: s' => (a =? b)%N && starts_with p' s'
  | _ :: _, [] => false
  end.

(** [c in s] for a one-character text *)
Definition has_char (c : N) (s : text) : bool := existsb (N.eqb c) s.

(** [s.split(sep, 1)] when [sep in s]: the text before and after the first
    separator. *)
Fixpoint split_once (sep : N) (s : text) : text * text :=
  match s with
  | [] => ([], [])
  | c :: r => if (c =? sep)%N then ([], r)
              else let '(a, b) := split_once sep r in (c :: a, b)
  end.

(** [s.split(sep)] *)
Fixpoint split_on (sep : N) (s : text) : list text :=
  match s with
  | [] => [[]]
  | c :: r =>
      if (c =? sep)%N then [] :: split_on sep r
      else match split_on sep r with
           | w :: ws => (c :: w) :: ws
           | [] => [[c]]
           end
  end.

(** [s.replace(old, new)] for a non-empty [old] *)
Fixpoint replace_fuel (fuel : nat) (old new s : text) : text :=
  match fuel, s with
  | O, _ | _, [] => s
  | S f, c :: r =>
      if starts_with old s then new ++ replace_fuel f old new (drop (length old) s)
      else c :: replace_fuel f old new r
  end.
Definition replace (old new s : text) : text := replace_fuel (length s) old new s.

(** [sep.join(parts)] *)
Fixpoint join (sep : text) (parts : list text) : text :=
  match parts with
  | [] => []
  | [p] => p
  | p :: r => p ++ sep ++ join sep r
  end.

(** ** Integers and their decimal text *)

(** The digits of [n], most significant first; the fuel is the bit length, which
    is at least the number of decimal digits. *)
Fixpoint digits_fuel (fuel : nat) (n : N) (acc : list N) : list N :=
  match fuel with
  | O => acc
  | S f => if (n <? 10)%N then n :: acc
           else digits_fuel f (n / 10) (n mod 10 :: acc)%N
  end.
Definition N_digits (n : N) : list N := digits_fuel (S (N.to_nat (N.size n))) n [].

Definition digits_value (base acc : N) (ds : list N) : N :=
  foldl (fun a d => base * a + d)%N acc ds.

Definition digit_char (d : N) : N := (d + 48)%N.
Arguments digit_char : simpl never.
Definition nat_text (n : N) : text := digit_char <$> N_digits n.

(** The interpreter's bound on the digits of a decimal conversion. *)
Definition max_str_digits : nat := 4300.

(** [int.__repr__], also [str(n)] *)
Definition int_text (z : Z) : res text :=
  let ds := nat_text (Z.abs_N z) in
  if decide (max_str_digits < length ds) then
    raise ValueError "Exceeds the limit (4300 digits) for integer string conversion"
  else Ok (if (z <? 0)%Z then ch "-" :: ds else ds).

(** *** [int(text)] and [int(text, 16)] *)

Definition is_ascii (s : text) : bool := forallb (fun c => c <? 128)%N s.

(** Non-ASCII decimals become ASCII digits, non-ASCII spaces become blanks, any
    other non-ASCII code point a question mark. *)
Definition ascii_numeral (s : text) : text :=
  if is_ascii s then s else
  (fun c => if (c <? 127)%N then c
            else if is_space c then ch " "
            else match decimal_value c with
                 | Some d => digit_char d
                 | None => ch "?"
                 end) <$> s.

(** The C library's [isspace]. *)
Definition is_c_space (c : N) : bool := in_range 0x09 0x0d c || (c =? 0x20)%N.

Definition digit_of (base c : N) : option N :=
  let d := if in_range 0x30 0x39 c then Some (c - 0x30)%N
           else if in_range 0x61 0x66 c then Some (c - 0x61 + 10)%N
           else if in_range 0x41 0x46 c then Some (c - 0x41 + 10)%N
           else None in
  match d with
  | Some v => if (v <? base)%N then Some v else None
  | None => None
  end.

(** Scans digits with single underscores between them; [prev] says that an
    underscore may not come next, nor the end of the digits. *)
Fixpoint scan_digits (base : N) (prev : bool) (s : text) : option (list N * text) :=
  match s with
  | [] => if prev then None else Some ([], [])
  | c :: r =>
      if (c =? ch "_")%N then (if prev then None else scan_digits base true r)
      else match digit_of base c with
           | Some d => match scan_digits base false r with
                       | Some (ds, rest) => Some (d :: ds, rest)
                       | None => None
                       end
           | None => if prev then None else Some ([], s)
           end
  end.

Definition take_sign (s : text) : bool * text :=
  match s with
  | c :: r => if (c =? ch "-")%N then (true, r)
              else if (c =? ch "+")%N then (false, r) else (false, s)
  | [] => (false, [])
  end.

Definition drop_hex_prefix (s : text) : text :=
  match s with
  | a :: b :: r =>
      if (a =? ch "0")%N && ((b =? ch "x")%N || (b =? ch "X")%N) then
        match r with
        | c :: r' => if (c =? ch "_")%N then r' else r
        | [] => r
        end
      else s
  | _ => s
  end.

Definition invalid_int {A} : res A := raise ValueError "invalid literal for int()".

(** [int(s, base)] for base 10 and 16 *)
Definition py_int (base : N) (s : text) : res Z :=
  let '(neg, t) := take_sign (drop_while is_c_space (ascii_numeral s)) in
  let t := if (base =? 16)%N then drop_hex_prefix t else t in
  match scan_digits base true t with
  | None => invalid_int
  | Some (ds, rest) =>
      if (base =? 10)%N && bool_decide (max_str_digits < length ds) then
        raise ValueError "Exceeds the limit (4300 digits) for integer string conversion"
      else match drop_while is_c_space rest with
           | [] => let v := Z.of_N (digits_value base 0 ds) in Ok (if neg then (- v)%Z else v)
           | _ :: _ => invalid_int
           end
  end.

(** ** Lemmas: digits *)

Definition is_digit (d : N) : Prop := (d < 10)%N.

Lemma digits_fuel_value fuel n acc :
  (n < 2 ^ N.of_nat fuel)%N ->
  digits_value 10 0 (digits_fuel fuel n acc) = digits_value 10 n acc.
Proof.
  revert n acc. induction fuel as [|f IH]; intros n acc Hn; simpl digits_fuel.
  - assert (n = 0)%N as -> by (simpl in Hn; lia). done.
  - rewrite Nat2N.inj_succ, N.pow_succ_r' in Hn.
    destruct (N.ltb_spec n 10); [unfold digits_value; simpl; f_equal; lia|].
    rewrite IH by (apply N.Div0.div_lt_upper_bound; lia).
    unfold digits_value; simpl. f_equal.
    pose proof (N.Div0.div_mod n 10). lia.
Qed.

Lemma digits_fuel_digits fuel n acc :
  (n < 2 ^ N.of_nat fuel)%N -> Forall is_digit acc ->
  Forall is_digit (digits_fuel fuel n acc).
Proof.
  revert n acc. induction fuel as [|f IH]; intros n acc Hn Hacc; [done|]; simpl.
  rewrite Nat2N.inj_succ, N.pow_succ_r' in Hn.
  destruct (N.ltb_spec n 10); [by constructor|].
  apply IH; [apply N.Div0.div_lt_upper_bound; lia|].
  constructor; [|done]. by apply N.mod_lt.
Qed.

Lemma digits_fuel_head fuel n acc :
  (0 < n < 2 ^ N.of_nat fuel)%N ->
  exists d ds, digits_fuel fuel n acc = d :: ds /\ (0 < d)%N.
Proof.
  revert n acc. induction fuel as [|f IH]; intros n acc Hn; simpl digits_fuel;
    [simpl in Hn; lia|].
  rewrite Nat2N.inj_succ, N.pow_succ_r' in Hn.
  destruct (N.ltb_spec n 10); [by exists n, acc; split; [|lia]|].
  apply IH. split; [apply N.div_str_pos; lia|].
  apply N.Div0.div_lt_upper_bound. lia.
Qed.

Lemma N_digits_fuel_ok n : (n < 2 ^ N.of_nat (S (N.to_nat (N.size n))))%N.
Proof.
  rewrite Nat2N.inj_succ, N2Nat.id, N.pow_succ_r'. pose proof (N.size_gt n). lia.
Qed.

Lemma N_digits_value n : digits_value 10 0 (N_digits n) = n.
Proof. apply digits_fuel_value, N_digits_fuel_ok. Qed.

Lemma N_digits_digits n : Forall is_digit (N_digits n).
Proof. apply digits_fuel_digits; [apply N_digits_fuel_ok|constructor]. Qed.

Lemma N_digits_zero : N_digits 0 = [0%N].
Proof. reflexivity. Qed.

Lemma N_digits_pos n : (0 < n)%N -> exists d ds, N_digits n = d :: ds /\ (0 < d)%N.
Proof. intros Hn. apply digits_fuel_head. split; [done|apply N_digits_fuel_ok]. Qed.

Lemma N_digits_cons n : exists d ds, N_digits n = d :: ds.
Proof.
  destruct (decide (n = 0)%N) as [->|]; [by exists 0%N, []|].
  destruct (N_digits_pos n) as (d & ds & ? & _); [lia|eauto].
Qed.

#[export] Hint Resolve N_digits_digits : rtls.

(** Evaluates the character constants. *)
Ltac eval_ch :=
  repeat match goal with
  | |- context [ch ?c] => let v := eval vm_compute in (ch c) in change (ch c) with v
  | H : context [ch ?c] |- _ =>
      let v := eval vm_compute in (ch c) in change (ch c) with v in H
  end.
Ltac char_solve := eval_ch; unfold in_range, is_digit, digit_char in *; lia.

Lemma digit_of_digit_char base d :
  is_digit d -> (10 <= base)%N -> digit_of base (digit_char d) = Some d.
Proof.
  intros Hd Hb. unfold digit_of, digit_char, is_digit in *.
  assert (in_range 48 57 (d + 48) = true) as -> by char_solve.
  assert (d + 48 - 48 <? base = true)%N as -> by lia. f_equal; lia.
Qed.

Lemma scan_digits_map base prev ds rest :
  Forall is_digit ds -> (10 <= base)%N -> (ds = [] -> prev = false) ->
  scan_digits base false rest = Some ([], rest) ->
  scan_digits base prev ((digit_char <$> ds) ++ rest) = Some (ds, rest).
Proof.
  intros Hds Hb. revert prev. induction Hds as [|d ds Hd Hds IH]; intros prev Hp Hrest; simpl.
  - rewrite Hp by done. exact Hrest.
  - assert (digit_char d =? ch "_" = false)%N as ->
      by char_solve.
    rewrite digit_of_digit_char by done. by rewrite IH.
Qed.

(** ** Lemmas: integer text round trips *)

Lemma is_ascii_cons c s : is_ascii (c :: s) = (c <? 128)%N && is_ascii s.
Proof. reflexivity. Qed.

Lemma ascii_numeral_ascii s : is_ascii s = true -> ascii_numeral s = s.
Proof. intros H. unfold ascii_numeral. by rewrite H. Qed.

Lemma take_sign_minus s : take_sign (ch "-" :: s) = (true, s).
Proof. reflexivity. Qed.

Lemma take_sign_none c s :
  c ≠ ch "-" -> c ≠ ch "+" -> take_sign (c :: s) = (false, c :: s).
Proof.
  intros H1%N.eqb_neq H2%N.eqb_neq. unfold take_sign. by rewrite H1, H2.
Qed.

Lemma is_ascii_nat_text n : is_ascii (nat_text n) = true.
Proof.
  unfold is_ascii, nat_text. rewrite forallb_forall. intros c Hc.
  apply list_elem_of_In, list_elem_of_fmap in Hc as (d & -> & Hd).
  pose proof (N_digits_digits n) as H. rewrite Forall_forall in H.
  specialize (H d Hd). char_solve.
Qed.

Lemma nat_text_cons n : exists d ds, nat_text n = digit_char d :: (digit_char <$> ds) /\
  N_digits n = d :: ds /\ is_digit d.
Proof.
  unfold nat_text. destruct (N_digits_cons n) as (d & ds & Hn).
  pose proof (N_digits_digits n) as Hd. rewrite Hn in *.
  apply Forall_cons in Hd as [? _]. by exists d, ds.
Qed.

Lemma length_nat_text n : length (nat_text n) = length (N_digits n).
Proof. apply length_fmap. Qed.

(** [int(str(z))] is [z], for every [z] that [str] accepts. *)
Lemma py_int_int_text z s : int_text z = Ok s -> py_int 10 s = Ok z.
Proof.
  unfold int_text. case_decide as Hlen; [discriminate|]. intros [= <-].
  pose proof (is_ascii_nat_text (Z.abs_N z)) as Hasc.
  destruct (nat_text_cons (Z.abs_N z)) as (d & ds & Htxt & Hdig & Hd).
  assert (scan_digits 10 true (nat_text (Z.abs_N z)) = Some (N_digits (Z.abs_N z), [])) as Hscan.
  { unfold nat_text. rewrite <-(app_nil_r (_ <$> _)).
    apply scan_digits_map; auto with rtls. by rewrite Hdig. }
  assert (bool_decide (max_str_digits < length (N_digits (Z.abs_N z))) = false) as Hmax.
  { apply bool_decide_eq_false. rewrite <-length_nat_text. done. }
  unfold py_int. destruct (Z.ltb_spec z 0).
  - rewrite ascii_numeral_ascii by (rewrite is_ascii_cons; by rewrite Hasc).
    replace (drop_while is_c_space (ch "-" :: nat_text (Z.abs_N z)))
      with (ch "-" :: nat_text (Z.abs_N z)) by reflexivity.
    rewrite take_sign_minus. cbn [N.eqb Pos.eqb andb]. rewrite Hscan, Hmax. simpl.
    rewrite N_digits_value. f_equal. lia.
  - rewrite ascii_numeral_ascii, Htxt by done. simpl drop_while.
    assert (is_c_space (digit_char d) = false) as -> by (unfold is_c_space; char_solve).
    rewrite take_sign_none by char_solve. rewrite <-Htxt.
    cbn [N.eqb Pos.eqb andb]. rewrite Hscan, Hmax. simpl.
    rewrite N_digits_value. f_equal. lia.
Qed.
