(* ===== verification/PyFloat.v ===== *)
(** * Python floats: IEEE binary64 with [float(text)], [int(x)] and [repr]

    A float is a [spec_float] of the Standard Library's floating-point
    specification (precision 53, exponents below 1024); conversions round to
    nearest, ties to even, as the interpreter's do. *)

From Stdlib Require Export SpecFloat.
From S2P Require Export PyText.

Definition pyfloat : Type := spec_float.
Definition prec : Z := 53.
Definition emax : Z := 1024.

#[export] Instance spec_float_eq_dec : EqDecision spec_float.
Proof. solve_decision. Defined.
#[export] Instance pyfloat_eq_dec : EqDecision pyfloat := spec_float_eq_dec.

(** ** Integers and floats *)

(** [float(z)]: rounds; an integer beyond the range raises. *)
Definition float_of_int (z : Z) : res pyfloat :=
  match binary_normalize prec emax z 0 false with
  | S754_infinity _ => raise OverflowError "int too large to convert to float"
  | f => Ok f
  end.

(** [int(f)]: truncates towards zero; an infinity or a NaN raises. *)
Definition int_of_float (f : pyfloat) : res Z :=
  match f with
  | S754_nan => raise ValueError "cannot convert float NaN to integer"
  | S754_infinity _ => raise OverflowError "cannot convert float infinity to integer"
  | S754_zero _ => Ok 0%Z
  | S754_finite s m e =>
      let a := if (0 <=? e)%Z then (Z.pos m * 2 ^ e)%Z else (Z.pos m / 2 ^ (- e))%Z in
      Ok (if s then (- a)%Z else a)
  end.

Definition float_mul (a b : pyfloat) : pyfloat := SFmul prec emax a b.

(** ** Decimal literals *)

(** The float nearest to [(-1)^neg * m * 10^e]. *)
Definition float_of_decimal (neg : bool) (m : N) (e : Z) : pyfloat :=
  match m with
  | N0 => S754_zero neg
  | Npos p =>
      match e with
      | Z.neg k => SFdiv prec emax (S754_finite neg p 0) (S754_finite false (10 ^ k) 0)
      | Z.pos k => binary_round prec emax neg (p * 10 ^ k) 0
      | Z0 => binary_round prec emax neg p 0
      end
  end.

Definition ascii_digit (c : N) : option N :=
  if is_ascii_digit c then Some (c - 48)%N else None.

(** The longest prefix of ASCII digits, as digit values, and the rest. *)
Fixpoint span_digits (s : text) : list N * text :=
  match s with
  | c :: r => match ascii_digit c with
              | Some d => let '(ds, rest) := span_digits r in (d :: ds, rest)
              | None => ([], s)
              end
  | [] => ([], [])
  end.

(** An optional fraction: [.] and any number of digits. *)
Definition span_fraction (s : text) : list N * text :=
  match s with
  | c :: r => if (c =? ch ".")%N then span_digits r else ([], s)
  | [] => ([], [])
  end.

(** An exponent: [e], an optional sign, at least one digit. *)
Definition span_exponent (s : text) : option (Z * text) :=
  match s with
  | c :: r =>
      if (c =? ch "e")%N || (c =? ch "E")%N then
        let '(neg, r') := take_sign r in
        match span_digits r' with
        | ([], _) => None
        | (ds, rest) =>
            let e := Z.of_N (digits_value 10 0 ds) in
            Some ((if neg then - e else e)%Z, rest)
        end
      else None
  | [] => None
  end.

(** An unsigned decimal literal and the text after it. *)
Definition span_decimal (neg : bool) (s : text) : option (pyfloat * text) :=
  let '(ip, s1) := span_digits s in
  let '(fp, s2) := span_fraction s1 in
  match ip ++ fp with
  | [] => None
  | ds => let '(e, s3) := default (0%Z, s2) (span_exponent s2) in
          Some (float_of_decimal neg (digits_value 10 0 ds) (e - Z.of_nat (length fp)), s3)
  end.

Definition inf_or_nan (neg : bool) (s : text) : option pyfloat :=
  let l := ascii_lower <$> s in
  if text_eqb l "inf" || text_eqb l "infinity" then Some (S754_infinity neg)
  else if text_eqb l "nan" then Some S754_nan
  else None.

(** Removes the underscores of a literal; each must stand between digits. *)
Fixpoint drop_underscores (prev : N) (s : text) : option text :=
  match s with
  | [] => if (prev =? ch "_")%N then None else Some []
  | c :: r =>
      if (c =? ch "_")%N then
        if is_ascii_digit prev then drop_underscores c r else None
      else if (prev =? ch "_")%N && negb (is_ascii_digit c) then None
      else match drop_underscores c r with Some t => Some (c :: t) | None => None end
  end.

(** [float(s)] *)
Definition py_float (s : text) : res pyfloat :=
  let t := strip_right is_c_space (drop_while is_c_space (ascii_numeral s)) in
  let bad := raise ValueError "could not convert string to float" in
  match drop_underscores 0 t with
  | None => bad
  | Some t =>
      let '(neg, u) := take_sign t in
      match span_decimal neg u with
      | Some (f, []) => Ok f
      | _ => match inf_or_nan neg u with Some f => Ok f | None => bad end
      end
  end.

(** ** The decimal literals of JSON

    The digits of an integer literal, or the float of a literal with a fraction or
    an exponent. *)
Inductive number :=
  | NInt (neg : bool) (ds : list N)
  | NFloat (f : pyfloat).

Definition take_minus (s : text) : bool * text :=
  match s with
  | c :: r => if (c =? ch "-")%N then (true, r) else (false, s)
  | [] => (false, [])
  end.

(** [0], or digits that do not start with [0]; [[]] when there is none. *)
Definition span_int_part (s : text) : list N * text :=
  match s with
  | c :: r => if (c =? ch "0")%N then ([0%N], r) else span_digits s
  | [] => ([], [])
  end.

(** A fraction: [.] and at least one digit. *)
Definition span_json_fraction (s : text) : list N * text :=
  match s with
  | c :: r => if (c =? ch ".")%N then
                match span_digits r with
                | ([], _) => ([], s)
                | p => p
                end
              else ([], s)
  | [] => ([], [])
  end.

Definition span_number (s : text) : option (number * text) :=
  let '(neg, t) := take_minus s in
  let '(ip, s1) := span_int_part t in
  match ip with
  | [] => None
  | _ =>
      let '(fp, s2) := span_json_fraction s1 in
      match fp, span_exponent s2 with
      | [], None => Some (NInt neg ip, s2)
      | _, x =>
          let '(e, s3) := default (0%Z, s2) x in
          Some (NFloat (float_of_decimal neg (digits_value 10 0 (ip ++ fp))
                          (e - Z.of_nat (length fp))), s3)
      end
  end.

#[export] Instance number_eq_dec : EqDecision number.
Proof. solve_decision. Defined.

(** ** [float.__repr__]: the shortest decimal that reads back

    [ge_pow10 num den k] says [num / den >= 10 ^ k]. *)
Definition ge_pow10 (num den k : Z) : bool :=
  if (0 <=? k)%Z then (den * 10 ^ k <=? num)%Z else (den <=? num * 10 ^ (- k))%Z.

Fixpoint decimal_point (fuel : nat) (num den k : Z) : Z :=
  match fuel with
  | O => k
  | S f => if ge_pow10 num den k then decimal_point f num den (k + 1) else k
  end.

Definition round_half_even (num den : Z) : Z :=
  let '(q, r) := Z.div_eucl num den in
  match (2 * r ?= den)%Z with
  | Lt => q
  | Gt => (q + 1)%Z
  | Eq => if Z.even q then q else (q + 1)%Z
  end.

(** The [n]-digit decimal nearest to [num / den], which lies in
    [[10 ^ (k-1), 10 ^ k)]; it stands for the result times [10 ^ (k - n)]. *)
Definition nearest_digits (num den k n : Z) : Z :=
  if (0 <=? n - k)%Z then round_half_even (num * 10 ^ (n - k)) den
  else round_half_even num (den * 10 ^ (k - n)).

Fixpoint strip_zeros (ds : list N) : list N :=
  match ds with
  | [] => []
  | d :: r => match strip_zeros r with
              | [] => if (d =? 0)%N then [] else [d]
              | r' => d :: r'
              end
  end.

Definition exponent_text (e : Z) : text :=
  let ds := N_digits (Z.abs_N e) in
  (ch "e" :: (if (e <? 0)%Z then ch "-" else ch "+") ::
   (digit_char <$> (if bool_decide (length ds < 2) then 0%N :: ds else ds))).

(** Digits [ds] with the decimal point after position [p]: positional for moderate
    exponents, scientific otherwise. *)
Definition format_digits (ds : list N) (p : Z) : text :=
  if (-4 <? p)%Z && (p <=? 16)%Z then
    if (p <=? 0)%Z then
      ch "0" :: ch "." :: (digit_char <$> replicate (Z.to_nat (- p)) 0%N ++ ds)
    else
      let n := Z.to_nat p in
      (digit_char <$> take n ds ++ replicate (n - length ds) 0%N) ++
      ch "." :: (digit_char <$> match drop n ds with [] => [0%N] | r => r end)
  else
    match ds with
    | [] => []
    | d :: r =>
        digit_char d :: match r with [] => [] | _ => ch "." :: (digit_char <$> r) end
        ++ exponent_text (p - 1)
    end.

Definition decimal_text (neg : bool) (d : N) (e10 : Z) : text :=
  let ds := N_digits d in
  (if neg then [ch "-"] else []) ++
  format_digits (strip_zeros ds) (e10 + Z.of_nat (length ds)).

Definition reads_as (f : pyfloat) (s : text) : bool :=
  bool_decide (span_number s = Some (NFloat f, [])).

(** The exact value as an integer literal with an exponent. *)
Definition exact_text (neg : bool) (m : positive) (e : Z) : text :=
  let '(d, x) := match e with
                 | Z.neg k => (m * 5 ^ k, e)%positive
                 | Z.pos k => (m * 2 ^ k, 0%Z)%positive
                 | Z0 => (m, 0%Z)
                 end in
  (if neg then [ch "-"] else []) ++ nat_text (Npos d) ++ exponent_text x.

(** The first precision, from [n] digits up to 17, whose nearest decimal reads
    back; 17 digits are enough for every float, so the last case is never taken. *)
Fixpoint shortest (fuel : nat) (neg : bool) (m : positive) (e num den k n : Z) : text :=
  match fuel with
  | O => exact_text neg m e
  | S fuel' =>
      let t := decimal_text neg (Z.to_N (nearest_digits num den k n)) (k - n) in
      if reads_as (S754_finite neg m e) t then t
      else shortest fuel' neg m e num den k (n + 1)
  end.

Definition finite_repr (neg : bool) (m : positive) (e : Z) : text :=
  let '(num, den) := if (0 <=? e)%Z then (Z.pos m * 2 ^ e, 1)%Z
                     else (Z.pos m, 2 ^ (- e))%Z in
  let est := ((Z.pos (digits2_pos m) + e) * 30103 / 100000)%Z in
  let k := decimal_point 4 num den (est - 1) in
  shortest 17 neg m e num den k 1.

(** [repr(f)], also [str(f)] *)
Definition float_text (f : pyfloat) : text :=
  match f with
  | S754_nan => "nan"
  | S754_infinity s => if s then "-inf" else "inf"
  | S754_zero s => if s then "-0.0" else "0.0"
  | S754_finite s m e => finite_repr s m e
  end.
