(* ===== verification/FloatFacts.v ===== *)
(** * Facts on floats

    Rounding yields canonical binary64 values ([round_valid] and its corollaries),
    a canonical value is the rounding of its own exact decimal expansion
    ([exact_decimal]), and therefore [repr] reads back ([float_text_reads]). *)

From S2P Require Export PyFloat.
#[local] Open Scope Z_scope.

Definition float_valid (f : pyfloat) : Prop := valid_binary prec emax f = true.

#[export] Instance float_valid_dec f : Decision (float_valid f).
Proof. unfold float_valid. apply _. Defined.

(** ** Digits and shifts *)

Lemma digits2_pos_size p : digits2_pos p = Pos.size p.
Proof. induction p; simpl; congruence. Qed.

Lemma Zdigits2_log2 p : Zdigits2 (Zpos p) = Z.log2 (Zpos p) + 1.
Proof.
  simpl. rewrite digits2_pos_size.
  destruct p as [p|p|]; simpl; [| |reflexivity]; rewrite Pos2Z.inj_succ; lia.
Qed.

Lemma iter_pos_nat {A} (f : A -> A) n x : SpecFloat.iter_pos f n x = Nat.iter (Pos.to_nat n) f x.
Proof.
  revert x. induction n as [n IH|n IH|]; intros x; simpl SpecFloat.iter_pos; [| |done].
  - rewrite !IH, Pos2Nat.inj_xI. rewrite <-Nat.iter_add.
    rewrite <-Nat.iter_succ_r. f_equal. lia.
  - rewrite !IH, Pos2Nat.inj_xO. rewrite <-Nat.iter_add. f_equal. lia.
Qed.

Lemma shr_1_m r : 0 <= shr_m r -> shr_m (shr_1 r) = shr_m r / 2 /\ 0 <= shr_m (shr_1 r).
Proof.
  destruct r as [[|[p|p|]|p] rr ss]; simpl; intros H; lia.
Qed.

Lemma shr_iter_m n r :
  0 <= shr_m r -> shr_m (Nat.iter n shr_1 r) = shr_m r / 2 ^ Z.of_nat n.
Proof.
  intros H. assert (0 <= shr_m (Nat.iter n shr_1 r) /\
    shr_m (Nat.iter n shr_1 r) = shr_m r / 2 ^ Z.of_nat n) as [_ ?]; [|done].
  induction n as [|n [IH0 IH]]; simpl Nat.iter.
  - rewrite Z.pow_0_r, Z.div_1_r. done.
  - destruct (shr_1_m (Nat.iter n shr_1 r) IH0) as [E ?]. split; [done|].
    rewrite E, IH, Z.div_div, Nat2Z.inj_succ, Z.pow_succ_r by lia. f_equal. lia.
Qed.

Definition exact_rec (m : Z) : shr_record := Build_shr_record m false false.

Lemma shr_iter_exact n p :
  Nat.iter n shr_1 (exact_rec (Zpos p * 2 ^ Z.of_nat n)) = exact_rec (Zpos p).
Proof.
  induction n as [|n IH]; [simpl; by rewrite Z.mul_1_r|].
  rewrite Nat.iter_succ_r, <-IH. f_equal.
  rewrite Nat2Z.inj_succ, Z.pow_succ_r by lia.
  replace (Zpos p * (2 * 2 ^ Z.of_nat n)) with (2 * (Zpos p * 2 ^ Z.of_nat n)) by ring.
  destruct (Zpos p * 2 ^ Z.of_nat n) eqn:E; [| |]; [lia|done|lia].
Qed.

Lemma fexp_mono a b : a <= b -> fexp prec emax a <= fexp prec emax b.
Proof. unfold fexp. lia. Qed.

(** ** Rounding an exactly representable value *)

Lemma canonical_fexp m e :
  bounded prec emax m e = true ->
  fexp prec emax (Z.log2 (Zpos m) + 1 + e) = e /\ e <= emax - prec.
Proof.
  unfold bounded, canonical_mantissa. intros [H1 H2]%andb_true_iff.
  apply Z.eqb_eq in H1. rewrite <-Zdigits2_log2. simpl. split; [done|lia].
Qed.

Lemma shr_fexp_exact m e e' :
  e' <= e -> fexp prec emax (Z.log2 (Zpos m) + 1 + e) = e ->
  shr_fexp prec emax (Zpos m * 2 ^ (e - e')) e' loc_Exact = (exact_rec (Zpos m), e).
Proof.
  intros He Hc. unfold shr_fexp.
  assert (Zdigits2 (Zpos m * 2 ^ (e - e')) + e' = Z.log2 (Zpos m) + 1 + e) as ->.
  { destruct (Zpos m * 2 ^ (e - e')) eqn:E; [lia| |lia].
    rewrite Zdigits2_log2, <-E, Z.log2_mul_pow2 by lia. lia. }
  rewrite Hc. simpl shr_record_of_loc. unfold shr. destruct (e - e') as [|n|n] eqn:En; [|..|lia].
  - rewrite Z.pow_0_r, Z.mul_1_r. f_equal. lia.
  - rewrite iter_pos_nat. rewrite <-(positive_nat_Z n).
    fold (exact_rec (Zpos m * 2 ^ Z.of_nat (Pos.to_nat n))).
    rewrite shr_iter_exact. f_equal. lia.
Qed.

Lemma round_exact s m e e' :
  bounded prec emax m e = true -> e' <= e ->
  binary_round_aux prec emax s (Zpos m * 2 ^ (e - e')) e' loc_Exact = S754_finite s m e.
Proof.
  intros [Hc Hmax]%canonical_fexp He. unfold binary_round_aux.
  rewrite shr_fexp_exact by done. simpl loc_of_shr_record. simpl round_nearest_even.
  replace (Zpos m) with (Zpos m * 2 ^ (e - e)) at 1 by (rewrite Z.sub_diag; lia).
  rewrite shr_fexp_exact by (done || lia). simpl shr_m.
  by rewrite (proj2 (Z.leb_le e (emax - prec))).
Qed.

(** A canonical float is what its own exact decimal expansion rounds to. *)
Lemma exact_integer neg m e p :
  bounded prec emax m e = true -> 0 <= e -> Zpos p = Zpos m * 2 ^ e ->
  float_of_decimal neg (Npos p) 0 = S754_finite neg m e.
Proof.
  intros Hb He Hp. simpl float_of_decimal. unfold binary_round.
  destruct (canonical_fexp m e Hb) as [Hc _].
  assert (fexp prec emax (Zpos (digits2_pos p) + 0) = e) as ->.
  { change (Zpos (digits2_pos p)) with (Zdigits2 (Zpos p)).
    rewrite Zdigits2_log2, Hp, Z.log2_mul_pow2 by lia. rewrite <-Hc at 2. f_equal. lia. }
  assert (shl_align p 0 e = (p, 0)) as ->.
  { unfold shl_align. by destruct (e - 0) eqn:E; [| |lia]. }
  rewrite Hp. replace (Zpos m * 2 ^ e) with (Zpos m * 2 ^ (e - 0)) by (f_equal; f_equal; lia).
  by apply round_exact.
Qed.

Lemma exact_fraction_exponent m k d1 d2 :
  d1 = Z.log2 (Zpos m * 5 ^ Zpos k) + 1 -> d2 = Z.log2 (10 ^ Zpos k) + 1 ->
  d1 - d2 <= Z.log2 (Zpos m) + 1 - Zpos k.
Proof.
  intros -> ->.
  assert (0 < 10 ^ Zpos k) by (apply Z.pow_pos_nonneg; lia).
  assert (0 < 5 ^ Zpos k) by (apply Z.pow_pos_nonneg; lia).
  pose proof (Z.log2_mul_above (Zpos m) (10 ^ Zpos k) ltac:(lia) ltac:(lia)) as H1.
  pose proof (Z.log2_mul_pow2 (Zpos m * 5 ^ Zpos k) (Zpos k) ltac:(lia) ltac:(lia)) as H2.
  replace (Zpos m * 5 ^ Zpos k * 2 ^ Zpos k) with (Zpos m * 10 ^ Zpos k) in H2; [lia|].
  rewrite <-Z.mul_assoc, <-Z.pow_mul_l. done.
Qed.

Lemma exact_fraction neg m k :
  bounded prec emax m (Zneg k) = true ->
  float_of_decimal neg (Npos (m * 5 ^ k)) (Zneg k) = S754_finite neg m (Zneg k).
Proof.
  intros Hb. simpl float_of_decimal. unfold SFdiv, SFdiv_core_binary.
  destruct (canonical_fexp m _ Hb) as [Hc _].
  rewrite !Zdigits2_log2, Pos2Z.inj_mul, !Pos2Z.inj_pow.
  pose proof (exact_fraction_exponent m k _ _ eq_refl eq_refl) as Hd.
  rewrite !Z.add_0_r, Z.sub_0_r.
  set (e' := Z.min _ _).
  assert (e' <= Zneg k) as He'.
  { rewrite <-Hc. etransitivity; [apply Z.le_min_l|]. apply fexp_mono. lia. }
  rewrite Z.sub_0_l. destruct (- e') as [|s|s] eqn:Hs; [lia| |lia].
  rewrite Z.shiftl_mul_pow2 by lia.
  assert (Zpos m * 5 ^ Zpos k * 2 ^ Zpos s
          = 10 ^ Zpos k * (Zpos m * 2 ^ (Zneg k - e')) + 0) as ->.
  { replace (Zpos s) with (Zpos k + (Zneg k - e')) by lia.
    rewrite Z.pow_add_r by lia. change 10 with (5 * 2). rewrite Z.pow_mul_l. ring. }
  assert (0 < 10 ^ Zpos k) by (apply Z.pow_pos_nonneg; lia).
  destruct (Z.div_eucl _ _) as [q r] eqn:Hq.
  pose proof (Z.div_eucl_eq (10 ^ Zpos k * (Zpos m * 2 ^ (Zneg k - e')) + 0) (10 ^ Zpos k)
    ltac:(lia)) as Heq.
  pose proof (Z.mod_pos_bound (10 ^ Zpos k * (Zpos m * 2 ^ (Zneg k - e')) + 0) (10 ^ Zpos k)
    ltac:(lia)) as Hr.
  unfold Z.modulo in Hr. rewrite Hq in Heq, Hr.
  assert (r = 0 /\ q = Zpos m * 2 ^ (Zneg k - e')) as [-> ->] by (split; nia).
  assert (new_location (10 ^ Zpos k) 0 = loc_Exact) as ->.
  { unfold new_location, new_location_even, new_location_odd. by destruct (Z.even _). }
  rewrite xorb_false_r. by apply round_exact.
Qed.

(** ** Rounding yields binary64 values *)

Definition digits (m : Z) : Z := if m =? 0 then 0 else Z.log2 m + 1.

Lemma Zdigits2_digits m : 0 <= m -> Zdigits2 m = digits m.
Proof. intros H. destruct m; [done| |lia]. rewrite Zdigits2_log2. done. Qed.

Lemma digits_bounds m : 0 < m -> 2 ^ (digits m - 1) <= m < 2 ^ digits m /\ 0 < digits m.
Proof.
  intros H. unfold digits. rewrite (proj2 (Z.eqb_neq m 0)) by lia.
  pose proof (Z.log2_spec m H). pose proof (Z.log2_nonneg m).
  replace (Z.log2 m + 1 - 1) with (Z.log2 m) by lia.
  replace (Z.log2 m + 1) with (Z.succ (Z.log2 m)) by lia. lia.
Qed.

Lemma digits_unique m d : 2 ^ (d - 1) <= m < 2 ^ d -> 0 < d -> digits m = d.
Proof.
  intros [H1 H2] Hd. assert (0 < m) by (pose proof (Z.pow_pos_nonneg 2 (d - 1)); lia).
  unfold digits. rewrite (proj2 (Z.eqb_neq m 0)) by lia.
  enough (Z.log2 m = d - 1) by lia. apply Z.log2_unique; [lia|].
  replace (Z.succ (d - 1)) with d by lia. lia.
Qed.

Lemma digits_le m d : 0 <= m < 2 ^ d -> 0 <= d -> digits m <= d.
Proof.
  intros [H1 H2] Hd. destruct (decide (m = 0)) as [->|]; [done|].
  destruct (digits_bounds m ltac:(lia)) as [[Hb _] Hpos].
  assert (digits m - 1 < d); [|lia].
  apply (Z.pow_lt_mono_r_iff 2); lia.
Qed.

Lemma round_half_step m l :
  round_nearest_even m l = m \/ round_nearest_even m l = m + 1.
Proof. destruct l as [|[]]; simpl; repeat case_if; auto. Qed.

Definition emin64 : Z := -1074.
Lemma fexp64 x : fexp prec emax x = Z.max (x - 53) emin64.
Proof. reflexivity. Qed.

Lemma shr_fexp_m m e l :
  0 <= m -> e <= fexp prec emax (digits m + e) ->
  let r := shr_fexp prec emax m e l in
  r.2 = fexp prec emax (digits m + e) /\ shr_m r.1 = m / 2 ^ (r.2 - e).
Proof.
  intros Hm He. unfold shr_fexp. rewrite Zdigits2_digits by done.
  assert (shr_m (shr_record_of_loc m l) = m) as Hrec by (by destruct l as [|[]]).
  unfold shr. destruct (fexp prec emax (digits m + e) - e) as [|n|n] eqn:E; simpl; [|..|lia].
  - rewrite Hrec. split; [lia|]. by rewrite Z.sub_diag, Z.pow_0_r, Z.div_1_r.
  - split; [lia|]. rewrite iter_pos_nat, shr_iter_m, Hrec by (rewrite Hrec; lia).
    f_equal. f_equal. lia.
Qed.

(** The mantissa after the first shift fits the precision, and fills it unless the
    exponent is the least one. *)
Lemma shifted_bounds m e :
  0 <= m -> e <= fexp prec emax (digits m + e) ->
  let e1 := fexp prec emax (digits m + e) in let m1 := m / 2 ^ (e1 - e) in
  0 <= m1 < 2 ^ 53 /\ emin64 <= e1 /\ (e1 = emin64 \/ 2 ^ 52 <= m1).
Proof.
  intros Hm He e1 m1. rewrite fexp64 in *.
  assert (0 < 2 ^ (e1 - e)) as Hp by (apply Z.pow_pos_nonneg; unfold e1; rewrite ?fexp64; lia).
  destruct (decide (m = 0)) as [->|Hm0].
  { unfold m1. rewrite Z.div_0_l by lia. unfold e1. rewrite fexp64.
    change (digits 0) with 0 in *. unfold emin64 in *. lia. }
  destruct (digits_bounds m ltac:(lia)) as [[Hb1 Hb2] Hd].
  assert (m < 2 ^ 53 * 2 ^ (e1 - e)) as Hup.
  { rewrite <-Z.pow_add_r by (unfold e1; rewrite ?fexp64; lia).
    eapply Z.lt_le_trans; [done|]. apply Z.pow_le_mono_r; [lia|].
    unfold e1. rewrite fexp64. lia. }
  split; [split; [apply Z.div_pos; lia|apply Z.div_lt_upper_bound; lia]|].
  split; [unfold e1; rewrite fexp64; lia|].
  destruct (decide (e1 = emin64)) as [|Hne]; [by left|right].
  apply Z.div_le_lower_bound; [lia|].
  assert (e1 = digits m + e - 53 /\ 53 <= digits m) as [-> ?]
    by (unfold e1 in *; rewrite fexp64 in *; lia).
  etransitivity; [|exact Hb1].
  rewrite <-Z.pow_add_r by lia. apply Z.pow_le_mono_r; lia.
Qed.

Lemma round_valid s m e l :
  0 <= m -> e <= fexp prec emax (digits m + e) ->
  float_valid (binary_round_aux prec emax s m e l).
Proof.
  intros Hm He. unfold float_valid, binary_round_aux.
  destruct (shr_fexp_m m e l Hm He) as [H2 H1].
  destruct (shr_fexp prec emax m e l) as [r1 e1]. simpl in H1, H2. subst e1.
  destruct (shifted_bounds m e Hm He) as (Hb & Hemin & Hfull).
  set (e1 := fexp prec emax (digits m + e)) in *. rewrite <-H1 in Hb, Hfull.
  set (m2 := round_nearest_even _ _).
  assert (0 <= m2 <= 2 ^ 53 /\ (e1 = emin64 \/ 2 ^ 52 <= m2)) as [Hb2 Hfull2].
  { unfold m2. destruct (round_half_step (shr_m r1) (loc_of_shr_record r1)) as [-> | ->]; lia. }
  assert (fexp prec emax (digits m2 + e1) = if decide (m2 = 2 ^ 53) then e1 + 1 else e1) as Hfe.
  { rewrite fexp64. case_decide as Hc.
    - rewrite Hc. rewrite (digits_unique (2 ^ 53) 54) by lia. lia.
    - pose proof (digits_le m2 53 ltac:(lia) ltac:(lia)) as Hle.
      destruct Hfull2 as [Heq|Hge]; [lia|].
      rewrite (digits_unique m2 53) by lia. lia. }
  assert (e1 <= fexp prec emax (digits m2 + e1)) as He2 by (rewrite Hfe; case_decide; lia).
  destruct (shr_fexp_m m2 e1 loc_Exact ltac:(lia) He2) as [H4 H3].
  destruct (shr_fexp prec emax m2 e1 loc_Exact) as [r2 e2]. simpl in H3, H4.
  rewrite Hfe in H4.
  assert (digits (shr_m r2) + e2 = digits m2 + e1) as Hdig.
  { rewrite H3, H4. case_decide as Hc.
    - rewrite Hc. replace (e1 + 1 - e1) with 1 by lia.
      change (2 ^ 53 / 2 ^ 1) with (2 ^ 52).
      rewrite (digits_unique (2 ^ 52) 53), (digits_unique (2 ^ 53) 54) by lia. lia.
    - by rewrite Z.sub_diag, Z.pow_0_r, Z.div_1_r. }
  destruct (shr_m r2) as [|p|p] eqn:Em; [done| |done].
  destruct (Z.leb_spec e2 (emax - prec)); [|done].
  simpl. unfold bounded, canonical_mantissa.
  change (Zpos (digits2_pos p)) with (Zdigits2 (Zpos p)).
  rewrite Zdigits2_digits, Hdig, Hfe, <-H4 by lia.
  rewrite Z.eqb_refl. simpl. by apply Z.leb_le.
Qed.

Lemma iter_xO p n : Zpos (Pos.iter xO p n) = Zpos p * 2 ^ Zpos n.
Proof.
  induction n as [|n IH] using Pos.peano_ind; [simpl; lia|].
  rewrite Pos.iter_succ, Pos2Z.inj_xO, IH, Pos2Z.inj_succ, Z.pow_succ_r by lia. ring.
Qed.

Lemma binary_round_valid s p e : float_valid (binary_round prec emax s p e).
Proof.
  unfold binary_round. change (Zpos (digits2_pos p)) with (Zdigits2 (Zpos p)).
  rewrite Zdigits2_digits by lia.
  set (e' := fexp prec emax (digits (Zpos p) + e)).
  unfold shl_align. destruct (e' - e) as [|n|n] eqn:E; [..|].
  1,2: apply round_valid; fold e'; lia.
  pose proof (iter_xO p n) as Hp.
  apply round_valid; [lia|]. rewrite Hp.
  assert (digits (Zpos p * 2 ^ Zpos n) + e' = digits (Zpos p) + e) as ->; [|fold e'; lia].
  assert (0 < 2 ^ Zpos n) by (apply Z.pow_pos_nonneg; lia).
  unfold digits. rewrite !(proj2 (Z.eqb_neq _ 0)) by lia.
  rewrite Z.log2_mul_pow2 by lia. lia.
Qed.

(** The quotient of a division has the digits its exponent asks for. *)
Lemma quotient_exponent p q k :
  let d := digits (Zpos p) - digits (Zpos q) in
  let e' := Z.min (fexp prec emax d) 0 in
  k = Zpos p * 2 ^ (- e') / Zpos q -> e' <= fexp prec emax (digits k + e').
Proof.
  intros d e' ->.
  destruct (digits_bounds (Zpos p) ltac:(lia)) as [[Hp1 Hp2] Hdp].
  destruct (digits_bounds (Zpos q) ltac:(lia)) as [[Hq1 Hq2] Hdq].
  assert (e' <= 0) by (unfold e'; lia).
  assert (0 < 2 ^ (- e')) by (apply Z.pow_pos_nonneg; lia).
  assert (0 <= Zpos p * 2 ^ (- e') / Zpos q) as Hk by (apply Z.div_pos; lia).
  destruct (decide (d <= e')) as [Hle|Hgt].
  - rewrite fexp64. unfold e' in Hle. unfold e'. rewrite fexp64 in *. unfold emin64 in *. lia.
  - set (k := _ / _) in *.
    assert (2 ^ (d - 1 - e') <= k) as Hlow.
    { apply Z.div_le_lower_bound; [lia|].
      transitivity (2 ^ digits (Zpos q) * 2 ^ (d - 1 - e')).
      { apply Z.mul_le_mono_nonneg_r; [apply Z.pow_nonneg; lia|lia]. }
      transitivity (2 ^ (digits (Zpos p) - 1) * 2 ^ (- e')); [|nia].
      rewrite <-!Z.pow_add_r by lia. apply Z.pow_le_mono_r; [lia|]. unfold d. lia. }
    assert (0 < k) by (pose proof (Z.pow_pos_nonneg 2 (d - 1 - e')); lia).
    destruct (digits_bounds k ltac:(lia)) as [[_ Hk2] ?].
    assert (d - 1 - e' < digits k) by (apply (Z.pow_lt_mono_r_iff 2); lia).
    transitivity (fexp prec emax d); [unfold e'; lia|]. apply fexp_mono. lia.
Qed.

Lemma division_valid s p q :
  float_valid (SFdiv prec emax (S754_finite s p 0) (S754_finite false q 0)).
Proof.
  unfold SFdiv, SFdiv_core_binary. rewrite !Zdigits2_digits, !Z.add_0_r, Z.sub_diag by lia.
  set (e' := Z.min _ 0). rewrite Z.sub_0_l.
  assert (match - e' with
          | 0 => Zpos p | Zpos _ => Z.shiftl (Zpos p) (- e') | Zneg _ => 0
          end = Zpos p * 2 ^ (- e')) as ->.
  { assert (e' <= 0) by (unfold e'; lia).
    destruct (- e') eqn:E; [simpl; lia|by rewrite Z.shiftl_mul_pow2 by lia|lia]. }
  destruct (Z.div_eucl _ _) as [k r] eqn:Hk.
  assert (k = Zpos p * 2 ^ (- e') / Zpos q) as Hk' by (unfold Z.div; by rewrite Hk).
  apply round_valid.
  - rewrite Hk'. apply Z.div_pos; [|lia].
    apply Z.mul_nonneg_nonneg; [lia|]. apply Z.pow_nonneg. lia.
  - by apply (quotient_exponent p q k).
Qed.

Lemma float_of_decimal_valid neg m e : float_valid (float_of_decimal neg m e).
Proof.
  destruct m as [|p]; [done|]. destruct e; simpl;
    first [apply binary_round_valid | apply division_valid].
Qed.

Lemma float_of_int_valid z f : float_of_int z = Ok f -> float_valid f.
Proof.
  unfold float_of_int. assert (float_valid (binary_normalize prec emax z 0 false)) as H.
  { destruct z; [done|apply binary_round_valid..]. }
  destruct (binary_normalize _ _ _ _ _); intros [= <-]; done.
Qed.

(** ** [repr] reads back *)

#[local] Open Scope nat_scope.

Definition not_digit_head (s : text) : Prop :=
  match s with c :: _ => ascii_digit c = None | [] => True end.

Lemma ascii_digit_char d : is_digit d -> ascii_digit (digit_char d) = Some d.
Proof.
  intros Hd. unfold ascii_digit, is_ascii_digit.
  assert (in_range 48 57 (digit_char d) = true) as -> by char_solve.
  f_equal. char_solve.
Qed.

Lemma span_digits_map ds rest :
  Forall is_digit ds -> not_digit_head rest ->
  span_digits ((digit_char <$> ds) ++ rest) = (ds, rest).
Proof.
  intros Hds Hrest. induction Hds as [|d ds Hd Hds IH].
  - destruct rest as [|c r]; [done|]. simpl in *. by rewrite Hrest.
  - rewrite fmap_cons, <-app_comm_cons. cbn [span_digits].
    rewrite ascii_digit_char by done. by rewrite IH.
Qed.

Lemma exponent_text_span x : span_exponent (exponent_text x) = Some (x, []).
Proof.
  unfold exponent_text, span_exponent.
  change ((ch "e" =? ch "e")%N || (ch "e" =? ch "E")%N) with true. cbn iota.
  set (ds := N_digits (Z.abs_N x)).
  set (ds' := if bool_decide (length ds < 2) then 0%N :: ds else ds).
  assert (Forall is_digit ds') as Hds'.
  { unfold ds'. assert (Forall is_digit ds) by apply N_digits_digits.
    case_bool_decide; [constructor; [done|]|]; done. }
  assert (ds' ≠ []) as Hne.
  { unfold ds', ds. destruct (N_digits_cons (Z.abs_N x)) as (d & r & ->).
    by case_bool_decide. }
  assert (digits_value 10 0 ds' = Z.abs_N x) as Hval.
  { rewrite <-(N_digits_value (Z.abs_N x)). unfold ds'. by case_bool_decide. }
  assert (span_digits (digit_char <$> ds') = (ds', [])) as Hspan.
  { rewrite <-(app_nil_r (digit_char <$> ds')). by apply span_digits_map. }
  destruct (Z.ltb_spec x 0); unfold take_sign.
  - change (ch "-" =? ch "-")%N with true. cbn iota. rewrite Hspan.
    destruct ds' as [|d r]; [done|]. rewrite Hval. do 2 f_equal. lia.
  - change (ch "+" =? ch "-")%N with false. change (ch "+" =? ch "+")%N with true.
    cbn iota. rewrite Hspan.
    destruct ds' as [|d r]; [done|]. rewrite Hval. do 2 f_equal. lia.
Qed.

Lemma span_int_part_nat n rest :
  not_digit_head rest -> span_int_part (nat_text n ++ rest) = (N_digits n, rest).
Proof.
  intros Hrest. destruct (decide (n = 0%N)) as [->|Hn]; [done|].
  destruct (nat_text_cons n) as (d & ds & Htxt & Hdig & Hd).
  destruct (N_digits_pos n ltac:(lia)) as (d' & ds' & Hdig' & Hpos).
  rewrite Hdig in Hdig'. injection Hdig' as <- <-.
  unfold span_int_part. rewrite Htxt. cbn [app].
  assert (digit_char d =? ch "0" = false)%N as -> by char_solve.
  change (digit_char d :: (digit_char <$> ds) ++ rest)
    with ((digit_char <$> d :: ds) ++ rest).
  rewrite <-Hdig. apply span_digits_map; auto with rtls.
Qed.

Lemma take_minus_sign (neg : bool) d ds rest :
  is_digit d ->
  take_minus ((if neg then [ch "-"] else []) ++ digit_char d :: ds ++ rest)
  = (neg, digit_char d :: ds ++ rest).
Proof.
  intros Hd. destruct neg; simpl; [done|].
  by assert (digit_char d =? ch "-" = false)%N as -> by char_solve.
Qed.

Lemma exact_text_reads neg m e :
  bounded prec emax m e = true ->
  span_number (exact_text neg m e) = Some (NFloat (S754_finite neg m e), []).
Proof.
  intros Hb. unfold exact_text.
  assert (exists d x, (match e with
                       | Z.neg k => (m * 5 ^ k, e)%positive
                       | Z.pos k => (m * 2 ^ k, 0%Z)%positive
                       | Z0 => (m, 0%Z)
                       end) = (d, x) /\ float_of_decimal neg (Npos d) x = S754_finite neg m e)
    as (d & x & -> & Hf).
  { destruct e as [|k|k].
    - exists m, 0%Z. split; [done|]. apply exact_integer; [done|lia|lia].
    - exists (m * 2 ^ k)%positive, 0%Z. split; [done|]. apply exact_integer; [done|lia|].
      by rewrite Pos2Z.inj_mul, Pos2Z.inj_pow.
    - exists (m * 5 ^ k)%positive, (Z.neg k). split; [done|]. by apply exact_fraction. }
  destruct (nat_text_cons (Npos d)) as (d0 & ds & Htxt & Hdig & Hd0).
  unfold span_number. rewrite Htxt. simpl app at 2. rewrite take_minus_sign by done.
  change (digit_char d0 :: (digit_char <$> ds) ++ exponent_text x)
    with ((digit_char d0 :: (digit_char <$> ds)) ++ exponent_text x).
  rewrite <-Htxt, span_int_part_nat by done. rewrite Hdig at 1. cbn iota.
  assert (span_json_fraction (exponent_text x) = ([], exponent_text x)) as -> by done.
  rewrite exponent_text_span. simpl default. rewrite app_nil_r, N_digits_value.
  by rewrite Z.sub_0_r, Hf.
Qed.

Lemma shortest_reads fuel neg m e num den k n :
  bounded prec emax m e = true ->
  span_number (shortest fuel neg m e num den k n)
  = Some (NFloat (S754_finite neg m e), []).
Proof.
  intros Hb. revert n. induction fuel as [|f IH]; intros n; simpl.
  - by apply exact_text_reads.
  - destruct (reads_as _ _) eqn:E; [|apply IH].
    unfold reads_as in E. by apply bool_decide_eq_true in E.
Qed.

Definition is_finite (f : pyfloat) : bool :=
  match f with S754_zero _ | S754_finite _ _ _ => true | _ => false end.

(** The text of every finite float is a number literal for that float. *)
Lemma float_text_reads f :
  float_valid f -> is_finite f = true ->
  span_number (float_text f) = Some (NFloat f, []).
Proof.
  intros Hv Hf. destruct f as [s|s| |s m e]; try done; [by destruct s|].
  simpl. unfold finite_repr. destruct (if (0 <=? e)%Z then _ else _) as [num den].
  by apply shortest_reads.
Qed.
