(* ===== verification/PyVal.v ===== *)
(** * Python values as the code handles them, dicts, and [str(value)]

    The values are those of the JSON data model with Python's distinctions (int
    and float apart; bool a kind of int).  A [dict] with text keys is its list of
    items in insertion order, as the language guarantees it. *)

From S2P Require Export FloatFacts.

Inductive pyval :=
  | VNone
  | VBool (b : bool)
  | VInt (z : Z)
  | VFloat (f : pyfloat)
  | VStr (s : text)
  | VList (l : list pyval)
  | VDict (d : list (text * pyval)).

Definition pydict : Type := list (text * pyval).

(** Induction through the nested lists. *)
Section PyvalInd.
Variable P : pyval -> Prop.
Hypothesis HNone : P VNone.
Hypothesis HBool : forall b, P (VBool b).
Hypothesis HInt : forall z, P (VInt z).
Hypothesis HFloat : forall f, P (VFloat f).
Hypothesis HStr : forall s, P (VStr s).
Hypothesis HList : forall l, Forall P l -> P (VList l).
Hypothesis HDict : forall d, Forall (fun kv => P kv.2) d -> P (VDict d).

Fixpoint pyval_nested_ind (v : pyval) : P v :=
  match v with
  | VNone => HNone
  | VBool b => HBool b
  | VInt z => HInt z
  | VFloat f => HFloat f
  | VStr s => HStr s
  | VList l =>
      HList l ((fix go (l : list pyval) : Forall P l :=
        match l with
        | [] => Forall_nil_2 _
        | x :: r => Forall_cons_2 _ _ _ (pyval_nested_ind x) (go r)
        end) l)
  | VDict d =>
      HDict d ((fix go (d : list (text * pyval)) : Forall (fun kv => P kv.2) d :=
        match d with
        | [] => Forall_nil_2 _
        | kv :: r => Forall_cons_2 (fun kv => P kv.2) _ _ (pyval_nested_ind kv.2) (go r)
        end) d)
  end.
End PyvalInd.

(** ** Dict operations *)

(** [d.get(k)] as an option: [None] for an absent key. *)
Fixpoint dget (k : text) (d : pydict) : option pyval :=
  match d with
  | [] => None
  | (k', v) :: r => if text_eqb k k' then Some v else dget k r
  end.

(** [k in d] *)
Definition dhas (k : text) (d : pydict) : bool :=
  match dget k d with Some _ => true | None => false end.

(** [d.get(k)] with Python's [None] for an absent key, [d.get(k, default)] *)
Definition dget_or (k : text) (default : pyval) (d : pydict) : pyval :=
  match dget k d with Some v => v | None => default end.
Definition dget_none (k : text) (d : pydict) : pyval := dget_or k VNone d.

(** [d[k]] *)
Definition dindex (k : text) (d : pydict) : res pyval :=
  match dget k d with Some v => Ok v | None => raise KeyError k end.

(** [d[k] = v]: in place when the key is there, at the end otherwise. *)
Fixpoint dset (k : text) (v : pyval) (d : pydict) : pydict :=
  match d with
  | [] => [(k, v)]
  | (k', v') :: r => if text_eqb k k' then (k', v) :: r else (k', v') :: dset k v r
  end.

(** [d.pop(k, None)] *)
Fixpoint dpop (k : text) (d : pydict) : pydict :=
  match d with
  | [] => []
  | (k', v) :: r => if text_eqb k k' then dpop k r else (k', v) :: dpop k r
  end.

Definition dkeys (d : pydict) : list text := d.*1.

(** The invariant of the values of a run: floats are binary64, texts hold code
    points, and the keys of a dict are distinct. *)
Definition valid_text (s : text) : Prop := Forall (fun c => c < 0x110000)%N s.

Fixpoint val_ok (v : pyval) : Prop :=
  match v with
  | VFloat f => float_valid f
  | VStr s => valid_text s
  | VList l => (fix go l := match l with [] => True | x :: r => val_ok x /\ go r end) l
  | VDict d => NoDup (d.*1) /\
      (fix go d := match d with
                   | [] => True
                   | kv :: r => (valid_text kv.1 /\ val_ok kv.2) /\ go r
                   end) d
  | _ => True
  end.

Definition item_ok (kv : text * pyval) : Prop := valid_text kv.1 /\ val_ok kv.2.
Definition dict_ok (d : pydict) : Prop := NoDup (d.*1) /\ Forall item_ok d.

(** ** [repr] and [str] *)

Definition hex_digit (d : N) : N := if (d <? 10)%N then (d + 48)%N else (d + 87)%N.

(** [n] hexadecimal digits of [c], most significant first. *)
Fixpoint hex_text (n : nat) (c : N) : text :=
  match n with
  | O => []
  | S m => hex_text m (c / 16) ++ [hex_digit (c mod 16)%N]
  end.

Section Repr.
Context `{Interpreter}.

Definition repr_char (quote c : N) : text :=
  if (c =? quote)%N || (c =? ch "\")%N then [ch "\"; c]
  else if (c =? 9)%N then "\t"
  else if (c =? 10)%N then "\n"
  else if (c =? 13)%N then "\r"
  else if (c <? 32)%N || (c =? 127)%N then txt "\x" ++ hex_text 2 c
  else if (c <? 127)%N then [c]
  else if u_printable c then [c]
  else if (c <? 0x100)%N then txt "\x" ++ hex_text 2 c
  else if (c <? 0x10000)%N then txt "\u" ++ hex_text 4 c
  else txt "\U" ++ hex_text 8 c.

(** [repr(s)]: single quotes, unless only a double-quoted form avoids escapes. *)
Definition repr_str (s : text) : text :=
  let q := if has_char (ch "'") s && negb (has_char double_quote s)
           then double_quote else ch "'" in
  q :: flat_map (repr_char q) s ++ [q].

(** The representation of a value: that of a container calls [repr] on what it holds,
    which raises when [depth] calls are under way. *)
Fixpoint repr_at (depth : nat) (v : pyval) {struct v} : res text :=
  let too_deep := raise RecursionError
    "maximum recursion depth exceeded while getting the repr of an object" in
  match v with
  | VNone => Ok (txt "None")
  | VBool b => Ok (txt (if b then "True" else "False"))
  | VInt z => int_text z
  | VFloat f => Ok (float_text f)
  | VStr s => Ok (repr_str s)
  | VList l =>
      parts ← (fix go l := match l with
               | [] => Ok []
               | x :: r =>
                   y ← match depth with O => too_deep | S n => repr_at n x end;
                   ys ← go r; Ok (y :: ys)
               end) l;
      Ok (ch "[" :: join ", " parts ++ [ch "]"])
  | VDict d =>
      parts ← (fix go d := match d with
               | [] => Ok []
               | (k, x) :: r =>
                   y ← match depth with O => too_deep | S n => repr_at n x end;
                   ys ← go r; Ok ((repr_str k ++ txt ": " ++ y) :: ys)
               end) d;
      Ok (ch "{" :: join ", " parts ++ [ch "}"])
  end.

(** [repr(v)] *)
Definition py_repr (v : pyval) : res text := repr_at repr_limit v.

(** [str(v)] *)
Definition py_str (v : pyval) : res text :=
  match v with VStr s => Ok s | _ => py_repr v end.
End Repr.

(** ** Lemmas: dicts *)

Lemma dget_dset_eq k v d : dget k (dset k v d) = Some v.
Proof.
  induction d as [|[k' v'] d IH]; simpl; [by rewrite text_eqb_refl|].
  destruct (text_eqb k k') eqn:E; simpl; by rewrite E.
Qed.

Lemma dget_dset_ne k k' v d : k ≠ k' -> dget k' (dset k v d) = dget k' d.
Proof.
  intros Hne. induction d as [|[k1 v1] d IH]; simpl.
  - by rewrite (proj2 (text_eqb_neq k' k)) by congruence.
  - destruct (text_eqb k k1) eqn:E; simpl.
    + apply text_eqb_eq in E as <-. by rewrite (proj2 (text_eqb_neq k' k)) by congruence.
    + by destruct (text_eqb k' k1).
Qed.

Lemma dget_dpop_eq k d : dget k (dpop k d) = None.
Proof.
  induction d as [|[k' v'] d IH]; simpl; [done|].
  destruct (text_eqb k k') eqn:E; simpl; by rewrite ?E.
Qed.

Lemma dget_dpop_ne k k' d : k ≠ k' -> dget k' (dpop k d) = dget k' d.
Proof.
  intros Hne. induction d as [|[k1 v1] d IH]; simpl; [done|].
  destruct (text_eqb k k1) eqn:E; simpl; rewrite IH; [|done].
  apply text_eqb_eq in E as <-. by rewrite (proj2 (text_eqb_neq k' k)) by congruence.
Qed.

Lemma dget_None k d : dget k d = None <-> k ∉ d.*1.
Proof.
  induction d as [|[k' v'] d IH]; simpl.
  - split; [intros _; apply not_elem_of_nil|done].
  - rewrite not_elem_of_cons. destruct (text_eqb k k') eqn:E.
    + apply text_eqb_eq in E. naive_solver.
    + apply text_eqb_neq in E. rewrite IH. naive_solver.
Qed.

Lemma dset_fresh k v d : k ∉ d.*1 -> dset k v d = d ++ [(k, v)].
Proof.
  induction d as [|[k' v'] d IH]; simpl; [done|].
  rewrite not_elem_of_cons. intros [Hne Hd].
  rewrite (proj2 (text_eqb_neq k k')) by done. by rewrite IH.
Qed.

Lemma elem_of_dpop k k' d : k' ∈ (dpop k d).*1 <-> k' ≠ k /\ k' ∈ d.*1.
Proof.
  induction d as [|[k1 v1] d IH]; simpl.
  - rewrite elem_of_nil. naive_solver.
  - destruct (text_eqb k k1) eqn:E; simpl; rewrite ?elem_of_cons, IH.
    + apply text_eqb_eq in E. naive_solver.
    + apply text_eqb_neq in E. naive_solver.
Qed.

Lemma dkeys_dpop k d : NoDup (d.*1) -> NoDup ((dpop k d).*1).
Proof.
  induction d as [|[k' v'] d IH]; simpl; [done|].
  intros [Hk Hd]%NoDup_cons. destruct (text_eqb k k'); simpl; [by auto|].
  apply NoDup_cons. rewrite elem_of_dpop. naive_solver.
Qed.

Lemma dpop_absent k d : k ∉ d.*1 -> dpop k d = d.
Proof.
  induction d as [|[k' v'] d IH]; simpl; [done|].
  rewrite not_elem_of_cons. intros [Hne Hd].
  rewrite (proj2 (text_eqb_neq k k')) by done. by rewrite IH.
Qed.

Lemma dpop_Forall (P : text * pyval -> Prop) k d : Forall P d -> Forall P (dpop k d).
Proof.
  induction 1 as [|[k' v'] d]; simpl; [done|]. case_if; [done|by constructor].
Qed.

Lemma val_ok_list l : val_ok (VList l) <-> Forall val_ok l.
Proof.
  induction l as [|x l IH]; simpl; [by split|]. simpl in IH.
  rewrite Forall_cons, <-IH. done.
Qed.

Lemma val_ok_dict d : val_ok (VDict d) <-> dict_ok d.
Proof.
  unfold dict_ok. cbn [val_ok]. apply and_iff_compat_l.
  induction d as [|x d IH]; simpl; [by split|]. rewrite Forall_cons, <-IH. done.
Qed.

Lemma dget_ok k d v : Forall item_ok d -> dget k d = Some v -> val_ok v.
Proof.
  induction 1 as [|[k' v'] d [_ Hv] _ IH]; simpl; [done|].
  case_if; [by intros [= <-]|done].
Qed.

Lemma dget_none_ok k d : Forall item_ok d -> val_ok (dget_none k d).
Proof.
  intros Hd. unfold dget_none, dget_or. destruct (dget k d) eqn:E; [|done].
  by eapply dget_ok.
Qed.

Lemma elem_of_dset k v d k' : k' ∈ (dset k v d).*1 <-> k' = k \/ k' ∈ d.*1.
Proof.
  induction d as [|[k1 v1] d IH]; simpl.
  - rewrite list_elem_of_singleton, elem_of_nil. naive_solver.
  - destruct (text_eqb k k1) eqn:E; simpl; rewrite !elem_of_cons.
    + apply text_eqb_eq in E. naive_solver.
    + rewrite IH. naive_solver.
Qed.

Lemma dset_ok k v d : dict_ok d -> item_ok (k, v) -> dict_ok (dset k v d).
Proof.
  intros [Hd Hall] Hkv. induction d as [|[k1 v1] d IH]; simpl.
  - split; simpl; [apply NoDup_singleton|by constructor].
  - apply Forall_cons in Hall as [Hkv1 Hall]. apply NoDup_cons in Hd as [Hk1 Hd].
    destruct (text_eqb k k1) eqn:E; simpl.
    + apply text_eqb_eq in E as <-. split; [by apply NoDup_cons|].
      apply Forall_cons. split; [|done]. split; [apply Hkv|apply Hkv].
    + apply text_eqb_neq in E. destruct (IH Hd Hall) as [Hn Ha]. split; [|by constructor].
      simpl. apply NoDup_cons. rewrite elem_of_dset. naive_solver.
Qed.

Lemma dpop_ok k d : dict_ok d -> dict_ok (dpop k d).
Proof. intros [Hd Ha]. split; [by apply dkeys_dpop|by apply dpop_Forall]. Qed.

#[export] Hint Rewrite dget_dset_eq dget_dpop_eq : rtls.
