(* ===== verification/Codec.v ===== *)
(** * Bytes and the UTF codecs

    [bytes.decode("utf-8")], [str.encode("utf-8")] and the decoding that
    [json.loads] applies to a bytes argument (detection of UTF-8, -16 or -32, with
    lone surrogates let through). *)

From S2P Require Export PyVal.

Definition bytes : Type := list Byte.byte.

Definition byte_val (b : Byte.byte) : N := Byte.to_N b.
Definition byte_of (n : N) : Byte.byte :=
  match Byte.of_N n with Some b => b | None => Byte.x00 end.

Definition is_surrogate (c : N) : bool := in_range 0xd800 0xdfff c.
Definition is_high_surrogate (c : N) : bool := in_range 0xd800 0xdbff c.
Definition is_low_surrogate (c : N) : bool := in_range 0xdc00 0xdfff c.
Definition join_surrogates (hi lo : N) : N :=
  (0x10000 + (hi - 0xd800) * 0x400 + (lo - 0xdc00))%N.

(** ** UTF-8 *)

Definition utf8_char (c : N) : list N :=
  if (c <? 0x80)%N then [c]
  else if (c <? 0x800)%N then [0xc0 + c / 64; 0x80 + c mod 64]%N
  else if (c <? 0x10000)%N then
    [0xe0 + c / 4096; 0x80 + (c / 64) mod 64; 0x80 + c mod 64]%N
  else [0xf0 + c / 262144; 0x80 + (c / 4096) mod 64; 0x80 + (c / 64) mod 64;
        0x80 + c mod 64]%N.

(** [s.encode("utf-8")]: a lone surrogate raises. *)
Fixpoint utf8_encode (s : text) : res bytes :=
  match s with
  | [] => Ok []
  | c :: r =>
      if is_surrogate c then raise UnicodeEncodeError "surrogates not allowed"
      else rest ← utf8_encode r; Ok ((byte_of <$> utf8_char c) ++ rest)
  end.

Definition is_cont (b : N) : bool := in_range 0x80 0xbf b.

Definition decode_error {A} : res A := raise UnicodeDecodeError "invalid start byte".

(** [b.decode("utf-8")]; with [pass] (the [surrogatepass] handler) three-byte
    encodings of surrogates are accepted.  Overlong forms and values above
    [0x10ffff] are errors. *)
Fixpoint utf8_decode_N (pass : bool) (s : list N) : res text :=
  match s with
  | [] => Ok []
  | b0 :: r0 =>
      if (b0 <? 0x80)%N then t ← utf8_decode_N pass r0; Ok (b0 :: t)
      else if in_range 0xc2 0xdf b0 then
        match r0 with
        | b1 :: r1 =>
            if is_cont b1 then
              t ← utf8_decode_N pass r1;
              Ok (((b0 - 0xc0) * 64 + (b1 - 0x80))%N :: t)
            else decode_error
        | _ => decode_error
        end
      else if in_range 0xe0 0xef b0 then
        match r0 with
        | b1 :: b2 :: r2 =>
            let c := ((b0 - 0xe0) * 4096 + (b1 - 0x80) * 64 + (b2 - 0x80))%N in
            if is_cont b1 && is_cont b2 && (0x800 <=? c)%N && (pass || negb (is_surrogate c))
            then t ← utf8_decode_N pass r2; Ok (c :: t)
            else decode_error
        | _ => decode_error
        end
      else if in_range 0xf0 0xf4 b0 then
        match r0 with
        | b1 :: b2 :: b3 :: r3 =>
            let c := ((b0 - 0xf0) * 262144 + (b1 - 0x80) * 4096 + (b2 - 0x80) * 64
                      + (b3 - 0x80))%N in
            if is_cont b1 && is_cont b2 && is_cont b3 && in_range 0x10000 0x10ffff c
            then t ← utf8_decode_N pass r3; Ok (c :: t)
            else decode_error
        | _ => decode_error
        end
      else decode_error
  end.

Definition utf8_decode (b : bytes) : res text := utf8_decode_N false (byte_val <$> b).

(** ** UTF-16 and UTF-32, for [json.loads(bytes)] *)

Fixpoint units16 (be : bool) (s : list N) : res (list N) :=
  match s with
  | [] => Ok []
  | [_] => raise UnicodeDecodeError "truncated data"
  | a :: b :: r =>
      us ← units16 be r; Ok ((if be then a * 256 + b else b * 256 + a)%N :: us)
  end.

Fixpoint pair_surrogates (us : list N) : text :=
  match us with
  | hi :: rest =>
      match rest with
      | lo :: r =>
          if is_high_surrogate hi && is_low_surrogate lo
          then join_surrogates hi lo :: pair_surrogates r
          else hi :: pair_surrogates rest
      | [] => [hi]
      end
  | [] => []
  end.

Fixpoint units32 (be : bool) (s : list N) : res text :=
  match s with
  | [] => Ok []
  | a :: b :: c :: d :: r =>
      let v := (if be then ((a * 256 + b) * 256 + c) * 256 + d
                else ((d * 256 + c) * 256 + b) * 256 + a)%N in
      if (v <=? 0x10ffff)%N then us ← units32 be r; Ok (v :: us)
      else raise UnicodeDecodeError "code point not in range(0x110000)"
  | _ => raise UnicodeDecodeError "truncated data"
  end.

Definition decode_utf16 (be : bool) (s : list N) : res text :=
  us ← units16 be s; Ok (pair_surrogates us).

Inductive encoding := Utf8 | Utf8Sig | Utf16 | Utf16LE | Utf16BE | Utf32 | Utf32LE | Utf32BE.

(** [json.detect_encoding] *)
Definition detect_encoding (s : list N) : encoding :=
  if starts_with [0; 0; 0xfe; 0xff]%N s || starts_with [0xff; 0xfe; 0; 0]%N s then Utf32
  else if starts_with [0xfe; 0xff]%N s || starts_with [0xff; 0xfe]%N s then Utf16
  else if starts_with [0xef; 0xbb; 0xbf]%N s then Utf8Sig
  else match s with
       | [a; b] =>
           if (a =? 0)%N then Utf16BE else if (b =? 0)%N then Utf16LE else Utf8
       | a :: b :: c :: d :: _ =>
           if (a =? 0)%N then (if (b =? 0)%N then Utf32BE else Utf16BE)
           else if (b =? 0)%N then
             (if (c =? 0)%N && (d =? 0)%N then Utf32LE else Utf16LE)
           else Utf8
       | _ => Utf8
       end.

(** [b.decode(detect_encoding(b), "surrogatepass")] *)
Definition json_decode_bytes (b : bytes) : res text :=
  let s := byte_val <$> b in
  match detect_encoding s with
  | Utf8 => utf8_decode_N true s
  | Utf8Sig => utf8_decode_N true (drop 3 s)
  | Utf16 => decode_utf16 (starts_with [0xfe; 0xff]%N s) (drop 2 s)
  | Utf16LE => decode_utf16 false s
  | Utf16BE => decode_utf16 true s
  | Utf32 => units32 (starts_with [0; 0; 0xfe; 0xff]%N s) (drop 4 s)
  | Utf32LE => units32 false s
  | Utf32BE => units32 true s
  end.

(** ** Round trip *)

(** Unicode scalar values: what a UTF-8 text can carry. *)
Definition is_scalar (c : N) : Prop := (c < 0x110000)%N /\ is_surrogate c = false.

Lemma byte_val_of n : (n < 256)%N -> byte_val (byte_of n) = n.
Proof.
  intros Hn. unfold byte_val, byte_of.
  destruct (Byte.of_N n) eqn:E.
  - by apply Byte.to_of_N.
  - apply Byte.of_N_None_iff in E. lia.
Qed.

Ltac N_div_facts c :=
  pose proof (N.Div0.div_mod c 64); pose proof (N.mod_lt c 64);
  pose proof (N.Div0.div_mod (c / 64) 64); pose proof (N.mod_lt (c / 64) 64);
  pose proof (N.Div0.div_mod (c / 64 / 64) 64); pose proof (N.mod_lt (c / 64 / 64) 64);
  pose proof (N.Div0.div_div c 64 64); pose proof (N.Div0.div_div c (64 * 64) 64);
  change (64 * 64)%N with 4096%N in *; change (4096 * 64)%N with 262144%N in *.

Lemma utf8_char_bytes c : (c < 0x110000)%N -> Forall (fun b => b < 256)%N (utf8_char c).
Proof.
  intros Hc. unfold utf8_char. N_div_facts c.
  repeat case_if; repeat constructor; lia.
Qed.

Lemma utf8_decode_char pass c rest :
  is_scalar c ->
  utf8_decode_N pass (utf8_char c ++ rest) = t ← utf8_decode_N pass rest; Ok (c :: t).
Proof.
  intros [Hc Hs]. unfold utf8_char. N_div_facts c. unfold is_surrogate in Hs.
  assert (c / 4096 = c / 64 / 64)%N as D4 by lia.
  assert (c / 262144 = c / 64 / 64 / 64)%N as D18 by (rewrite N.Div0.div_div in *; lia).
  destruct (N.ltb_spec c 0x80); [simpl; by rewrite (proj2 (N.ltb_lt c 128))|].
  destruct (N.ltb_spec c 0x800); [|destruct (N.ltb_spec c 0x10000)]; simpl app.
  - set (b0 := (0xc0 + c / 64)%N). set (b1 := (0x80 + c mod 64)%N).
    assert (b0 <? 0x80 = false)%N as E1 by lia.
    assert (in_range 0xc2 0xdf b0 = true) as E2 by char_solve.
    assert (is_cont b1 = true) as E3 by (unfold is_cont; char_solve).
    cbn [utf8_decode_N]. rewrite E1, E2, E3.
    by replace ((b0 - 0xc0) * 64 + (b1 - 0x80))%N with c by lia.
  - rewrite D4.
    set (b0 := (0xe0 + c / 64 / 64)%N). set (b1 := (0x80 + (c / 64) mod 64)%N).
    set (b2 := (0x80 + c mod 64)%N).
    assert (b0 <? 0x80 = false)%N as E1 by lia.
    assert (in_range 0xc2 0xdf b0 = false) as E2 by char_solve.
    assert (in_range 0xe0 0xef b0 = true) as E3 by char_solve.
    cbn [utf8_decode_N]. rewrite E1, E2, E3.
    replace ((b0 - 0xe0) * 4096 + (b1 - 0x80) * 64 + (b2 - 0x80))%N with c by lia.
    assert (is_cont b1 && is_cont b2 && (0x800 <=? c)%N = true) as ->
      by (unfold is_cont; char_solve).
    unfold is_surrogate. rewrite Hs. by rewrite orb_true_r.
  - rewrite D18, D4.
    set (b0 := (0xf0 + c / 64 / 64 / 64)%N). set (b1 := (0x80 + (c / 64 / 64) mod 64)%N).
    set (b2 := (0x80 + (c / 64) mod 64)%N). set (b3 := (0x80 + c mod 64)%N).
    assert (b0 <? 0x80 = false)%N as E1 by lia.
    assert (in_range 0xc2 0xdf b0 = false) as E2 by char_solve.
    assert (in_range 0xe0 0xef b0 = false) as E3 by char_solve.
    assert (in_range 0xf0 0xf4 b0 = true) as E4 by char_solve.
    cbn [utf8_decode_N]. rewrite E1, E2, E3, E4.
    replace ((b0 - 0xf0) * 262144 + (b1 - 0x80) * 4096 + (b2 - 0x80) * 64 + (b3 - 0x80))%N
      with c by lia.
    by assert (is_cont b1 && is_cont b2 && is_cont b3 && in_range 0x10000 0x10ffff c = true)
      as -> by (unfold is_cont; char_solve).
Qed.

Lemma utf8_encode_scalars s b :
  Forall (fun c => c < 0x110000)%N s -> utf8_encode s = Ok b -> Forall is_scalar s.
Proof.
  intros H. revert b. induction H as [|c s Hc Hs IH]; intros b; simpl; [by constructor|].
  destruct (is_surrogate c) eqn:E; [discriminate|]. intros Hb. inv_res.
  constructor; [by split|eauto].
Qed.

(** Decoding what [encode] produced gives the text back, with either handler. *)
Lemma utf8_roundtrip pass s b :
  Forall (fun c => c < 0x110000)%N s -> utf8_encode s = Ok b ->
  utf8_decode_N pass (byte_val <$> b) = Ok s.
Proof.
  intros H. revert b. induction H as [|c s Hc Hs IH]; intros b; simpl.
  - by intros [= <-].
  - destruct (is_surrogate c) eqn:E; [discriminate|]. intros Hb. inv_res.
    rewrite fmap_app, <-list_fmap_compose.
    assert (byte_val ∘ byte_of <$> utf8_char c = utf8_char c) as ->.
    { transitivity (id <$> utf8_char c); [|apply list_fmap_id].
      apply list_fmap_ext. intros i x Hx%list_elem_of_lookup_2. simpl.
      apply byte_val_of. pose proof (utf8_char_bytes c Hc) as Hb.
      rewrite Forall_forall in Hb. by apply Hb. }
    rewrite utf8_decode_char by done. by erewrite IH by done.
Qed.
