(* ===== verification/Json.v ===== *)
(** * [json.loads] and [json.dumps]

    The decoder follows the standard library's scanner: the grammar it accepts
    ([NaN] and the infinities included), the value it builds, and for a malformed
    document the message and the position of the [JSONDecodeError].  An error
    records the length of the text that was left, from which the position follows.
    The fuel of the scanner is twice the length of the text; [scan_once_fuel]
    proves that it never runs out.  Decoder and encoder count the containers they
    enter and raise [RecursionError] beyond [nesting_limit]. *)

From S2P Require Export Codec.

(** ** Scanner results *)

Inductive jres (A : Type) :=
  | JOk (a : A)
  | JErr (msg : text) (remaining : nat)
  | JExn (e : exn)
  | JFuel.
Arguments JOk {A} a.
Arguments JErr {A} msg remaining.
Arguments JExn {A} e.
Arguments JFuel {A}.

#[export] Instance jres_ret : MRet jres := fun A a => JOk a.
#[export] Instance jres_bind : MBind jres := fun A B f m =>
  match m with
  | JOk a => f a
  | JErr m l => JErr m l
  | JExn e => JExn e
  | JFuel => JFuel
  end.

(** ** Scanner *)

Definition is_json_ws (c : N) : bool :=
  (c =? 0x20)%N || (c =? 0x09)%N || (c =? 0x0a)%N || (c =? 0x0d)%N.
Definition skip_ws (s : text) : text := drop_while is_json_ws s.

Definition hex_value (c : N) : option N := digit_of 16 c.

Definition hex4 (a b c d : N) : option N :=
  match hex_value a, hex_value b, hex_value c, hex_value d with
  | Some a, Some b, Some c, Some d => Some (((a * 16 + b) * 16 + c) * 16 + d)%N
  | _, _, _, _ => None
  end.

Definition simple_escape (c : N) : option N :=
  if (c =? double_quote)%N || (c =? ch "\")%N || (c =? ch "/")%N then Some c
  else if (c =? ch "b")%N then Some 8%N
  else if (c =? ch "f")%N then Some 12%N
  else if (c =? ch "n")%N then Some 10%N
  else if (c =? ch "r")%N then Some 13%N
  else if (c =? ch "t")%N then Some 9%N
  else None.

Definition jcons (c : N) (m : jres (text * text)) : jres (text * text) :=
  '(t, rest) ← m; JOk (c :: t, rest).

Definition bad_u : text := "Invalid \uXXXX escape".

(** The rest of a string literal; [begin] is what was left at its opening quote. *)
Fixpoint scan_string (begin : nat) (s : text) : jres (text * text) :=
  match s with
  | [] => JErr "Unterminated string starting at" begin
  | c :: r =>
      if (c =? double_quote)%N then JOk ([], r)
      else if (c =? ch "\")%N then
        match r with
        | [] => JErr "Unterminated string starting at" begin
        | e :: r1 =>
            if (e =? ch "u")%N then
              match r1 with
              | h1 :: h2 :: h3 :: h4 :: r2 =>
                  match r2, hex4 h1 h2 h3 h4 with
                  | [], _ | _, None => JErr bad_u (length r)
                  | _ :: _, Some u =>
                      match r2 with
                      | b :: v :: g1 :: g2 :: g3 :: g4 :: r3 =>
                          if is_high_surrogate u && (b =? ch "\")%N && (v =? ch "u")%N
                             && negb (bool_decide (r3 = []))
                          then
                            match hex4 g1 g2 g3 g4 with
                            | None => JErr bad_u (length r - 6)
                            | Some lo =>
                                if is_low_surrogate lo
                                then jcons (join_surrogates u lo) (scan_string begin r3)
                                else jcons u (scan_string begin r2)
                            end
                          else jcons u (scan_string begin r2)
                      | _ => jcons u (scan_string begin r2)
                      end
                  end
              | _ => JErr bad_u (length r)
              end
            else match simple_escape e with
                 | Some x => jcons x (scan_string begin r1)
                 | None => JErr "Invalid \escape" (length s)
                 end
        end
      else if (c <=? 0x1f)%N then JErr "Invalid control character at" (length s)
      else jcons c (scan_string begin r)
  end.

(** A number, when the text starts with one. *)
Definition scan_number (s : text) : jres (pyval * text) :=
  match span_number s with
  | None => JErr "Expecting value" (length s)
  | Some (NFloat f, rest) => JOk (VFloat f, rest)
  | Some (NInt neg ds, rest) =>
      if decide (max_str_digits < length ds) then
        JExn (Exn ValueError "Exceeds the limit (4300 digits) for integer string conversion")
      else
        let v := Z.of_N (digits_value 10 0 ds) in
        JOk (VInt (if neg then (- v)%Z else v), rest)
  end.

(** The literals; any other text is a number or nothing. *)
Definition scan_literal (s : text) : jres (pyval * text) :=
  if starts_with (txt "null") s then JOk (VNone, drop 4 s)
  else if starts_with (txt "true") s then JOk (VBool true, drop 4 s)
  else if starts_with (txt "false") s then JOk (VBool false, drop 5 s)
  else if starts_with (txt "NaN") s then JOk (VFloat S754_nan, drop 3 s)
  else if starts_with (txt "Infinity") s then JOk (VFloat (S754_infinity false), drop 8 s)
  else if starts_with (txt "-Infinity") s then JOk (VFloat (S754_infinity true), drop 9 s)
  else scan_number s.

(** [Py_EnterRecursiveCall] where no level is left *)
Definition recursion_error (doing : string) : exn :=
  Exn RecursionError (txt "maximum recursion depth exceeded while " ++ txt doing).

(** A value, the members of an object after its first key's position, the
    elements of an array; [depth] is the number of containers that may still be
    entered. *)
Fixpoint scan_once (fuel depth : nat) (s : text) : jres (pyval * text) :=
  match fuel with
  | O => JFuel
  | S f =>
      match s with
      | [] => JErr "Expecting value" 0
      | c :: r =>
          if (c =? double_quote)%N then
            '(t, rest) ← scan_string (length s) r; JOk (VStr t, rest)
          else if (c =? ch "{")%N then
            match depth with
            | O => JExn (recursion_error "decoding a JSON object from a unicode string")
            | S depth =>
                let s' := skip_ws r in
                match s' with
                | c' :: r' =>
                    if (c' =? ch "}")%N then JOk (VDict [], r')
                    else '(d, rest) ← scan_members f depth [] s'; JOk (VDict d, rest)
                | [] => '(d, rest) ← scan_members f depth [] s'; JOk (VDict d, rest)
                end
            end
          else if (c =? ch "[")%N then
            match depth with
            | O => JExn (recursion_error "decoding a JSON array from a unicode string")
            | S depth =>
                let s' := skip_ws r in
                match s' with
                | c' :: r' =>
                    if (c' =? ch "]")%N then JOk (VList [], r')
                    else '(l, rest) ← scan_elements f depth s'; JOk (VList l, rest)
                | [] => '(l, rest) ← scan_elements f depth s'; JOk (VList l, rest)
                end
            end
          else scan_literal s
      end
  end

with scan_members (fuel depth : nat) (acc : pydict) (s : text) : jres (pydict * text) :=
  match fuel with
  | O => JFuel
  | S f =>
      match s with
      | q :: r =>
          if (q =? double_quote)%N then
            '(k, s1) ← scan_string (length s) r;
            match skip_ws s1 with
            | c :: s2 =>
                if (c =? ch ":")%N then
                  '(v, s3) ← scan_once f depth (skip_ws s2);
                  match skip_ws s3 with
                  | c' :: s4 =>
                      if (c' =? ch "}")%N then JOk (dset k v acc, s4)
                      else if (c' =? ch ",")%N then
                        scan_members f depth (dset k v acc) (skip_ws s4)
                      else JErr "Expecting ',' delimiter" (S (length s4))
                  | [] => JErr "Expecting ',' delimiter" 0
                  end
                else JErr "Expecting ':' delimiter" (S (length s2))
            | [] => JErr "Expecting ':' delimiter" 0
            end
          else JErr "Expecting property name enclosed in double quotes" (length s)
      | [] => JErr "Expecting property name enclosed in double quotes" 0
      end
  end

with scan_elements (fuel depth : nat) (s : text) : jres (list pyval * text) :=
  match fuel with
  | O => JFuel
  | S f =>
      '(v, s1) ← scan_once f depth s;
      match skip_ws s1 with
      | c :: s2 =>
          if (c =? ch "]")%N then JOk ([v], s2)
          else if (c =? ch ",")%N then
            '(l, rest) ← scan_elements f depth (skip_ws s2); JOk (v :: l, rest)
          else JErr "Expecting ',' delimiter" (S (length s2))
      | [] => JErr "Expecting ',' delimiter" 0
      end
  end.

(** ** The error's text: [msg: line l column c (char p)] *)

Definition newline : N := 10.

(** The length of the last line of [s]. *)
Fixpoint last_line (n : nat) (s : text) : nat :=
  match s with
  | [] => n
  | c :: r => if (c =? newline)%N then last_line 0 r else last_line (S n) r
  end.

Definition nat_to_text (n : nat) : text := nat_text (N.of_nat n).

Definition decode_error_msg (msg doc : text) (pos : nat) : text :=
  let before := take pos doc in
  let line := S (length (List.filter (N.eqb newline) before)) in
  let col := S (last_line 0 before) in
  msg ++ txt ": line " ++ nat_to_text line ++ txt " column " ++ nat_to_text col
      ++ txt " (char " ++ nat_to_text pos ++ txt ")".

(** ** [json.loads] of a text and of bytes *)

Definition json_fuel (s : text) : nat := S (2 * length s).

Section Loads.
Context `{Interpreter}.

Definition scan_document (s : text) : jres pyval :=
  '(v, rest) ← scan_once (json_fuel s) nesting_limit (skip_ws s);
  match skip_ws rest with
  | [] => JOk v
  | r => JErr "Extra data" (length r)
  end.

Definition json_loads (s : text) : res pyval :=
  let error msg pos := raise JSONDecodeError (decode_error_msg msg s pos) in
  if starts_with [0xfeff]%N s then error "Unexpected UTF-8 BOM (decode using utf-8-sig)" 0
  else match scan_document s with
       | JOk v => Ok v
       | JErr msg n => error msg (length s - n)
       | JExn e => Raise e
       | JFuel => error "scanner out of fuel" 0
       end.

Definition json_loads_bytes (b : bytes) : res pyval := s ← json_decode_bytes b; json_loads s.
End Loads.

(** ** [json.dumps] *)

(** The options the code passes: [ensure_ascii] and the separators. *)
Record json_style := {
  ensure_ascii : bool;
  item_separator : text;
  key_separator : text;
}.

(** [ensure_ascii=False, separators=(",", ":")] *)
Definition compact_style : json_style :=
  {| ensure_ascii := false; item_separator := ","; key_separator := ":" |}.
(** the defaults *)
Definition default_style : json_style :=
  {| ensure_ascii := true; item_separator := ", "; key_separator := ": " |}.

Definition escape_u (c : N) : text := txt "\u" ++ hex_text 4 c.

Definition escape_char (ascii : bool) (c : N) : text :=
  if (c =? double_quote)%N || (c =? ch "\")%N then [ch "\"; c]
  else if (c =? 8)%N then txt "\b"
  else if (c =? 9)%N then txt "\t"
  else if (c =? 10)%N then txt "\n"
  else if (c =? 12)%N then txt "\f"
  else if (c =? 13)%N then txt "\r"
  else if (c <? 32)%N then escape_u c
  else if ascii && (126 <? c)%N then
    if (c <? 0x10000)%N then escape_u c
    else escape_u (0xd800 + (c - 0x10000) / 0x400)%N
         ++ escape_u (0xdc00 + (c - 0x10000) mod 0x400)%N
  else [c].

Definition json_string (ascii : bool) (s : text) : text :=
  double_quote :: flat_map (escape_char ascii) s ++ [double_quote].

Definition json_float (f : pyfloat) : text :=
  match f with
  | S754_nan => "NaN"
  | S754_infinity s => if s then "-Infinity" else "Infinity"
  | _ => float_text f
  end.

Section Dumps.
Variable style : json_style.

(** [depth] as in the scanner *)
Fixpoint dumps_at (depth : nat) (v : pyval) {struct v} : res text :=
  match v with
  | VNone => Ok (txt "null")
  | VBool b => Ok (txt (if b then "true" else "false"))
  | VInt z => int_text z
  | VFloat f => Ok (json_float f)
  | VStr s => Ok (json_string (ensure_ascii style) s)
  | VList l =>
      match depth with
      | O => Raise (recursion_error "encoding a JSON object")
      | S depth =>
          parts ← (fix go l := match l with
                   | [] => Ok []
                   | x :: r => y ← dumps_at depth x; ys ← go r; Ok (y :: ys)
                   end) l;
          Ok (ch "[" :: join (item_separator style) parts ++ [ch "]"])
      end
  | VDict d =>
      match depth with
      | O => Raise (recursion_error "encoding a JSON object")
      | S depth =>
          parts ← (fix go d := match d with
                   | [] => Ok []
                   | (k, x) :: r =>
                       y ← dumps_at depth x; ys ← go r;
                       Ok ((json_string (ensure_ascii style) k ++ key_separator style ++ y) :: ys)
                   end) d;
          Ok (ch "{" :: join (item_separator style) parts ++ [ch "}"])
      end
  end.

Definition json_dumps `{Interpreter} (v : pyval) : res text := dumps_at nesting_limit v.
End Dumps.
