(* ===== verification/JsonFacts.v ===== *)
(** * Facts on [json.loads] and [json.dumps]

    The scanner's fuel is enough ([scan_once_fuel]); the classes of the exceptions
    that [json_loads] raises; a document that starts with a brace is a dict; what
    [json_dumps] writes in the compact style reads back as the same value
    ([json_roundtrip]). *)

From S2P Require Export Json.

(** ** What is left after a token is shorter *)

Lemma drop_while_length p s : length (drop_while p s) <= length s.
Proof. induction s as [|c s IH]; simpl; [done|]. case_if; simpl; lia. Qed.

Lemma skip_ws_length s : length (skip_ws s) <= length s.
Proof. apply drop_while_length. Qed.

Lemma starts_with_length p s : starts_with p s = true -> length p <= length s.
Proof.
  revert s. induction p as [|a p IH]; intros [|b s]; simpl; try done; [lia|].
  intros [_ H]%andb_true_iff. apply IH in H. lia.
Qed.

Lemma jres_bind_inv {A B} (m : jres A) (f : A -> jres B) b :
  m ≫= f = JOk b -> exists a, m = JOk a /\ f a = JOk b.
Proof. destruct m; simpl; naive_solver. Qed.

Ltac inv_jres :=
  repeat match goal with
  | H : _ ≫= _ = JOk _ |- _ =>
      apply jres_bind_inv in H; destruct H as (?a & ?Ha & H)
  | H : JOk _ = JOk _ |- _ => injection H as H; subst
  | p : _ * _ |- _ => destruct p
  end.

(** Case analysis on the scrutinee that blocks the hypothesis or the goal. *)
Ltac break :=
  match goal with
  | H : context [match ?x with _ => _ end] |- _ =>
      lazymatch x with context [match _ with _ => _ end] => fail | _ => idtac end;
      destruct x eqn:?; try discriminate
  end.
Ltac break_goal :=
  match goal with
  | |- context [match ?x with _ => _ end] =>
      lazymatch x with context [match _ with _ => _ end] => fail | _ => idtac end;
      destruct x eqn:?; try discriminate
  end.

Lemma scan_string_spec b n s :
  length s <= n ->
  match scan_string b s with
  | JOk (_, rest) => length rest < length s
  | JErr _ _ => True
  | _ => False
  end.
Proof.
  revert s. induction n as [|n IH]; intros s Hn.
  - destruct s; [done|simpl in Hn; lia].
  - assert (forall c s', length s' < length s ->
      match jcons c (scan_string b s') with
      | JOk (_, rest) => length rest < length s
      | JErr _ _ => True
      | _ => False
      end) as Hrec.
    { intros c s' Hs'. specialize (IH s' ltac:(lia)). unfold jcons.
      destruct (scan_string b s') as [[t rest]| | |]; simpl in *; try done. lia. }
    destruct s as [|c r]; [done|]. cbn [scan_string].
    repeat first [done | apply Hrec; simpl in *; lia | break_goal]; simpl in *; lia.
Qed.

Lemma scan_string_length b s t rest :
  scan_string b s = JOk (t, rest) -> length rest < length s.
Proof. intros H. pose proof (scan_string_spec b (length s) s ltac:(done)). by rewrite H in *. Qed.

Lemma scan_string_no_fuel b s : scan_string b s ≠ JFuel.
Proof. intros H. pose proof (scan_string_spec b (length s) s ltac:(done)). by rewrite H in *. Qed.

Lemma scan_string_no_exn b s e : scan_string b s ≠ JExn e.
Proof. intros H. pose proof (scan_string_spec b (length s) s ltac:(done)). by rewrite H in *. Qed.

Lemma span_digits_app s ds rest :
  span_digits s = (ds, rest) -> length s = length ds + length rest.
Proof.
  revert ds rest. induction s as [|c s IH]; intros ds rest; simpl; [by intros [= <- <-]|].
  destruct (ascii_digit c); [|by intros [= <- <-]].
  destruct (span_digits s) as [d r]. intros [= <- <-]. specialize (IH _ _ eq_refl). simpl. lia.
Qed.

Lemma span_exponent_length s e rest :
  span_exponent s = Some (e, rest) -> length rest < length s.
Proof.
  destruct s as [|c r]; [done|]. cbn [span_exponent].
  destruct (_ || _)%bool; [|done]. destruct (take_sign r) as [neg r'] eqn:Hs.
  destruct (span_digits r') as [[|d ds] rest'] eqn:Hd; [done|]. intros [= _ <-].
  apply span_digits_app in Hd.
  assert (length r' <= length r).
  { unfold take_sign in Hs. destruct r as [|c' r]; [by injection Hs as _ <-|].
    repeat case_if; injection Hs as _ <-; simpl; lia. }
  simpl in *. lia.
Qed.

Lemma span_number_length s v rest :
  span_number s = Some (v, rest) -> length rest < length s.
Proof.
  unfold span_number. destruct (take_minus s) as [neg t] eqn:Hm.
  assert (length t <= length s) as Ht.
  { unfold take_minus in Hm. destruct s; [by injection Hm as _ <-|].
    case_if; injection Hm as _ <-; simpl; lia. }
  destruct (span_int_part t) as [ip s1] eqn:Hi.
  destruct ip as [|d ip]; [done|].
  assert (length s1 < length t) as H1.
  { unfold span_int_part in Hi. destruct t as [|c t]; [discriminate|].
    case_if; [injection Hi as _ _ <-; simpl; lia|].
    apply span_digits_app in Hi. simpl in *. lia. }
  destruct (span_json_fraction s1) as [fp s2] eqn:Hf.
  assert (length s2 <= length s1) as H2.
  { unfold span_json_fraction in Hf. destruct s1 as [|c s1]; [by injection Hf as _ <-|].
    case_if; [|injection Hf as _ <-; done].
    destruct (span_digits s1) as [[|d' ds] r] eqn:Hd; [by injection Hf as _ <-|].
    apply span_digits_app in Hd. injection Hf as _ <-. simpl in *. lia. }
  assert (length (default (0%Z, s2) (span_exponent s2)).2 <= length s2) as H3.
  { destruct (span_exponent s2) as [[e s3]|] eqn:He; [|done].
    apply span_exponent_length in He. simpl. lia. }
  destruct (default _ _) as [e s3] eqn:Hdef. simpl in H3.
  destruct fp, (span_exponent s2); rewrite ?Hdef in *; simpl in *; intros [= _ <-];
    simplify_eq; lia.
Qed.

(** ** The fuel is enough *)

(** A scanner's result on a text of length [n]. *)
Definition scan_good {A} (n : nat) (r : jres (A * text)) : Prop :=
  match r with
  | JOk (_, rest) => length rest < n
  | JErr _ _ => True
  | JExn e => exn_cls e = ValueError \/ exn_cls e = RecursionError
  | JFuel => False
  end.

Lemma scan_good_bind {A B} n m (r : jres (A * text)) (f : A * text -> jres (B * text)) :
  scan_good n r ->
  (forall a rest, length rest < n -> scan_good m (f (a, rest))) ->
  scan_good m (r ≫= f).
Proof. intros Hr Hf. destruct r as [[a rest]| | |]; simpl in *; try done. by apply Hf. Qed.

Lemma scan_good_mono {A} n m (r : jres (A * text)) : n <= m -> scan_good n r -> scan_good m r.
Proof. destruct r as [[a rest]| | |]; simpl; try done. lia. Qed.

Lemma scan_string_good b s : scan_good (length s) (scan_string b s).
Proof.
  pose proof (scan_string_spec b (length s) s ltac:(done)) as H.
  by destruct (scan_string b s) as [[t r]| | |].
Qed.

Lemma scan_number_good s : scan_good (length s) (scan_number s).
Proof.
  unfold scan_number. destruct (span_number s) as [[v rest]|] eqn:E; [|done].
  apply span_number_length in E. destruct v; [|done].
  destruct (decide _); [by left|done].
Qed.

Lemma scan_literal_good s : scan_good (length s) (scan_literal s).
Proof.
  unfold scan_literal.
  repeat match goal with
  | |- context [starts_with ?p s] =>
      let E := fresh in destruct (starts_with p s) eqn:E;
      [apply starts_with_length in E; simpl in *; rewrite length_drop; lia|]
  end.
  apply scan_number_good.
Qed.

Lemma scan_fuel_good fuel :
  (forall depth s, 2 * length s < fuel -> scan_good (length s) (scan_once fuel depth s)) /\
  (forall depth acc s, 2 * length s < fuel -> scan_good (length s) (scan_members fuel depth acc s)) /\
  (forall depth s, 2 * length s + 1 < fuel -> scan_good (length s) (scan_elements fuel depth s)).
Proof.
  induction fuel as [|f (IHo & IHm & IHe)]; [repeat split; lia|]. repeat split.
  - intros depth [|c r] Hs; [done|]. cbn [scan_once length] in *.
    pose proof (skip_ws_length r) as Hw.
    case_if; [|case_if; [|case_if; [|apply (scan_literal_good (c :: r))]]].
    + eapply scan_good_bind; [apply scan_string_good|]. simpl. lia.
    + destruct depth as [|depth]; [by right|].
      destruct (skip_ws r) as [|c' r'] eqn:E; cbn [length] in *; [|case_if; [simpl; lia|]].
      all: eapply scan_good_bind; [apply IHm; simpl; lia|simpl; lia].
    + destruct depth as [|depth]; [by right|].
      destruct (skip_ws r) as [|c' r'] eqn:E; cbn [length] in *; [|case_if; [simpl; lia|]].
      all: eapply scan_good_bind; [apply IHe; simpl; lia|simpl; lia].
  - intros depth acc [|q r] Hs; [done|]. cbn [scan_members length] in *.
    case_if; [|done].
    eapply scan_good_bind; [apply scan_string_good|]. intros k s1 H1. simpl.
    pose proof (skip_ws_length s1). destruct (skip_ws s1) as [|c s2]; [done|].
    case_if; [|done]. cbn [length] in *. pose proof (skip_ws_length s2).
    eapply scan_good_bind; [apply IHo; lia|]. intros v s3 H3. simpl.
    pose proof (skip_ws_length s3). destruct (skip_ws s3) as [|c' s4]; [done|].
    cbn [length] in *. pose proof (skip_ws_length s4).
    case_if; [simpl; lia|]. case_if; [|done].
    eapply scan_good_mono; [|apply IHm; lia]. lia.
  - intros depth s Hs. cbn [scan_elements].
    eapply scan_good_bind; [apply IHo; lia|]. intros v s1 H1. simpl.
    pose proof (skip_ws_length s1). destruct (skip_ws s1) as [|c s2]; [done|].
    cbn [length] in *. pose proof (skip_ws_length s2).
    case_if; [simpl; lia|]. case_if; [|done].
    eapply scan_good_bind; [apply IHe; lia|]. simpl. lia.
Qed.

(** The scanner never runs out of fuel, and shortens what is left. *)
Lemma scan_once_fuel depth s : scan_good (length s) (scan_once (json_fuel s) depth s).
Proof. apply scan_fuel_good. unfold json_fuel. lia. Qed.

Lemma scan_document_good `{Interpreter} s :
  match scan_document s with
  | JFuel => False
  | JExn e => exn_cls e = ValueError \/ exn_cls e = RecursionError
  | _ => True
  end.
Proof.
  unfold scan_document. pose proof (proj1 (scan_fuel_good (json_fuel s)) nesting_limit (skip_ws s)) as Hg.
  pose proof (skip_ws_length s). specialize (Hg ltac:(unfold json_fuel; lia)).
  destruct (scan_once _ _) as [[v rest]| | |]; simpl in *; try done.
  by destruct (skip_ws rest).
Qed.

(** [json_loads] raises [JSONDecodeError] or, for an integer literal beyond the
    digit bound, a plain [ValueError], or, for a document that is nested too deeply,
    [RecursionError]. *)
Lemma json_loads_raises `{Interpreter} s e :
  json_loads s = Raise e ->
  exn_cls e = JSONDecodeError \/ exn_cls e = ValueError \/ exn_cls e = RecursionError.
Proof.
  unfold json_loads. case_if; [intros [= <-]; by left|].
  pose proof (scan_document_good s). destruct (scan_document s); try done.
  - intros [= <-]. by left.
  - intros [= <-]. naive_solver.
Qed.

(** A document whose first character is an opening brace is a dict. *)
Lemma json_loads_brace `{Interpreter} s v : json_loads (ch "{" :: s) = Ok v -> exists d, v = VDict d.
Proof.
  unfold json_loads. case_if; [done|].
  destruct (scan_document _) eqn:E; try done. intros [= <-].
  unfold scan_document in E. inv_jres. change (skip_ws (ch "{" :: s)) with (ch "{" :: s) in *.
  unfold json_fuel in *. cbn [scan_once] in *.
  change (ch "{" =? double_quote)%N with false in *.
  change (ch "{" =? ch "{")%N with true in *. cbn iota in *.
  destruct nesting_limit as [|depth]; [done|].
  destruct (skip_ws s) as [|c' r']; [|case_if];
    inv_jres; (destruct (skip_ws _); inv_jres; eauto; discriminate).
Qed.

(** ** Strings read back *)

Lemma scan_string_plain b c k :
  c ≠ double_quote -> c ≠ ch "\" -> (0x1f < c)%N ->
  scan_string b (c :: k) = jcons c (scan_string b k).
Proof.
  intros H1%N.eqb_neq H2%N.eqb_neq H3%N.leb_gt. cbn [scan_string].
  rewrite H1, H2, H3. reflexivity.
Qed.

Lemma scan_string_simple b e x k :
  simple_escape e = Some x -> e ≠ ch "u" ->
  scan_string b (ch "\" :: e :: k) = jcons x (scan_string b k).
Proof.
  intros H1 H2%N.eqb_neq. cbn [scan_string].
  change (ch "\" =? double_quote)%N with false. change (ch "\" =? ch "\")%N with true.
  cbn iota. by rewrite H2, H1.
Qed.

Lemma scan_string_unicode b h1 h2 h3 h4 u k :
  hex4 h1 h2 h3 h4 = Some u -> is_high_surrogate u = false -> k ≠ [] ->
  scan_string b (ch "\" :: ch "u" :: h1 :: h2 :: h3 :: h4 :: k)
  = jcons u (scan_string b k).
Proof.
  intros Hu Hs Hk. destruct k as [|c k]; [done|]. cbn [scan_string].
  change (ch "\" =? double_quote)%N with false. change (ch "\" =? ch "\")%N with true.
  change (ch "u" =? ch "u")%N with true. cbn iota. rewrite Hu, Hs. cbn [andb].
  do 5 (destruct k as [|? k]; [reflexivity|]). reflexivity.
Qed.

Lemma hex4_control c :
  (c < 32)%N -> exists h1 h2 h3 h4,
    hex_text 4 c = [h1; h2; h3; h4] /\ hex4 h1 h2 h3 h4 = Some c /\
    is_high_surrogate c = false.
Proof.
  intros Hc. do 4 eexists. split; [reflexivity|].
  destruct c as [|p]; [done|].
  do 5 (try destruct p as [p|p|]); solve [done | exfalso; lia].
Qed.

Lemma scan_string_escape b c k :
  k ≠ [] -> scan_string b (escape_char false c ++ k) = jcons c (scan_string b k).
Proof.
  intros Hk. unfold escape_char. cbn [andb].
  repeat match goal with
  | |- context [if ?x then _ else _] => destruct x eqn:?
  end; cbn [app];
  try (match goal with H : (c =? ?n)%N = true |- _ => apply N.eqb_eq in H as -> end;
       by apply scan_string_simple).
  - apply scan_string_simple.
    + unfold simple_escape. by rewrite Heqb0.
    + apply orb_true_iff in Heqb0 as [->%N.eqb_eq| ->%N.eqb_eq]; done.
  - destruct (hex4_control c) as (h1 & h2 & h3 & h4 & Ht & Hu & Hs);
      [by apply N.ltb_lt|].
    unfold escape_u. rewrite Ht. by apply scan_string_unicode.
  - apply orb_false_iff in Heqb0 as [H1%N.eqb_neq H2%N.eqb_neq].
    apply scan_string_plain; [done..|]. lia.
Qed.

Lemma scan_string_json b s k :
  scan_string b (flat_map (escape_char false) s ++ double_quote :: k) = JOk (s, k).
Proof.
  induction s as [|c s IH]; cbn [flat_map app]; [done|].
  rewrite <-app_assoc, scan_string_escape.
  - by rewrite IH.
  - destruct (flat_map _ s); done.
Qed.

(** ** Number literals end where the separator starts *)

Definition num_end (k : text) : Prop :=
  match k with
  | c :: _ => ascii_digit c = None /\ c ≠ ch "." /\ c ≠ ch "e" /\ c ≠ ch "E"
  | [] => True
  end.

Lemma num_end_digit k : num_end k -> not_digit_head k.
Proof. destruct k; simpl; [done|]. by intros [? _]. Qed.

Lemma span_digits_ext s ds rest k :
  span_digits s = (ds, rest) -> not_digit_head k -> span_digits (s ++ k) = (ds, rest ++ k).
Proof.
  revert ds rest. induction s as [|c s IH]; intros ds rest; simpl.
  - intros [= <- <-]. destruct k as [|c k]; [done|]. simpl. by intros ->.
  - destruct (ascii_digit c) eqn:E; [|by intros [= <- <-] _].
    destruct (span_digits s) as [d r]. intros [= <- <-] Hk. by erewrite IH.
Qed.

Lemma span_exponent_ext s e rest k :
  span_exponent s = Some (e, rest) -> not_digit_head k ->
  span_exponent (s ++ k) = Some (e, rest ++ k).
Proof.
  destruct s as [|c r]; [done|]. cbn [span_exponent app].
  destruct (_ || _)%bool; [|done]. destruct (take_sign r) as [neg r'] eqn:Hs.
  destruct (span_digits r') as [[|d ds] rest'] eqn:Hd; [done|]. intros [= <- <-] Hk.
  assert (take_sign (r ++ k) = (neg, r' ++ k)) as ->.
  { destruct r as [|c' r]; [injection Hs as <- <-; discriminate|].
    cbn [app]. unfold take_sign in *. repeat case_if; simplify_eq; done. }
  by rewrite (span_digits_ext _ _ _ _ Hd Hk).
Qed.

Lemma span_json_fraction_ext s fp rest k :
  span_json_fraction s = (fp, rest) -> num_end k ->
  span_json_fraction (s ++ k) = (fp, rest ++ k).
Proof.
  intros H Hk. destruct s as [|c r]; cbn [span_json_fraction app] in *.
  - injection H as <- <-. destruct k as [|c k]; [done|]. destruct Hk as (_ & Hk & _).
    simpl. by rewrite (proj2 (N.eqb_neq _ _) Hk).
  - case_if; [|by injection H as <- <-].
    destruct (span_digits r) as [ds r'] eqn:Hd.
    rewrite (span_digits_ext _ _ _ _ Hd (num_end_digit k Hk)).
    destruct ds; by injection H as <- <-.
Qed.

Lemma span_number_ext s v k :
  span_number s = Some (v, []) -> num_end k -> span_number (s ++ k) = Some (v, k).
Proof.
  unfold span_number. intros H Hk. destruct (take_minus s) as [neg t] eqn:Hm.
  destruct (span_int_part t) as [ip s1] eqn:Hi. destruct ip as [|d ip]; [done|].
  assert (take_minus (s ++ k) = (neg, t ++ k)) as ->.
  { destruct s as [|c s]; [injection Hm as <- <-; discriminate|].
    cbn [app]. unfold take_minus in *. case_if; simplify_eq; done. }
  assert (span_int_part (t ++ k) = (d :: ip, s1 ++ k)) as ->.
  { destruct t as [|c t]; [discriminate|]. cbn [app span_int_part] in *.
    case_if; [by simplify_eq|].
    apply (span_digits_ext (c :: t)); [done|by apply num_end_digit]. }
  destruct (span_json_fraction s1) as [fp s2] eqn:Hf.
  rewrite (span_json_fraction_ext _ _ _ _ Hf Hk).
  destruct (span_exponent s2) as [[e s3]|] eqn:He.
  - rewrite (span_exponent_ext _ _ _ _ He (num_end_digit k Hk)).
    destruct fp; simpl in *; by simplify_eq.
  - assert (s2 = []) as -> by (destruct fp; simpl in H; by simplify_eq).
    assert (span_exponent k = None) as Hek.
    { destruct k as [|c k]; [done|]. destruct Hk as (_ & _ & He1%N.eqb_neq & He2%N.eqb_neq).
      simpl. by rewrite He1, He2. }
    simpl app. rewrite Hek. destruct fp; simpl in *; by simplify_eq.
Qed.

(** A number literal starts with a digit, or with a minus and a digit. *)
Definition number_head (s : text) : bool :=
  match s with
  | c :: r => is_ascii_digit c ||
      ((c =? ch "-")%N && match r with c' :: _ => is_ascii_digit c' | [] => false end)
  | [] => false
  end.

Lemma span_int_part_head t d ip s1 :
  span_int_part t = (d :: ip, s1) ->
  exists c r, t = c :: r /\ is_ascii_digit c = true.
Proof.
  destruct t as [|c t]; [done|]. cbn [span_int_part]. intros H. exists c, t. split; [done|].
  case_if.
  - apply N.eqb_eq in Heqb as ->. done.
  - simpl in H. unfold ascii_digit in H. by destruct (is_ascii_digit c).
Qed.

Lemma span_number_head s v rest : span_number s = Some (v, rest) -> number_head s = true.
Proof.
  unfold span_number. destruct (take_minus s) as [neg t] eqn:Hm.
  destruct (span_int_part t) as [[|d ip] s1] eqn:Hi; [done|]. intros _.
  destruct (span_int_part_head _ _ _ _ Hi) as (c & r & -> & Hc).
  destruct s as [|c0 s]; [discriminate|]. unfold take_minus in Hm. simpl. case_if.
  - injection Hm as <- ->. rewrite Hc. by rewrite andb_true_r, orb_true_r.
  - injection Hm as <- -> ->. by rewrite Hc.
Qed.

Lemma scan_literal_number s k :
  number_head s = true -> scan_literal (s ++ k) = scan_number (s ++ k).
Proof.
  intros H. destruct s as [|c s]; [done|]. cbn [app number_head] in *. unfold scan_literal.
  assert (forall w, w ≠ c -> forall p, starts_with (w :: p) (c :: s ++ k) = false) as Hne.
  { intros w Hw p. simpl. by rewrite (proj2 (N.eqb_neq w c) Hw). }
  assert (c ≠ ch "n" /\ c ≠ ch "t" /\ c ≠ ch "f" /\ c ≠ ch "N" /\ c ≠ ch "I") as
    (? & ? & ? & ? & ?).
  { apply orb_true_iff in H as [H|[H%N.eqb_eq _]%andb_true_iff].
    - unfold is_ascii_digit in H. eval_ch. char_solve.
    - subst c. repeat split; discriminate. }
  assert (starts_with (txt "-Infinity") (c :: s ++ k) = false) as Hminus.
  { change (txt "-Infinity") with (ch "-" :: txt "Infinity"). cbn [starts_with].
    apply orb_true_iff in H as [H|[H%N.eqb_eq Hs]%andb_true_iff].
    - assert (ch "-" =? c = false)%N as ->; [|done].
      unfold is_ascii_digit in H. eval_ch. char_solve.
    - destruct s as [|c' s]; [done|].
      change (txt "Infinity") with (ch "I" :: txt "nfinity"). cbn [app starts_with].
      assert (ch "I" =? c' = false)%N as ->; [|apply andb_false_r].
      unfold is_ascii_digit in Hs. eval_ch. char_solve. }
  rewrite Hminus.
  change (txt "null") with (ch "n" :: txt "ull"). change (txt "true") with (ch "t" :: txt "rue").
  change (txt "false") with (ch "f" :: txt "alse"). change (txt "NaN") with (ch "N" :: txt "aN").
  change (txt "Infinity") with (ch "I" :: txt "nfinity").
  by rewrite !Hne by done.
Qed.

(** An integer's text is a number literal of that integer. *)
Lemma int_text_scan z s k :
  int_text z = Ok s -> num_end k ->
  number_head s = true /\ scan_number (s ++ k) = JOk (VInt z, k).
Proof.
  unfold int_text. case_decide as Hlen; [discriminate|]. intros [= Hs] Hk.
  set (n := Z.abs_N z) in *.
  assert (span_int_part (nat_text n) = (N_digits n, [])) as Hi.
  { rewrite <-(app_nil_r (nat_text n)). by apply span_int_part_nat. }
  assert (span_number s = Some (NInt (z <? 0)%Z (N_digits n), [])) as Hn.
  { subst s. destruct (nat_text_cons n) as (d & ds & Htxt & Hdig & Hd).
    unfold span_number. destruct (z <? 0)%Z.
    - change (take_minus (ch "-" :: nat_text n)) with (true, nat_text n).
      cbn iota. rewrite Hi, Hdig. done.
    - assert (take_minus (nat_text n) = (false, nat_text n)) as ->.
      { rewrite Htxt. unfold take_minus.
        assert (digit_char d =? ch "-" = false)%N as -> by char_solve. done. }
      rewrite Hi, Hdig. done. }
  split; [by eapply span_number_head|].
  unfold scan_number. rewrite (span_number_ext _ _ _ Hn Hk).
  rewrite decide_False by (by rewrite <-length_nat_text).
  rewrite N_digits_value. do 3 f_equal. subst n.
  destruct (Z.ltb_spec z 0); lia.
Qed.

Lemma float_text_scan f k :
  float_valid f -> is_finite f = true -> num_end k ->
  number_head (float_text f) = true /\
  scan_number (float_text f ++ k) = JOk (VFloat f, k).
Proof.
  intros Hv Hf Hk. pose proof (float_text_reads f Hv Hf) as Hn.
  split; [by eapply span_number_head|].
  unfold scan_number. by rewrite (span_number_ext _ _ _ Hn Hk).
Qed.

(** ** Values read back *)

(** The first character of a value's text. *)
Definition value_start (s : text) : Prop :=
  match s with
  | c :: _ => is_json_ws c = false /\ c ≠ ch "]" /\ c ≠ ch "}"
  | [] => False
  end.

Lemma skip_ws_start s k : value_start s -> skip_ws (s ++ k) = s ++ k.
Proof.
  destruct s as [|c s]; [done|]. intros (H & _). unfold skip_ws. simpl. by rewrite H.
Qed.

(** Scanning [s], with [depth] levels left, gives [v] and what follows, whatever
    follows. *)
Definition reads (depth : nat) (v : pyval) (s : text) : Prop :=
  value_start s /\
  forall fuel (k : text), 2 * length s < fuel -> num_end k ->
    scan_once fuel depth (s ++ k) = JOk (v, k).

Lemma number_reads depth v s :
  number_head s = true -> (forall k : text, num_end k -> scan_number (s ++ k) = JOk (v, k)) ->
  reads depth v s.
Proof.
  intros Hh Hs. assert (exists c r, s = c :: r /\ (is_ascii_digit c = true \/ c = ch "-"))
    as (c & r & -> & Hc).
  { destruct s as [|c r]; [done|]. exists c, r. split; [done|]. simpl in Hh.
    destruct (is_ascii_digit c); [by left|]. simpl in Hh.
    apply andb_true_iff in Hh as [Hh _]. right. by apply N.eqb_eq. }
  assert (c ≠ double_quote /\ c ≠ ch "{" /\ c ≠ ch "[" /\ is_json_ws c = false
          /\ c ≠ ch "]" /\ c ≠ ch "}") as (H1 & H2 & H3 & H4 & H5 & H6).
  { unfold is_ascii_digit, is_json_ws in *. unfold double_quote.
    destruct Hc as [Hc| ->]; [char_solve|repeat split; try discriminate]. }
  split; [done|]. intros [|f] k Hf Hk; [lia|].
  rewrite <-(Hs k Hk), <-scan_literal_number by done. cbn [scan_once app].
  apply N.eqb_neq in H1, H2, H3. by rewrite H1, H2, H3.
Qed.

Lemma literal_reads depth v (w : text) :
  match w with
  | c :: _ => value_start w /\ c ≠ double_quote /\ c ≠ ch "{" /\ c ≠ ch "["
  | [] => False
  end ->
  (forall k : text, scan_literal (w ++ k) = JOk (v, k)) -> reads depth v w.
Proof.
  destruct w as [|c w]; [done|]. intros (Hv & H1 & H2 & H3) Hs. split; [done|].
  intros [|f] k Hf Hk; [lia|]. rewrite <-(Hs k). cbn [scan_once app].
  apply N.eqb_neq in H1, H2, H3. by rewrite H1, H2, H3.
Qed.

Ltac literal_reads :=
  apply literal_reads; [repeat split; discriminate | intros k; reflexivity].

Lemma float_reads depth f : float_valid f -> reads depth (VFloat f) (json_float f).
Proof.
  intros Hv. destruct f as [s|s| |s m e].
  2: destruct s; literal_reads.
  2: literal_reads.
  all: apply number_reads; [|intros k Hk];
    [ by apply (float_text_scan _ []) | by apply float_text_scan ].
Qed.

Lemma string_reads depth s : reads depth (VStr s) (json_string false s).
Proof.
  split; [done|]. intros [|f] k Hf Hk; [lia|]. unfold json_string.
  rewrite <-app_comm_cons, <-app_assoc. cbn [scan_once].
  change (double_quote =? double_quote)%N with true. cbn iota.
  cbn [app]. by rewrite scan_string_json.
Qed.

Lemma join_cons sep p q r : join sep (p :: q :: r) = p ++ sep ++ join sep (q :: r).
Proof. done. Qed.

Lemma elements_read depth l parts :
  Forall2 (reads depth) l parts -> l ≠ [] ->
  forall fuel (k : text), 2 * length (join "," parts) + 1 < fuel ->
    scan_elements fuel depth (join "," parts ++ ch "]" :: k) = JOk (l, k).
Proof.
  intros Hl. induction Hl as [|v s l parts [Hs Hv] Hl IH]; [done|]. intros _ [|f] k Hf; [lia|].
  destruct Hl as [|v' s' l parts Hv' Hl].
  - cbn [join scan_elements]. cbn [join] in Hf. rewrite Hv by (done || lia). done.
  - rewrite join_cons, !length_app in Hf. rewrite join_cons, <-!app_assoc.
    cbn [scan_elements]. change (length (txt ",")) with 1 in Hf.
    rewrite Hv; [|lia|done].
    cbn [mbind jres_bind]. rewrite (skip_ws_start (txt ",")) by done.
    change (txt ",") with [ch ","] at 1. cbn [app]. change (ch "," =? ch "]")%N with false.
    change (ch "," =? ch ",")%N with true. cbn iota.
    assert (value_start (join "," (s' :: parts))) as Hst.
    { destruct Hv' as [Hv' _], parts; [done|]. rewrite join_cons. by destruct s'. }
    rewrite skip_ws_start by done. rewrite IH by (done || lia). done.
Qed.

Definition member_text (k y : text) : text := json_string false k ++ txt ":" ++ y.

Lemma member_text_length k y : length y < length (member_text k y).
Proof.
  unfold member_text. rewrite !length_app. change (length (txt ":")) with 1. lia.
Qed.

Lemma member_step f depth acc key v y s4 :
  reads depth v y -> 2 * length y < f ->
  forall sep, sep = ch "}" \/ sep = ch "," ->
  scan_members (S f) depth acc (member_text key y ++ sep :: s4) =
  if (sep =? ch "}")%N then JOk (dset key v acc, s4)
  else scan_members f depth (dset key v acc) (skip_ws s4).
Proof.
  intros [Hs Hv] Hf sep Hsep. unfold member_text, json_string.
  rewrite <-!app_assoc. cbn [app]. rewrite <-!app_assoc. cbn [app scan_members].
  change (double_quote =? double_quote)%N with true. cbn iota. cbn [app].
  rewrite scan_string_json. cbn [mbind jres_bind].
  rewrite (skip_ws_start (txt ":")) by done.
  change (txt ":") with [ch ":"]. cbn [app]. change (ch ":" =? ch ":")%N with true. cbn iota.
  rewrite skip_ws_start by done.
  rewrite Hv; [|lia|by destruct Hsep as [->| ->]].
  cbn [mbind jres_bind]. destruct Hsep as [->| ->]; reflexivity.
Qed.

Lemma members_read depth d parts :
  Forall2 (fun kv p => exists y, p = member_text kv.1 y /\ reads depth kv.2 y) d parts -> d ≠ [] ->
  forall fuel acc (k : text), NoDup ((acc ++ d).*1) ->
    2 * length (join "," parts) + 1 < fuel ->
    scan_members fuel depth acc (join "," parts ++ ch "}" :: k) = JOk (acc ++ d, k).
Proof.
  intros Hd. induction Hd as [|[key v] p d parts (y & -> & Hy) Hd IH]; [done|].
  intros _ [|f] acc k Hnd Hf; [lia|]. simpl in Hy.
  assert (dset key v acc = acc ++ [(key, v)]) as Hset.
  { apply dset_fresh. rewrite fmap_app, fmap_cons in Hnd. simpl in Hnd.
    apply NoDup_app in Hnd as (_ & Hnd & _). intros Hin. by apply (Hnd key Hin), elem_of_cons; left. }
  destruct Hd as [|[key' v'] p' d parts (y' & -> & Hy') Hd].
  - cbn [join fst snd] in *. pose proof (member_text_length key y).
    rewrite (member_step f depth acc key v y k Hy); [|lia|by left].
    change (ch "}" =? ch "}")%N with true. by rewrite Hset.
  - rewrite join_cons, !length_app in Hf. rewrite join_cons, <-!app_assoc.
    change (length (txt ",")) with 1 in Hf.
    change (txt ",") with [ch ","] at 1. cbn [app].
    rewrite (member_step f depth acc key v y _ Hy); [| |by right].
    2: { cbn [fst] in Hf. pose proof (member_text_length key y). lia. }
    change (ch "," =? ch "}")%N with false. cbn iota. rewrite Hset.
    rewrite skip_ws_start.
    2: { destruct parts; [done|]. rewrite join_cons. done. }
    rewrite IH; [by rewrite <-app_assoc|done|by rewrite <-app_assoc|lia].
Qed.

Lemma dumps_at_list style depth l :
  dumps_at style (S depth) (VList l) =
  (parts ← res_mapM (dumps_at style depth) l;
   Ok (ch "[" :: join (item_separator style) parts ++ [ch "]"])).
Proof.
  cbn [dumps_at]. f_equal. induction l as [|x l IH]; [done|]. simpl. by rewrite IH.
Qed.

(** The text of a member of a dict. *)
Definition dumps_member (style : json_style) (depth : nat) (kv : text * pyval) : res text :=
  y ← dumps_at style depth kv.2;
  Ok (json_string (ensure_ascii style) kv.1 ++ key_separator style ++ y).

Lemma dumps_at_dict style depth d :
  dumps_at style (S depth) (VDict d) =
  (parts ← res_mapM (dumps_member style depth) d;
   Ok (ch "{" :: join (item_separator style) parts ++ [ch "}"])).
Proof.
  cbn [dumps_at]. f_equal. induction d as [|[k x] d IH]; [done|]. simpl. rewrite <-IH.
  unfold dumps_member. simpl. by destruct (dumps_at style depth x).
Qed.

(** Containers at the top of [json_dumps] *)
Lemma json_dumps_list `{Interpreter} style l :
  json_dumps style (VList l) =
  (parts ← res_mapM (dumps_at style (pred nesting_limit)) l;
   Ok (ch "[" :: join (item_separator style) parts ++ [ch "]"])).
Proof.
  unfold json_dumps. pose proof nesting_limit_ok. destruct nesting_limit as [|n]; [lia|].
  apply dumps_at_list.
Qed.

Lemma json_dumps_dict `{Interpreter} style d :
  json_dumps style (VDict d) =
  (parts ← res_mapM (dumps_member style (pred nesting_limit)) d;
   Ok (ch "{" :: join (item_separator style) parts ++ [ch "}"])).
Proof.
  unfold json_dumps. pose proof nesting_limit_ok. destruct nesting_limit as [|n]; [lia|].
  apply dumps_at_dict.
Qed.

Lemma res_mapM_Ok {A B} (f : A -> res B) l ys :
  res_mapM f l = Ok ys <-> Forall2 (fun x y => f x = Ok y) l ys.
Proof.
  revert ys. induction l as [|x l IH]; intros ys; simpl.
  - split; [intros [= <-]; constructor|inversion 1; done].
  - split.
    + intros H. inv_res. constructor; [done|]. by apply IH.
    + inversion 1 as [|? y ? ys' Hy Hys]; subst. rewrite Hy. simpl.
      apply IH in Hys. by rewrite Hys.
Qed.

(** What the compact style writes for a value reads back as the value. *)
Lemma dumps_at_reads depth v s : val_ok v -> dumps_at compact_style depth v = Ok s -> reads depth v s.
Proof.
  revert depth s. induction v as [|b|z|f|t|l IH|d IH] using pyval_nested_ind; intros depth s Hok Hs.
  - injection Hs as <-. literal_reads.
  - injection Hs as <-. destruct b; literal_reads.
  - apply number_reads; [by apply (int_text_scan z s [])|]. intros k. by apply int_text_scan.
  - injection Hs as <-. by apply float_reads.
  - injection Hs as <-. apply string_reads.
  - destruct depth as [|depth]; [done|]. rewrite dumps_at_list in Hs. inv_res. apply val_ok_list in Hok.
    apply res_mapM_Ok in Ha. assert (Forall2 (reads depth) l a) as Hl.
    { clear -IH Hok Ha. induction Ha; inversion IH; inversion Hok; subst; constructor; auto. }
    split; [done|]. intros [|f] k Hf Hk; [lia|]. destruct Hl as [|v p l parts Hv Hl].
    { done. }
    cbn [scan_once app].
    change (ch "[" =? double_quote)%N with false. change (ch "[" =? ch "{")%N with false.
    change (ch "[" =? ch "[")%N with true. cbn iota.
    change (item_separator compact_style) with (txt ",") in *.
    assert (value_start (join "," (p :: parts))) as Hst.
    { destruct Hv as [Hv _], parts; [done|]. rewrite join_cons. by destruct p. }
    rewrite <-app_assoc, (skip_ws_start _ _ Hst).
    pose proof (elements_read depth (v :: l) (p :: parts)) as Hel.
    cbn [length] in Hf. rewrite length_app in Hf. cbn [length] in Hf.
    destruct (join "," (p :: parts)) as [|c r] eqn:Hj; [done|].
    destruct Hst as (_ & Hc%N.eqb_neq & _). cbn [app]. rewrite Hc.
    specialize (Hel ltac:(by constructor) ltac:(done) f k ltac:(cbn [length] in *; lia)).
    cbn [app] in Hel. by rewrite Hel.
  - destruct depth as [|depth]; [done|]. rewrite dumps_at_dict in Hs. inv_res. apply val_ok_dict in Hok as [Hnd Hok].
    apply res_mapM_Ok in Ha.
    assert (Forall2 (fun kv p => exists y, p = member_text kv.1 y /\ reads depth kv.2 y) d a) as Hd.
    { clear -IH Hok Ha. induction Ha as [|[k v] p d ps Hp Hps]; [constructor|].
      inversion IH; inversion Hok; subst. constructor; [|auto]. unfold dumps_member in Hp.
      inv_res. simpl in *. eexists. split; [done|]. unfold item_ok in *. naive_solver. }
    split; [done|]. intros [|f] k Hf Hk; [lia|].
    destruct Hd as [|[key v] p d parts (y & -> & Hv) Hd]; [done|].
    cbn [scan_once app].
    change (ch "{" =? double_quote)%N with false. change (ch "{" =? ch "{")%N with true.
    cbn iota. change (item_separator compact_style) with (txt ",") in *.
    set (p := member_text _ y) in *.
    assert (exists r, join "," (p :: parts) = double_quote :: r) as [r Hj].
    { subst p. destruct parts; [by eexists|]. rewrite join_cons. by eexists. }
    pose proof (members_read depth ((key, v) :: d) (p :: parts)) as Hm.
    cbn [length] in Hf. rewrite length_app in Hf. cbn [length] in Hf.
    specialize (Hm ltac:(constructor; [by exists y|done]) ltac:(done) f [] k Hnd).
    rewrite Hj in Hm, Hf |- *. specialize (Hm ltac:(cbn [length] in *; lia)).
    rewrite <-app_assoc. cbn [app] in *.
    change (skip_ws (double_quote :: ?x)) with (double_quote :: x). cbn iota.
    change (double_quote =? ch "}")%N with false. cbn iota. by rewrite Hm.
Qed.

Lemma json_roundtrip `{Interpreter} v s :
  val_ok v -> json_dumps compact_style v = Ok s -> json_loads s = Ok v.
Proof.
  intros Hv Hs. destruct (dumps_at_reads nesting_limit v s Hv Hs) as [Hst Hscan].
  assert (starts_with [0xfeff]%N s = false \/ starts_with [0xfeff]%N s = true) as [Hb|Hb]
    by (destruct (starts_with _ s); auto).
  - unfold json_loads. rewrite Hb. unfold scan_document.
    rewrite <-(app_nil_r s) at 2. rewrite skip_ws_start by done.
    rewrite Hscan; [done|unfold json_fuel; lia|done].
  - exfalso. pose proof (Hscan (json_fuel s) [] ltac:(unfold json_fuel; lia) I) as Hbom.
    destruct s as [|c s]; [done|]. cbn [starts_with] in Hb. apply andb_true_iff in Hb as [Hc _].
    apply N.eqb_eq in Hc as <-. discriminate Hbom.
Qed.

(** ** What a document's value satisfies *)

Lemma drop_while_Forall (P : N -> Prop) p s : Forall P s -> Forall P (drop_while p s).
Proof. induction 1 as [|c s Hc Hs IH]; simpl; [done|]. case_if; auto. Qed.

Lemma skip_ws_valid s : valid_text s -> valid_text (skip_ws s).
Proof. apply drop_while_Forall. Qed.

Lemma span_digits_Forall (P : N -> Prop) s ds rest :
  span_digits s = (ds, rest) -> Forall P s -> Forall P rest.
Proof.
  revert ds rest. induction s as [|c s IH]; intros ds rest; simpl; [by intros [= _ <-]|].
  destruct (ascii_digit c); [|by intros [= _ <-]].
  destruct (span_digits s) as [d r]. intros [= _ <-] H%Forall_cons. naive_solver.
Qed.

Lemma span_exponent_Forall (P : N -> Prop) s e rest :
  span_exponent s = Some (e, rest) -> Forall P s -> Forall P rest.
Proof.
  destruct s as [|c r]; [done|]. cbn [span_exponent].
  destruct (_ || _)%bool; [|done]. destruct (take_sign r) as [neg r'] eqn:Hs.
  destruct (span_digits r') as [[|d ds] rest'] eqn:Hd; [done|]. intros [= _ <-].
  intros [_ Hr]%Forall_cons. apply (span_digits_Forall P) in Hd; [done|].
  unfold take_sign in Hs. destruct r as [|c' r]; [by injection Hs as _ <-|].
  apply Forall_cons in Hr as Hr'. repeat case_if; injection Hs as _ <-; naive_solver.
Qed.

Lemma span_number_Forall (P : N -> Prop) s v rest :
  span_number s = Some (v, rest) -> Forall P s ->
  Forall P rest /\ match v with NFloat f => float_valid f | _ => True end.
Proof.
  unfold span_number. destruct (take_minus s) as [neg t] eqn:Hm. intros H Hs.
  assert (Forall P t) as Ht.
  { unfold take_minus in Hm. destruct s; [by injection Hm as _ <-|].
    apply Forall_cons in Hs as Hs'.
    destruct (_ =? ch "-")%N; injection Hm as _ <-; naive_solver. }
  destruct (span_int_part t) as [ip s1] eqn:Hi.
  assert (Forall P s1) as H1.
  { unfold span_int_part in Hi. destruct t as [|c t]; [by injection Hi as _ <-|].
    destruct (c =? ch "0")%N; [injection Hi as _ <-; by apply Forall_cons in Ht as [_ ?]|].
    by eapply span_digits_Forall. }
  destruct ip as [|d ip]; [done|].
  destruct (span_json_fraction s1) as [fp s2] eqn:Hf.
  assert (Forall P s2) as H2.
  { unfold span_json_fraction in Hf. destruct s1 as [|c s1]; [by injection Hf as _ <-|].
    destruct (c =? ch ".")%N; [|by injection Hf as _ <-]. pose proof (Forall_inv_tail H1) as H1'.
    destruct (span_digits s1) as [[|d' ds] r] eqn:Hd; [by injection Hf as _ <-|].
    apply (span_digits_Forall P) in Hd; [|done]. by injection Hf as _ <-. }
  destruct (span_exponent s2) as [[e s3]|] eqn:He.
  - apply (span_exponent_Forall P) in He; [|done].
    destruct fp; simpl in H; injection H as <- <-; eauto using float_of_decimal_valid.
  - destruct fp; simpl in H; injection H as <- <-; eauto using float_of_decimal_valid.
Qed.

(** A scanner's result on a text of code points: its value satisfies [Q]. *)
Definition scan_sound {A} (Q : A -> Prop) (r : jres (A * text)) : Prop :=
  match r with JOk (a, rest) => Q a /\ valid_text rest | _ => True end.

Lemma scan_sound_bind {A B} (Q : A -> Prop) (R : B -> Prop) r (f : A * text -> jres (B * text)) :
  scan_sound Q r -> (forall a rest, Q a -> valid_text rest -> scan_sound R (f (a, rest))) ->
  scan_sound R (r ≫= f).
Proof. destruct r as [[a rest]| | |]; simpl; try done. intros [? ?] Hf. by apply Hf. Qed.

Lemma hex_value_bound c d : hex_value c = Some d -> (d < 16)%N.
Proof. unfold hex_value, digit_of. repeat case_match; naive_solver lia. Qed.

Lemma hex4_bound a b c d u : hex4 a b c d = Some u -> (u < 0x10000)%N.
Proof.
  unfold hex4.
  destruct (hex_value a) eqn:Ha, (hex_value b) eqn:Hb, (hex_value c) eqn:Hc,
    (hex_value d) eqn:Hd; try done. intros [= <-].
  apply hex_value_bound in Ha, Hb, Hc, Hd. lia.
Qed.

Lemma simple_escape_bound e x :
  simple_escape e = Some x -> (e < 0x110000)%N -> (x < 0x110000)%N.
Proof. unfold simple_escape. repeat case_if; naive_solver lia. Qed.

Lemma join_surrogates_bound hi lo :
  is_high_surrogate hi = true -> is_low_surrogate lo = true ->
  (join_surrogates hi lo < 0x110000)%N.
Proof. unfold is_high_surrogate, is_low_surrogate, in_range, join_surrogates. lia. Qed.

Lemma scan_string_sound b n s :
  length s <= n -> valid_text s -> scan_sound valid_text (scan_string b s).
Proof.
  revert s. induction n as [|n IH]; intros s Hn Hs.
  - destruct s; [done|simpl in Hn; lia].
  - assert (forall c s', length s' <= n -> (c < 0x110000)%N -> valid_text s' ->
      scan_sound valid_text (jcons c (scan_string b s'))) as Hrec.
    { intros c s' Hl Hc Hs'. unfold jcons. eapply scan_sound_bind; [by apply IH|].
      intros t rest Ht Hrest. split; [by constructor|done]. }
    destruct s as [|c r]; [done|]. cbn [scan_string].
    apply Forall_cons in Hs as Hs'. destruct Hs' as [Hc Hr].
    repeat first [done | break_goal]; subst;
      repeat match goal with H : Forall _ (_ :: _) |- _ => apply Forall_cons in H as [? H] end;
      repeat match goal with H : hex4 _ _ _ _ = Some _ |- _ => apply hex4_bound in H end;
      try solve [ split; [by constructor | done] ];
      (apply Hrec; [simpl in *; lia | | repeat (done || constructor)]).
    all: try lia.
    + repeat match goal with H : _ && _ = true |- _ => apply andb_true_iff in H as [H _] end.
      by apply join_surrogates_bound.
    + by eapply simple_escape_bound.
Qed.

Lemma scan_literal_sound s : valid_text s -> scan_sound val_ok (scan_literal s).
Proof.
  intros Hs. unfold scan_literal.
  repeat match goal with
  | |- context [starts_with ?p s] =>
      destruct (starts_with p s); [split; [done|by apply Forall_drop]|]
  end.
  unfold scan_number. destruct (span_number s) as [[v rest]|] eqn:E; [|done].
  destruct (span_number_Forall _ _ _ _ E Hs) as [Hrest Hv].
  destruct v; [|done]. by destruct (decide _).
Qed.

Lemma scan_sound_all fuel :
  (forall depth s, valid_text s -> scan_sound val_ok (scan_once fuel depth s)) /\
  (forall depth acc s, valid_text s -> dict_ok acc -> scan_sound dict_ok (scan_members fuel depth acc s)) /\
  (forall depth s, valid_text s -> scan_sound (Forall val_ok) (scan_elements fuel depth s)).
Proof.
  assert (forall c s, Forall (fun c => c < 0x110000)%N (c :: s) -> valid_text s) as Htl.
  { by intros c s [_ ?]%Forall_cons. }
  assert (dict_ok []) as Hnil by (split; constructor).
  induction fuel as [|f (IHo & IHm & IHe)]; [done|]. repeat split.
  - intros depth [|c r] Hs; [done|]. cbn [scan_once].
    apply Htl in Hs as Hr. apply skip_ws_valid in Hr as Hw.
    case_if; [|case_if; [|case_if; [|by apply scan_literal_sound]]].
    + eapply scan_sound_bind; [by eapply scan_string_sound|]. done.
    + destruct depth as [|depth]; [done|]. destruct (skip_ws r) as [|c' r']; [|case_if; [split; [by apply val_ok_dict|by eauto]|]].
      all: eapply scan_sound_bind; [by apply IHm|].
      all: intros d rest Hd Hrest; split; [by apply val_ok_dict|done].
    + destruct depth as [|depth]; [done|]. destruct (skip_ws r) as [|c' r']; [|case_if; [split; [done|by eauto]|]].
      all: eapply scan_sound_bind; [by apply IHe|].
      all: intros d rest Hd Hrest; split; [by apply val_ok_list|done].
  - intros depth acc [|q r] Hs Hacc; [done|]. cbn [scan_members].
    case_if; [|done].
    eapply scan_sound_bind; [by eapply scan_string_sound; eauto|]. intros k s1 Hk H1.
    apply skip_ws_valid in H1. destruct (skip_ws s1) as [|c s2]; [done|].
    case_if; [|done]. apply Htl, skip_ws_valid in H1.
    eapply scan_sound_bind; [by apply IHo|]. intros v s3 Hv H3.
    apply skip_ws_valid in H3. destruct (skip_ws s3) as [|c' s4]; [done|].
    apply Htl in H3. assert (dict_ok (dset k v acc)) by by apply dset_ok.
    case_if; [done|]. case_if; [|done]. apply IHm; [by apply skip_ws_valid|done].
  - intros depth s Hs. cbn [scan_elements].
    eapply scan_sound_bind; [by apply IHo|]. intros v s1 Hv H1.
    apply skip_ws_valid in H1. destruct (skip_ws s1) as [|c s2]; [done|].
    apply Htl in H1. case_if; [split; [by repeat constructor|done]|]. case_if; [|done].
    eapply scan_sound_bind; [by apply IHe, skip_ws_valid|].
    intros l rest Hl Hrest. split; [by constructor|done].
Qed.

(** The value of a document of code points is well formed. *)
Lemma json_loads_ok `{Interpreter} s v : valid_text s -> json_loads s = Ok v -> val_ok v.
Proof.
  intros Hs. unfold json_loads. case_if; [done|]. unfold scan_document.
  pose proof (proj1 (scan_sound_all (json_fuel s)) nesting_limit _ (skip_ws_valid _ Hs)) as Hg.
  destruct (scan_once _ _) as [[v' rest]| | |]; try done. simpl in *.
  destruct (skip_ws rest); [|done]. intros [= <-]. naive_solver.
Qed.

(** ** The text that [json_dumps] writes *)

Lemma valid_text_b s : forallb (fun c => c <? 0x110000)%N s = true -> valid_text s.
Proof.
  intros H. rewrite forallb_forall in H. apply Forall_forall. intros c Hc%list_elem_of_In.
  by apply N.ltb_lt, H.
Qed.

Lemma ascii_digit_valid c d : ascii_digit c = Some d -> (c < 0x110000)%N.
Proof. unfold ascii_digit, is_ascii_digit. case_if; [|done]. unfold in_range in *. lia. Qed.

Lemma span_digits_valid s ds rest :
  span_digits s = (ds, rest) -> valid_text rest -> valid_text s.
Proof.
  revert ds rest. induction s as [|c s IH]; intros ds rest; simpl; [constructor|].
  destruct (ascii_digit c) eqn:E; [|by intros [= _ <-]].
  destruct (span_digits s) as [d r]. intros [= _ <-] H. constructor; [|by eapply IH].
  by eapply ascii_digit_valid.
Qed.

Lemma ch_valid c a : (c =? ch a)%N = true -> (c < 0x110000)%N.
Proof. intros ->%N.eqb_eq. destruct a as [[] [] [] [] [] [] [] []]; done. Qed.

Lemma span_exponent_valid s e rest :
  span_exponent s = Some (e, rest) -> valid_text rest -> valid_text s.
Proof.
  destruct s as [|c r]; [done|]. cbn [span_exponent].
  destruct (_ || _)%bool eqn:Hc; [|done]. destruct (take_sign r) as [neg r'] eqn:Hs.
  destruct (span_digits r') as [[|d ds] rest'] eqn:Hd; [done|]. intros [= _ <-] Hv.
  apply span_digits_valid in Hd; [|done].
  constructor; [apply orb_true_iff in Hc as [?|?]; by eapply ch_valid|].
  unfold take_sign in Hs. destruct r as [|c' r]; [constructor|].
  destruct (c' =? ch "-")%N eqn:E1; [|destruct (c' =? ch "+")%N eqn:E2];
    injection Hs as <- <-; try done; constructor; eauto using ch_valid.
Qed.

Lemma span_number_valid s v : span_number s = Some (v, []) -> valid_text s.
Proof.
  unfold span_number. destruct (take_minus s) as [neg t] eqn:Hm. intros H.
  destruct (span_int_part t) as [ip s1] eqn:Hi. destruct ip as [|d ip]; [done|].
  destruct (span_json_fraction s1) as [fp s2] eqn:Hf.
  assert (valid_text s2) as H2.
  { destruct (span_exponent s2) as [[e s3]|] eqn:He.
    - eapply span_exponent_valid; [done|]. destruct fp; simpl in H; injection H as _ ->; constructor.
    - destruct fp; simpl in H; injection H as _ ->; constructor. }
  assert (valid_text s1) as H1.
  { unfold span_json_fraction in Hf. destruct s1 as [|c s1]; [constructor|].
    destruct (c =? ch ".")%N eqn:E; [|by injection Hf as _ <-].
    destruct (span_digits s1) as [[|d' ds] r] eqn:Hd; [by injection Hf as _ <-|].
    injection Hf as _ <-. constructor; [by eapply ch_valid|by eapply span_digits_valid]. }
  assert (valid_text t) as Ht.
  { unfold span_int_part in Hi. destruct t as [|c t]; [constructor|].
    destruct (c =? ch "0")%N eqn:E; [|by eapply span_digits_valid].
    injection Hi as _ _ <-. constructor; [by eapply ch_valid|done]. }
  unfold take_minus in Hm. destruct s as [|c s]; [constructor|].
  destruct (c =? ch "-")%N eqn:E; injection Hm as _ <-; [|done].
  constructor; eauto using ch_valid.
Qed.

Lemma hex_text_valid n c : valid_text (hex_text n c).
Proof.
  revert c. induction n as [|n IH]; intros c; [constructor|]. simpl.
  apply Forall_app. split; [apply IH|]. repeat constructor. unfold hex_digit.
  pose proof (N.mod_lt c 16). case_if; lia.
Qed.

Lemma escape_char_valid ascii c : (c < 0x110000)%N -> valid_text (escape_char ascii c).
Proof.
  intros Hc. assert (forall n, valid_text (escape_u n)) as Hu.
  { intros n. unfold escape_u. apply Forall_app. split; [by repeat constructor|].
    apply hex_text_valid. }
  unfold escape_char. repeat case_if; try apply Hu; try (by repeat constructor).
  apply Forall_app. split; apply Hu.
Qed.

Lemma json_string_valid ascii s : valid_text s -> valid_text (json_string ascii s).
Proof.
  intros Hs. constructor; [done|]. apply Forall_app. split; [|by repeat constructor].
  induction Hs; simpl; [constructor|]. apply Forall_app. split; [|done].
  by apply escape_char_valid.
Qed.

Lemma join_valid sep parts : valid_text sep -> Forall valid_text parts -> valid_text (join sep parts).
Proof.
  intros Hsep Hp. induction Hp as [|p parts Hp Hps IH]; [constructor|].
  destruct parts; [done|]. rewrite join_cons. by repeat (apply Forall_app; split).
Qed.

Lemma json_float_valid f : float_valid f -> valid_text (json_float f).
Proof.
  intros Hf. destruct f as [s|s| |s m e]; simpl.
  2,3: repeat case_if; by repeat constructor.
  all: by eapply span_number_valid, (float_text_reads _ Hf).
Qed.

Lemma dumps_at_valid style depth v s :
  valid_text (item_separator style) -> valid_text (key_separator style) ->
  val_ok v -> dumps_at style depth v = Ok s -> valid_text s.
Proof.
  intros Hi Hk. revert depth s.
  induction v as [|b|z|f|t|l IH|d IH] using pyval_nested_ind; intros depth s Hok Hs.
  - injection Hs as <-. by repeat constructor.
  - injection Hs as <-. destruct b; by repeat constructor.
  - destruct (int_text_scan z s [] Hs I) as [_ H].
    rewrite app_nil_r in H. unfold scan_number in H.
    destruct (span_number s) as [[n r]|] eqn:E; [|done]. destruct n; [|done].
    case_decide; [done|]. injection H as _ ->. by eapply span_number_valid.
  - injection Hs as <-. by apply json_float_valid.
  - injection Hs as <-. by apply json_string_valid.
  - destruct depth as [|depth]; [done|]. rewrite dumps_at_list in Hs. inv_res. apply val_ok_list in Hok.
    apply res_mapM_Ok in Ha. constructor; [done|]. apply Forall_app.
    split; [|by repeat constructor]. apply join_valid; [done|].
    clear -IH Hok Ha. induction Ha; inversion IH; inversion Hok; subst; constructor; eauto.
  - destruct depth as [|depth]; [done|]. rewrite dumps_at_dict in Hs. inv_res. apply val_ok_dict in Hok as [_ Hok].
    apply res_mapM_Ok in Ha. constructor; [done|]. apply Forall_app.
    split; [|by repeat constructor]. apply join_valid; [done|].
    clear -IH Hok Ha Hk. induction Ha as [|[k v] p d ps Hp Hps]; [constructor|].
    inversion IH; inversion Hok; subst. constructor; [|eauto]. unfold dumps_member in Hp.
    inv_res. unfold item_ok in *. simpl in *. destruct_and!.
    change (valid_text (json_string (ensure_ascii style) k ++ key_separator style ++ a)).
    repeat (apply Forall_app; split); [by apply json_string_valid|done|].
    match goal with H : forall depth s, val_ok v -> _ |- _ => by eapply H end.
Qed.

Lemma json_dumps_valid `{Interpreter} style v s :
  valid_text (item_separator style) -> valid_text (key_separator style) ->
  val_ok v -> json_dumps style v = Ok s -> valid_text s.
Proof. apply dumps_at_valid. Qed.

(** Decides the invariant of a concrete dict. *)
Ltac dict_ok_solve :=
  repeat lazymatch goal with
  | |- dict_ok _ => split
  | |- NoDup ?l =>
      refine (bool_decide_eq_true_1 (NoDup (A := text) l) _); vm_compute; reflexivity
  | |- Forall _ ?l => let l' := eval hnf in l in change l with l';
      lazymatch l' with [] => apply Forall_nil_2 | _ => apply Forall_cons_2 end
  | |- item_ok _ => split; cbn [fst snd]
  | |- valid_text _ => apply valid_text_b; vm_compute; reflexivity
  | |- val_ok (VDict _) => apply val_ok_dict
  | |- val_ok (VList _) => apply val_ok_list
  | |- val_ok (VFloat _) => vm_compute; reflexivity
  | |- val_ok (VStr _) => cbn [val_ok]
  | |- val_ok _ => exact I
  end.

(** ** Bytes: what [json.dumps(...).encode()] sends, [json.loads(body)] reads *)

Lemma detect_utf8 a b r :
  (0 < a)%N -> (a < 0x80)%N -> (0 < b)%N -> detect_encoding (a :: b :: r) = Utf8.
Proof.
  intros Ha Ha' Hb. unfold detect_encoding. cbn [starts_with].
  assert (0 =? a = false)%N as -> by lia. assert (0xff =? a = false)%N as -> by lia.
  assert (0xfe =? a = false)%N as -> by lia. assert (0xef =? a = false)%N as -> by lia.
  cbn [andb orb]. assert (a =? 0 = false)%N as -> by lia. assert (b =? 0 = false)%N as -> by lia.
  destruct r as [|c [|d r]]; done.
Qed.

Lemma json_bytes_roundtrip `{Interpreter} d s b :
  dict_ok d -> json_dumps compact_style (VDict d) = Ok s -> utf8_encode s = Ok b ->
  json_loads_bytes b = Ok (VDict d).
Proof.
  intros Hd Hs Hb. apply val_ok_dict in Hd as Hv.
  assert (valid_text s) as Hval.
  { apply (json_dumps_valid compact_style (VDict d)); [by apply valid_text_b|by apply valid_text_b|done|done]. }
  pose proof (utf8_roundtrip true s b Hval Hb) as Hrt.
  assert (exists c r, s = ch "{" :: c :: r /\ (c < 0x80)%N /\ (0 < c)%N) as (c & r & -> & Hc & Hc0).
  { rewrite json_dumps_dict in Hs. inv_res. apply res_mapM_Ok in Ha.
    destruct Ha as [|[k v] p d ps Hp Hps]; [exists (ch "}"), []; by repeat constructor|].
    unfold dumps_member in Hp. inv_res. exists double_quote.
    destruct ps; [|rewrite join_cons]; eexists; (split; [reflexivity|by repeat constructor]). }
  unfold json_loads_bytes, json_decode_bytes.
  assert (exists bs, byte_val <$> b = ch "{" :: c :: bs) as [bs Hbs].
  { cbn [utf8_encode] in Hb. change (is_surrogate (ch "{")) with false in Hb. cbn iota in Hb.
    assert (is_surrogate c = false) as Hsc by (unfold is_surrogate, in_range; lia).
    rewrite Hsc in Hb. inv_res. unfold utf8_char.
    assert (c <? 0x80 = true)%N as -> by lia. eexists. simpl.
    rewrite (byte_val_of c) by lia. reflexivity. }
  rewrite Hbs in *. rewrite detect_utf8 by done.
  rewrite Hrt. by apply (json_roundtrip (VDict d)).
Qed.
