(* ===== verification/Event.v ===== *)
(** * Events, parse errors and the value coercions of stream_handler/

    The two dataclasses of [stream_handler/ls1000_parser.py] and the static
    coercions [_parse_int], [_parse_float] and [_first_str], which the LS-1000
    parser and the JSON normalizer each carry a copy of. *)

From S2P Require Export Json.

(** An [int] result of the code may be a [bool]: [isinstance(True, int)] holds,
    and the value is returned as it is. *)
Inductive pyint :=
  | IInt (z : Z)
  | IBool (b : bool).

#[export] Instance pyint_eq_dec : EqDecision pyint.
Proof. solve_decision. Defined.

Definition val_of_pyint (i : pyint) : pyval :=
  match i with IInt z => VInt z | IBool b => VBool b end.

(** The number an int or a bool counts as in arithmetic. *)
Definition pyint_Z (i : pyint) : Z :=
  match i with IInt z => z | IBool b => if b then 1%Z else 0%Z end.

Record NormalizedEvent := {
  origin : text;
  tag_id : text;
  ts_utc_ms : pyint;
  ev_x : option pyfloat;
  ev_y : option pyfloat;
  ev_z : option pyfloat;
  layer : option pyint;
  area : option text;
  status : option text;
  source_type : text;
  raw_message : text;
  lng : option pyfloat;
  lat : option pyfloat;
  parse_warnings : list text;
}.

Record ParseError := {
  pe_code : text;
  pe_message : text;
  pe_raw_message : text;
  pe_source_type : text;
}.

Definition opt_val {A} (f : A -> pyval) (o : option A) : pyval :=
  match o with Some a => f a | None => VNone end.

(** [dataclasses.asdict(event)]: the fields in their declared order. *)
Definition asdict (e : NormalizedEvent) : pydict :=
  [ (txt "origin", VStr (origin e));
    (txt "tag_id", VStr (tag_id e));
    (txt "ts_utc_ms", val_of_pyint (ts_utc_ms e));
    (txt "x", opt_val VFloat (ev_x e));
    (txt "y", opt_val VFloat (ev_y e));
    (txt "z", opt_val VFloat (ev_z e));
    (txt "layer", opt_val val_of_pyint (layer e));
    (txt "area", opt_val VStr (area e));
    (txt "status", opt_val VStr (status e));
    (txt "source_type", VStr (source_type e));
    (txt "raw_message", VStr (raw_message e));
    (txt "lng", opt_val VFloat (lng e));
    (txt "lat", opt_val VFloat (lat e));
    (txt "parse_warnings", VList (VStr <$> parse_warnings e)) ].

(** ** Coercions *)

Definition as_none {A} (m : res A) : res (option A) :=
  try_except (Some <$> m) [ValueError] (fun _ => Ok None).

Section Coercions.
Context `{Interpreter}.

(** [LS1000Parser._parse_int] ([hex = true]: a [0x] text is read in base 16)
    and [JsonStreamNormalizer._parse_int] ([hex = false]). *)
Definition parse_int_gen (hex : bool) (value : pyval) : res (option pyint) :=
  match value with
  | VNone => Ok None
  | VInt z => Ok (Some (IInt z))
  | VBool b => Ok (Some (IBool b))
  | VFloat f => z ← int_of_float f; Ok (Some (IInt z))
  | VStr s =>
      let t := strip s in
      match t with
      | [] => Ok None
      | _ =>
          if hex && starts_with (txt "0x") (lower t)
          then as_none (IInt <$> py_int 16 t)
          else as_none (IInt <$> py_int 10 t)
      end
  | VList _ | VDict _ => Ok None
  end.

Definition parse_float (value : pyval) : res (option pyfloat) :=
  match value with
  | VNone => Ok None
  | VInt z => Some <$> float_of_int z
  | VBool b => Some <$> float_of_int (if b then 1 else 0)
  | VFloat f => Ok (Some f)
  | VStr s =>
      match strip s with
      | [] => Ok None
      | t => as_none (py_float t)
      end
  | VList _ | VDict _ => Ok None
  end.

(** [_first_str(obj, *keys)] *)
Fixpoint first_str (obj : pydict) (keys : list text) : res (option text) :=
  match keys with
  | [] => Ok None
  | key :: rest =>
      match dget_none key obj with
      | VNone => first_str obj rest
      | value =>
          s ← py_str value;
          match strip s with
          | [] => first_str obj rest
          | t => Ok (Some t)
          end
      end
  end.
End Coercions.
