(* ===== verification/TextFacts.v ===== *)
(** * Facts on text and on the numeric constructors

    Stripping, splitting and joining; [int(s)] and [float(s)] raise nothing but
    [ValueError]; every match of the coordinate expression is a float. *)

From S2P Require Export Event.

(** ** strip *)

Lemma drop_while_fix p s :
  match s with c :: _ => p c = false | [] => True end -> drop_while p s = s.
Proof. destruct s as [|c s]; simpl; [done|]. by intros ->. Qed.

Lemma drop_while_head p s :
  match drop_while p s with c :: _ => p c = false | [] => True end.
Proof.
  induction s as [|c s IH]; simpl; [done|]. destruct (p c) eqn:E; [done|]. done.
Qed.

Lemma drop_while_none p s : forallb (fun c => negb (p c)) s = true -> drop_while p s = s.
Proof.
  destruct s as [|c s]; simpl; [done|]. by intros [->%negb_true_iff _]%andb_true_iff.
Qed.

Lemma drop_while_suffix p s : exists l, s = l ++ drop_while p s.
Proof.
  induction s as [|c s [l IH]]; simpl; [by exists []|].
  destruct (p c); [|by exists []]. exists (c :: l). simpl. by rewrite <-IH.
Qed.

Lemma strip_right_last p s :
  match reverse (strip_right p s) with c :: _ => p c = false | [] => True end.
Proof. unfold strip_right. rewrite reverse_involutive. apply drop_while_head. Qed.

Lemma strip_right_prefix p s : exists l, s = strip_right p s ++ l.
Proof.
  unfold strip_right. destruct (drop_while_suffix p (reverse s)) as [l Hl].
  exists (reverse l). rewrite <-reverse_app, <-Hl. by rewrite reverse_involutive.
Qed.

Lemma strip_right_fix p s :
  match reverse s with c :: _ => p c = false | [] => True end -> strip_right p s = s.
Proof. intros H. unfold strip_right. by rewrite drop_while_fix, reverse_involutive. Qed.

Lemma strip_head s : match strip s with c :: _ => is_space c = false | [] => True end.
Proof.
  unfold strip. destruct (strip_right_prefix is_space (drop_while is_space s)) as [l Hl].
  pose proof (drop_while_head is_space s) as H.
  destruct (strip_right is_space _) as [|c r]; [done|]. by rewrite Hl in H.
Qed.

Lemma strip_last s : match reverse (strip s) with c :: _ => is_space c = false | [] => True end.
Proof. apply strip_right_last. Qed.

Lemma strip_fix s :
  match s with c :: _ => is_space c = false | [] => True end ->
  match reverse s with c :: _ => is_space c = false | [] => True end -> strip s = s.
Proof. intros H1 H2. unfold strip. rewrite drop_while_fix by done. by apply strip_right_fix. Qed.

(** [s.strip().strip() == s.strip()] *)
Lemma strip_idem s : strip (strip s) = strip s.
Proof. apply strip_fix; [apply strip_head|apply strip_last]. Qed.

Definition no_space (s : text) : bool := forallb (fun c => negb (is_space c)) s.

Lemma strip_no_space s : no_space s = true -> strip s = s.
Proof.
  intros H. unfold no_space in H. rewrite forallb_forall in H.
  assert (forall c, c ∈ s -> is_space c = false) as Hs.
  { intros c Hc%list_elem_of_In. by apply negb_true_iff, H. }
  apply strip_fix.
  - destruct s as [|c s]; [done|]. by apply Hs, elem_of_cons; left.
  - destruct (reverse s) as [|c r] eqn:E; [done|]. apply Hs.
    rewrite <-elem_of_reverse, E. by apply elem_of_cons; left.
Qed.

(** ** split and join *)

Definition lacks (c : N) (s : text) : Prop := has_char c s = false.

Lemma lacks_cons c d s : lacks c (d :: s) <-> (c =? d)%N = false /\ lacks c s.
Proof. unfold lacks, has_char. simpl. apply orb_false_iff. Qed.

Lemma split_once_app sep a b : lacks sep a -> split_once sep (a ++ sep :: b) = (a, b).
Proof.
  induction a as [|c a IH]; intros Ha; simpl; [by rewrite N.eqb_refl|].
  apply lacks_cons in Ha as [Hc Ha]. rewrite N.eqb_sym, Hc. by rewrite IH.
Qed.

Lemma has_char_app_sep sep a b : has_char sep (a ++ sep :: b) = true.
Proof.
  unfold has_char. rewrite existsb_app. simpl. rewrite N.eqb_refl. by rewrite orb_true_r.
Qed.

Lemma split_on_lacks sep a : lacks sep a -> split_on sep a = [a].
Proof.
  induction a as [|c a IH]; intros Ha; simpl; [done|].
  apply lacks_cons in Ha as [Hc Ha]. rewrite N.eqb_sym, Hc. by rewrite IH.
Qed.

Lemma split_on_app sep a b :
  lacks sep a -> split_on sep (a ++ sep :: b) = a :: split_on sep b.
Proof.
  induction a as [|c a IH]; intros Ha; simpl; [by rewrite N.eqb_refl|].
  apply lacks_cons in Ha as [Hc Ha]. rewrite N.eqb_sym, Hc. by rewrite IH.
Qed.

(** [sep.join(parts).split(sep) == parts], for parts without the separator. *)
Lemma split_on_join sep parts :
  parts ≠ [] -> Forall (lacks sep) parts -> split_on sep (join [sep] parts) = parts.
Proof.
  intros Hne H. induction H as [|p parts Hp Hps IH]; [done|].
  destruct parts as [|q r]; [by apply split_on_lacks|].
  change (join [sep] (p :: q :: r)) with (p ++ sep :: join [sep] (q :: r)).
  by rewrite split_on_app, IH.
Qed.

Lemma split_on_nonempty sep s : split_on sep s ≠ [].
Proof.
  destruct s as [|c s]; simpl; [done|].
  destruct (c =? sep)%N; [done|]. by destruct (split_on sep s).
Qed.

(** ** Exceptions of the numeric constructors *)

Lemma py_int_raises base s e : py_int base s = Raise e -> exn_cls e = ValueError.
Proof.
  unfold py_int, invalid_int, raise. destruct (take_sign _) as [neg t].
  destruct (scan_digits _ _ _) as [[ds rest]|]; [|by intros [= <-]].
  destruct (_ && _); [by intros [= <-]|].
  destruct (drop_while _ rest); [done|by intros [= <-]].
Qed.

Lemma py_float_raises s e : py_float s = Raise e -> exn_cls e = ValueError.
Proof.
  unfold py_float. destruct (drop_underscores _ _) as [t|]; [|by intros [= <-]].
  destruct (take_sign t) as [neg u].
  destruct (span_decimal neg u) as [[f [|c r]]|]; [done|..];
    destruct (inf_or_nan neg u); try done; by intros [= <-].
Qed.

Lemma as_none_returns {A} (m : res A) :
  (forall e, m = Raise e -> exn_cls e = ValueError) -> returns (as_none m).
Proof.
  intros H. unfold as_none, try_except. destruct m as [a|e]; simpl; [by eexists|].
  rewrite (H e) by done. by eexists.
Qed.

Lemma fmap_raise {A B} (f : A -> B) (m : res A) e : f <$> m = Raise e -> m = Raise e.
Proof. by destruct m as [|e']; intros [= <-]. Qed.

Section Coercions.
Context `{Interpreter}.

(** Neither coercion raises on a text. *)
Lemma parse_int_text hex s : returns (parse_int_gen hex (VStr s)).
Proof.
  unfold parse_int_gen. destruct (strip s); [by eexists|].
  destruct (_ && _); apply as_none_returns; intros e He%fmap_raise; by eapply py_int_raises.
Qed.

Lemma parse_float_text s : returns (parse_float (VStr s)).
Proof.
  unfold parse_float. destruct (strip s); [by eexists|].
  apply as_none_returns. intros e He. by eapply py_float_raises.
Qed.

(** What the coercions raise on any value of a document. *)
Lemma float_of_int_raises z e : float_of_int z = Raise e -> exn_cls e = OverflowError.
Proof. unfold float_of_int. repeat case_match; try done; by intros [= <-]. Qed.

Lemma int_of_float_raises f e :
  int_of_float f = Raise e -> exn_cls e = OverflowError \/ exn_cls e = ValueError.
Proof. unfold int_of_float. repeat case_match; try done; intros [= <-]; auto. Qed.

Lemma parse_int_raises hex v e :
  parse_int_gen hex v = Raise e -> exn_cls e = OverflowError \/ exn_cls e = ValueError.
Proof.
  destruct v as [|b|z|f|s|l|d]; try done.
  - simpl. intros [He|(a & _ & He)]%bind_Raise; [by eapply int_of_float_raises|done].
  - intros He. destruct (parse_int_text hex s) as [a Ha]. by rewrite Ha in He.
Qed.

Lemma parse_float_raises v e : parse_float v = Raise e -> exn_cls e = OverflowError.
Proof.
  destruct v as [|b|z|f|s|l|d]; try done.
  - simpl. intros He%fmap_raise. by eapply float_of_int_raises.
  - simpl. intros He%fmap_raise. by eapply float_of_int_raises.
  - intros He. destruct (parse_float_text s) as [a Ha]. by rewrite Ha in He.
Qed.

(** [str(v)] fails on an integer beyond the digit bound, and on a container that is
    nested too deep. *)
Definition container (v : pyval) : Prop :=
  match v with VList _ | VDict _ => True | _ => False end.

Definition text_failure (v : pyval) (e : exn) : Prop :=
  exn_cls e = ValueError \/ exn_cls e = RecursionError /\ container v.

Lemma repr_at_raises v : forall depth e, repr_at depth v = Raise e -> text_failure v e.
Proof.
  unfold text_failure.
  induction v as [|b|z|f|s|l IH|d IH] using pyval_nested_ind; intros depth e; try done.
  - simpl. unfold int_text. case_decide; [intros [= <-]; by left|done].
  - simpl. intros [He|(a & _ & He)]%bind_Raise; [|done].
    induction IH as [|x l Hx _ IHl]; [done|].
    apply bind_Raise in He as [He|(y & _ & He)].
    { destruct depth; [injection He as <-; by right|]. apply Hx in He. simpl in *. tauto. }
    apply bind_Raise in He as [He|(ys & _ & He)]; [by apply IHl|done].
  - simpl. intros [He|(a & _ & He)]%bind_Raise; [|done].
    induction IH as [|[k x] d Hx _ IHd]; [done|].
    apply bind_Raise in He as [He|(y & _ & He)].
    { destruct depth; [injection He as <-; by right|]. apply Hx in He. simpl in *. tauto. }
    apply bind_Raise in He as [He|(ys & _ & He)]; [by apply IHd|done].
Qed.

Lemma py_str_raises v e : py_str v = Raise e -> text_failure v e.
Proof. destruct v; try done; apply repr_at_raises. Qed.
End Coercions.
