(* ===== verification/Ls1000.v ===== *)
(** * The LS-1000 protocol parser: [stream_handler/ls1000_parser.py]

    [Ls1000.parse_message] is [LS1000Parser.parse_message]; the definitions keep
    the method names.  A Python tuple [(event, error)] of two optionals stays a
    pair of options, so that "exactly one of them" is a theorem. *)

From S2P Require Export Event.

Module Ls1000.

Definition result : Type := option NormalizedEvent * option ParseError.

Definition BASE_TYPES : list text := [txt "display"; txt "status1"; txt "status2"; txt "gpsposi"].
Definition UNSUPPORTED_TYPES : list text := [txt "warning"; txt "summary"; txt "rawdata"].
Definition JSON_MARKERS : list text :=
  [txt "devid"; txt "seq"; txt "samples"; txt "position"].

Definition text_in (t : text) (l : list text) : bool := existsb (text_eqb t) l.

(** ** [_COORD_RE.findall]: the expression [[-+]?\d+(?:\.\d+)?] *)

Fixpoint span_decimals (s : text) : text * text :=
  match s with
  | c :: r => if is_decimal c then let '(a, b) := span_decimals r in (c :: a, b)
              else ([], s)
  | [] => ([], [])
  end.

Definition coord_sign (s : text) : text * text :=
  match s with
  | c :: r => if (c =? ch "-")%N || (c =? ch "+")%N then ([c], r) else ([], s)
  | [] => ([], [])
  end.

Definition coord_fraction (s : text) : text * text :=
  match s with
  | c :: r => if (c =? ch ".")%N then
                match span_decimals r with
                | ([], _) => ([], s)
                | (f, rest) => (c :: f, rest)
                end
              else ([], s)
  | [] => ([], [])
  end.

(** The match at the head of the text, and the text after it. *)
Definition coord_match (s : text) : option (text * text) :=
  let '(sg, s1) := coord_sign s in
  match span_decimals s1 with
  | ([], _) => None
  | (ip, s2) => let '(fp, s3) := coord_fraction s2 in Some (sg ++ ip ++ fp, s3)
  end.

Fixpoint findall_fuel (fuel : nat) (s : text) : list text :=
  match fuel, s with
  | O, _ | _, [] => []
  | S f, _ :: r =>
      match coord_match s with
      | Some (m, rest) => m :: findall_fuel f rest
      | None => findall_fuel f r
      end
  end.

Definition coord_findall (s : text) : list text := findall_fuel (length s) s.

(** ** Helpers *)

Definition error_result (raw source code message : text) : result :=
  (None, Some {| pe_code := code; pe_message := message; pe_raw_message := raw;
                 pe_source_type := source |}).

(** [_err] *)
Definition err (raw source code message : text) : res result :=
  Ok (error_result raw source code message).

(** [tokens[i]] *)
Definition token (tokens : list text) (i : nat) : res text :=
  match tokens !! i with Some t => Ok t | None => raise IndexError "list index out of range" end.

(** [_safe_token] *)
Definition safe_token (tokens : list text) (index : nat) : option text :=
  match tokens !! index with
  | None => None
  | Some t => match strip t with [] => None | t' => Some t' end
  end.

Definition xyz : Type := option pyfloat * option pyfloat * option pyfloat.

Section Parser.
Context `{Interpreter}.

Definition parse_int (value : pyval) : res (option pyint) := parse_int_gen true value.

(** [_first_int], [_first_float]: [key in obj] guards the lookup. *)
Fixpoint first_int (obj : pydict) (keys : list text) : res (option pyint) :=
  match keys with
  | [] => Ok None
  | key :: rest =>
      if dhas key obj then
        v ← parse_int (dget_none key obj);
        match v with Some i => Ok (Some i) | None => first_int obj rest end
      else first_int obj rest
  end.

Fixpoint first_float (obj : pydict) (keys : list text) : res (option pyfloat) :=
  match keys with
  | [] => Ok None
  | key :: rest =>
      if dhas key obj then
        v ← parse_float (dget_none key obj);
        match v with Some f => Ok (Some f) | None => first_float obj rest end
      else first_float obj rest
  end.

(** [_extract_xyz_from_tokens], the two stages of its body *)
Definition xyz_from_fields (tokens : list text) (start : nat) : res xyz :=
  if decide (start + 3 <= length tokens) then
    t0 ← token tokens start; x ← parse_float (VStr t0);
    t1 ← token tokens (start + 1); y ← parse_float (VStr t1);
    t2 ← token tokens (start + 2); z ← parse_float (VStr t2);
    Ok (x, y, z)
  else Ok (None, None, None).

Definition xyz_from_pattern (tokens : list text) (start : nat) : res xyz :=
  if decide (start < length tokens) then
    t ← token tokens start;
    match coord_findall t with
    | c0 :: c1 :: c2 :: _ =>
        x ← py_float c0; y ← py_float c1; z ← py_float c2;
        Ok (Some x, Some y, Some z)
    | _ => Ok (None, None, None)
    end
  else Ok (None, None, None).

Definition extract_xyz_from_tokens (tokens : list text) (start : nat) : res xyz :=
  p ← xyz_from_fields tokens start;
  match p with
  | (Some x, Some y, Some z) => Ok (Some x, Some y, Some z)
  | _ => xyz_from_pattern tokens start
  end.

(** [_extract_xyz_from_json] *)
Definition xyz_top_level (obj : pydict) : res xyz :=
  x ← first_float obj [txt "x"];
  y ← first_float obj [txt "y"];
  z ← first_float obj [txt "z"];
  Ok (x, y, z).

Definition extract_xyz_from_json (obj : pydict) : res xyz :=
  match dget_none "position" obj with
  | VDict position =>
      x ← parse_float (dget_none "x" position);
      y ← parse_float (dget_none "y" position);
      z ← parse_float (dget_none "z" position);
      match x, y with
      | Some _, Some _ => Ok (x, y, z)
      | _, _ => xyz_top_level obj
      end
  | _ => xyz_top_level obj
  end.

(** [_is_ls1000_json] *)
Definition is_ls1000_json (obj : pydict) : bool :=
  if negb (existsb (fun marker => dhas marker obj) JSON_MARKERS) then false
  else match dget_none "position" obj with
       | VNone | VDict _ =>
           match dget_none "samples" obj with
           | VNone | VList _ => true
           | _ => false
           end
       | _ => false
       end.

(** ** One method per message type *)

Definition event (raw tag : text) (ts : pyint) (p : xyz) (lay : option pyint)
    (ar st : option text) (src : text) (lo la : option pyfloat) : result :=
  let '(x, y, z) := p in
  (Some {| origin := "ls-1000"; tag_id := tag; ts_utc_ms := ts;
           ev_x := x; ev_y := y; ev_z := z; layer := lay; area := ar; status := st;
           source_type := src; raw_message := raw; lng := lo; lat := la;
           parse_warnings := [] |}, None).

Definition parse_display (raw : text) (tokens : list text) : res result :=
  if decide (length tokens < 5) then
    err raw "display" "invalid_payload" "display requires at least 5 fields"
  else
    tag ← token tokens 1;
    t3 ← token tokens 3;
    ts ← parse_int (VStr t3);
    match ts with
    | None => err raw "display" "invalid_timestamp" "Invalid TIMESTAMP field"
    | Some ts =>
        t4 ← token tokens 4;
        lay ← parse_int (VStr t4);
        p ← extract_xyz_from_tokens tokens 5;
        let ar := match p with (None, _, _) => safe_token tokens 6 | _ => None end in
        Ok (event raw tag ts p lay ar None "display" None None)
    end.

Definition parse_status1 (raw : text) (tokens : list text) : res result :=
  if decide (length tokens < 6) then
    err raw "status1" "invalid_payload" "status1 requires at least 6 fields"
  else
    tag ← token tokens 2;
    t3 ← token tokens 3;
    ts ← parse_int (VStr t3);
    match ts with
    | None => err raw "status1" "invalid_timestamp" "Invalid TIMESTAMP field"
    | Some ts =>
        t5 ← token tokens 5;
        lay ← parse_int (VStr t5);
        Ok (event raw tag ts (None, None, None) lay None (safe_token tokens 7)
              "status1" None None)
    end.

Definition parse_status2 (raw : text) (tokens : list text) : res result :=
  if decide (length tokens < 4) then
    err raw "status2" "invalid_payload" "status2 requires at least 4 fields"
  else
    tag ← token tokens 1;
    t3 ← token tokens 3;
    ts ← parse_int (VStr t3);
    match ts with
    | None => err raw "status2" "invalid_timestamp" "Invalid TIMESTAMP field"
    | Some ts =>
        lay ← (if decide (4 < length tokens)
               then t4 ← token tokens 4; parse_int (VStr t4) else Ok None);
        Ok (event raw tag ts (None, None, None) lay None None "status2" None None)
    end.

Definition parse_gpsposi (raw : text) (tokens : list text) : res result :=
  if decide (length tokens < 7) then
    err raw "gpsposi" "invalid_payload" "gpsposi requires at least 7 fields"
  else
    tag ← token tokens 1;
    t3 ← token tokens 3;
    ts ← parse_int (VStr t3);
    match ts with
    | None => err raw "gpsposi" "invalid_timestamp" "Invalid TIMESTAMP field"
    | Some ts =>
        t4 ← token tokens 4;
        lay ← parse_int (VStr t4);
        t5 ← token tokens 5;
        lo ← parse_float (VStr t5);
        t6 ← token tokens 6;
        la ← parse_float (VStr t6);
        z ← (if decide (7 < length tokens)
             then t7 ← token tokens 7; parse_float (VStr t7) else Ok None);
        match lo, la with
        | Some _, Some _ => Ok (event raw tag ts (None, None, z) lay None None "gpsposi" lo la)
        | _, _ => err raw "gpsposi" "invalid_coordinates" "Invalid lng/lat values"
        end
    end.

Definition TAG_KEYS : list text :=
  [txt "tag_id"; txt "devid"; txt "dev_id"; txt "tag"; txt "id"].
Definition TS_KEYS : list text := [txt "ts_utc_ms"; txt "timestamp"; txt "ts"].
Definition LNG_KEYS : list text := [txt "lng"; txt "lon"; txt "longitude"].
Definition LAT_KEYS : list text := [txt "lat"; txt "latitude"].
Definition LAYER_KEYS : list text := [txt "layer"; txt "layid"; txt "floor"].

(** The part of [_parse_json] after the document was decoded. *)
Definition parse_json_object (raw : text) (obj : pydict) : res result :=
  if negb (is_ls1000_json obj) then
    err raw "json" "unsupported_json_payload"
      "JSON payload does not match LS-1000 markers"
  else
    tag ← first_str obj TAG_KEYS;
    match tag with
    | None => err raw "json" "missing_field" "Missing tag id in JSON payload"
    | Some tag =>
        ts ← first_int obj TS_KEYS;
        match ts with
        | None => err raw "json" "missing_field" "Missing timestamp in JSON payload"
        | Some ts =>
            p ← extract_xyz_from_json obj;
            lo ← first_float obj LNG_KEYS;
            la ← first_float obj LAT_KEYS;
            lay ← first_int obj LAYER_KEYS;
            st ← first_str obj [txt "status"];
            ar ← first_str obj [txt "area"];
            Ok (event raw tag ts p lay ar st "json" lo la)
        end
    end.

(** [_parse_json]: only a [JSONDecodeError] is caught; a value that is not a
    dict would have no [get]. *)
Definition parse_json (raw_message raw : text) : res result :=
  match json_loads raw with
  | Raise e =>
      if exn_isinstance (exn_cls e) JSONDecodeError then
        err raw_message "json" "invalid_json" (txt "Invalid JSON: " ++ exn_msg e)
      else Raise e
  | Ok (VDict obj) => parse_json_object raw_message obj
  | Ok _ => raise AttributeError "get"
  end.

Definition quoted (a t b : text) : text := a ++ t ++ b.

(** The tail of [parse_message], once the type and the tokens are known. *)
Definition dispatch (raw_message src : text) (tokens : list text) : res result :=
  if text_eqb src "display" then parse_display raw_message tokens
  else if text_eqb src "status1" then parse_status1 raw_message tokens
  else if text_eqb src "status2" then parse_status2 raw_message tokens
  else parse_gpsposi raw_message tokens.

Definition nonempty (t : text) : bool := match t with [] => false | _ => true end.

Definition parse_message (raw_message : text) : res result :=
  let raw := strip raw_message in
  if negb (nonempty raw) then err raw_message "unknown" "empty_message" "Message is empty"
  else if starts_with (txt "{") raw then parse_json raw_message raw
  else if negb (has_char (ch ":") raw) then
    err raw_message "unknown" "invalid_format" "Expected '<type>:<payload>' format"
  else
    let '(type_name, payload) := split_once (ch ":") raw in
    let src := lower (strip type_name) in
    if text_in src UNSUPPORTED_TYPES then
      err raw_message src "unsupported_message_type"
        (quoted "Message type '" src "' is not included in MVP")
    else if negb (text_in src BASE_TYPES) then
      err raw_message src "unknown_message_type" (quoted "Unknown message type '" src "'")
    else
      let tokens := strip <$> split_on (ch ",") payload in
      if negb (existsb nonempty tokens) then
        err raw_message src "invalid_payload" "Payload is empty"
      else dispatch raw_message src tokens.
End Parser.

End Ls1000.
