(* ===== verification/CoordFacts.v ===== *)
(** * The coordinate expression of the LS-1000 parser

    Every match of [_COORD_RE] is an argument that [float] accepts, in any decimal
    system of Unicode: the pattern branch of [_extract_xyz_from_tokens] cannot
    raise. *)

From S2P Require Export TextFacts Ls1000 FloatFacts.

Lemma find_decimal_spec zeros c d :
  find_decimal zeros c = Some d -> is_digit d /\ exists z, z ∈ zeros /\ c = (z + d)%N.
Proof.
  induction zeros as [|z zeros IH]; simpl; [done|].
  destruct (in_range z (z + 9) c) eqn:E.
  - intros [= <-]. unfold in_range, is_digit in *. split; [lia|].
    exists z. split; [by apply elem_of_cons; left|lia].
  - intros (Hd & z' & Hz & ->)%IH. split; [done|]. exists z'. split; [|done].
    by apply elem_of_cons; right.
Qed.

Definition digit_list : list N := [0; 1; 2; 3; 4; 5; 6; 7; 8; 9]%N.

Lemma digit_list_spec d : is_digit d -> d ∈ digit_list.
Proof.
  unfold is_digit, digit_list. intros Hd.
  assert (d = 0 \/ d = 1 \/ d = 2 \/ d = 3 \/ d = 4 \/ d = 5 \/ d = 6 \/ d = 7 \/ d = 8
          \/ d = 9)%N as H by lia. set_solver.
Qed.

(** A decimal code point is no space, and an ASCII one is its digit character. *)
Definition decimal_fact (c d : N) : bool :=
  negb (is_space c) && (negb (c <? 128)%N || (c =? digit_char d)%N).

Lemma decimal_facts :
  forallb (fun z => forallb (fun d => decimal_fact (z + d)%N d) digit_list) decimal_zeros = true.
Proof. vm_compute. reflexivity. Qed.

Lemma decimal_value_spec c d :
  decimal_value c = Some d ->
  is_digit d /\ is_space c = false /\ ((c < 128)%N -> c = digit_char d).
Proof.
  intros (Hd & z & Hz & ->)%find_decimal_spec. split; [done|].
  pose proof decimal_facts as H. rewrite forallb_forall in H.
  specialize (H z ltac:(by apply list_elem_of_In)). rewrite forallb_forall in H.
  specialize (H d ltac:(by apply list_elem_of_In, digit_list_spec)).
  unfold decimal_fact in H. apply andb_true_iff in H as [Hs Ha].
  split; [by apply negb_true_iff|]. lia.
Qed.

(** ** The image of a match under the numeral normalisation of [float] *)

Definition coord_char (c : N) : Prop :=
  is_decimal c = true \/ c = ch "+" \/ c = ch "-" \/ c = ch ".".

Definition coord_image (c : N) : N :=
  match decimal_value c with Some d => digit_char d | None => c end.

Lemma ascii_numeral_coord m :
  Forall coord_char m -> ascii_numeral m = coord_image <$> m.
Proof.
  intros Hm. unfold ascii_numeral. destruct (is_ascii m) eqn:Ha.
  - rewrite <-(list_fmap_id m) at 1. apply list_fmap_ext. intros i c Hi%list_elem_of_lookup_2.
    unfold is_ascii in Ha. rewrite forallb_forall in Ha.
    specialize (Ha c ltac:(by apply list_elem_of_In)). apply N.ltb_lt in Ha.
    unfold coord_image. destruct (decimal_value c) as [d|] eqn:E; [|done].
    apply decimal_value_spec in E as (_ & _ & E). by apply E.
  - apply list_fmap_ext. intros i c Hi%list_elem_of_lookup_2.
    rewrite Forall_forall in Hm. specialize (Hm c Hi). unfold coord_image.
    destruct Hm as [Hm| [-> | [-> | ->]]]; [|reflexivity..].
    unfold is_decimal in Hm. destruct (decimal_value c) as [d|] eqn:E; [|done].
    apply decimal_value_spec in E as (Hd & Hs & Ha'). rewrite Hs.
    destruct (N.ltb_spec c 127); [|done]. apply Ha'. lia.
Qed.

Lemma span_decimals_spec s a b :
  Ls1000.span_decimals s = (a, b) ->
  s = a ++ b /\ exists ds, Forall is_digit ds /\ coord_image <$> a = digit_char <$> ds /\
    Forall coord_char a /\ length ds = length a.
Proof.
  revert a b. induction s as [|c s IH]; intros a b; simpl.
  - intros [= <- <-]. split; [done|]. exists []. by repeat constructor.
  - destruct (is_decimal c) eqn:Ec.
    + destruct (Ls1000.span_decimals s) as [a' b']. intros [= <- <-].
      destruct (IH _ _ eq_refl) as (-> & ds & Hds & Hmap & Hch & Hlen). split; [done|].
      pose proof Ec as Ec'. unfold is_decimal in Ec'.
      destruct (decimal_value c) as [d|] eqn:E; [|done].
      exists (d :: ds). apply decimal_value_spec in E as Hd. destruct Hd as [Hd _].
      split; [by constructor|]. rewrite !fmap_cons. split.
      * unfold coord_image at 1. rewrite E. by rewrite Hmap.
      * split; [constructor; [by left|done]|]. simpl. by rewrite Hlen.
    + intros [= <- <-]. split; [done|]. exists []. by repeat constructor.
Qed.

(** ** [float] of a plain decimal *)

Lemma drop_underscores_none prev s :
  (prev =? ch "_")%N = false -> lacks (ch "_") s -> drop_underscores prev s = Some s.
Proof.
  revert prev. induction s as [|c s IH]; intros prev Hp Hs; cbn [drop_underscores]; rewrite Hp.
  - done.
  - apply lacks_cons in Hs as [Hc Hs]. rewrite N.eqb_sym in Hc. rewrite Hc. cbn [andb].
    by rewrite IH.
Qed.

Definition plain_decimal (sg : text) (ds fs : list N) : text :=
  sg ++ (digit_char <$> ds) ++ (match fs with [] => [] | _ => ch "." :: (digit_char <$> fs) end).

Lemma digit_char_facts d : is_digit d ->
  (ch "_" =? digit_char d)%N = false /\ is_c_space (digit_char d) = false.
Proof. intros H. unfold is_c_space. split; char_solve. Qed.

Lemma plain_decimal_chars sg ds fs :
  sg ∈ [[]; [ch "-"]; [ch "+"]] -> Forall is_digit ds -> Forall is_digit fs ->
  Forall (fun c => (ch "_" =? c)%N = false /\ is_c_space c = false) (plain_decimal sg ds fs).
Proof.
  intros Hsg Hds Hfs. unfold plain_decimal.
  assert (forall l, Forall is_digit l ->
    Forall (fun c => (ch "_" =? c)%N = false /\ is_c_space c = false) (digit_char <$> l)) as Hl.
  { intros l Hl. apply Forall_fmap. eapply Forall_impl; [done|]. by apply digit_char_facts. }
  apply Forall_app. split; [|apply Forall_app; split; [by apply Hl|]].
  - repeat (apply elem_of_cons in Hsg as [->|Hsg]; [by repeat constructor|]).
    by apply elem_of_nil in Hsg.
  - destruct fs; [done|]. constructor; [done|]. by apply Hl.
Qed.

Lemma py_float_plain s sg ds fs :
  sg ∈ [[]; [ch "-"]; [ch "+"]] -> ds ≠ [] -> Forall is_digit ds -> Forall is_digit fs ->
  ascii_numeral s = plain_decimal sg ds fs -> returns (py_float s).
Proof.
  intros Hsg Hne Hds Hfs Hs. unfold py_float. rewrite Hs.
  pose proof (plain_decimal_chars sg ds fs Hsg Hds Hfs) as Hc.
  set (t := plain_decimal sg ds fs) in *.
  assert (lacks (ch "_") t) as Hu.
  { clearbody t. clear -Hc. induction Hc as [|c l [Hc _] Hl IH]; [done|]. by apply lacks_cons. }
  assert (drop_while is_c_space t = t) as ->.
  { apply drop_while_fix. destruct Hc as [|c l [_ Hc] _]; done. }
  assert (strip_right is_c_space t = t) as ->.
  { apply strip_right_fix. destruct (reverse t) as [|c r] eqn:E; [done|].
    rewrite Forall_forall in Hc. apply Hc. rewrite <-elem_of_reverse, E.
    by apply elem_of_cons; left. }
  rewrite drop_underscores_none by done.
  destruct ds as [|d ds]; [done|].
  set (body := (digit_char <$> d :: ds) ++ match fs with [] => [] | _ => ch "." :: (digit_char <$> fs) end).
  assert (exists neg, take_sign t = (neg, body)) as [neg ->].
  { subst t. unfold plain_decimal. fold body.
    apply Forall_cons in Hds as [Hd _].
    repeat (apply elem_of_cons in Hsg as [->|Hsg]; [eexists|]); [|reflexivity|reflexivity|].
    - simpl app. unfold body. rewrite fmap_cons, <-app_comm_cons.
      apply take_sign_none; char_solve.
    - by apply elem_of_nil in Hsg. }
  assert (exists f, span_decimal neg body = Some (f, [])) as [f ->]; [|by eexists].
  unfold span_decimal, body. destruct fs as [|f fs].
  - rewrite span_digits_map by done. simpl. by eexists.
  - rewrite span_digits_map by done. cbn [span_fraction].
    change (ch "." =? ch ".")%N with true. cbn iota.
    rewrite <-(app_nil_r (digit_char <$> f :: fs)), span_digits_map by done.
    simpl. by eexists.
Qed.

(** ** Every match is a float *)

Lemma coord_match_float s m rest :
  Ls1000.coord_match s = Some (m, rest) -> returns (py_float m).
Proof.
  unfold Ls1000.coord_match. destruct (Ls1000.coord_sign s) as [sg s1] eqn:Hsg.
  destruct (Ls1000.span_decimals s1) as [[|c ip] s2] eqn:Hip; [done|].
  destruct (Ls1000.coord_fraction s2) as [fp s3] eqn:Hfp. intros [= <- <-].
  destruct (span_decimals_spec _ _ _ Hip) as (_ & ds & Hds & Hmap & Hch & Hlen).
  assert (sg ∈ [[]; [ch "-"]; [ch "+"]]) as Hsg'.
  { unfold Ls1000.coord_sign in Hsg. destruct s as [|c' r]; [injection Hsg as <- _; set_solver|].
    destruct (c' =? ch "-")%N eqn:E1; [apply N.eqb_eq in E1 as ->; injection Hsg as <- _; set_solver|].
    destruct (c' =? ch "+")%N eqn:E2; [apply N.eqb_eq in E2 as ->; injection Hsg as <- _; set_solver|].
    injection Hsg as <- _. set_solver. }
  assert (exists fs, Forall is_digit fs /\ Forall coord_char fp /\
    coord_image <$> fp = match fs with [] => [] | _ => ch "." :: (digit_char <$> fs) end)
    as (fs & Hfs & Hfc & Hfm).
  { unfold Ls1000.coord_fraction in Hfp. destruct s2 as [|c' r].
    { injection Hfp as <- _. exists []. by repeat constructor. }
    destruct (c' =? ch ".")%N eqn:E; [apply N.eqb_eq in E as ->|].
    2: { injection Hfp as <- _. exists []. by repeat constructor. }
    destruct (Ls1000.span_decimals r) as [[|c' f] r'] eqn:Hr.
    { injection Hfp as <- _. exists []. by repeat constructor. }
    injection Hfp as <- _.
    destruct (span_decimals_spec _ _ _ Hr) as (_ & fs & Hf1 & Hf2 & Hf3 & Hf4).
    exists fs. split; [done|]. split; [constructor; [by right; right; right|done]|].
    destruct fs; [done|]. rewrite fmap_cons, Hf2. done. }
  apply (py_float_plain _ sg ds fs); [done|by destruct ds|done|done|].
  rewrite ascii_numeral_coord.
  - unfold plain_decimal. change (c :: ip ++ fp) with ((c :: ip) ++ fp).
    rewrite !fmap_app, Hmap, Hfm. f_equal.
    repeat (apply elem_of_cons in Hsg' as [->|Hsg']; [reflexivity|]). by apply elem_of_nil in Hsg'.
  - change (c :: ip ++ fp) with ((c :: ip) ++ fp).
    apply Forall_app. split; [|by apply Forall_app].
    repeat (apply elem_of_cons in Hsg' as [->|Hsg'];
      [first [apply Forall_nil_2 | apply Forall_singleton; unfold coord_char; tauto]|]). by apply elem_of_nil in Hsg'.
Qed.

Lemma coord_findall_floats s : Forall (fun m => returns (py_float m)) (Ls1000.coord_findall s).
Proof.
  unfold Ls1000.coord_findall. generalize (length s). intros n.
  revert s. induction n as [|n IH]; intros s; simpl; [constructor|].
  destruct s as [|c s]; [constructor|].
  destruct (Ls1000.coord_match (c :: s)) as [[m rest]|] eqn:E; [|apply IH].
  constructor; [by eapply coord_match_float|apply IH].
Qed.
