(* ===== verification/Ls1000Facts.v ===== *)
(** * The LS-1000 parser: its theorems

    The shape of a result, the exceptions, the tokens of a frame, the value of
    each field, and the reading of a JSON document of the tag. *)

From S2P Require Export CoordFacts JsonFacts.
Import Ls1000.

Section Facts.
Context `{Interpreter}.

(** ** Shape of a result *)

(** Exactly one of event and error, with the message as it came. *)
Definition result_shape (raw : text) (r : result) : Prop :=
  match r with
  | (Some e, None) =>
      origin e = "ls-1000" /\ raw_message e = raw /\ parse_warnings e = [] /\
      source_type e ∈ txt "json" :: BASE_TYPES
  | (None, Some p) => pe_raw_message p = raw
  | _ => False
  end.

(** The result of a step has the shape, and an exception is of one of [cs]. *)
Definition shaped (cs : list exn_class) (raw : text) (m : res result) : Prop :=
  match m with
  | Ok r => result_shape raw r
  | Raise e => exn_cls e ∈ cs
  end.

Lemma shaped_err cs raw src code msg : shaped cs raw (err raw src code msg).
Proof. done. Qed.

Lemma shaped_event cs raw tag ts p lay ar st (src : text) lo la :
  src ∈ txt "json" :: BASE_TYPES ->
  shaped cs raw (Ok (event raw tag ts p lay ar st src lo la)).
Proof. intros Hsrc. by destruct p as [[x y] z]. Qed.

Lemma shaped_bind {A} (cs : list exn_class) raw (m : res A) (f : A -> res result) :
  (forall e, m = Raise e -> exn_cls e ∈ cs) -> (forall a, m = Ok a -> shaped cs raw (f a)) ->
  shaped cs raw (m ≫= f).
Proof. intros He Hf. destruct m as [a|e]; simpl; [by apply Hf|by apply He]. Qed.

Lemma shaped_mono cs cs' raw m : cs ⊆ cs' -> shaped cs raw m -> shaped cs' raw m.
Proof. intros Hs. destruct m; simpl; [done|]. apply Hs. Qed.

(** ** Steps that return on texts *)

Lemma returns_no_raise {A} (m : res A) (cs : list exn_class) e : returns m -> m = Raise e -> exn_cls e ∈ cs.
Proof. by intros [a ->]. Qed.

Lemma token_returns tokens i : i < length tokens -> returns (token tokens i).
Proof.
  intros Hi. unfold token. destruct (lookup_lt_is_Some_2 tokens i Hi) as [t ->]. by eexists.
Qed.

Lemma xyz_from_fields_returns tokens start : returns (xyz_from_fields tokens start).
Proof.
  unfold xyz_from_fields. case_decide; [|by eexists].
  repeat (apply bind_returns; [first [apply token_returns; lia | apply parse_float_text]|];
          intros ? _).
  by eexists.
Qed.

Lemma xyz_from_pattern_returns tokens start : returns (xyz_from_pattern tokens start).
Proof.
  unfold xyz_from_pattern. case_decide as Hs; [|by eexists].
  apply bind_returns; [by apply token_returns|]. intros t _.
  pose proof (coord_findall_floats t) as Hc.
  destruct (coord_findall t) as [|c0 [|c1 [|c2 r]]]; [by eexists..|].
  inversion_clear Hc as [|? ? H0 Hc']. inversion_clear Hc' as [|? ? H1 Hc].
  inversion_clear Hc as [|? ? H2 _].
  apply bind_returns; [done|]. intros x _. apply bind_returns; [done|]. intros y _.
  apply bind_returns; [done|]. intros z _. by eexists.
Qed.

Lemma extract_xyz_from_tokens_returns tokens start :
  returns (extract_xyz_from_tokens tokens start).
Proof.
  unfold extract_xyz_from_tokens.
  apply bind_returns; [apply xyz_from_fields_returns|]. intros p _.
  destruct p as [[[x|] [y|]] [z|]]; first [apply xyz_from_pattern_returns | by eexists].
Qed.

(** ** The handlers of the four message types *)

Lemma handled_type (src : string) :
  txt src ∈ BASE_TYPES -> txt src ∈ txt "json" :: BASE_TYPES.
Proof. intros ?. by apply elem_of_cons; right. Qed.

(** One step of a handler, by the form of what it computes. *)
Ltac handler_step :=
  lazymatch goal with
  | |- shaped _ _ (err _ _ _ _) => apply shaped_err
  | |- shaped _ _ (Ok (event _ _ _ _ _ _ _ _ _ _)) =>
      apply shaped_event, handled_type; vm_compute; repeat constructor
  | |- shaped _ _ (if decide _ then _ else _) => case_decide
  | |- shaped _ _ (_ ≫= _) => apply shaped_bind; [intros ?; apply returns_no_raise | intros ? _]
  | |- shaped _ _ (match _ with _ => _ end) => case_match
  | |- returns (token _ _) => apply token_returns; lia
  | |- returns (parse_int_gen _ (VStr _)) => apply parse_int_text
  | |- returns (parse_float (VStr _)) => apply parse_float_text
  | |- returns (extract_xyz_from_tokens _ _) => apply extract_xyz_from_tokens_returns
  | |- returns (_ ≫= _) => apply bind_returns; [|intros ? _]
  | |- returns (if decide _ then _ else _) => case_decide
  | |- returns (Ok _) => by eexists
  end.

Lemma dispatch_shaped raw src tokens : shaped [] raw (dispatch raw src tokens).
Proof.
  unfold dispatch, parse_display, parse_status1, parse_status2, parse_gpsposi, parse_int.
  repeat handler_step.
Qed.

(** ** The JSON path *)

Lemma first_int_raises obj keys e :
  first_int obj keys = Raise e -> exn_cls e ∈ [OverflowError; ValueError].
Proof.
  induction keys as [|k keys IH]; simpl; [done|]. case_match; [|done].
  intros [He|(a & _ & He)]%bind_Raise.
  - apply parse_int_raises in He. set_solver.
  - destruct a; [done|auto].
Qed.

Lemma first_float_raises obj keys e :
  first_float obj keys = Raise e -> exn_cls e ∈ [OverflowError; ValueError].
Proof.
  induction keys as [|k keys IH]; simpl; [done|]. case_match; [|done].
  intros [He|(a & _ & He)]%bind_Raise.
  - apply parse_float_raises in He. set_solver.
  - destruct a; [done|auto].
Qed.

(** [_first_str] can only fail in [str], on a container when it recurses too deep. *)
Definition nested_text (obj : pydict) (keys : list text) : Prop :=
  Exists (fun k => container (dget_none k obj)) keys.

Lemma first_str_fails obj keys e :
  first_str obj keys = Raise e ->
  exn_cls e = ValueError \/ exn_cls e = RecursionError /\ nested_text obj keys.
Proof.
  unfold nested_text. induction keys as [|k keys IH]; cbn [first_str]; [done|].
  rewrite Exists_cons.
  assert (forall v, dget_none k obj = v ->
    (s ← py_str v; match strip s with [] => first_str obj keys | t => Ok (Some t) end)
      = Raise e -> exn_cls e = ValueError \/ exn_cls e = RecursionError /\
      (container (dget_none k obj) \/ Exists (fun k => container (dget_none k obj)) keys)) as Hv.
  { intros v -> [He|(s & _ & He)]%bind_Raise.
    - apply py_str_raises in He as [He|[He Hc]]; tauto.
    - destruct (strip s); [naive_solver|done]. }
  destruct (dget_none k obj) eqn:E; [intros He; apply IH in He; tauto|by apply Hv..].
Qed.

Lemma first_str_raises obj keys e :
  first_str obj keys = Raise e -> exn_cls e ∈ [OverflowError; ValueError; RecursionError].
Proof. intros [->|[-> _]]%first_str_fails; set_solver. Qed.

Lemma extract_xyz_from_json_raises obj e :
  extract_xyz_from_json obj = Raise e -> exn_cls e ∈ [OverflowError; ValueError].
Proof.
  assert (xyz_top_level obj = Raise e -> exn_cls e ∈ [OverflowError; ValueError]) as Htop.
  { unfold xyz_top_level. intros Hx.
    repeat (apply bind_Raise in Hx as [Hx|(? & _ & Hx)];
            [by eapply first_float_raises|]). done. }
  unfold extract_xyz_from_json. destruct (dget_none _ obj); try exact Htop.
  intros Hx.
  repeat (apply bind_Raise in Hx as [Hx|(? & _ & Hx)];
          [apply parse_float_raises in Hx; set_solver|]).
  repeat case_match; first [done | by apply Htop].
Qed.

Lemma parse_json_object_shaped raw obj :
  shaped [OverflowError; ValueError; RecursionError] raw (parse_json_object raw obj).
Proof.
  unfold parse_json_object. case_match; [apply shaped_err|].
  apply shaped_bind; [intros e; apply first_str_raises|]. intros [tag|] _; [|done].
  apply shaped_bind; [intros e He%first_int_raises; set_solver|]. intros [ts|] _; [|done].
  apply shaped_bind; [intros e He%extract_xyz_from_json_raises; set_solver|]. intros p _.
  apply shaped_bind; [intros e He%first_float_raises; set_solver|]. intros lo _.
  apply shaped_bind; [intros e He%first_float_raises; set_solver|]. intros la _.
  apply shaped_bind; [intros e He%first_int_raises; set_solver|]. intros lay _.
  apply shaped_bind; [intros e; apply first_str_raises|]. intros st _.
  apply shaped_bind; [intros e; apply first_str_raises|]. intros ar _.
  apply shaped_event. by apply elem_of_cons; left.
Qed.

Lemma parse_json_shaped raw s :
  starts_with (txt "{") s = true ->
  shaped [OverflowError; ValueError; RecursionError] raw (parse_json raw s).
Proof.
  intros Hs. unfold parse_json. destruct (json_loads s) as [v|e] eqn:E.
  - assert (exists r, s = ch "{" :: r) as [r ->].
    { destruct s as [|c r]; [done|]. exists r. f_equal.
      apply andb_true_iff in Hs as [Hs _]. by apply N.eqb_eq in Hs. }
    destruct (json_loads_brace _ _ E) as [d ->]. apply parse_json_object_shaped.
  - apply json_loads_raises in E as [E|[E|E]]; rewrite E; simpl; [done|rewrite E; set_solver..].
Qed.

Lemma text_in_spec t l : text_in t l = true -> t ∈ l.
Proof.
  unfold text_in. intros (x & Hx & E%text_eqb_eq)%existsb_exists. subst.
  by apply list_elem_of_In.
Qed.

Lemma parse_message_shaped raw :
  shaped (if starts_with (txt "{") (strip raw) then [OverflowError; ValueError; RecursionError] else [])
    raw (parse_message raw).
Proof.
  unfold parse_message. destruct (nonempty (strip raw)); [|done]. cbn [negb].
  destruct (starts_with _ (strip raw)) eqn:E; [by apply parse_json_shaped|].
  destruct (has_char _ _); [|done]. cbn [negb].
  destruct (split_once _ _) as [ty payload].
  destruct (text_in _ UNSUPPORTED_TYPES); [done|].
  destruct (text_in _ BASE_TYPES); [|done]. cbn [negb].
  destruct (existsb _ _); [|done]. apply dispatch_shaped.
Qed.

(** ** The tokens of a frame *)

Lemma text_in_elem t l : t ∈ l -> text_in t l = true.
Proof.
  intros Ht. apply existsb_exists. exists t. split; [by apply list_elem_of_In|].
  apply text_eqb_refl.
Qed.

(** A frame [type:field,field,...] of a supported type whose payload is not
    blank goes to its handler with the stripped fields, in their positions. *)
Lemma parse_message_frame raw (ty : text) fields src f :
  strip raw = ty ++ ch ":" :: join "," fields ->
  lacks (ch ":") ty -> starts_with (txt "{") ty = false -> Forall (lacks (ch ",")) fields ->
  lower (strip ty) = src -> src ∈ BASE_TYPES -> f ∈ fields -> strip f ≠ [] ->
  parse_message raw = dispatch raw src (strip <$> fields).
Proof.
  intros Hraw Hty Hb Hfields Hsrc Hin Hf Hne. unfold parse_message. rewrite Hraw.
  assert (nonempty (ty ++ ch ":" :: join "," fields) = true) as -> by by destruct ty.
  assert (starts_with (txt "{") (ty ++ ch ":" :: join "," fields) = false) as ->.
  { destruct ty as [|c ty]; [done|]. simpl in *. by rewrite andb_true_r in *. }
  rewrite has_char_app_sep, split_once_app by done. cbn [negb]. rewrite Hsrc.
  assert (text_in src UNSUPPORTED_TYPES = false) as ->.
  { unfold BASE_TYPES in Hin. clear -Hin.
    repeat (apply elem_of_cons in Hin as [->|Hin]; [reflexivity|]).
    by apply elem_of_nil in Hin. }
  rewrite (text_in_elem src BASE_TYPES) by done. cbn [negb].
  rewrite (split_on_join (ch ",")).
  - assert (existsb nonempty (strip <$> fields) = true) as ->; [|done].
    apply existsb_exists. exists (strip f). split; [|by destruct (strip f)].
    apply list_elem_of_In, list_elem_of_fmap. eauto.
  - intros ->. by apply elem_of_nil in Hf.
  - done.
Qed.

Lemma parse_int_strip s : parse_int (VStr (strip s)) = parse_int (VStr s).
Proof. unfold parse_int, parse_int_gen. by rewrite strip_idem. Qed.

Lemma parse_float_strip s : parse_float (VStr (strip s)) = parse_float (VStr s).
Proof. unfold parse_float. by rewrite strip_idem. Qed.

Lemma parse_int_nonblank s i : parse_int (VStr s) = Ok (Some i) -> strip s ≠ [].
Proof. unfold parse_int, parse_int_gen. by destruct (strip s). Qed.

Lemma safe_token_strip fields i :
  safe_token (strip <$> fields) i = safe_token fields i.
Proof.
  unfold safe_token. rewrite list_lookup_fmap. destruct (fields !! i); simpl; [|done].
  by rewrite strip_idem.
Qed.

Lemma token_at tokens i t : tokens !! i = Some t -> token tokens i = Ok t.
Proof. intros H'. unfold token. by rewrite H'. Qed.

(** One monadic step: a token that is there, a computation known to return. *)
Ltac run_token i := erewrite (token_at _ i) by reflexivity; cbn [mbind res_bind].
Ltac run H := rewrite H; cbn [mbind res_bind].

Lemma display_dispatch raw tokens len dev sq tst lt xs ys zs rest ts lay x y z :
  tokens = [len; dev; sq; tst; lt; xs; ys; zs] ++ rest ->
  parse_int (VStr tst) = Ok (Some ts) -> parse_int (VStr lt) = Ok lay ->
  parse_float (VStr xs) = Ok (Some x) -> parse_float (VStr ys) = Ok (Some y) ->
  parse_float (VStr zs) = Ok (Some z) ->
  dispatch raw "display" tokens =
  Ok (event raw dev ts (Some x, Some y, Some z) lay None None "display" None None).
Proof.
  intros -> Hts Hlay Hx Hy Hz. unfold dispatch. rewrite text_eqb_refl.
  unfold parse_display. rewrite decide_False by (simpl; lia).
  run_token 1. run_token 3. run Hts. run_token 4. run Hlay.
  unfold extract_xyz_from_tokens, xyz_from_fields.
  rewrite decide_True by (simpl; lia).
  run_token 5. run Hx. run_token (5 + 1). run Hy. run_token (5 + 2). run Hz. done.
Qed.

Lemma gpsposi_dispatch raw tokens len dev sq tst lt lngs lats rest ts lay lo la z :
  tokens = [len; dev; sq; tst; lt; lngs; lats] ++ rest ->
  parse_int (VStr tst) = Ok (Some ts) -> parse_int (VStr lt) = Ok lay ->
  parse_float (VStr lngs) = Ok lo -> parse_float (VStr lats) = Ok la ->
  match rest with zs :: _ => parse_float (VStr zs) = Ok z | [] => z = None end ->
  dispatch raw "gpsposi" tokens =
  match lo, la with
  | Some _, Some _ =>
      Ok (event raw dev ts (None, None, z) lay None None "gpsposi" lo la)
  | _, _ => err raw "gpsposi" "invalid_coordinates" "Invalid lng/lat values"
  end.
Proof.
  intros -> Hts Hlay Hlo Hla Hz. unfold dispatch.
  change (text_eqb "gpsposi" "display") with false. change (text_eqb "gpsposi" "status1") with false.
  change (text_eqb "gpsposi" "status2") with false. cbn iota.
  unfold parse_gpsposi. rewrite decide_False by (simpl; lia).
  run_token 1. run_token 3. run Hts. run_token 4. run Hlay. run_token 5. run Hlo.
  run_token 6. run Hla.
  destruct rest as [|zs rest].
  - rewrite decide_False by (simpl; lia). subst z. done.
  - rewrite decide_True by (simpl; lia). run_token 7. run Hz. done.
Qed.

Lemma status1_dispatch raw tokens len tg dev tst vbat lt rest ts lay :
  tokens = [len; tg; dev; tst; vbat; lt] ++ rest ->
  parse_int (VStr tst) = Ok (Some ts) -> parse_int (VStr lt) = Ok lay ->
  dispatch raw "status1" tokens =
  Ok (event raw dev ts (None, None, None) lay None (safe_token tokens 7) "status1" None None).
Proof.
  intros -> Hts Hlay. unfold dispatch.
  change (text_eqb "status1" "display") with false. rewrite text_eqb_refl.
  unfold parse_status1. rewrite decide_False by (simpl; lia).
  run_token 2. run_token 3. run Hts. run_token 5. by run Hlay.
Qed.


(** C37. A [display] frame, whatever the case and the padding of its type and
    fields, gives the event of its fields: the device, the timestamp, the layer
    ([None] for a blank or malformed one, which shifts nothing) and the three
    coordinates; the fields after them are not read. *)
Theorem display_frame raw (ty : text) len dev sq tst lt xs ys zs rest ts lay x y z :
  strip raw = ty ++ ch ":" :: join "," ([len; dev; sq; tst; lt; xs; ys; zs] ++ rest) ->
  lacks (ch ":") ty -> starts_with (txt "{") ty = false -> lower (strip ty) = "display" ->
  Forall (lacks (ch ",")) ([len; dev; sq; tst; lt; xs; ys; zs] ++ rest) ->
  parse_int (VStr tst) = Ok (Some ts) -> parse_int (VStr lt) = Ok lay ->
  parse_float (VStr xs) = Ok (Some x) -> parse_float (VStr ys) = Ok (Some y) ->
  parse_float (VStr zs) = Ok (Some z) ->
  parse_message raw =
  Ok (Some {| origin := "ls-1000"; tag_id := strip dev; ts_utc_ms := ts;
              ev_x := Some x; ev_y := Some y; ev_z := Some z; layer := lay;
              area := None; status := None; source_type := "display";
              raw_message := raw; lng := None; lat := None; parse_warnings := [] |}, None).
Proof.
  intros Hraw Hty Hb Hsrc Hf Hts Hlay Hx Hy Hz.
  rewrite (parse_message_frame raw (ty : text) _ "display" tst Hraw); try done.
  - eapply display_dispatch; [reflexivity|by rewrite ?parse_int_strip, ?parse_float_strip..].
  - by apply elem_of_cons; left.
  - set_solver.
  - by eapply parse_int_nonblank.
Qed.

(** A [gpsposi] frame gives the event of its device, timestamp, layer,
    longitude, latitude and optional height; when longitude or latitude is blank
    or malformed it gives the [invalid_coordinates] error and no event. *)
Theorem gpsposi_frame raw (ty : text) len dev sq tst lt lngs lats rest ts lay lo la z :
  strip raw = ty ++ ch ":" :: join "," ([len; dev; sq; tst; lt; lngs; lats] ++ rest) ->
  lacks (ch ":") ty -> starts_with (txt "{") ty = false -> lower (strip ty) = "gpsposi" ->
  Forall (lacks (ch ",")) ([len; dev; sq; tst; lt; lngs; lats] ++ rest) ->
  parse_int (VStr tst) = Ok (Some ts) -> parse_int (VStr lt) = Ok lay ->
  parse_float (VStr lngs) = Ok lo -> parse_float (VStr lats) = Ok la ->
  match rest with zs :: _ => parse_float (VStr zs) = Ok z | [] => z = None end ->
  parse_message raw =
  match lo, la with
  | Some _, Some _ =>
      Ok (Some {| origin := "ls-1000"; tag_id := strip dev; ts_utc_ms := ts;
                  ev_x := None; ev_y := None; ev_z := z; layer := lay;
                  area := None; status := None; source_type := "gpsposi";
                  raw_message := raw; lng := lo; lat := la; parse_warnings := [] |}, None)
  | _, _ =>
      Ok (None, Some {| pe_code := "invalid_coordinates"; pe_message := "Invalid lng/lat values";
                        pe_raw_message := raw; pe_source_type := "gpsposi" |})
  end.
Proof.
  intros Hraw Hty Hb Hsrc Hf Hts Hlay Hlo Hla Hz.
  rewrite (parse_message_frame raw (ty : text) _ "gpsposi" tst Hraw); try done.
  - rewrite (gpsposi_dispatch raw _ (strip len) (strip dev) (strip sq) (strip tst) (strip lt)
               (strip lngs) (strip lats) (strip <$> rest) ts lay lo la z);
      try by rewrite ?parse_int_strip, ?parse_float_strip.
    destruct rest; [done|]. rewrite fmap_cons. by rewrite parse_float_strip.
  - unfold BASE_TYPES. set_solver.
  - set_solver.
  - by eapply parse_int_nonblank.
Qed.

(** A [status1] frame takes the device from its third field, the layer from
    its sixth and the status from its eighth, if it is there and not blank; it
    has no coordinates. *)
Theorem status1_frame raw (ty : text) len tg dev tst vbat lt rest ts lay :
  strip raw = ty ++ ch ":" :: join "," ([len; tg; dev; tst; vbat; lt] ++ rest) ->
  lacks (ch ":") ty -> starts_with (txt "{") ty = false -> lower (strip ty) = "status1" ->
  Forall (lacks (ch ",")) ([len; tg; dev; tst; vbat; lt] ++ rest) ->
  parse_int (VStr tst) = Ok (Some ts) -> parse_int (VStr lt) = Ok lay ->
  parse_message raw =
  Ok (Some {| origin := "ls-1000"; tag_id := strip dev; ts_utc_ms := ts;
              ev_x := None; ev_y := None; ev_z := None; layer := lay; area := None;
              status := match rest with
                        | _ :: sos :: _ => match strip sos with [] => None | t => Some t end
                        | _ => None
                        end;
              source_type := "status1"; raw_message := raw; lng := None; lat := None;
              parse_warnings := [] |}, None).
Proof.
  intros Hraw Hty Hb Hsrc Hf Hts Hlay.
  rewrite (parse_message_frame raw (ty : text) _ "status1" tst Hraw); try done.
  - erewrite (status1_dispatch raw _ (strip len) (strip tg) (strip dev) (strip tst) (strip vbat)
               (strip lt) (strip <$> rest)); [|done|by rewrite parse_int_strip..].
    rewrite safe_token_strip. unfold event, safe_token. simpl.
    by destruct rest as [|r0 [|sos rest]].
  - unfold BASE_TYPES. set_solver.
  - set_solver.
  - by eapply parse_int_nonblank.
Qed.

(** ** JSON documents *)

Lemma dumps_brackets d s :
  json_dumps compact_style (VDict d) = Ok s -> exists t, s = ch "{" :: t ++ [ch "}"].
Proof. rewrite json_dumps_dict. intros Hs. inv_res. eauto. Qed.

Lemma strip_brackets t : strip (ch "{" :: t ++ [ch "}"]) = ch "{" :: t ++ [ch "}"].
Proof.
  apply strip_fix; [done|]. rewrite app_comm_cons, reverse_snoc. done.
Qed.

(** A serialised object is parsed as the object itself. *)
Lemma parse_message_dumps d s :
  dict_ok d -> json_dumps compact_style (VDict d) = Ok s ->
  parse_message s = parse_json_object s d.
Proof.
  intros Hd Hs. destruct (dumps_brackets d s Hs) as [t Ht].
  unfold parse_message. rewrite Ht, strip_brackets, <-Ht.
  assert (nonempty s = true) as -> by by rewrite Ht.
  assert (starts_with (txt "{") s = true) as ->.
  { by rewrite Ht. }
  cbn [negb]. unfold parse_json.
  by rewrite (json_roundtrip (VDict d) s); [|apply val_ok_dict|].
Qed.

(** [_first_str] returns the first key's stripped text that is not blank. *)
Definition blank_at (obj : pydict) (k : text) : Prop :=
  dget_none k obj = VNone \/ exists s, py_str (dget_none k obj) = Ok s /\ strip s = [].

Lemma first_str_skip obj k keys :
  blank_at obj k -> first_str obj (k :: keys) = first_str obj keys.
Proof.
  unfold blank_at. cbn [first_str]. intros [->|(s & Hs & Ht)]; [done|].
  destruct (dget_none k obj); [done|by rewrite Hs; simpl; rewrite Ht..].
Qed.

Lemma first_str_take obj k keys s :
  dget_none k obj ≠ VNone -> py_str (dget_none k obj) = Ok s -> strip s ≠ [] ->
  first_str obj (k :: keys) = Ok (Some (strip s)).
Proof.
  intros Hn Hs Ht. cbn [first_str].
  destruct (dget_none k obj); [done|rewrite Hs; simpl; by destruct (strip s)..].
Qed.

Lemma dhas_dget k d v : dget k d = Some v -> dhas k d = true.
Proof. unfold dhas. by intros ->. Qed.

Lemma dget_none_Some k d v : dget k d = Some v -> dget_none k d = v.
Proof. unfold dget_none, dget_or. by intros ->. Qed.

Lemma dget_none_absent k d : dget k d = None -> dget_none k d = VNone.
Proof. unfold dget_none, dget_or. by intros ->. Qed.

(** [_first_str] scans its keys in order: it returns the stripped text of a
    key exactly when that text is not blank and every earlier key of the list is
    absent, null or blank. *)
Theorem first_str_priority obj keys t :
  first_str obj keys = Ok (Some t) <->
  exists before k after s,
    keys = before ++ k :: after /\ Forall (blank_at obj) before /\
    dget_none k obj ≠ VNone /\ py_str (dget_none k obj) = Ok s /\ strip s = t /\ t ≠ [].
Proof.
  split.
  - induction keys as [|k keys IH]; [done|]. intros Hf.
    assert (blank_at obj k \/ exists s, dget_none k obj ≠ VNone /\
              py_str (dget_none k obj) = Ok s /\ strip s ≠ []) as [Hk|(s & Hn & Hs & Ht)].
    { unfold blank_at. cbn [first_str] in Hf.
      destruct (dget_none k obj) as [| | | | | |]; [by left; left|..];
        apply bind_Ok in Hf as (s' & Hs & Hf); rewrite Hs;
        (destruct (strip s') as [|c r] eqn:E; [left; right; by exists s'|right; exists s'];
         split; [done|split; [done|by rewrite E]]). }
    + rewrite first_str_skip in Hf by done.
      destruct (IH Hf) as (b & k' & a & s & -> & Hb & Hrest).
      exists (k :: b), k', a, s. split; [done|]. split; [by constructor|done].
    + rewrite (first_str_take _ _ _ s) in Hf by done. injection Hf as <-.
      exists [], k, keys, s. split; [done|]. by split; [constructor|].
  - intros (b & k & a & s & -> & Hb & Hn & Hs & Ht & Hne). subst t.
    induction Hb as [|k' b Hk Hb IH]; simpl app; [by apply first_str_take|].
    by rewrite first_str_skip.
Qed.

(** A JSON object with a device id, a timestamp and a position, serialised
    compactly, parses to the event of those values, whatever its other keys; the
    remaining fields are what the key lists of the parser select. *)
Theorem json_document d s tag ts pos x y z lo la lay st ar :
  dict_ok d -> json_dumps compact_style (VDict d) = Ok s ->
  dget "tag_id" d = None -> dget "devid" d = Some (VStr tag) -> strip tag ≠ [] ->
  dget "ts_utc_ms" d = None -> dget "timestamp" d = Some (VInt ts) ->
  dget "position" d = Some (VDict pos) -> dget "samples" d = None ->
  dget "x" pos = Some (VFloat x) -> dget "y" pos = Some (VFloat y) ->
  dget "z" pos = Some (VFloat z) ->
  first_float d LNG_KEYS = Ok lo -> first_float d LAT_KEYS = Ok la ->
  first_int d LAYER_KEYS = Ok lay -> first_str d [txt "status"] = Ok st ->
  first_str d [txt "area"] = Ok ar ->
  parse_message s =
  Ok (Some {| origin := "ls-1000"; tag_id := strip tag; ts_utc_ms := IInt ts;
              ev_x := Some x; ev_y := Some y; ev_z := Some z; layer := lay;
              area := ar; status := st; source_type := "json"; raw_message := s;
              lng := lo; lat := la; parse_warnings := [] |}, None).
Proof.
  intros Hd Hs Ht1 Ht2 Htag Hts1 Hts2 Hpos Hsam Hx Hy Hz Hlo Hla Hlay Hst Har.
  rewrite (parse_message_dumps d s Hd Hs). unfold parse_json_object.
  assert (is_ls1000_json d = true) as ->.
  { unfold is_ls1000_json, JSON_MARKERS. cbn [existsb]. rewrite (dhas_dget _ _ _ Ht2).
    cbn [orb negb]. rewrite (dget_none_Some _ _ _ Hpos). by rewrite (dget_none_absent _ _ Hsam). }
  cbn [negb]. unfold TAG_KEYS.
  rewrite (first_str_skip d "tag_id") by (left; by apply dget_none_absent).
  rewrite (first_str_take d "devid" _ tag);
    [|by rewrite (dget_none_Some _ _ _ Ht2)..|done].
  cbn [mbind res_bind]. unfold TS_KEYS. cbn [first_int].
  unfold dhas at 1. rewrite Hts1, (dhas_dget _ _ _ Hts2), (dget_none_Some _ _ _ Hts2).
  cbn [mbind res_bind parse_int parse_int_gen]. unfold extract_xyz_from_json.
  rewrite (dget_none_Some _ _ _ Hpos), (dget_none_Some _ _ _ Hx), (dget_none_Some _ _ _ Hy),
    (dget_none_Some _ _ _ Hz).
  cbn [mbind res_bind parse_float].
  run Hlo. run Hla. run Hlay. run Hst. by run Har.
Qed.
End Facts.

(** ** The theorems at concrete messages *)

Lemma display_frame_witness :
  exists e, parse_message (H := ascii_unicode) " Display :9, 7 ,1,1700000000000,,1.5,-2,0.25" =
            Ok (Some e, None) /\ tag_id e = txt "7" /\ layer e = None /\
            ts_utc_ms e = IInt 1700000000000.
Proof.
  eexists. split.
  - eapply (display_frame (H := ascii_unicode) _ "Display " "9" " 7 " "1" "1700000000000" ""
              "1.5" "-2" "0.25" []); first
      [ reflexivity | vm_compute; reflexivity | repeat constructor ].
  - repeat split.
Defined.

Lemma gpsposi_frame_witness :
  exists e, parse_message (H := ascii_unicode) "gpsposi:9,7,1,1700000000000,0,37.5,55.25,12" =
            Ok (Some e, None) /\ tag_id e = txt "7" /\ source_type e = txt "gpsposi".
Proof.
  eexists. split.
  - eapply (gpsposi_frame (H := ascii_unicode) _ "gpsposi" "9" "7" "1" "1700000000000" "0"
              "37.5" "55.25" [txt "12"] _ _ (Some _) (Some _)); first
      [ reflexivity | vm_compute; reflexivity | repeat constructor ].
  - repeat split.
Defined.

Lemma status1_frame_witness :
  exists e, parse_message (H := ascii_unicode) "STATUS1:9,TAG,7,0x10,90,3,0, sos " =
            Ok (Some e, None) /\ tag_id e = txt "7" /\ ts_utc_ms e = IInt 16 /\
            status e = Some (txt "sos").
Proof.
  eexists. split.
  - eapply (status1_frame (H := ascii_unicode) _ "STATUS1" "9" "TAG" "7" "0x10" "90" "3"
              [txt "0"; txt " sos"]); first
      [ reflexivity | vm_compute; reflexivity | repeat constructor ].
  - repeat split.
Defined.

Definition sample_document : pydict :=
  [ (txt "devid", VStr " tag-1 "); (txt "timestamp", VInt 1700000000000);
    (txt "position", VDict [ (txt "x", VFloat (float_of_decimal false 15 (-1)));
                             (txt "y", VFloat (float_of_decimal true 2 0));
                             (txt "z", VFloat (float_of_decimal false 25 (-2))) ]);
    (txt "floor", VInt 3) ].

Lemma sample_document_ok : dict_ok sample_document.
Proof. dict_ok_solve. Qed.

Lemma json_document_witness :
  exists s e, json_dumps (H := ascii_unicode) compact_style (VDict sample_document) = Ok s /\
              parse_message (H := ascii_unicode) s = Ok (Some e, None) /\
              tag_id e = txt "tag-1" /\ layer e = Some (IInt 3).
Proof.
  do 2 eexists. split; [vm_compute; reflexivity|]. split.
  - eapply (json_document (H := ascii_unicode) sample_document); first
      [ exact sample_document_ok | reflexivity | discriminate | vm_compute; reflexivity ].
  - repeat split.
Defined.

(** A datagram of 206 characters that no branch of the parser catches. *)
Definition deep_document : text :=
  ch "{" :: double_quote :: ch "a" :: double_quote :: ch ":" :: replicate 201 (ch "[").

Lemma deep_document_raises :
  match parse_message (H := ascii_unicode) deep_document with
  | Raise e => exn_cls e = RecursionError
  | Ok _ => False
  end.
Proof. vm_compute. reflexivity. Qed.
