(* ===== verification/JsonNormalizer.v ===== *)
(** * The JSON normalizer: [stream_handler/json_normalizer.py]

    [time.time()] is read only when the object carries no timestamp; the reading is
    an argument of [normalize]. *)

From S2P Require Export Ls1000.

Module JsonNormalizer.

Section Normalizer.
Context `{Interpreter}.

Definition parse_int (value : pyval) : res (option pyint) := parse_int_gen false value.

(** [_parse_float] and [_first_str] are line for line those of the LS-1000 parser. *)
Definition parse_float (value : pyval) : res (option pyfloat) := parse_float value.
Definition first_str (obj : pydict) (keys : list text) : res (option text) := first_str obj keys.

(** [_first_int], [_first_float]: an absent key reads as [None]. *)
Fixpoint first_int (obj : pydict) (keys : list text) : res (option pyint) :=
  match keys with
  | [] => Ok None
  | key :: rest =>
      v ← parse_int (dget_none key obj);
      match v with Some i => Ok (Some i) | None => first_int obj rest end
  end.

Fixpoint first_float (obj : pydict) (keys : list text) : res (option pyfloat) :=
  match keys with
  | [] => Ok None
  | key :: rest =>
      v ← parse_float (dget_none key obj);
      match v with Some f => Ok (Some f) | None => first_float obj rest end
  end.

Definition xyz_of (obj : pydict) : res Ls1000.xyz :=
  x ← first_float obj [txt "x"];
  y ← first_float obj [txt "y"];
  z ← first_float obj [txt "z"];
  Ok (x, y, z).

(** [_extract_xyz] *)
Definition extract_xyz (obj : pydict) : res Ls1000.xyz :=
  match dget_none "position" obj with
  | VDict position =>
      p ← xyz_of position;
      match p with
      | (None, None, None) => xyz_of obj
      | _ => Ok p
      end
  | _ => xyz_of obj
  end.

(** [int(time.time() * 1000)] for a reading [t] of the clock *)
Definition now_ms (t : pyfloat) : res Z :=
  k ← float_of_int 1000; int_of_float (float_mul t k).

Definition timestamp_warning : text := "timestamp_missing_used_ingestion_time".

(** [normalize]; [self_origin] is the attribute set by the constructor. *)
Definition normalize (self_origin : text) (clock : pyfloat) (obj : pydict) (raw : text)
    : res (option NormalizedEvent) :=
  tag ← first_str obj Ls1000.TAG_KEYS;
  match tag with
  | None => Ok None
  | Some tag =>
      ts ← first_int obj Ls1000.TS_KEYS;
      '(ts, warnings) ← match ts with
                        | Some ts => Ok (ts, [])
                        | None => now ← now_ms clock; Ok (IInt now, [timestamp_warning])
                        end;
      '(x, y, z) ← extract_xyz obj;
      lo ← first_float obj Ls1000.LNG_KEYS;
      la ← first_float obj Ls1000.LAT_KEYS;
      lay ← first_int obj Ls1000.LAYER_KEYS;
      ar ← first_str obj [txt "area"; txt "rgn"];
      st ← first_str obj [txt "status"];
      Ok (Some {| origin := self_origin; tag_id := tag; ts_utc_ms := ts;
                  ev_x := x; ev_y := y; ev_z := z; layer := lay; area := ar; status := st;
                  source_type := "json"; raw_message := raw; lng := lo; lat := la;
                  parse_warnings := warnings |})
  end.
End Normalizer.

End JsonNormalizer.
