(* ===== verification/NormalizerFacts.v ===== *)
(** * The JSON normalizer: its theorems

    The outcome of [normalize] on every branch, and its agreement with the JSON
    branch of the LS-1000 parser, whose helpers it duplicates. *)

From S2P Require Export Ls1000Facts JsonNormalizer.

Section Normalizer.
Context `{Interpreter}.

(** ** The helpers that are written twice *)

Lemma dget_none_dhas k d : dhas k d = false -> dget_none k d = VNone.
Proof.
  intros Hk. apply dget_none_absent. destruct (dget k d) eqn:E; [|done].
  by rewrite (dhas_dget _ _ _ E) in Hk.
Qed.

Lemma first_float_agree obj keys :
  JsonNormalizer.first_float obj keys = Ls1000.first_float obj keys.
Proof.
  induction keys as [|k keys IH]; [done|]. simpl. rewrite IH.
  destruct (dhas k obj) eqn:E; [done|]. by rewrite dget_none_dhas.
Qed.

(** The only difference of the two [_parse_int]: a text that is a hexadecimal number. *)
Definition no_hex (v : pyval) : Prop :=
  match v with VStr s => starts_with (txt "0x") (lower (strip s)) = false | _ => True end.

Lemma parse_int_agree v : no_hex v -> JsonNormalizer.parse_int v = Ls1000.parse_int v.
Proof.
  destruct v as [| | | |s| |]; try done. unfold no_hex, JsonNormalizer.parse_int, Ls1000.parse_int.
  cbn [parse_int_gen]. intros Hs. destruct (strip s) as [|c t]; [done|]. by rewrite Hs.
Qed.

Lemma first_int_agree obj keys :
  Forall (fun k => no_hex (dget_none k obj)) keys ->
  JsonNormalizer.first_int obj keys = Ls1000.first_int obj keys.
Proof.
  induction 1 as [|k keys Hk Hks IH]; [done|]. simpl. rewrite IH, parse_int_agree by done.
  destruct (dhas k obj) eqn:E; [done|]. by rewrite dget_none_dhas.
Qed.

Lemma normalizer_first_int_raises obj keys e :
  JsonNormalizer.first_int obj keys = Raise e -> exn_cls e ∈ [OverflowError; ValueError].
Proof.
  induction keys as [|k keys IH]; simpl; [done|].
  intros [He|(a & _ & He)]%bind_Raise; [apply parse_int_raises in He; set_solver|].
  destruct a; [done|by apply IH].
Qed.

Lemma xyz_of_agree obj : JsonNormalizer.xyz_of obj = Ls1000.xyz_top_level obj.
Proof. unfold JsonNormalizer.xyz_of, Ls1000.xyz_top_level. by rewrite !first_float_agree. Qed.

Lemma xyz_top_level_raises obj e :
  Ls1000.xyz_top_level obj = Raise e -> exn_cls e ∈ [OverflowError; ValueError].
Proof.
  unfold Ls1000.xyz_top_level. intros He.
  repeat (apply bind_Raise in He as [He|(? & _ & He)]; [by eapply first_float_raises|]). done.
Qed.

Lemma normalizer_xyz_raises obj e :
  JsonNormalizer.extract_xyz obj = Raise e -> exn_cls e ∈ [OverflowError; ValueError].
Proof.
  unfold JsonNormalizer.extract_xyz. rewrite xyz_of_agree.
  destruct (dget_none "position" obj); try apply xyz_top_level_raises.
  rewrite xyz_of_agree. intros [He|([[[x|] [y|]] [z|]] & _ & He)]%bind_Raise; try done;
    by eapply xyz_top_level_raises.
Qed.

Lemma now_ms_raises clock e :
  JsonNormalizer.now_ms clock = Raise e -> exn_cls e ∈ [OverflowError; ValueError].
Proof.
  unfold JsonNormalizer.now_ms. intros [He|(k & _ & He)]%bind_Raise.
  - apply float_of_int_raises in He. set_solver.
  - apply int_of_float_raises in He as [He|He]; rewrite He; set_solver.
Qed.

(** The keys whose values [normalize] reads as texts. *)
Definition TEXT_KEYS : list text :=
  Ls1000.TAG_KEYS ++ [txt "area"; txt "rgn"; txt "status"].

Definition normalize_failure (obj : pydict) (e : exn) : Prop :=
  exn_cls e ∈ [OverflowError; ValueError] \/
  exn_cls e = RecursionError /\ nested_text obj TEXT_KEYS.

Lemma text_key_fails obj before keys after e :
  before ++ keys ++ after = TEXT_KEYS -> first_str obj keys = Raise e -> normalize_failure obj e.
Proof.
  unfold normalize_failure, nested_text. intros <- [He|[He Hn]]%first_str_fails.
  - left. rewrite He. set_solver.
  - right. split; [done|]. rewrite !Exists_app. auto.
Qed.

(** C32. [normalize] on any object: it gives no event exactly when no tag key has a
    text; otherwise the event has that tag, the origin of the normalizer, the
    message as it came, and the first readable timestamp of the object, or the
    ingestion time with a warning that says so; it raises only [OverflowError] or
    [ValueError] (a number that no integer or float can hold), or [RecursionError] when
    a key that is read as a text holds a list or an object. *)
Theorem normalize_outcome so clock obj raw :
  match JsonNormalizer.normalize so clock obj raw with
  | Ok None => first_str obj Ls1000.TAG_KEYS = Ok None
  | Ok (Some e) =>
      first_str obj Ls1000.TAG_KEYS = Ok (Some (tag_id e)) /\
      origin e = so /\ raw_message e = raw /\ source_type e = txt "json" /\
      (JsonNormalizer.first_int obj Ls1000.TS_KEYS = Ok (Some (ts_utc_ms e)) /\ parse_warnings e = [] \/
       JsonNormalizer.first_int obj Ls1000.TS_KEYS = Ok None /\
       (IInt <$> JsonNormalizer.now_ms clock) = Ok (ts_utc_ms e) /\
       parse_warnings e = [JsonNormalizer.timestamp_warning])
  | Raise e => normalize_failure obj e
  end.
Proof.
  destruct (JsonNormalizer.normalize so clock obj raw) as [[ev|]|e] eqn:E;
    unfold JsonNormalizer.normalize, JsonNormalizer.first_str in E.
  - inv_res. destruct a as [tag|]; [|done]. inv_res. destruct a0 as [ts warn].
    inv_res. destruct a0 as [[x y] z]. inv_res. simpl.
    repeat (split; [done|]). destruct a as [ts'|]; inv_res; [by left|right].
    by match goal with Hn : JsonNormalizer.now_ms _ = Ok _ |- _ => rewrite Hn end.
  - inv_res. destruct a as [tag|]; [|done]. inv_res. destruct a0 as [ts warn].
    inv_res. by destruct a0 as [[x y] z]; inv_res.
  - apply bind_Raise in E as [E|([tag|] & _ & E)];
      [by eapply (text_key_fails _ [] _ _) in E| |done].
    apply bind_Raise in E as [E|(ts & _ & E)]; [left; by eapply normalizer_first_int_raises|].
    apply bind_Raise in E as [E|([ts' warn] & _ & E)].
    { destruct ts; [done|]. apply bind_Raise in E as [E|(? & _ & E)]; [left; by eapply now_ms_raises|done]. }
    apply bind_Raise in E as [E|([[x y] z] & _ & E)]; [left; by eapply normalizer_xyz_raises|].
    rewrite !first_float_agree in E.
    repeat (apply bind_Raise in E as [E|(? & _ & E)];
      [first [ left; by eapply first_float_raises
             | left; by eapply normalizer_first_int_raises
             | by eapply (text_key_fails _ Ls1000.TAG_KEYS [txt "area"; txt "rgn"] _) in E
             | by eapply (text_key_fails _ (Ls1000.TAG_KEYS ++ [txt "area"; txt "rgn"]) _ []) in E ]|]). done.
Qed.

(** ** Agreement with the parser's JSON branch *)

(** The x and y of a [position] object are both readable, or none of its three. *)
Definition position_decided (obj : pydict) : Prop :=
  match dget_none "position" obj with
  | VDict p =>
      (exists x y, parse_float (dget_none "x" p) = Ok (Some x) /\
                   parse_float (dget_none "y" p) = Ok (Some y)) \/
      Forall (fun k => parse_float (dget_none k p) = Ok None) [txt "x"; txt "y"; txt "z"]
  | _ => True
  end.

Definition with_origin (so : text) (e : NormalizedEvent) : NormalizedEvent :=
  {| origin := so; tag_id := tag_id e; ts_utc_ms := ts_utc_ms e; ev_x := ev_x e; ev_y := ev_y e;
     ev_z := ev_z e; layer := layer e; area := area e; status := status e;
     source_type := source_type e; raw_message := raw_message e; lng := lng e; lat := lat e;
     parse_warnings := parse_warnings e |}.

Lemma first_float_single obj k o :
  parse_float (dget_none k obj) = Ok o -> JsonNormalizer.first_float obj [k] = Ok o.
Proof. intros Hp. simpl. unfold JsonNormalizer.parse_float. rewrite Hp. by destruct o. Qed.

Lemma extract_xyz_agree obj p :
  position_decided obj -> Ls1000.extract_xyz_from_json obj = Ok p ->
  JsonNormalizer.extract_xyz obj = Ok p.
Proof.
  unfold position_decided, Ls1000.extract_xyz_from_json, JsonNormalizer.extract_xyz.
  rewrite xyz_of_agree. destruct (dget_none "position" obj) as [| | | | | |pos]; try done.
  unfold JsonNormalizer.xyz_of. intros [(x & y & Hx & Hy)|Hn].
  - rewrite Hx, Hy. cbn [mbind res_bind]. intros Hp. apply bind_Ok in Hp as (z & Hz & [= <-]).
    rewrite (first_float_single _ _ _ Hx), (first_float_single _ _ _ Hy), (first_float_single _ _ _ Hz).
    done.
  - apply Forall_cons in Hn as [Hx [Hy [Hz _]%Forall_cons]%Forall_cons].
    rewrite Hx, Hy, Hz, (first_float_single _ _ _ Hx), (first_float_single _ _ _ Hy),
      (first_float_single _ _ _ Hz). done.
Qed.

Lemma first_str_area obj o :
  first_str obj [txt "area"] = Ok o -> o ≠ None \/ blank_at obj "rgn" ->
  first_str obj [txt "area"; txt "rgn"] = Ok o.
Proof.
  intros Ho Hr. change (first_str obj [txt "area"; txt "rgn"]) with
    (match dget_none "area" obj with
     | VNone => first_str obj [txt "rgn"]
     | v => s ← py_str v; match strip s with [] => first_str obj [txt "rgn"] | t => Ok (Some t) end
     end).
  assert (o = None -> first_str obj [txt "rgn"] = Ok None) as Hrgn.
  { intros ->. destruct Hr as [Hr|Hr]; [done|by rewrite first_str_skip]. }
  cbn [first_str] in Ho. destruct (dget_none "area" obj);
    first [ injection Ho as <-; by apply Hrgn
          | apply bind_Ok in Ho as (s' & Hs & Ho); rewrite Hs; cbn [mbind res_bind];
            destruct (strip s'); [injection Ho as <-; by apply Hrgn|done] ].
Qed.

(** C31. The normalizer agrees with the JSON branch of the LS-1000 parser: an object
    that the parser turns into an event becomes the same event with the
    normalizer's origin, unless a timestamp or layer is a hexadecimal text, the
    [position] is half readable, or only [rgn] names the area. *)
Theorem normalizer_agrees so clock obj raw e er :
  Ls1000.parse_json_object raw obj = Ok (Some e, er) ->
  Forall (fun k => no_hex (dget_none k obj)) (Ls1000.TS_KEYS ++ Ls1000.LAYER_KEYS) ->
  position_decided obj -> area e ≠ None \/ blank_at obj "rgn" ->
  JsonNormalizer.normalize so clock obj raw = Ok (Some (with_origin so e)).
Proof.
  intros Hp [Hts Hlay]%Forall_app Hpos Harea. unfold Ls1000.parse_json_object in Hp.
  case_if; [done|]. apply bind_Ok in Hp as ([tag|] & Htag & Hp); [|done].
  apply bind_Ok in Hp as ([ts|] & Ht & Hp); [|done].
  apply bind_Ok in Hp as ([[x y] z] & Hx & Hp). apply bind_Ok in Hp as (lo & Hlo & Hp).
  apply bind_Ok in Hp as (la & Hla & Hp). apply bind_Ok in Hp as (lay & Hly & Hp).
  apply bind_Ok in Hp as (st & Hst & Hp). apply bind_Ok in Hp as (ar & Har & Hp).
  injection Hp as <- _. cbn [area Ls1000.event] in Harea.
  unfold JsonNormalizer.normalize, JsonNormalizer.first_str. rewrite Htag. cbn [mbind res_bind].
  rewrite (first_int_agree _ _ Hts), Ht. cbn [mbind res_bind].
  rewrite (extract_xyz_agree _ _ Hpos Hx). cbn [mbind res_bind].
  rewrite !first_float_agree, Hlo, Hla. cbn [mbind res_bind].
  rewrite (first_int_agree _ _ Hlay), Hly. cbn [mbind res_bind].
  rewrite (first_str_area _ _ Har Harea), Hst. reflexivity.
Qed.
End Normalizer.

(** ** A concrete document *)

Definition agreed_document : pydict :=
  [ (txt "devid", VStr " T7 "); (txt "timestamp", VStr "1700000000000"); (txt "layer", VInt 2);
    (txt "position", VDict [ (txt "x", VStr "1.5"); (txt "y", VInt (-2)) ]); (txt "area", VStr "A") ].

Lemma normalizer_agrees_witness :
  exists e, Ls1000.parse_json_object (H := ascii_unicode) "raw" agreed_document = Ok (Some e, None) /\
    tag_id e = txt "T7" /\
    JsonNormalizer.normalize (H := ascii_unicode) "stream" (S754_zero false) agreed_document "raw" =
      Ok (Some (with_origin "stream" e)).
Proof.
  eexists. split; [vm_compute; reflexivity|]. split; [vm_compute; reflexivity|].
  eapply (normalizer_agrees (H := ascii_unicode)).
  - vm_compute. reflexivity.
  - repeat constructor; vm_compute; reflexivity.
  - left. do 2 eexists. split; vm_compute; reflexivity.
  - left. discriminate.
Defined.
