(* ===== verification/ValidFacts.v ===== *)
(** * Well-formedness of what is parsed

    A datagram's text holds code points; the events that the parser and the
    normalizer build from it hold valid texts and binary64 floats, so that their
    dict is a well-formed value ([asdict_ok]) and survives serialisation. *)

From S2P Require Export Ls1000Facts JsonNormalizer.
Import Ls1000.

(** ** Text operations *)

Lemma app_valid (a b : text) : valid_text a -> valid_text b -> valid_text (a ++ b).
Proof. intros. by apply Forall_app. Qed.

Lemma reverse_valid s : valid_text s -> valid_text (reverse s).
Proof. apply Forall_reverse. Qed.

Lemma strip_valid s : valid_text s -> valid_text (strip s).
Proof.
  intros Hs. unfold strip, strip_right.
  apply reverse_valid, drop_while_Forall, reverse_valid, drop_while_Forall, Hs.
Qed.

Lemma split_once_valid c s a b :
  split_once c s = (a, b) -> valid_text s -> valid_text a /\ valid_text b.
Proof.
  intros H Hs. revert a b H. induction Hs as [|x s Hx Hs IH]; intros a b; simpl.
  - intros [= <- <-]. by split; constructor.
  - destruct (x =? c)%N; [intros [= <- <-]; by split; [constructor|]|].
    destruct (split_once c s) as [a' b']. intros [= <- <-].
    destruct (IH _ _ eq_refl). by split; [constructor|].
Qed.

Lemma split_on_valid c s : valid_text s -> Forall valid_text (split_on c s).
Proof.
  induction 1 as [|x s Hx Hs IH]; simpl; [by repeat constructor|].
  destruct (x =? c)%N; [by constructor; [constructor|]|].
  destruct (split_on c s) as [|w ws]; [by repeat constructor|].
  apply Forall_cons in IH as [Hw Hws]. constructor; [by constructor|done].
Qed.

Lemma digit_chars_valid ds : Forall is_digit ds -> valid_text (digit_char <$> ds).
Proof.
  intros Hd. apply Forall_fmap. eapply Forall_impl; [done|]. intros d Hx.
  unfold is_digit in Hx. unfold compose, digit_char. lia.
Qed.

Lemma int_text_valid z s : int_text z = Ok s -> valid_text s.
Proof.
  unfold int_text. case_decide; [done|]. intros [= <-].
  assert (valid_text (nat_text (Z.abs_N z))) as Hn by (apply digit_chars_valid, N_digits_digits).
  case_if; [by constructor|done].
Qed.

Lemma float_text_valid f : float_valid f -> valid_text (float_text f).
Proof.
  intros Hf. destruct (is_finite f) eqn:E.
  - eapply span_number_valid. by apply float_text_reads.
  - destruct f as [s|s| |s m e]; try done; [destruct s|]; by apply valid_text_b.
Qed.

Section Valid.
Context `{Interpreter}.

Lemma repr_str_valid s : valid_text s -> valid_text (repr_str s).
Proof.
  intros Hs. unfold repr_str.
  assert (forall q c, (c < 0x110000)%N -> valid_text (repr_char q c)) as Hc.
  { intros q c Hc. unfold repr_char.
    repeat (case_if; [first [ by repeat constructor | by apply valid_text_b
      | apply Forall_app; split; [by apply valid_text_b|apply hex_text_valid]]|]).
    apply Forall_app. split; [by apply valid_text_b|apply hex_text_valid]. }
  assert (forall q, (q < 0x110000)%N -> valid_text (q :: flat_map (repr_char q) s ++ [q])) as Hq.
  { intros q Hq. constructor; [done|]. apply Forall_app. split; [|by repeat constructor].
    clear -Hs Hc. induction Hs; simpl; [constructor|]. apply Forall_app. split; [by apply Hc|done]. }
  apply Hq. by case_if.
Qed.

Lemma repr_at_valid v : forall depth s, val_ok v -> repr_at depth v = Ok s -> valid_text s.
Proof.
  induction v as [|b|z|f|t|l IH|d IH] using pyval_nested_ind; intros depth s Hok;
    cbn [repr_at].
  - intros [= <-]. by apply valid_text_b.
  - intros [= <-]. destruct b; by apply valid_text_b.
  - apply int_text_valid.
  - intros [= <-]. by apply float_text_valid.
  - intros [= <-]. by apply repr_str_valid.
  - intros Hs. inv_res. apply val_ok_list in Hok. constructor; [done|]. apply Forall_app.
    split; [|by repeat constructor]. apply join_valid; [by apply valid_text_b|].
    revert a Ha. induction IH as [|x l Hx _ IHl]; intros a Ha; [injection Ha as <-; constructor|].
    apply Forall_cons in Hok as [Hokx Hok]. inv_res.
    destruct depth; [done|]. constructor; eauto.
  - intros Hs. inv_res. apply val_ok_dict in Hok as [_ Hok]. constructor; [done|]. apply Forall_app.
    split; [|by repeat constructor]. apply join_valid; [by apply valid_text_b|].
    revert a Ha. induction IH as [|[k x] d Hx _ IHd]; intros a Ha; [injection Ha as <-; constructor|].
    apply Forall_cons in Hok as [[Hk Hokx] Hok]. inv_res.
    destruct depth; [done|]. constructor; [|by eauto].
    change (valid_text (repr_str k ++ txt ": " ++ a0)).
    apply app_valid; [by apply repr_str_valid|]. apply app_valid; [by apply valid_text_b|].
    by eapply Hx.
Qed.

Lemma py_str_valid v s : val_ok v -> py_str v = Ok s -> valid_text s.
Proof.
  intros Hv. destruct v; try (apply repr_at_valid; exact Hv). simpl. by intros [= <-].
Qed.

(** ** Coercions *)

Lemma py_float_valid s f : py_float s = Ok f -> float_valid f.
Proof.
  unfold py_float, raise. destruct (drop_underscores _ _) as [t|]; [|done].
  destruct (take_sign t) as [neg u].
  assert (forall g r, span_decimal neg u = Some (g, r) -> float_valid g) as Hd.
  { intros g r. unfold span_decimal. destruct (span_digits u) as [ip s1].
    destruct (span_fraction s1) as [fp s2]. destruct (ip ++ fp); [done|].
    destruct (default _ _) as [e s3]. intros [= <- _]. apply float_of_decimal_valid. }
  assert (forall g, inf_or_nan neg u = Some g -> float_valid g) as Hi.
  { intros g. unfold inf_or_nan. repeat case_if; by intros [= <-]. }
  destruct (span_decimal neg u) as [[g [|c r]]|]; [intros [= <-]; by eapply Hd|..];
    destruct (inf_or_nan neg u); try done; intros [= <-]; by apply Hi.
Qed.

Lemma as_none_Ok {A} (m : res A) a : as_none m = Ok (Some a) -> m = Ok a.
Proof.
  unfold as_none, try_except. destruct m as [a'|e]; simpl; [by intros [= <-]|].
  by case_if.
Qed.

Lemma parse_float_valid v f : val_ok v -> parse_float v = Ok (Some f) -> float_valid f.
Proof.
  destruct v as [|b|z|g|s|l|d]; try done; intros Hv; cbn [parse_float].
  - destruct (float_of_int _) eqn:E; [|done]. intros [= <-]. by eapply float_of_int_valid.
  - destruct (float_of_int _) eqn:E; [|done]. intros [= <-]. by eapply float_of_int_valid.
  - by intros [= <-].
  - destruct (strip s); [done|]. intros Hf%as_none_Ok. by eapply py_float_valid.
Qed.

Definition opt_float_valid (o : option pyfloat) : Prop :=
  match o with Some f => float_valid f | None => True end.
Definition opt_text_valid (o : option text) : Prop :=
  match o with Some t => valid_text t | None => True end.
Definition xyz_valid (p : xyz) : Prop :=
  opt_float_valid p.1.1 /\ opt_float_valid p.1.2 /\ opt_float_valid p.2.

Lemma parse_float_opt v o : val_ok v -> parse_float v = Ok o -> opt_float_valid o.
Proof. destruct o; [apply parse_float_valid|done]. Qed.

Lemma first_float_opt obj keys o :
  Forall item_ok obj -> first_float obj keys = Ok o -> opt_float_valid o.
Proof.
  intros Ho. induction keys as [|k keys IH]; cbn [first_float]; [by intros [= <-]|].
  destruct (dhas k obj); [|done]. intros Hf. inv_res.
  destruct a as [f|]; [|by apply IH]. injection Hf as <-.
  eapply parse_float_valid; [|done]. by apply dget_none_ok.
Qed.

Lemma first_str_opt obj keys o :
  Forall item_ok obj -> first_str obj keys = Ok o -> opt_text_valid o.
Proof.
  intros Ho. induction keys as [|k keys IH]; cbn [first_str]; [by intros [= <-]|].
  pose proof (dget_none_ok k obj Ho) as Hv.
  assert ((s ← py_str (dget_none k obj);
           match strip s with [] => first_str obj keys | t => Ok (Some t) end) = Ok o ->
          opt_text_valid o) as Hs.
  { intros Hs. inv_res. apply (py_str_valid _ _ Hv), strip_valid in Ha.
    destruct (strip a) as [|c t]; [by apply IH|]. by injection Hs as <-. }
  destruct (dget_none k obj); [exact IH|exact Hs..].
Qed.

(** ** Events *)

Record event_ok (e : NormalizedEvent) : Prop := {
  ok_origin : valid_text (origin e);
  ok_tag : valid_text (tag_id e);
  ok_xyz : xyz_valid (ev_x e, ev_y e, ev_z e);
  ok_area : opt_text_valid (area e);
  ok_status : opt_text_valid (status e);
  ok_source : valid_text (source_type e);
  ok_raw : valid_text (raw_message e);
  ok_lng : opt_float_valid (lng e);
  ok_lat : opt_float_valid (lat e);
  ok_warnings : Forall valid_text (parse_warnings e);
}.

Lemma asdict_ok e : event_ok e -> dict_ok (asdict e).
Proof.
  intros He. destruct He as [Ho Ht (Hx & Hy & Hz) Ha Hs Hso Hr Hlo Hla Hw]. simpl in *.
  assert (forall o, opt_float_valid o -> val_ok (opt_val VFloat o)) as Hf by (by intros []).
  assert (forall o, opt_text_valid o -> val_ok (opt_val VStr o)) as Htx by (by intros []).
  assert (forall i, val_ok (val_of_pyint i)) as Hi by (by intros []).
  assert (forall o, val_ok (opt_val val_of_pyint o)) as Hoi by (intros [i|]; [apply Hi|done]).
  split; [refine (bool_decide_eq_true_1 (NoDup (A := text) _) _); vm_compute; reflexivity|].
  unfold asdict.
  repeat (apply Forall_cons; split; [split; cbn [fst snd]; [by apply valid_text_b|]|]);
    [auto..|constructor].
  apply val_ok_list, Forall_fmap. exact Hw.
Qed.

Lemma token_valid tokens i t : Forall valid_text tokens -> token tokens i = Ok t -> valid_text t.
Proof.
  unfold token. intros Ht. destruct (tokens !! i) as [t'|] eqn:E; [|done]. intros [= <-].
  rewrite Forall_forall in Ht. by eapply Ht, list_elem_of_lookup_2.
Qed.

Lemma safe_token_valid tokens i : Forall valid_text tokens -> opt_text_valid (safe_token tokens i).
Proof.
  unfold safe_token. intros Ht. destruct (tokens !! i) as [t|] eqn:E; [|done].
  assert (valid_text (strip t)) as Hs.
  { apply strip_valid. rewrite Forall_forall in Ht. by eapply Ht, list_elem_of_lookup_2. }
  by destruct (strip t).
Qed.

Lemma xyz_none_valid : xyz_valid (None, None, None).
Proof. done. Qed.

Lemma xyz_from_fields_valid tokens start p :
  Forall valid_text tokens -> xyz_from_fields tokens start = Ok p -> xyz_valid p.
Proof.
  intros Ht. unfold xyz_from_fields. case_decide; [|by intros [= <-]]. intros Hp. inv_res.
  repeat match goal with
  | Hk : token _ _ = Ok _ |- _ => apply (token_valid _ _ _ Ht) in Hk
  | Hk : parse_float _ = Ok _ |- _ => apply parse_float_opt in Hk; [|done]
  end. done.
Qed.

Lemma extract_xyz_from_tokens_valid tokens start p :
  Forall valid_text tokens -> extract_xyz_from_tokens tokens start = Ok p -> xyz_valid p.
Proof.
  intros Ht. unfold extract_xyz_from_tokens. intros Hp. inv_res.
  apply xyz_from_fields_valid in Ha; [|done].
  assert (xyz_from_pattern tokens start = Ok p -> xyz_valid p) as Hpat.
  { unfold xyz_from_pattern. case_decide; [|by intros [= <-]]. intros Hq. inv_res.
    destruct (coord_findall a0) as [|c0 [|c1 [|c2 r]]]; inv_res; try done.
    repeat match goal with Hk : py_float _ = Ok _ |- _ => apply py_float_valid in Hk end. done. }
  destruct a as [[[x|] [y|]] [z|]]; first [by apply Hpat | by injection Hp as <-].
Qed.

Lemma extract_xyz_from_json_valid obj p :
  Forall item_ok obj -> extract_xyz_from_json obj = Ok p -> xyz_valid p.
Proof.
  intros Ho.
  assert (xyz_top_level obj = Ok p -> xyz_valid p) as Htop.
  { unfold xyz_top_level. intros Hx. inv_res.
    repeat match goal with Hk : first_float _ _ = Ok _ |- _ => apply first_float_opt in Hk; [|done] end.
    done. }
  unfold extract_xyz_from_json. pose proof (dget_none_ok (txt "position") obj Ho) as Hv.
  destruct (dget_none _ obj); try exact Htop. apply val_ok_dict in Hv as [_ Hv].
  intros Hx. inv_res.
  repeat match goal with
  | Hk : parse_float _ = Ok _ |- _ => apply parse_float_opt in Hk; [|by apply dget_none_ok]
  end.
  destruct a, a0; first [by apply Htop | by injection Hx as <-].
Qed.

(** ** The parser and the normalizer *)

(** A result whose event, if any, is well formed. *)
Definition result_ok (m : res result) : Prop :=
  forall e er, m = Ok (Some e, er) -> event_ok e.

Lemma result_ok_err raw src code msg : result_ok (err raw src code msg).
Proof. done. Qed.

Lemma result_ok_event raw tag ts p lay ar st (src : string) lo la :
  valid_text raw -> valid_text tag -> xyz_valid p -> opt_text_valid ar -> opt_text_valid st ->
  forallb (fun c => c <? 0x110000)%N (txt src) = true -> opt_float_valid lo -> opt_float_valid la ->
  result_ok (Ok (event raw tag ts p lay ar st src lo la)).
Proof.
  intros Hr Ht Hp Ha Hs Hsrc Hlo Hla e er He. destruct p as [[x y] z]. injection He as <- _.
  constructor; simpl; try done; by apply valid_text_b.
Qed.

Lemma result_ok_bind {A} (m : res A) (f : A -> res result) :
  (forall a, m = Ok a -> result_ok (f a)) -> result_ok (m ≫= f).
Proof. intros Hf e er He. apply bind_Ok in He as (a & Ha & He). by eapply Hf. Qed.

Lemma optional_height_valid tokens i z :
  Forall valid_text tokens ->
  (if decide (i < length tokens) then t ← token tokens i; parse_float (VStr t) else Ok None) = Ok z ->
  opt_float_valid z.
Proof.
  intros Ht. case_decide; [|by intros [= <-]]. intros (t & Hk & Hz)%bind_Ok.
  apply (parse_float_opt (VStr t)); [by eapply token_valid|done].
Qed.

Ltac ok_step Ht :=
  lazymatch goal with
  | |- result_ok (err _ _ _ _) => apply result_ok_err
  | |- result_ok (if decide _ then _ else _) => case_decide
  | |- result_ok (_ ≫= _) => apply result_ok_bind; intros ? ?
  | |- result_ok (match ?x with _ => _ end) => destruct x
  | |- result_ok (Ok (event _ _ _ _ _ _ _ _ _ _)) => apply result_ok_event
  | |- xyz_valid (None, None, _) => split; [done|]; split; [done|]
  | |- opt_float_valid (_, _, _).2 => cbn [snd]
  | |- opt_float_valid None => done
  | |- opt_text_valid None => done
  | |- opt_text_valid (safe_token _ _) => by apply safe_token_valid
  | H : extract_xyz_from_tokens _ _ = Ok ?p |- xyz_valid ?p =>
      by eapply extract_xyz_from_tokens_valid
  | |- opt_text_valid (match ?p with _ => _ end) => destruct p
  | H : parse_float (VStr ?t) = Ok ?o |- opt_float_valid ?o =>
      apply (parse_float_opt (VStr t)); [by eapply token_valid|exact H]
  | |- opt_float_valid _ => by eapply optional_height_valid
  | H : token _ _ = Ok ?t |- valid_text ?t => by eapply token_valid
  | |- valid_text _ => done
  | |- forallb _ _ = true => done
  | |- _ => done
  end.

Lemma dispatch_ok raw src tokens :
  valid_text raw -> Forall valid_text tokens -> result_ok (dispatch raw src tokens).
Proof.
  intros Hraw Ht.
  unfold dispatch, parse_display, parse_status1, parse_status2, parse_gpsposi.
  destruct (text_eqb src _); [|destruct (text_eqb src _); [|destruct (text_eqb src _)]];
    repeat ok_step Ht.
Qed.

Lemma parse_json_object_ok raw obj :
  valid_text raw -> Forall item_ok obj -> result_ok (parse_json_object raw obj).
Proof.
  intros Hraw Ho. unfold parse_json_object. case_if; [apply result_ok_err|].
  apply result_ok_bind. intros [tag|] Htag; [|apply result_ok_err].
  apply result_ok_bind. intros [ts|] _; [|apply result_ok_err].
  repeat (apply result_ok_bind; intros ? ?).
  apply first_str_opt in Htag; [|done].
  apply result_ok_event; try done; try (by eapply extract_xyz_from_json_valid);
    try (by eapply first_str_opt); by eapply first_float_opt.
Qed.

Lemma parse_message_ok raw : valid_text raw -> result_ok (parse_message raw).
Proof.
  intros Hraw. pose proof (strip_valid raw Hraw) as Hs. unfold parse_message.
  case_if; [apply result_ok_err|]. case_if.
  { unfold parse_json. destruct (json_loads (strip raw)) as [v|e] eqn:E.
    - apply json_loads_ok in E; [|done]. destruct v; try done.
      apply val_ok_dict in E as [_ E]. by apply parse_json_object_ok.
    - case_if; [apply result_ok_err|done]. }
  case_if; [apply result_ok_err|].
  destruct (split_once _ _) as [ty payload] eqn:Es.
  apply split_once_valid in Es as [_ Hp]; [|done].
  case_if; [apply result_ok_err|]. case_if; [apply result_ok_err|].
  case_if; [apply result_ok_err|]. apply dispatch_ok; [done|].
  apply Forall_fmap. eapply Forall_impl; [by apply split_on_valid|]. intros t. apply strip_valid.
Qed.

Lemma normalizer_first_float_opt obj keys o :
  Forall item_ok obj -> JsonNormalizer.first_float obj keys = Ok o -> opt_float_valid o.
Proof.
  intros Ho. induction keys as [|k keys IH]; cbn [JsonNormalizer.first_float]; [by intros [= <-]|].
  intros Hf. inv_res. destruct a as [f|]; [|by apply IH]. injection Hf as <-.
  eapply parse_float_valid; [|done]. by apply dget_none_ok.
Qed.

Lemma xyz_of_valid obj p : Forall item_ok obj -> JsonNormalizer.xyz_of obj = Ok p -> xyz_valid p.
Proof.
  intros Ho. unfold JsonNormalizer.xyz_of. intros Hx. inv_res.
  repeat match goal with
  | Hk : JsonNormalizer.first_float _ _ = Ok _ |- _ => apply normalizer_first_float_opt in Hk; [|done]
  end. done.
Qed.

Lemma extract_xyz_valid obj p :
  Forall item_ok obj -> JsonNormalizer.extract_xyz obj = Ok p -> xyz_valid p.
Proof.
  intros Ho. unfold JsonNormalizer.extract_xyz. pose proof (dget_none_ok (txt "position") obj Ho) as Hv.
  destruct (dget_none _ obj); try (by apply xyz_of_valid). apply val_ok_dict in Hv as [_ Hv].
  intros Hx. inv_res. apply xyz_of_valid in Ha; [|done].
  destruct a as [[[x|] [y|]] [z|]]; first [by apply xyz_of_valid in Hx | by injection Hx as <-].
Qed.

Lemma normalize_ok o clock obj raw e :
  valid_text o -> valid_text raw -> Forall item_ok obj ->
  JsonNormalizer.normalize o clock obj raw = Ok (Some e) -> event_ok e.
Proof.
  intros Ho Hraw Hobj. unfold JsonNormalizer.normalize. intros He.
  apply bind_Ok in He as ([tag|] & Htag & He); [|done]. apply first_str_opt in Htag; [|done].
  apply bind_Ok in He as (ts & _ & He). apply bind_Ok in He as ([ts' ws] & Hts & He).
  assert (Forall valid_text ws) as Hws.
  { destruct ts; [injection Hts as _ <-; constructor|].
    apply bind_Ok in Hts as (n & _ & Hts). injection Hts as _ <-.
    constructor; [by apply valid_text_b|constructor]. }
  apply bind_Ok in He as ([[x y] z] & Hp & He). apply extract_xyz_valid in Hp; [|done].
  apply bind_Ok in He as (lo & Hlo & He). apply normalizer_first_float_opt in Hlo; [|done].
  apply bind_Ok in He as (la & Hla & He). apply normalizer_first_float_opt in Hla; [|done].
  apply bind_Ok in He as (lay & _ & He).
  apply bind_Ok in He as (ar & Har & He). apply first_str_opt in Har; [|done].
  apply bind_Ok in He as (st & Hst & He). apply first_str_opt in Hst; [|done].
  injection He as <-. constructor; simpl; try done. by apply valid_text_b.
Qed.
End Valid.

(** ** Decoded bytes *)

Lemma utf8_decode_N_valid pass n s t :
  length s <= n -> utf8_decode_N pass s = Ok t -> Forall (fun b => b < 256)%N s -> valid_text t.
Proof.
  revert s t. induction n as [|n IH]; intros s t Hn.
  { destruct s; [|simpl in Hn; lia]. intros [= <-] _. constructor. }
  destruct s as [|b0 r0]; [intros [= <-] _; constructor|].
  assert (forall c r', length r' <= n -> Forall (fun b => b < 256)%N r' -> (c < 0x110000)%N ->
    (t' ← utf8_decode_N pass r'; Ok (c :: t')) = Ok t -> valid_text t) as Hrec.
  { intros c r' Hl Hr' Hc Ht. apply bind_Ok in Ht as (t' & Ht & Hc').
    injection Hc' as <-. constructor; [done|by eapply IH]. }
  cbn [utf8_decode_N]. intros Ht [Hb0 Hb]%Forall_cons. simpl in Hn.
  destruct (b0 <? 0x80)%N; [by eapply Hrec in Ht; [|lia|done|lia]|].
  destruct (in_range 0xc2 0xdf b0) eqn:E1.
  { destruct r0 as [|b1 r1]; [done|]. destruct (is_cont b1) eqn:C1; [|done].
    apply Forall_cons in Hb as [H1 Hb]. simpl in Hn. eapply Hrec in Ht; [done|lia|done|].
    unfold is_cont, in_range in *. lia. }
  destruct (in_range 0xe0 0xef b0) eqn:E2.
  { destruct r0 as [|b1 [|b2 r2]]; [done..|].
    destruct (_ && _) eqn:C; [|done]. repeat (apply Forall_cons in Hb as [? Hb]).
    simpl in Hn. eapply Hrec in Ht; [done|lia|done|]. unfold in_range in *. lia. }
  destruct (in_range 0xf0 0xf4 b0) eqn:E3; [|done].
  destruct r0 as [|b1 [|b2 [|b3 r3]]]; [done..|].
  destruct (_ && _) eqn:C; [|done]. repeat (apply Forall_cons in Hb as [? Hb]).
  simpl in Hn. eapply Hrec in Ht; [done|lia|done|].
  apply andb_true_iff in C as [_ C]. unfold in_range in C. lia.
Qed.

Lemma byte_val_lt b : (byte_val b < 256)%N.
Proof. unfold byte_val. pose proof (Byte.to_N_bounded b). lia. Qed.

Lemma bytes_lt (b : bytes) : Forall (fun n => n < 256)%N (byte_val <$> b).
Proof. apply Forall_fmap, Forall_true. intros x. apply byte_val_lt. Qed.

(** A decoded text holds code points. *)
Lemma utf8_decode_valid b t : utf8_decode b = Ok t -> valid_text t.
Proof. intros H. eapply utf8_decode_N_valid; [done|exact H|apply bytes_lt]. Qed.
