(* ===== verification/Envelope.v ===== *)
(** * Message envelopes: [core/envelope/]

    The builder protocol is a record of operations; the registry maps a schema
    version to its builder. *)

From S2P Require Export Event.

Module Envelope.

(** [core/envelope/base.py] *)
Record EnvelopeContext := {
  cx_schema_version : text;
  cx_event_type : text;
  cx_origin : pyval;
  cx_normalized : bool;
  cx_ingested_at_ms : Z;
}.

Record EnvelopeBuilder := {
  eb_schema_version : text;
  eb_build : pyval -> EnvelopeContext -> pydict;
}.

(** [core/envelope/v1.py] *)
Definition V1_schema_version : text := "1.0".

Definition V1_build (payload : pyval) (context : EnvelopeContext) : pydict :=
  [ (txt "schema_version", VStr V1_schema_version);
    (txt "event_type", VStr (cx_event_type context));
    (txt "origin", cx_origin context);
    (txt "normalized", VBool (cx_normalized context));
    (txt "ingested_at_ms", VInt (cx_ingested_at_ms context));
    (txt "payload", payload) ].

Definition EnvelopeV1Builder : EnvelopeBuilder :=
  {| eb_schema_version := V1_schema_version; eb_build := V1_build |}.

(** ** [core/envelope/registry.py] *)

(** The order of Python's text comparison: by code points. *)
Fixpoint text_leb (a b : text) : bool :=
  match a, b with
  | [], _ => true
  | _ :: _, [] => false
  | x :: a', y :: b' => (x <? y)%N || ((x =? y)%N && text_leb a' b')
  end.
Definition text_le (a b : text) : Prop := text_leb a b = true.
#[export] Instance text_le_dec : RelDecision text_le.
Proof. intros a b. unfold text_le. solve_decision. Defined.

(** [sorted(l)] *)
Definition sorted (l : list text) : list text := merge_sort text_le l.

Definition registry : Type := gmap text EnvelopeBuilder.

Definition empty_registry : registry := (∅ : gmap text EnvelopeBuilder).

Definition register (r : registry) (b : EnvelopeBuilder) : registry :=
  <[ eb_schema_version b := b ]> (r : gmap text EnvelopeBuilder).

Definition supported (r : registry) : text :=
  match join ", " (sorted (map_to_list (r : gmap text EnvelopeBuilder)).*1) with
  | [] => "<none>"
  | t => t
  end.

Definition get (r : registry) (version : text) : res EnvelopeBuilder :=
  match (r : gmap text EnvelopeBuilder) !! version with
  | Some b => Ok b
  | None => raise ValueError
      (txt "Unsupported envelope version '" ++ version ++ txt "'. Supported versions: "
       ++ supported r)
  end.

Definition create_default_envelope_registry : registry :=
  register empty_registry EnvelopeV1Builder.

End Envelope.
