(* ===== verification/Tracing.v ===== *)
(** * Trace-context propagation: [core/tracing.py]

    The propagator is the OpenTelemetry package: it reads a carrier through the
    getter and writes to it through the setter.  [Propagator] is that interface;
    [inject_fields] are the fields it sets for the span that is current. *)

From S2P Require Export Event.

Module Tracing.

Definition TRACE_KEYS : list text := [txt "traceparent"; txt "tracestate"].

(** [strip_trace_keys] *)
Definition strip_trace_keys (obj : pydict) : pydict :=
  foldl (fun d key => dpop key d) obj TRACE_KEYS.

Section Carriers.
Context `{Interpreter}.

(** [_DictGetter.get] and [_DictGetter.keys] *)
Definition dict_get (carrier : pydict) (key : text) : res (option (list text)) :=
  match dget_none key carrier with
  | VNone => Ok None
  | val => s ← py_str val; Ok (Some [s])
  end.

Definition dict_keys (carrier : pydict) : list text := dkeys carrier.
End Carriers.

(** [_DictSetter.set] on a dict and on the header map *)
Definition dict_set (carrier : pydict) (key value : text) : pydict :=
  dset key (VStr value) carrier.

Definition headers : Type := gmap text text.

Definition header_set (h : gmap text text) (key value : text) : gmap text text :=
  <[ key := value ]> h.

(** What the code relies on: a span context is extracted from a getter, and
    injection sets fields of its own choice. *)
Class Propagator := {
  span_context : Type;
  extract : (text -> res (option (list text))) -> list text -> res span_context;
  inject_fields : option span_context -> list (text * text);
}.

(** A propagator for concrete runs: one context, a constant field. *)
Definition plain_propagator : Propagator :=
  {| span_context := (); extract := fun _ _ => Ok ();
     inject_fields := fun _ => [(txt "traceparent", txt "00-1-2-01")] |}.

(** The W3C trace-context propagator sets no other field. *)
Definition w3c_fields (fields : list (text * text)) : Prop :=
  Forall (fun kv => kv.1 ∈ TRACE_KEYS) fields.

Section Propagation.
Context `{Interpreter} `{Propagator}.

(** [inject_into_dict], [inject_into_headers]: the setter on each field in turn. *)
Definition inject_into_dict (ctx : option span_context) (carrier : pydict) : pydict :=
  foldl (fun d kv => dict_set d kv.1 kv.2) carrier (inject_fields ctx).

Definition inject_into_headers (ctx : option span_context) (h : gmap text text)
    : gmap text text :=
  foldl (fun d kv => header_set d kv.1 kv.2) h (inject_fields ctx).

(** [extract_from_dict] *)
Definition extract_from_dict (carrier : pydict) : res span_context :=
  extract (dict_get carrier) (dict_keys carrier).

(** [extract_from_headers]: falsy headers read as an empty dict. *)
Definition extract_from_headers (h : option pydict) : res span_context :=
  let flat := default [] h in extract (dict_get flat) (dict_keys flat).
End Propagation.

(** [get_otlp_endpoint]: an unset or empty variable is [None]. *)
Definition get_otlp_endpoint (env : gmap text text) : option text :=
  match env !! txt "OTEL_EXPORTER_OTLP_ENDPOINT" with
  | Some [] | None => None
  | Some t => Some t
  end.

(** ** [init_tracing]

    The OpenTelemetry SDK is third-party: the function is the calls it makes to it,
    in order. *)

Inductive exporter := OTLPSpanExporter (endpoint : text) (insecure : bool) | ConsoleSpanExporter.
Inductive propagator := TraceContextTextMapPropagator.

Inductive sdk_call :=
  | NewTracerProvider (attributes : list (text * text))
  | NewExporter (e : exporter)
  | AddBatchSpanProcessor (e : exporter)
  | SetTracerProvider
  | SetGlobalTextmap (l : list propagator).

(** The exporter is chosen by the truth of [otlp_endpoint]. *)
Definition exporter_of (otlp_endpoint : option text) : exporter :=
  match otlp_endpoint with
  | Some (c :: r) => OTLPSpanExporter (c :: r) true
  | _ => ConsoleSpanExporter
  end.

Definition init_tracing (service_name : text) (otlp_endpoint : option text) : list sdk_call :=
  let e := exporter_of otlp_endpoint in
  [ NewTracerProvider [(txt "service.name", service_name)]; NewExporter e; AddBatchSpanProcessor e;
    SetTracerProvider; SetGlobalTextmap [TraceContextTextMapPropagator] ].

End Tracing.
