(* ===== verification/Validate.v ===== *)
(** * Schema validation: [core/validate.py]

    The JSON-schema engine is the [jsonschema] package: a validator holds its
    [iter_errors] function, which yields the errors of an object in order. *)

From S2P Require Export Event.

Module Validate.

(** One component of [error.path]: a property name or an index. *)
Inductive path_item := PKey (k : text) | PIndex (i : nat).

Record schema_error := { se_path : list path_item; se_message : text }.

Record ValidationError := {
  ve_path : text;
  ve_line_no : nat;
  ve_message : text;
}.

Record ValidatedObject := { vo_origin : text; vo_data : pyval }.

(** A constructed [Validator]: its origin and the schema's error iterator. *)
Record Validator := {
  v_origin : text;
  v_iter_errors : pyval -> list schema_error;
}.

(** [str(p)] of a path component *)
Definition path_item_text (p : path_item) : text :=
  match p with PKey k => k | PIndex i => nat_to_text i end.

Definition path_text (path : list path_item) : text := join "." (path_item_text <$> path).

Definition to_validation_error (line_no : nat) (e : schema_error) : ValidationError :=
  {| ve_path := path_text (se_path e); ve_line_no := line_no; ve_message := se_message e |}.

Definition outcome : Type := option ValidatedObject * list ValidationError.

Definition invalid_json_error (line_no : nat) (e : exn) : ValidationError :=
  {| ve_path := []; ve_line_no := line_no; ve_message := txt "Invalid JSON: " ++ exn_msg e |}.

Section Lines.
Context `{Interpreter}.

Definition get_validated_object (v : Validator) (line : text) (line_no : nat) : res outcome :=
  match json_loads line with
  | Raise e =>
      if exn_isinstance (exn_cls e) JSONDecodeError
      then Ok (None, [invalid_json_error line_no e])
      else Raise e
  | Ok obj =>
      match to_validation_error line_no <$> v_iter_errors v obj with
      | [] => Ok (Some {| vo_origin := v_origin v; vo_data := obj |}, [])
      | errors => Ok (None, errors)
      end
  end.

(** [get_validated_objects_from_file], from line [line_no] of the file on *)
Fixpoint validate_lines (v : Validator) (line_no : nat) (lines : list text)
    : res (list ValidatedObject * list ValidationError) :=
  match lines with
  | [] => Ok ([], [])
  | line :: rest =>
      match strip line with
      | [] => validate_lines v (S line_no) rest
      | s =>
          '(obj, errors) ← get_validated_object v s line_no;
          '(objs, errs) ← validate_lines v (S line_no) rest;
          match obj with
          | None => Ok (objs, errors ++ errs)
          | Some o => Ok (o :: objs, errs)
          end
      end
  end.

Definition get_validated_objects_from_file (v : Validator) (lines : list text) :=
  validate_lines v 1 lines.

(** [repr] of the attrs class and of a list of its instances *)
Definition repr_error (e : ValidationError) : text :=
  txt "ValidationError(path=" ++ repr_str (ve_path e) ++ txt ", line_no="
  ++ nat_to_text (ve_line_no e) ++ txt ", message=" ++ repr_str (ve_message e) ++ txt ")".

Definition repr_errors (es : list ValidationError) : text :=
  ch "[" :: join ", " (repr_error <$> es) ++ [ch "]"].
End Lines.

End Validate.
