(* ===== verification/UdpServer.v ===== *)
(** * The UDP receiver's loop: [core/udp/server.py]

    One datagram is handled by [process_datagram], [build_envelope] and the
    publisher; [serve_forever] runs over what the socket delivers and records its
    effects.  The socket, the clock, the tracer's span fields and the publisher's
    outcome are inputs of an iteration. *)

From S2P Require Export JsonNormalizer Envelope Tracing Validate.
Import Tracing.

Module UdpServer.

(** The constructor's arguments that steer the loop.  [parser] says whether an
    [LS1000Parser] (which has no state) was given; [json_normalizer] is the origin
    of the normalizer, if any; [on_decode_error] may itself raise. *)
Record UdpServer := {
  topic : text;
  max_datagram_bytes : nat;
  validator : option Validate.Validator;
  parser : bool;
  json_normalizer : option text;
  envelope_version : text;
  envelope_registry : Envelope.registry;
  event_type : text;
  on_decode_error : option (bytes -> exn -> res unit);
}.

Definition header_map : Type := gmap text text.

(** What an iteration reads from outside the datagram: the two clock readings and
    the outcome of [publisher.publish]. *)
Record environment := {
  env_clock_normalize : pyfloat;
  env_clock_envelope : pyfloat;
  env_publish : res unit;
}.

Section Server.
Context `{Interpreter} `{Propagator}.
Variable self : UdpServer.

(** [_extract_trace_context]: every exception is swallowed. *)
Definition extract_trace_context (data : bytes) : option span_context :=
  match json_loads_bytes data with
  | Ok (VDict obj) =>
      if dhas (txt "traceparent") obj then
        match extract_from_dict obj with Ok c => Some c | Raise _ => None end
      else None
  | _ => None
  end.

(** [_try_parse_ls1000] *)
Definition try_parse_ls1000 (decoded : text) (headers : gmap text text)
    : res (option pydict * gmap text text) :=
  if negb (parser self) then Ok (None, headers)
  else
    '(parsed, _) ← Ls1000.parse_message decoded;
    match parsed with
    | None => Ok (None, headers)
    | Some e =>
        Ok (Some (asdict e),
            <[ txt "parser" := txt "ls1000" ]> (<[ txt "origin" := txt "ls-1000" ]> headers))
    end.

(** [_strip_trace_from_string] *)
Definition strip_trace_from_string (decoded : text) : res text :=
  try_except
    (obj ← json_loads decoded;
     match obj with
     | VDict d => json_dumps compact_style (VDict (strip_trace_keys d))
     | _ => Ok decoded
     end)
    [JSONDecodeError; UnicodeDecodeError] (fun _ => Ok decoded).

(** The validated or plain document of [_normalize_json_payload], with its origin *)
Definition load_payload (cleaned : text) : res (pyval * text) :=
  match validator self with
  | Some v =>
      '(validated, errors) ← Validate.get_validated_object v cleaned 1;
      match validated with
      | None => raise ValueError (txt "Validation failed: " ++ Validate.repr_errors errors)
      | Some o => Ok (Validate.vo_data o, Validate.vo_origin o)
      end
  | None => obj ← json_loads cleaned; Ok (obj, txt "json")
  end.

(** [_normalize_json_payload] *)
Definition normalize_json_payload (clock : pyfloat) (decoded : text)
    (headers : gmap text text) : res (pyval * gmap text text) :=
  cleaned ← strip_trace_from_string decoded;
  '(raw_json, origin) ← load_payload cleaned;
  let headers := <[ txt "origin" := origin ]> headers in
  match json_normalizer self with
  | None => Ok (raw_json, headers)
  | Some self_origin =>
      match raw_json with
      | VDict obj =>
          normalized ← JsonNormalizer.normalize self_origin clock obj decoded;
          match normalized with
          | None => raise ValueError
              "JSON normalizer failed to map message into normalized payload"
          | Some e =>
              Ok (VDict (asdict e), <[ txt "parser" := txt "json-normalizer" ]> headers)
          end
      | _ => raise AttributeError "get"
      end
  end.

(** [_process_datagram] *)
Definition process_datagram (clock : pyfloat) (data : bytes) (headers : gmap text text)
    : res (pyval * gmap text text) :=
  decoded ← utf8_decode data;
  '(ls1000_obj, headers) ← try_parse_ls1000 decoded headers;
  match ls1000_obj with
  | Some d => Ok (VDict d, headers)
  | None => normalize_json_payload clock decoded headers
  end.

(** [_build_envelope] *)
Definition payload_origin (payload : pyval) (headers : gmap text text) : pyval :=
  match payload with
  | VDict d =>
      match headers !! txt "origin" with
      | Some o => VStr o
      | None => dget_or "origin" (VStr "unknown") d
      end
  | _ => VStr "unknown"
  end.

Definition is_normalized (payload : pyval) : bool :=
  match payload with
  | VDict d => dhas "tag_id" d && dhas "ts_utc_ms" d
  | _ => false
  end.

Definition build_envelope (clock : pyfloat) (payload : pyval) (headers : gmap text text)
    : res pydict :=
  now ← JsonNormalizer.now_ms clock;
  let context := {| Envelope.cx_schema_version := envelope_version self;
                    Envelope.cx_event_type := event_type self;
                    Envelope.cx_origin := payload_origin payload headers;
                    Envelope.cx_normalized := is_normalized payload;
                    Envelope.cx_ingested_at_ms := now |} in
  builder ← Envelope.get (envelope_registry self) (envelope_version self);
  Ok (Envelope.eb_build builder payload context).

(** [_serialize_message] *)
Definition serialize_message (obj : pyval) : res bytes :=
  s ← json_dumps compact_style obj; utf8_encode s.

(** What is handed to [publisher.publish]. *)
Record publication := {
  pub_topic : text;
  pub_message : bytes;
  pub_headers : gmap text text;
}.

Record address := { addr_ip : text; addr_port : Z }.

(** The body of the loop's [try], up to the call of [publish]. *)
Definition prepare (env : environment) (data : bytes) (addr : address) : res publication :=
  port ← int_text (addr_port addr);
  let headers := <[ txt "source_port" := port ]> (<[ txt "source_ip" := addr_ip addr ]> ∅) in
  let parent_ctx := extract_trace_context data in
  '(obj, headers) ← process_datagram (env_clock_normalize env) data headers;
  envelope ← build_envelope (env_clock_envelope env) obj headers;
  let headers := inject_into_headers parent_ctx headers in
  message ← serialize_message (VDict envelope);
  Ok {| pub_topic := topic self; pub_message := message; pub_headers := headers |}.

(** ** The loop *)

Inductive effect :=
  | Published (p : publication)
  | PublishFailed (p : publication) (e : exn)
  | DecodeError (data : bytes) (e : exn).

Inductive received :=
  | Datagram (payload : bytes) (addr : address) (env : environment)
  | SocketError.

Inductive status := Running | Stopped | Crashed (e : exn).

(** [_handle_processing_error] *)
Definition handle_processing_error (data : bytes) (e : exn) : list effect * res unit :=
  match on_decode_error self with
  | Some h => ([DecodeError data e], h data e)
  | None => ([], Ok tt)
  end.

(** One iteration on a received datagram: its effects, and whether it raised. *)
Definition iteration (payload : bytes) (addr : address) (env : environment)
    : list effect * res unit :=
  let data := take (max_datagram_bytes self) payload in
  match prepare env data addr with
  | Raise e => handle_processing_error data e
  | Ok p =>
      match env_publish env with
      | Ok _ => ([Published p], Ok tt)
      | Raise e => let '(es, r) := handle_processing_error data e in
                   (PublishFailed p e :: es, r)
      end
  end.

Fixpoint serve_forever (inputs : list received) : list effect * status :=
  match inputs with
  | [] => ([], Running)
  | SocketError :: _ => ([], Stopped)
  | Datagram payload addr env :: rest =>
      match iteration payload addr env with
      | (es, Raise e) => (es, Crashed e)
      | (es, Ok _) => let '(es', st) := serve_forever rest in (es ++ es', st)
      end
  end.
End Server.

Arguments publication : clear implicits.
Arguments effect : clear implicits.
Arguments received : clear implicits.

End UdpServer.
