(* ===== verification/ServerFacts.v ===== *)
(** * The UDP receiver: its theorems

    Trace fields, envelopes, the messages that are published and their decoding, and
    the loop over the datagrams. *)

From S2P Require Export ValidFacts UdpServer.
Import Tracing UdpServer.

(** ** Trace fields *)

Lemma dpop_dset_eq k v d : dpop k (dset k v d) = dpop k d.
Proof.
  induction d as [|[k' v'] d IH]; simpl; [by rewrite text_eqb_refl|].
  destruct (text_eqb k k') eqn:E; simpl; rewrite E; [done|by rewrite IH].
Qed.

Lemma dpop_dset_ne k k' v d : k ≠ k' -> dpop k (dset k' v d) = dset k' v (dpop k d).
Proof.
  intros Hne. apply text_eqb_neq in Hne as E.
  induction d as [|[k0 v0] d IH]; simpl; [by rewrite E|].
  destruct (text_eqb k' k0) eqn:E0.
  - apply text_eqb_eq in E0 as <-. simpl. rewrite E. simpl. by rewrite text_eqb_refl.
  - simpl. destruct (text_eqb k k0); [done|]. simpl. by rewrite E0, IH.
Qed.

Lemma strip_dget k d :
  dget k (strip_trace_keys d) = if bool_decide (k ∈ TRACE_KEYS) then None else dget k d.
Proof.
  unfold strip_trace_keys, TRACE_KEYS. cbn [foldl].
  destruct (decide (k = txt "tracestate")) as [->|Hs].
  - rewrite dget_dpop_eq. by rewrite bool_decide_eq_true_2 by set_solver.
  - rewrite dget_dpop_ne by congruence. destruct (decide (k = txt "traceparent")) as [->|Hp].
    + rewrite dget_dpop_eq. by rewrite bool_decide_eq_true_2 by set_solver.
    + rewrite dget_dpop_ne by congruence. by rewrite bool_decide_eq_false_2 by set_solver.
Qed.

Lemma strip_ok d : dict_ok d -> dict_ok (strip_trace_keys d).
Proof. intros Hd. unfold strip_trace_keys, TRACE_KEYS. cbn [foldl]. by do 2 apply dpop_ok. Qed.

Lemma strip_clean d : Forall (fun k => k ∉ d.*1) TRACE_KEYS -> strip_trace_keys d = d.
Proof.
  unfold strip_trace_keys, TRACE_KEYS. cbn [foldl]. intros [H1 [H2 _]%Forall_cons]%Forall_cons.
  by rewrite (dpop_absent _ d H1), dpop_absent.
Qed.

Lemma strip_dset k v d : k ∈ TRACE_KEYS -> strip_trace_keys (dset k v d) = strip_trace_keys d.
Proof.
  unfold strip_trace_keys, TRACE_KEYS. cbn [foldl].
  intros [->|[->|[]%elem_of_nil]%elem_of_cons]%elem_of_cons; [by rewrite dpop_dset_eq|].
  rewrite dpop_dset_ne by text_decide. by rewrite dpop_dset_eq.
Qed.

Section Inject.
Context `{Interpreter} `{Propagator}.

Lemma strip_inject ctx d :
  w3c_fields (inject_fields ctx) -> strip_trace_keys (inject_into_dict ctx d) = strip_trace_keys d.
Proof.
  unfold inject_into_dict, w3c_fields. generalize (inject_fields ctx). intros fields Hf.
  revert d. induction Hf as [|[k v] fields Hk Hf IH]; intros d; [done|]. simpl.
  rewrite IH. by apply strip_dset.
Qed.

Lemma inject_ok ctx d :
  Forall (fun kv => valid_text kv.1 /\ valid_text kv.2) (inject_fields ctx) ->
  dict_ok d -> dict_ok (inject_into_dict ctx d).
Proof.
  unfold inject_into_dict. generalize (inject_fields ctx). intros fields Hf.
  revert d. induction Hf as [|[k v] fields Hk Hf IH]; intros d Hd; [done|]. simpl.
  apply IH. by apply dset_ok.
Qed.
End Inject.

(** ** Serialisation *)

Lemma res_mapM_Raise {A B} (f : A -> res B) l e :
  res_mapM f l = Raise e -> Exists (fun x => f x = Raise e) l.
Proof.
  induction l as [|x l IH]; simpl; [done|].
  intros [Hx|(y & _ & [Hl|(ys & _ & Hl)]%bind_Raise)]%bind_Raise;
    [by apply Exists_cons_hd|by apply Exists_cons_tl, IH|done].
Qed.

(** An integer beyond the digit bound and a nesting beyond the recursion bound are the
    only failures of [json.dumps]. *)
Lemma dumps_at_raises style v :
  forall depth e, dumps_at style depth v = Raise e ->
  exn_cls e = ValueError \/ exn_cls e = RecursionError.
Proof.
  induction v as [|b|z|f|s|l IH|d IH] using pyval_nested_ind; intros depth e; try done.
  - simpl. unfold int_text. case_decide; [intros [= <-]; by left|done].
  - destruct depth; [intros [= <-]; by right|].
    rewrite dumps_at_list. intros [Hm|(a & _ & He)]%bind_Raise; [|done].
    apply res_mapM_Raise, Exists_exists in Hm as (x & Hx & He).
    rewrite Forall_forall in IH. by eapply IH.
  - destruct depth; [intros [= <-]; by right|].
    rewrite dumps_at_dict. intros [Hm|(a & _ & He)]%bind_Raise; [|done].
    apply res_mapM_Raise, Exists_exists in Hm as (x & Hx & He).
    unfold dumps_member in He. apply bind_Raise in He as [He|(y & _ & He)]; [|done].
    rewrite Forall_forall in IH. by eapply IH.
Qed.

Section Strip.
Context `{Interpreter}.

Lemma json_dumps_raises style v e :
  json_dumps style v = Raise e -> exn_cls e = ValueError \/ exn_cls e = RecursionError.
Proof. apply dumps_at_raises. Qed.

Lemma dumps_ok_valid v s : val_ok v -> json_dumps compact_style v = Ok s -> valid_text s.
Proof.
  intros Hv Hs. apply (json_dumps_valid compact_style v); [by apply valid_text_b..|done|done].
Qed.

(** [_strip_trace_from_string]: a dict comes back without its trace fields. *)
Lemma strip_string_dict decoded d s :
  valid_text decoded -> json_loads decoded = Ok (VDict d) ->
  strip_trace_from_string decoded = Ok s ->
  json_dumps compact_style (VDict (strip_trace_keys d)) = Ok s /\
  json_loads s = Ok (VDict (strip_trace_keys d)) /\ valid_text s.
Proof.
  intros Hv Hl. unfold strip_trace_from_string. rewrite Hl. cbn [mbind res_bind].
  assert (val_ok (VDict (strip_trace_keys d))) as Hok.
  { apply val_ok_dict, strip_ok, val_ok_dict. by eapply json_loads_ok. }
  unfold try_except. destruct (json_dumps _ _) as [t|e] eqn:E.
  - intros [= ->]. split; [done|]. split; [by apply (json_roundtrip _ _ Hok)|by eapply dumps_ok_valid].
  - simpl. by destruct (json_dumps_raises _ _ _ E) as [He|He]; rewrite He.
Qed.

(** Any other text comes back as it is. *)
Lemma strip_string_other decoded s :
  (forall d, json_loads decoded ≠ Ok (VDict d)) -> strip_trace_from_string decoded = Ok s ->
  s = decoded.
Proof.
  intros Hn. unfold strip_trace_from_string, try_except.
  destruct (json_loads decoded) as [v|e]; cbn [mbind res_bind].
  - destruct v; try (by intros [= <-]). by destruct (Hn d).
  - case_if; by intros [= <-].
Qed.

Lemma strip_string_valid decoded s :
  valid_text decoded -> strip_trace_from_string decoded = Ok s -> valid_text s.
Proof.
  intros Hv Hs. destruct (json_loads decoded) as [[| | | | | |d]|e] eqn:E;
    try (apply strip_string_other in Hs as ->; [done|congruence]).
  by destruct (strip_string_dict decoded d s Hv E Hs) as (_ & _ & ?).
Qed.

End Strip.

(** ** The envelope registry *)

Lemma registry_foldl bs (r : Envelope.registry) v :
  (foldl Envelope.register r bs : gmap text Envelope.EnvelopeBuilder) !! v =
  match last (List.filter (fun b => text_eqb (Envelope.eb_schema_version b) v) bs) with
  | Some b => Some b
  | None => (r : gmap text Envelope.EnvelopeBuilder) !! v
  end.
Proof.
  revert r. induction bs as [|b bs IH] using rev_ind; intros r; [done|].
  rewrite foldl_app. cbn [foldl]. rewrite List.filter_app. simpl.
  unfold Envelope.register at 1. destruct (text_eqb _ v) eqn:E.
  - apply text_eqb_eq in E as <-. rewrite last_snoc. by rewrite lookup_insert_eq.
  - rewrite app_nil_r, lookup_insert_ne by by apply text_eqb_neq. apply IH.
Qed.

(** A registry answers with the builder registered last under the version, and
    with a [ValueError] for a version that no builder has. *)
Theorem registry_get bs v :
  match last (List.filter (fun b => text_eqb (Envelope.eb_schema_version b) v) bs) with
  | Some b => Envelope.get (foldl Envelope.register Envelope.empty_registry bs) v = Ok b
  | None => exists e, Envelope.get (foldl Envelope.register Envelope.empty_registry bs) v = Raise e /\
                      exn_cls e = ValueError
  end.
Proof.
  unfold Envelope.get. rewrite registry_foldl.
  destruct (last _) as [b|]; [done|].
  unfold Envelope.empty_registry. rewrite lookup_empty. by eexists.
Qed.

(** ** From a datagram to its message *)

Section Server.
Context `{Interpreter} `{Propagator}.
Variable self : UdpServer.

(** The texts of the configuration hold code points; the builders are the default
    ones. *)
Definition config_ok : Prop :=
  valid_text (event_type self) /\
  (forall v, validator self = Some v -> valid_text (Validate.v_origin v)) /\
  (forall o, json_normalizer self = Some o -> valid_text o) /\
  envelope_registry self = Envelope.create_default_envelope_registry.

(** The origin of a document, and the validator's verdict on it. *)
Definition document_origin : text :=
  match validator self with Some va => Validate.v_origin va | None => "json" end.

Definition accepted_document (v : pyval) : Prop :=
  forall va, validator self = Some va -> Validate.v_iter_errors va v = [].

Lemma document_origin_valid : config_ok -> valid_text document_origin.
Proof.
  intros (_ & Hv & _). unfold document_origin.
  destruct (validator self); [by apply Hv|by apply valid_text_b].
Qed.

Lemma load_payload_spec cleaned v o :
  load_payload self cleaned = Ok (v, o) ->
  json_loads cleaned = Ok v /\ o = document_origin /\ accepted_document v.
Proof.
  unfold load_payload, Validate.get_validated_object, document_origin, accepted_document.
  destruct (validator self) as [va|].
  - destruct (json_loads cleaned) as [obj|e]; [|by case_if].
    destruct (Validate.v_iter_errors va obj) eqn:E; [|done]. intros [= <- <-].
    do 2 (split; [done|]). by intros ? [= <-].
  - intros Hl. inv_res. by do 2 (split; [done|]).
Qed.

(** The parser of the LS-1000 frames has no event for the text. *)
Definition not_ls1000 (decoded : text) : Prop :=
  parser self = false \/ exists er, Ls1000.parse_message decoded = Ok (None, er).

(** The two ways to a payload. *)
Inductive processed (clock : pyfloat) (decoded : text) (h : gmap text text) :
    pyval -> gmap text text -> Prop :=
  | processed_ls1000 e er :
      parser self = true -> Ls1000.parse_message decoded = Ok (Some e, er) ->
      processed clock decoded h (VDict (asdict e))
        (<[txt "parser" := txt "ls1000"]> (<[txt "origin" := txt "ls-1000"]> h))
  | processed_json cleaned v o :
      not_ls1000 decoded -> json_normalizer self = None ->
      strip_trace_from_string decoded = Ok cleaned -> load_payload self cleaned = Ok (v, o) ->
      processed clock decoded h v (<[txt "origin" := o]> h)
  | processed_normalized cleaned obj o self_origin e :
      not_ls1000 decoded -> json_normalizer self = Some self_origin ->
      strip_trace_from_string decoded = Ok cleaned -> load_payload self cleaned = Ok (VDict obj, o) ->
      JsonNormalizer.normalize self_origin clock obj decoded = Ok (Some e) ->
      processed clock decoded h (VDict (asdict e))
        (<[txt "parser" := txt "json-normalizer"]> (<[txt "origin" := o]> h)).

Lemma process_datagram_spec clock data h v h' :
  process_datagram self clock data h = Ok (v, h') ->
  exists decoded, utf8_decode data = Ok decoded /\ processed clock decoded h v h'.
Proof.
  unfold process_datagram. intros Hp. apply bind_Ok in Hp as (decoded & Hd & Hp).
  exists decoded. split; [done|]. apply bind_Ok in Hp as ([ls h1] & Hls & Hp).
  assert ((ls = None /\ h1 = h /\ not_ls1000 decoded) \/
          exists e er, ls = Some (asdict e) /\ parser self = true /\
            Ls1000.parse_message decoded = Ok (Some e, er) /\
            h1 = <[txt "parser" := txt "ls1000"]> (<[txt "origin" := txt "ls-1000"]> h)) as Hcases.
  { unfold try_parse_ls1000 in Hls. unfold not_ls1000.
    destruct (parser self); cbn [negb] in Hls; [|injection Hls as <- <-; auto].
    apply bind_Ok in Hls as ([[e|] er] & Hm & Hls); injection Hls as <- <-; [right|left; eauto].
    by exists e, er. }
  destruct Hcases as [(-> & -> & Hno)|(e & er & -> & Hpar & Hm & ->)].
  2: { injection Hp as <- <-. by apply processed_ls1000 with er. }
  unfold normalize_json_payload in Hp. apply bind_Ok in Hp as (cleaned & Hc & Hp).
  apply bind_Ok in Hp as ([raw o] & Hl & Hp).
  destruct (json_normalizer self) as [so|] eqn:Ej.
  - destruct raw as [| | | | | |obj]; try done.
    apply bind_Ok in Hp as ([e|] & Hn & Hp); [|done]. injection Hp as <- <-.
    by eapply processed_normalized.
  - injection Hp as <- <-. by eapply processed_json.
Qed.

(** The document of a text, less the trace fields of an object. *)
Definition without_trace (v : pyval) : pyval :=
  match v with VDict d => VDict (strip_trace_keys d) | _ => v end.

Lemma cleaned_document decoded cleaned v :
  valid_text decoded -> strip_trace_from_string decoded = Ok cleaned ->
  json_loads cleaned = Ok v -> exists v0, json_loads decoded = Ok v0 /\ v = without_trace v0.
Proof.
  intros Hv Hs Hl. destruct (json_loads decoded) as [v0|e] eqn:E.
  - exists v0. split; [done|].
    destruct v0 as [| | | | | |d];
      try (apply strip_string_other in Hs as ->; [|congruence]; rewrite E in Hl; by injection Hl as <-).
    destruct (strip_string_dict decoded d cleaned Hv E Hs) as (_ & Hl' & _).
    rewrite Hl in Hl'. by injection Hl'.
  - apply strip_string_other in Hs as ->; congruence.
Qed.

(** What a text says to the receiver: a payload with its origin.  A frame or object of
    the LS-1000 is its event; any other JSON document, less its trace fields and accepted
    by the validator, is itself, or the event that the normalizer makes of it. *)
Inductive payload_read (clock : pyfloat) (decoded : text) : pyval -> text -> Prop :=
  | read_ls1000 e er :
      parser self = true -> Ls1000.parse_message decoded = Ok (Some e, er) ->
      payload_read clock decoded (VDict (asdict e)) "ls-1000"
  | read_document v :
      not_ls1000 decoded -> json_normalizer self = None ->
      json_loads decoded = Ok v -> accepted_document (without_trace v) ->
      payload_read clock decoded (without_trace v) document_origin
  | read_normalized so obj e :
      not_ls1000 decoded -> json_normalizer self = Some so ->
      json_loads decoded = Ok (VDict obj) ->
      accepted_document (VDict (strip_trace_keys obj)) ->
      JsonNormalizer.normalize so clock (strip_trace_keys obj) decoded = Ok (Some e) ->
      payload_read clock decoded (VDict (asdict e)) document_origin.

Lemma processed_read clock decoded h v h' :
  valid_text decoded -> processed clock decoded h v h' ->
  exists o, h' !! txt "origin" = Some o /\ payload_read clock decoded v o.
Proof.
  intros Hv Hp. destruct Hp as [e er Hpar Hm|cleaned v o Hno Hj Hs Hl|cleaned obj o so e Hno Hj Hs Hl Hn].
  - exists (txt "ls-1000"). rewrite lookup_insert_ne by text_decide. rewrite lookup_insert_eq.
    split; [done|]. by apply read_ls1000 with er.
  - exists o. rewrite lookup_insert_eq. split; [done|].
    apply load_payload_spec in Hl as (Hl & -> & Ha).
    destruct (cleaned_document decoded cleaned v Hv Hs Hl) as (v0 & Hl0 & ->).
    by apply read_document.
  - exists o. rewrite lookup_insert_ne by text_decide. rewrite lookup_insert_eq. split; [done|].
    apply load_payload_spec in Hl as (Hl & -> & Ha).
    destruct (cleaned_document decoded cleaned _ Hv Hs Hl) as (v0 & Hl0 & Hobj).
    destruct v0 as [| | | | | |d]; try done. injection Hobj as ->.
    by apply read_normalized with so d.
Qed.

Lemma payload_read_ok clock decoded v o :
  config_ok -> valid_text decoded -> payload_read clock decoded v o -> val_ok v /\ valid_text o.
Proof.
  intros Hc Hd Hp. pose proof (document_origin_valid Hc) as Ho.
  destruct Hp as [e er Hpar Hm|v Hno Hj Hl Ha|so obj e Hno Hj Hl Ha Hn].
  - split; [|by apply valid_text_b]. apply val_ok_dict, asdict_ok. by eapply (parse_message_ok decoded).
  - split; [|done]. apply json_loads_ok in Hl; [|done].
    destruct v; try exact Hl. apply val_ok_dict in Hl. by apply val_ok_dict, strip_ok.
  - split; [|done]. apply json_loads_ok in Hl; [|done].
    apply val_ok_dict, strip_ok in Hl as [_ Hl]. destruct Hc as (_ & _ & Hso & _).
    apply val_ok_dict, asdict_ok.
    apply (normalize_ok so clock (strip_trace_keys obj) decoded e); [by apply Hso|done..].
Qed.

Lemma processed_ok clock decoded h v h' :
  config_ok -> valid_text decoded -> processed clock decoded h v h' ->
  val_ok v /\ exists o, h' !! txt "origin" = Some o /\ valid_text o.
Proof.
  intros Hc Hd Hp. destruct (processed_read _ _ _ _ _ Hd Hp) as (o & Ho & Hr).
  destruct (payload_read_ok _ _ _ _ Hc Hd Hr). eauto.
Qed.

Lemma v1_ok payload cx :
  val_ok payload -> valid_text (Envelope.cx_event_type cx) -> val_ok (Envelope.cx_origin cx) ->
  dict_ok (Envelope.V1_build payload cx).
Proof.
  intros Hp He Ho. split; [refine (bool_decide_eq_true_1 (NoDup (A := text) _) _); vm_compute; reflexivity|].
  unfold Envelope.V1_build.
  repeat (apply Forall_cons; split; [split; cbn [fst snd]; [by apply valid_text_b|]|]);
    first [done | by apply valid_text_b | constructor].
Qed.

(** The headers of a datagram's sender *)
Definition source_headers (addr : address) (port : text) : gmap text text :=
  <[txt "source_port" := port]> (<[txt "source_ip" := addr_ip addr]> ∅).

(** The steps of [prepare]. *)
Lemma prepare_spec env data addr p :
  config_ok -> prepare self env data addr = Ok p ->
  exists port decoded payload h now,
    int_text (addr_port addr) = Ok port /\ utf8_decode data = Ok decoded /\
    process_datagram self (env_clock_normalize env) data (source_headers addr port)
      = Ok (payload, h) /\
    processed (env_clock_normalize env) decoded (source_headers addr port) payload h /\
    JsonNormalizer.now_ms (env_clock_envelope env) = Ok now /\
    let envelope := Envelope.V1_build payload
      {| Envelope.cx_schema_version := envelope_version self;
         Envelope.cx_event_type := event_type self;
         Envelope.cx_origin := payload_origin payload h;
         Envelope.cx_normalized := is_normalized payload;
         Envelope.cx_ingested_at_ms := now |} in
    dict_ok envelope /\ val_ok payload /\
    json_loads_bytes (pub_message p) = Ok (VDict envelope) /\
    envelope_version self = Envelope.V1_schema_version /\
    pub_topic p = topic self /\
    pub_headers p = inject_into_headers (extract_trace_context data) h.
Proof.
  intros Hc. unfold prepare. intros Hp. apply bind_Ok in Hp as (port & Hport & Hp).
  apply bind_Ok in Hp as ([payload h] & Hproc & Hp).
  apply bind_Ok in Hp as (envelope & He & Hp). apply bind_Ok in Hp as (message & Hm & Hp).
  injection Hp as <-. destruct (process_datagram_spec _ _ _ _ _ Hproc) as (decoded & Hd & Hpr).
  unfold build_envelope in He. apply bind_Ok in He as (now & Hnow & He).
  apply bind_Ok in He as (b & Hb & He). injection He as <-.
  exists port, decoded, payload, h, now. do 5 (split; [done|]).
  apply utf8_decode_valid in Hd as Hv.
  destruct (processed_ok _ _ _ _ _ Hc Hv Hpr) as [Hok (o & Ho & Hov)].
  destruct Hc as (Hev & _ & _ & Hreg). rewrite Hreg in Hb.
  unfold Envelope.get, Envelope.create_default_envelope_registry, Envelope.register,
    Envelope.empty_registry in Hb.
  destruct (decide (envelope_version self = Envelope.V1_schema_version)) as [Heq|Hne].
  2: { change (Envelope.eb_schema_version Envelope.EnvelopeV1Builder) with Envelope.V1_schema_version in Hb.
       rewrite lookup_insert_ne in Hb by congruence. by rewrite lookup_empty in Hb. }
  rewrite Heq in Hb at 1.
  change (Envelope.eb_schema_version Envelope.EnvelopeV1Builder) with Envelope.V1_schema_version in Hb.
  rewrite lookup_insert_eq in Hb. injection Hb as <-.
  set (env' := Envelope.V1_build _ _) in *.
  assert (dict_ok env') as Hdk.
  { apply v1_ok; [done|done|]. simpl. unfold payload_origin. rewrite Ho.
    destruct payload; first [exact Hov | by apply valid_text_b]. }
  simpl. split; [done|]. split; [done|]. split; [|done].
  unfold serialize_message in Hm. apply bind_Ok in Hm as (s & Hs & Hm).
  by eapply json_bytes_roundtrip.
Qed.

Lemma inject_headers_lookup ctx h k :
  (forall c, w3c_fields (inject_fields c)) -> k ∉ TRACE_KEYS ->
  inject_into_headers ctx h !! k = h !! k.
Proof.
  intros Hw Hk. unfold inject_into_headers. pose proof (Hw ctx) as Hf. unfold w3c_fields in Hf.
  revert h. induction Hf as [|[k' v] fields Hk' Hf IH]; intros h; [done|]. simpl.
  rewrite IH. unfold header_set. rewrite lookup_insert_ne; [done|]. intros ->. by apply Hk.
Qed.

Lemma processed_source clock decoded h v h' k :
  processed clock decoded h v h' -> k ≠ txt "origin" -> k ≠ txt "parser" -> h' !! k = h !! k.
Proof. intros Hp Ho Hpa; destruct Hp; rewrite ?lookup_insert_ne by congruence; done. Qed.

(** C22. A message that is handed to the publisher decodes, as the consumer decodes
    it, to the six fields of a version 1.0 envelope around the payload of its datagram:
    what [_process_datagram] returns for these bytes, which is the event or the document
    that their text says, with that payload's origin.  The envelope carries the
    receiver's event type, the marker of a normalized payload and the time of the
    receiver's clock; the headers carry the sender's address and the origin, and the
    topic is the configured one. *)
Theorem published_envelope env data addr p :
  config_ok -> (forall c, w3c_fields (inject_fields c)) ->
  prepare self env data addr = Ok p ->
  exists decoded payload h origin now port,
    utf8_decode data = Ok decoded /\ int_text (addr_port addr) = Ok port /\
    process_datagram self (env_clock_normalize env) data (source_headers addr port)
      = Ok (payload, h) /\
    h !! txt "origin" = Some origin /\
    payload_read (env_clock_normalize env) decoded payload origin /\
    JsonNormalizer.now_ms (env_clock_envelope env) = Ok now /\
    json_loads_bytes (pub_message p) = Ok (VDict
      [ (txt "schema_version", VStr "1.0"); (txt "event_type", VStr (event_type self));
        (txt "origin", match payload with VDict _ => VStr origin | _ => VStr "unknown" end);
        (txt "normalized", VBool (match payload with
                                  | VDict d => dhas "tag_id" d && dhas "ts_utc_ms" d
                                  | _ => false
                                  end));
        (txt "ingested_at_ms", VInt now); (txt "payload", payload) ]) /\
    pub_headers p !! txt "source_ip" = Some (addr_ip addr) /\
    pub_headers p !! txt "source_port" = Some port /\
    pub_headers p !! txt "origin" = Some origin /\ pub_topic p = topic self.
Proof.
  intros Hc Hw Hp.
  destruct (prepare_spec env data addr p Hc Hp) as
    (port & decoded & payload & h & now & Hport & Hd & Hproc & Hpr & Hnow & Hdk & Hok & Hj & Hver &
     Htop & Hh).
  apply utf8_decode_valid in Hd as Hv.
  destruct (processed_read _ _ _ _ _ Hv Hpr) as (o & Ho & Hr).
  exists decoded, payload, h, o, now, port. do 6 (split; [done|]). rewrite Hh, Htop.
  rewrite !inject_headers_lookup by (done || (unfold TRACE_KEYS; set_solver)).
  rewrite !(processed_source _ _ _ _ _ _ Hpr) by text_decide. rewrite Ho. unfold source_headers.
  rewrite lookup_insert_ne, !lookup_insert_eq by text_decide.
  split; [|done]. rewrite Hj. unfold Envelope.V1_build, payload_origin, is_normalized. simpl.
  rewrite Ho. by destruct payload.
Qed.

(** ** The loop *)

Definition no_crash : Prop :=
  forall h data e, on_decode_error self = Some h -> returns (h data e).

(** What a datagram leaves: one message handed over, or one error reported. *)
Definition reported (data : bytes) (e : exn) : list effect :=
  match on_decode_error self with Some _ => [DecodeError data e] | None => [] end.

Lemma handle_reported data e :
  no_crash -> exists u, handle_processing_error self data e = (reported data e, Ok u).
Proof.
  intros Hn. unfold handle_processing_error, reported.
  destruct (on_decode_error self) as [h|] eqn:E; [|by eexists].
  destruct (Hn h data e E) as [u ->]. by exists u.
Qed.

Definition datagram_effects (d : bytes * address * environment) : list effect :=
  let '(payload, addr, env) := d in
  let data := take (max_datagram_bytes self) payload in
  match prepare self env data addr with
  | Raise e => reported data e
  | Ok p => match env_publish env with
            | Ok _ => [Published p]
            | Raise e => PublishFailed p e :: reported data e
            end
  end.

Lemma iteration_effects payload addr env :
  no_crash -> exists u, iteration self payload addr env = (datagram_effects (payload, addr, env), Ok u).
Proof.
  intros Hn. unfold iteration, datagram_effects.
  destruct (prepare _ _ _ _) as [p|e]; [|by apply handle_reported].
  destruct (env_publish env) as [[]|e]; [by exists tt|].
  destruct (handle_reported (take (max_datagram_bytes self) payload) e Hn) as [u ->]. by exists u.
Qed.

Definition as_input (d : bytes * address * environment) : received :=
  Datagram d.1.1 d.1.2 d.2.

(** C30. As long as the application's [on_decode_error] does not raise ([no_crash]),
    the loop handles every datagram once, in order and independently of the others: up
    to the first error of the socket its effects are those of each datagram alone, one
    after the other (a publication, or a report of the error), a bad datagram does not
    stop it, and nothing after the socket's error is read. *)
Theorem serve_forever_isolated ds rest :
  no_crash ->
  serve_forever self ((as_input <$> ds) ++ SocketError :: rest) =
  (flat_map datagram_effects ds, Stopped).
Proof.
  intros Hn. induction ds as [|[[payload addr] env] ds IH]; [done|].
  rewrite fmap_cons. cbn [app]. unfold as_input at 1. cbn [fst snd serve_forever].
  destruct (iteration_effects payload addr env Hn) as [u ->]. by rewrite IH.
Qed.

(** With an envelope version that the registry does not have, the receiver
    publishes nothing, whatever arrives. *)
Theorem unknown_version_publishes_nothing inputs p :
  (exists e, Envelope.get (envelope_registry self) (envelope_version self) = Raise e) ->
  Published p ∉ (serve_forever self inputs).1 /\
  forall e, PublishFailed p e ∉ (serve_forever self inputs).1.
Proof.
  intros [e He].
  assert (forall env data addr, exists e', prepare self env data addr = Raise e') as Hp.
  { intros env data addr. destruct (prepare self env data addr) as [q|e'] eqn:E; [|by exists e'].
    exfalso. unfold prepare in E. apply bind_Ok in E as (port & _ & E).
    apply bind_Ok in E as ([payload h] & _ & E). apply bind_Ok in E as (envelope & Henv & _).
    unfold build_envelope in Henv. apply bind_Ok in Henv as (now & _ & Henv).
    by rewrite He in Henv. }
  assert (forall data e', Forall (fun ef => match ef with DecodeError _ _ => True | _ => False end)
                           (handle_processing_error self data e').1) as Hh.
  { intros data e'. unfold handle_processing_error. destruct (on_decode_error self); by repeat constructor. }
  assert (Forall (fun ef => match ef with DecodeError _ _ => True | _ => False end)
            (serve_forever self inputs).1) as Hall.
  { induction inputs as [|[payload addr env|] inputs IH]; [constructor| |constructor].
    cbn [serve_forever]. unfold iteration.
    destruct (Hp env (take (max_datagram_bytes self) payload) addr) as [e' ->].
    specialize (Hh (take (max_datagram_bytes self) payload) e').
    destruct (handle_processing_error _ _ e') as [es [u|e'']]; [|done].
    destruct (serve_forever self inputs) as [es' st]. simpl in *. by apply Forall_app. }
  rewrite Forall_forall in Hall. split; [|intros e']; intros Hin; by apply Hall in Hin.
Qed.
End Server.

(** An object that is sent with injected trace fields reaches the validator as the
    object less its own trace fields. *)
Lemma injected_fields_are_stripped `{Interpreter} `{Propagator} ctx d decoded s :
  w3c_fields (inject_fields ctx) ->
  Forall (fun kv => valid_text kv.1 /\ valid_text kv.2) (inject_fields ctx) ->
  dict_ok d -> json_dumps compact_style (VDict (inject_into_dict ctx d)) = Ok decoded ->
  strip_trace_from_string decoded = Ok s -> json_loads s = Ok (VDict (strip_trace_keys d)).
Proof.
  intros Hw Hv Hd Hdec Hs.
  pose proof (inject_ok ctx d Hv Hd) as Hok. apply val_ok_dict in Hok.
  destruct (strip_string_dict decoded (inject_into_dict ctx d) s) as (_ & Hl & _).
  - by eapply dumps_ok_valid.
  - by apply (json_roundtrip _ _ Hok).
  - done.
  - by rewrite Hl, strip_inject.
Qed.

(** [strip_trace_keys] removes the trace fields and nothing else, keeps the order
    of the rest, and is idempotent. *)
Theorem strip_trace_keys_spec (d : list (text * pyval)) :
  (forall k, dget k (strip_trace_keys d) = if bool_decide (k ∈ TRACE_KEYS) then None else dget k d) /\
  strip_trace_keys d = filter (fun kv => kv.1 ∉ TRACE_KEYS) d /\
  strip_trace_keys (strip_trace_keys d) = strip_trace_keys d.
Proof.
  split; [intros k; apply strip_dget|].
  assert (forall k (d : list (text * pyval)), dpop k d = filter (fun kv => kv.1 ≠ k) d) as Hpop.
  { clear. intros k d. induction d as [|[k' v] d IH]; [done|]. simpl dpop.
    destruct (text_eqb k k') eqn:E.
    - apply text_eqb_eq in E as <-. rewrite filter_cons_False by (simpl; tauto). done.
    - apply text_eqb_neq in E. rewrite filter_cons_True by (simpl; congruence). by rewrite IH. }
  assert (forall d : list (text * pyval), strip_trace_keys d = filter (fun kv => kv.1 ∉ TRACE_KEYS) d) as Hf.
  { intros d'. unfold strip_trace_keys, TRACE_KEYS. cbn [foldl]. rewrite !Hpop, list_filter_filter.
    apply list_filter_iff. intros [k v]. simpl. set_solver. }
  split; [apply Hf|]. rewrite !Hf, list_filter_filter. apply list_filter_iff. naive_solver.
Qed.

(** ** The theorems at concrete datagrams *)

Definition sample_server (version : text) : UdpServer :=
  {| topic := "rtls.events"; max_datagram_bytes := 100; validator := None; parser := true;
     json_normalizer := Some (txt "stream"); envelope_version := version;
     envelope_registry := Envelope.create_default_envelope_registry; event_type := "position";
     on_decode_error := None |}.

Definition sample_env : environment :=
  {| env_clock_normalize := float_of_decimal false 17 8;
     env_clock_envelope := float_of_decimal false 17 8; env_publish := Ok tt |}.

Definition ascii_bytes (s : text) : bytes := byte_of <$> s.
Definition display_datagram : bytes := ascii_bytes "display:9,7,1,1700000000000,2,1.5,-2,0.25".
Definition bad_datagram : bytes := ascii_bytes "no frame".
Definition sample_addr : address := {| addr_ip := "10.0.0.1"; addr_port := 5000 |}.

Lemma sample_config_ok version : config_ok (sample_server version).
Proof.
  split; [by apply valid_text_b|]. split; [done|]. split; [|done].
  intros o [= <-]. by apply valid_text_b.
Qed.

Lemma plain_w3c c : w3c_fields (inject_fields (Propagator := plain_propagator) c).
Proof. constructor; [by apply elem_of_cons; left|constructor]. Qed.

Lemma published_envelope_witness :
  exists p, prepare (H := ascii_unicode) (H0 := plain_propagator) (sample_server "1.0") sample_env
              display_datagram sample_addr = Ok p /\
    pub_headers p !! txt "source_port" = Some (txt "5000").
Proof.
  destruct (prepare (H := ascii_unicode) (H0 := plain_propagator) (sample_server "1.0") sample_env
              display_datagram sample_addr) as [p|e] eqn:E;
    [|exfalso; vm_compute in E; discriminate E].
  destruct (published_envelope (H := ascii_unicode) (H0 := plain_propagator) (sample_server "1.0")
              sample_env display_datagram sample_addr p (sample_config_ok _) plain_w3c E)
    as (decoded & payload & h & o & now & port & _ & Hport & _ & _ & _ & _ & _ & _ & Hp & _).
  exists p. split; [reflexivity|]. rewrite Hp. vm_compute in Hport. injection Hport as <-. reflexivity.
Defined.

Lemma serve_forever_isolated_witness :
  exists es, serve_forever (H := ascii_unicode) (H0 := plain_propagator) (sample_server "1.0")
    ((as_input <$> [(bad_datagram, sample_addr, sample_env);
                    (display_datagram, sample_addr, sample_env)]) ++
     SocketError :: [Datagram display_datagram sample_addr sample_env]) = (es, Stopped) /\
    length es = 1.
Proof.
  eexists. split.
  - apply (serve_forever_isolated (H := ascii_unicode) (H0 := plain_propagator) (sample_server "1.0")
             [(bad_datagram, sample_addr, sample_env); (display_datagram, sample_addr, sample_env)]).
    intros h data e. discriminate.
  - vm_compute. reflexivity.
Defined.

Lemma unknown_version_witness :
  (exists e, Envelope.get (envelope_registry (sample_server "9.9"))
               (envelope_version (sample_server "9.9")) = Raise e) /\
  (forall p, Published p ∉ (serve_forever (H := ascii_unicode) (H0 := plain_propagator)
    (sample_server "9.9") [Datagram display_datagram sample_addr sample_env]).1).
Proof.
  split; [eexists; vm_compute; reflexivity|]. intros p.
  apply (unknown_version_publishes_nothing (H := ascii_unicode) (H0 := plain_propagator)
           (sample_server "9.9")).
  eexists. vm_compute. reflexivity.
Defined.
