(* ===== verification/Migrations.v ===== *)
(** * The schema: [migrations/0001_create_position_tables.py]

    The statements of the migration and of its rollback, what they do to the catalog,
    and which values the columns of the tables refuse.  The names that the server
    chooses itself (of the primary keys' indexes and of the sequence behind [BIGSERIAL])
    are not part of the catalog: it picks names that are free. *)

From S2P Require Export Event.

Module Migrations.

Inductive sql_type := BigSerial | Text | Boolean | BigInt | Integer | DoublePrecision | Jsonb.

Record column := {
  col_name : text;
  col_type : sql_type;
  col_nullable : bool;
  col_default : option text;
  col_primary : bool;
}.

(** [name type NOT NULL], [name type NULL], [name type PRIMARY KEY] *)
Definition required (name : text) (ty : sql_type) : column :=
  {| col_name := name; col_type := ty; col_nullable := false; col_default := None; col_primary := false |}.
Definition optional (name : text) (ty : sql_type) : column :=
  {| col_name := name; col_type := ty; col_nullable := true; col_default := None; col_primary := false |}.
Definition primary_key (name : text) (ty : sql_type) : column :=
  {| col_name := name; col_type := ty; col_nullable := false; col_default := None; col_primary := true |}.

Inductive statement :=
  | CreateTable (name : text) (columns : list column)
  | CreateIndex (name table : text) (keys : list (text * bool))     (* [true]: [DESC] *)
  | DropIndex (name : text)
  | DropTable (name : text).

Definition warnings_column : column :=
  {| col_name := "parse_warnings"; col_type := Jsonb; col_nullable := false;
     col_default := Some (txt "'[]'::jsonb"); col_primary := false |}.

Definition position_events_columns : list column :=
  [ primary_key "id" BigSerial;
    required "schema_version" Text; required "event_type" Text; required "origin" Text;
    required "normalized" Boolean; required "ingested_at_ms" BigInt; required "tag_id" Text;
    required "ts_utc_ms" BigInt; required "source_type" Text; optional "status" Text;
    optional "layer" Integer; optional "area" Text;
    optional "x" DoublePrecision; optional "y" DoublePrecision; optional "z" DoublePrecision;
    optional "lng" DoublePrecision; optional "lat" DoublePrecision;
    required "raw_message" Text; warnings_column ].

Definition current_positions_columns : list column :=
  [ primary_key "tag_id" Text;
    required "schema_version" Text; required "event_type" Text; required "origin" Text;
    required "normalized" Boolean; required "ingested_at_ms" BigInt;
    required "ts_utc_ms" BigInt; required "source_type" Text; optional "status" Text;
    optional "layer" Integer; optional "area" Text;
    optional "x" DoublePrecision; optional "y" DoublePrecision; optional "z" DoublePrecision;
    optional "lng" DoublePrecision; optional "lat" DoublePrecision;
    required "raw_message" Text; warnings_column ].

(** The two halves of the [step] *)
Definition apply_step : list statement :=
  [ CreateTable "position_events" position_events_columns;
    CreateIndex "position_events_tag_id_ts_utc_ms_idx" "position_events"
      [(txt "tag_id", false); (txt "ts_utc_ms", true)];
    CreateIndex "position_events_ts_utc_ms_idx" "position_events" [(txt "ts_utc_ms", true)];
    CreateTable "current_positions" current_positions_columns ].

Definition rollback_step : list statement :=
  [ DropTable "current_positions";
    DropIndex "position_events_ts_utc_ms_idx";
    DropIndex "position_events_tag_id_ts_utc_ms_idx";
    DropTable "position_events" ].

(** ** The catalog *)

Record catalog := {
  cat_tables : gmap text (list column);
  cat_indexes : gmap text (text * list (text * bool));
}.

(** Tables and indexes share their names. *)
Definition taken (name : text) (c : catalog) : bool :=
  bool_decide (is_Some (cat_tables c !! name)) || bool_decide (is_Some (cat_indexes c !! name)).

Definition has_column (columns : list column) (name : text) : bool :=
  existsb (fun col => text_eqb (col_name col) name) columns.

(** One statement; [None] is an error. *)
Definition exec (s : statement) (c : catalog) : option catalog :=
  match s with
  | CreateTable name columns =>
      if taken name c then None
      else Some {| cat_tables := <[name := columns]> (cat_tables c); cat_indexes := cat_indexes c |}
  | CreateIndex name table keys =>
      columns ← cat_tables c !! table;
      if taken name c || negb (forallb (fun k => has_column columns k.1) keys) then None
      else Some {| cat_tables := cat_tables c;
                   cat_indexes := <[name := (table, keys)]> (cat_indexes c) |}
  | DropIndex name =>
      _ ← cat_indexes c !! name;
      Some {| cat_tables := cat_tables c; cat_indexes := delete name (cat_indexes c) |}
  | DropTable name =>
      _ ← cat_tables c !! name;
      Some {| cat_tables := delete name (cat_tables c);
              cat_indexes := filter (fun kv => kv.2.1 ≠ name) (cat_indexes c) |}
  end.

(** A step runs in a transaction: a statement that fails leaves the catalog as it was. *)
Fixpoint exec_all (l : list statement) (c : catalog) : option catalog :=
  match l with
  | [] => Some c
  | s :: rest => c' ← exec s c; exec_all rest c'
  end.

Definition run_step (l : list statement) (c : catalog) : bool * catalog :=
  match exec_all l c with
  | Some c' => (true, c')
  | None => (false, c)
  end.

(** ** The values of a column *)

Definition in_int4 (z : Z) : bool := ((-2 ^ 31 <=? z) && (z <? 2 ^ 31))%Z.
Definition in_int8 (z : Z) : bool := ((-2 ^ 63 <=? z) && (z <? 2 ^ 63))%Z.

(** What a text of a UTF-8 database cannot hold: a NUL, or half of a surrogate pair *)
Definition unstorable_char (c : N) : bool := (c =? 0)%N || is_surrogate c.

(** What a column is documented to refuse of the values that a parameter can have: [NULL]
    where it is [NOT NULL], a number out of its range, a boolean as a number, a text
    with such a character. *)
Definition refuses (c : column) (v : pyval) : bool :=
  match v, col_type c with
  | VNone, _ => negb (col_nullable c)
  | VInt z, BigInt => negb (in_int8 z)
  | VInt z, Integer => negb (in_int4 z)
  | VBool _, (BigInt | Integer) => true
  | VStr s, Text => existsb unstorable_char s
  | _, _ => false
  end.

(** Some parameter is refused by the column of its name. *)
Definition refused (columns : list column) (params : pydict) : bool :=
  existsb (fun c => match dget (col_name c) params with
                    | Some v => refuses c v
                    | None => false
                    end) columns.

(** What a column gives back: a value of its type and range, or [NULL] where it may be
    [NULL] *)
Definition stores (c : column) (v : pyval) : bool :=
  match v, col_type c with
  | VNone, _ => col_nullable c
  | VStr s, Text => negb (existsb unstorable_char s)
  | VInt z, (BigSerial | BigInt) => in_int8 z
  | VInt z, Integer => in_int4 z
  | VBool _, Boolean | VFloat _, DoublePrecision | _, Jsonb => true
  | _, _ => false
  end.

End Migrations.
