(* ===== verification/Database.v ===== *)
(** * The tables and the database driver

    The tables of [migrations/0001_create_position_tables.py] and what the files of
    [backend/repository/sql/] do to them ([insert_position_event],
    [upsert_current_position], and the relations of the three queries).

    PostgreSQL and psycopg are third-party: the conversion of parameters to a row
    is the class [Columns], connections and transactions are the class [Driver],
    whose laws are the documented behaviour of a transaction.  [Mem] is an instance
    over lists and maps, for concrete runs. *)

From S2P Require Export Migrations.

(** ** Rows and tables *)

(** A row of either table: the two columns that a query compares and the others by
    name. *)
Record row := { r_tag : text; r_ts : Z; r_cols : pydict }.

Record database := {
  position_events : list row;            (* in the order of their [id] *)
  current_positions : gmap text row;     (* [tag_id] is the primary key *)
}.

Definition empty_database : database := {| position_events := []; current_positions := ∅ |}.

(** [insert_position_event.sql] *)
Definition insert_event (r : row) (db : database) : database :=
  {| position_events := position_events db ++ [r]; current_positions := current_positions db |}.

(** [upsert_current_position.sql]: on a conflict the row is replaced only when
    [EXCLUDED.ts_utc_ms >= current_positions.ts_utc_ms]. *)
Definition upsert_row (r : row) (m : gmap text row) : gmap text row :=
  match m !! r_tag r with
  | None => <[r_tag r := r]> m
  | Some old => if (r_ts old <=? r_ts r)%Z then <[r_tag r := r]> m else m
  end.

Definition upsert_current (r : row) (db : database) : database :=
  {| position_events := position_events db; current_positions := upsert_row r (current_positions db) |}.

(** The columns of the three [SELECT] lists, and a row as such a tuple. *)
Definition CURRENT_POS_COLUMNS : list text :=
  [txt "tag_id"; txt "ts_utc_ms"; txt "source_type"; txt "status"; txt "layer"; txt "area";
   txt "x"; txt "y"; txt "z"; txt "lng"; txt "lat"; txt "origin"].

Definition project (r : row) : list pyval :=
  VStr (r_tag r) :: VInt (r_ts r) :: ((fun c => dget_none c (r_cols r)) <$> drop 2 CURRENT_POS_COLUMNS).

(** The [WHERE] clause of the history queries. *)
Definition in_window (tag : text) (from_ts to_ts : option Z) (r : row) : bool :=
  text_eqb (r_tag r) tag
  && match from_ts with Some f => (f <=? r_ts r)%Z | None => true end
  && match to_ts with Some t => (r_ts r <=? t)%Z | None => true end.

Definition history_matches (tag : text) (from_ts to_ts : option Z) (db : database) : list row :=
  List.filter (in_window tag from_ts to_ts) (position_events db).

(** [ORDER BY ts_utc_ms DESC]; rows with equal timestamps come in any order. *)
Definition ts_desc (a b : row) : Prop := (r_ts b <= r_ts a)%Z.

(** ** The files of [backend/repository/sql/] *)

Definition nl : text := [10%N].
Definition lines (l : list text) : text := join nl l.

Definition insert_columns : list text :=
  [ txt "    schema_version, event_type, origin, normalized, ingested_at_ms,";
    txt "    tag_id, ts_utc_ms, source_type, status, layer, area,";
    txt "    x, y, z, lng, lat, raw_message, parse_warnings";
    txt ")";
    txt "VALUES (";
    txt "    %(schema_version)s, %(event_type)s, %(origin)s, %(normalized)s, %(ingested_at_ms)s,";
    txt "    %(tag_id)s, %(ts_utc_ms)s, %(source_type)s, %(status)s, %(layer)s, %(area)s,";
    txt "    %(x)s, %(y)s, %(z)s, %(lng)s, %(lat)s, %(raw_message)s, %(parse_warnings)s";
    txt ")" ].

Definition insert_position_event_sql : text :=
  lines (txt "INSERT INTO position_events (" :: insert_columns).

Definition upsert_current_position_sql : text :=
  lines (txt "INSERT INTO current_positions (" :: insert_columns ++
    [ txt "ON CONFLICT (tag_id) DO UPDATE SET";
      txt "    schema_version = EXCLUDED.schema_version,";
      txt "    event_type = EXCLUDED.event_type,";
      txt "    origin = EXCLUDED.origin,";
      txt "    normalized = EXCLUDED.normalized,";
      txt "    ingested_at_ms = EXCLUDED.ingested_at_ms,";
      txt "    ts_utc_ms = EXCLUDED.ts_utc_ms,";
      txt "    source_type = EXCLUDED.source_type,";
      txt "    status = EXCLUDED.status,";
      txt "    layer = EXCLUDED.layer,";
      txt "    area = EXCLUDED.area,";
      txt "    x = EXCLUDED.x,";
      txt "    y = EXCLUDED.y,";
      txt "    z = EXCLUDED.z,";
      txt "    lng = EXCLUDED.lng,";
      txt "    lat = EXCLUDED.lat,";
      txt "    raw_message = EXCLUDED.raw_message,";
      txt "    parse_warnings = EXCLUDED.parse_warnings";
      txt "WHERE EXCLUDED.ts_utc_ms >= current_positions.ts_utc_ms" ]).

Definition select_list : list text :=
  [ txt "SELECT tag_id, ts_utc_ms, source_type, status, layer, area,";
    txt "       x, y, z, lng, lat, origin" ].

Definition select_all_current_positions_sql : text :=
  lines (select_list ++ [txt "FROM current_positions"; txt "ORDER BY tag_id"]).

Definition select_position_history_sql : text :=
  lines (select_list ++
    [ txt "FROM position_events"; txt "WHERE tag_id = %(tag_id)s";
      txt "ORDER BY ts_utc_ms DESC"; txt "LIMIT %(limit)s OFFSET %(offset)s" ]).

Definition count_position_history_sql : text :=
  lines [ txt "SELECT COUNT(*)"; txt "FROM position_events"; txt "WHERE tag_id = %(tag_id)s" ].

(** The files of the directory, each ending in a newline. *)
Definition sql_files : list (text * text) :=
  [ (txt "insert_position_event", insert_position_event_sql ++ nl);
    (txt "upsert_current_position", upsert_current_position_sql ++ nl);
    (txt "select_all_current_positions", select_all_current_positions_sql ++ nl);
    (txt "select_position_history", select_position_history_sql ++ nl);
    (txt "count_position_history", count_position_history_sql ++ nl) ].

(** The queries with the time conditions written out. *)
Definition time_conditions (from_ts to_ts : bool) : text :=
  (if from_ts then txt " AND ts_utc_ms >= %(from_ts)s" else [])
  ++ (if to_ts then txt " AND ts_utc_ms <= %(to_ts)s" else []).

Definition history_query (from_ts to_ts : bool) : text :=
  lines (select_list ++
    [ txt "FROM position_events";
      txt "WHERE tag_id = %(tag_id)s";
      time_conditions from_ts to_ts;
      txt "ORDER BY ts_utc_ms DESC"; txt "LIMIT %(limit)s OFFSET %(offset)s" ]).

Definition count_query (from_ts to_ts : bool) : text :=
  count_position_history_sql ++ time_conditions from_ts to_ts.

(** ** What a statement does to the tables *)

(** The columns that a row keeps by name and a [SELECT] returns *)
Definition selected_column (c : Migrations.column) : bool :=
  existsb (text_eqb (Migrations.col_name c)) (drop 2 CURRENT_POS_COLUMNS).

(** The driver's conversion of parameters to a row of the tables' column types, and
    the collation of [ORDER BY tag_id], by which any rows can be ordered.  What a column
    refuses is not converted (the two tables have the same columns but for [id]), and what a
    column gives back has its type; a text that
    [TEXT] takes and an integer that [BIGINT] takes are stored as they are. *)
Class Columns := {
  row_of : pydict -> res row;
  tag_le : text -> text -> Prop;
  row_of_keys p r t z : row_of p = Ok r ->
    dget "tag_id" p = Some (VStr t) -> dget "ts_utc_ms" p = Some (VInt z) -> r_tag r = t /\ r_ts r = z;
  row_of_refused p : Migrations.refused Migrations.position_events_columns p = true ->
    is_ok (row_of p) = false;
  row_of_stores p r c : row_of p = Ok r ->
    c ∈ List.filter selected_column Migrations.position_events_columns ->
    Migrations.stores c (dget_none (Migrations.col_name c) (r_cols r)) = true;
  tag_le_sorts (l : list row) : exists l',
    l' ≡ₚ l /\ StronglySorted (fun a b => tag_le (r_tag a) (r_tag b)) l';
}.

Definition int_param (k : text) (p : pydict) : option Z :=
  match dget k p with Some (VInt z) => Some z | _ => None end.

(** The bound of a time condition: the parameter when the condition is there. *)
Definition bound_param (present : bool) (k : text) (p : pydict) (b : option Z) : Prop :=
  if present then exists z, dget k p = Some (VInt z) /\ b = Some z else b = None.

Section Statements.
Context `{Columns}.

Inductive runs : text -> pydict -> database -> database -> list (list pyval) -> Prop :=
  | run_insert p db r :
      row_of p = Ok r -> runs insert_position_event_sql p db (insert_event r db) []
  | run_upsert p db r :
      row_of p = Ok r -> runs upsert_current_position_sql p db (upsert_current r db) []
  | run_select_all p db l :
      l ≡ₚ (map_to_list (current_positions db)).*2 ->
      StronglySorted (fun a b => tag_le (r_tag a) (r_tag b)) l ->
      runs select_all_current_positions_sql p db db (project <$> l)
  | run_history (f t : bool) p db tag from_ts to_ts limit offset l :
      dget "tag_id" p = Some (VStr tag) ->
      bound_param f "from_ts" p from_ts -> bound_param t "to_ts" p to_ts ->
      int_param "limit" p = Some limit -> int_param "offset" p = Some offset ->
      (0 <= limit)%Z -> (0 <= offset)%Z ->
      l ≡ₚ history_matches tag from_ts to_ts db -> StronglySorted ts_desc l ->
      runs (history_query f t) p db db
        (project <$> take (Z.to_nat limit) (drop (Z.to_nat offset) l))
  | run_count (f t : bool) p db tag from_ts to_ts :
      dget "tag_id" p = Some (VStr tag) ->
      bound_param f "from_ts" p from_ts -> bound_param t "to_ts" p to_ts ->
      runs (count_query f t) p db db
        [[VInt (Z.of_nat (length (history_matches tag from_ts to_ts db)))]]
  | run_probe p db : runs (txt "SELECT 1") p db db [[VInt 1]].
End Statements.

(** ** Connections and transactions *)

(** A computation that may raise and changes a state [S] even then. *)
Definition io (S A : Type) : Type := S -> res A * S.
#[export] Instance io_ret {S} : MRet (io S) := fun A a s => (Ok a, s).
#[export] Instance io_bind {S} : MBind (io S) := fun A B f m s =>
  match m s with
  | (Ok a, s') => f a s'
  | (Raise e, s') => (Raise e, s')
  end.
Definition io_res {S A} (m : res A) : io S A := fun s => (m, s).

(** A session of the pool: what its statements see and what is durable. *)
Class Driver `{Columns} := {
  session : Type;
  visible : session -> database;
  committed : session -> database;
  acquire : io session ();
  execute : text -> pydict -> io session (list (list pyval));
  commit : io session ();
  exit_ok : io session ();       (* leaving the connection's block normally *)
  exit_raise : session -> session;  (* leaving it with an exception *)

  acquire_idle s r s' : acquire s = (r, s') ->
    committed s' = committed s /\ (r = Ok () -> visible s' = committed s');
  execute_ok q p s rows s' : execute q p s = (Ok rows, s') ->
    committed s' = committed s /\
    ((exists db' rs, runs q p (visible s) db' rs) -> runs q p (visible s) (visible s') rows);
  execute_row q p s rows s' : execute q p s = (Ok rows, s') ->
    q = insert_position_event_sql \/ q = upsert_current_position_sql ->
    is_ok (row_of p) = true;
  execute_raise q p s e s' : execute q p s = (Raise e, s') -> committed s' = committed s;
  commit_ok s s' : commit s = (Ok (), s') -> committed s' = visible s /\ visible s' = visible s;
  commit_raise s e s' : commit s = (Raise e, s') ->
    committed s' = committed s \/ committed s' = visible s;
  exit_ok_commits s r s' : exit_ok s = (r, s') ->
    committed s' = visible s \/ (committed s' = committed s /\ is_ok r = false);
  exit_raise_rolls_back s : committed (exit_raise s) = committed s;
}.
