(* ===== verification/Repository.v ===== *)
(** * The repository: [backend/repository/] and the connection helpers of [backend/db.py]

    [Repository.persist_envelope] and the queries, over a session of the driver. *)

From S2P Require Export Database.

Module Repository.

(** ** [queries.py] *)

Fixpoint assoc (k : text) (l : list (text * text)) : option text :=
  match l with
  | [] => None
  | (k', v) :: r => if text_eqb k k' then Some v else assoc k r
  end.

(** The body of [load_sql], over the files of a directory. *)
Definition read_sql (files : list (text * text)) (name : text) : res text :=
  match assoc name files with
  | Some content => Ok (strip content)
  | None => raise FileNotFoundError (txt "SQL file not found: " ++ name ++ txt ".sql")
  end.

(** The [lru_cache] of [load_sql]: results are kept, exceptions are not. *)
Definition load_sql_cached (files : list (text * text)) (name : text) :
    io (gmap text text) text := fun cache =>
  match cache !! name with
  | Some t => (Ok t, cache)
  | None => match read_sql files name with
            | Ok t => (Ok t, <[name := t]> cache)
            | Raise e => (Raise e, cache)
            end
  end.

(** [load_sql] over the files of the repository. *)
Definition load_sql (name : text) : res text := read_sql sql_files name.

(** ** [positions.py] *)

(** [d.get(k)] of a value that may not be a dict. *)
Definition get_or (v : pyval) (k : text) (default : pyval) : res pyval :=
  match v with
  | VDict d => Ok (dget_or k default d)
  | _ => raise AttributeError "get"
  end.

Definition index_str (v : pyval) (k : text) : res pyval :=
  match v with
  | VDict d => dindex k d
  | _ => raise TypeError "indices must be integers"
  end.

Section Params.
Context `{Interpreter}.

Definition extract_params (envelope : pydict) : res pydict :=
  let payload := dget_or "payload" (VDict []) envelope in
  warnings ← get_or payload "parse_warnings" (VList []);
  schema_version ← dindex "schema_version" envelope;
  event_type ← dindex "event_type" envelope;
  origin ← dindex "origin" envelope;
  normalized ← dindex "normalized" envelope;
  ingested_at_ms ← dindex "ingested_at_ms" envelope;
  tag_id ← index_str payload "tag_id";
  ts_utc_ms ← index_str payload "ts_utc_ms";
  source_type ← get_or payload "source_type" (VStr "unknown");
  status ← get_or payload "status" VNone;
  layer ← get_or payload "layer" VNone;
  area ← get_or payload "area" VNone;
  x ← get_or payload "x" VNone;
  y ← get_or payload "y" VNone;
  z ← get_or payload "z" VNone;
  lng ← get_or payload "lng" VNone;
  lat ← get_or payload "lat" VNone;
  raw_message ← get_or payload "raw_message" (VStr []);
  parse_warnings ← json_dumps default_style warnings;
  Ok [ (txt "schema_version", schema_version); (txt "event_type", event_type);
       (txt "origin", origin); (txt "normalized", normalized);
       (txt "ingested_at_ms", ingested_at_ms); (txt "tag_id", tag_id);
       (txt "ts_utc_ms", ts_utc_ms); (txt "source_type", source_type);
       (txt "status", status); (txt "layer", layer); (txt "area", area);
       (txt "x", x); (txt "y", y); (txt "z", z); (txt "lng", lng); (txt "lat", lat);
       (txt "raw_message", raw_message); (txt "parse_warnings", VStr parse_warnings) ].

End Params.

(** [_build_time_filters] *)
Definition build_time_filters (from_ts to_ts : option Z) : text * pydict :=
  let '(clauses, params) :=
    match from_ts with
    | Some f => (txt " AND ts_utc_ms >= %(from_ts)s", [(txt "from_ts", VInt f)])
    | None => ([], [])
    end in
  match to_ts with
  | Some t => (clauses ++ txt " AND ts_utc_ms <= %(to_ts)s", dset "to_ts" (VInt t) params)
  | None => (clauses, params)
  end.

(** [dict.update] *)
Definition dupdate (d d' : pydict) : pydict := foldl (fun d kv => dset kv.1 kv.2 d) d d'.

(** [dict(zip(columns, row))] *)
Definition zip_dict (columns : list text) (row : list pyval) : pydict :=
  dupdate [] (zip columns row).

Definition HISTORY_COLUMNS : list text := CURRENT_POS_COLUMNS.

(** The query text of [get_position_history] and of [count_position_history]. *)
Definition history_text (clauses : text) : res text :=
  base ← load_sql "select_position_history";
  Ok (replace "ORDER BY" (clauses ++ nl ++ txt "ORDER BY") base).

Definition count_text (clauses : text) : res text :=
  base ← load_sql "count_position_history"; Ok (base ++ clauses).

Definition history_params (tag_id : text) (limit offset : Z) (time_params : pydict) : pydict :=
  dupdate [ (txt "tag_id", VStr tag_id); (txt "limit", VInt limit); (txt "offset", VInt offset) ]
    time_params.

Section Sessions.
Context `{Driver} `{Interpreter}.

Definition insert_position_event (envelope : pydict) : io session () :=
  params ← io_res (extract_params envelope);
  q ← io_res (load_sql "insert_position_event");
  _ ← execute q params;
  mret ().

Definition upsert_current_position (envelope : pydict) : io session () :=
  params ← io_res (extract_params envelope);
  q ← io_res (load_sql "upsert_current_position");
  _ ← execute q params;
  mret ().

(** The argument of the final [logger.debug] call is evaluated too. *)
Definition persist_envelope (envelope : pydict) : io session () :=
  _ ← insert_position_event envelope;
  _ ← upsert_current_position envelope;
  _ ← commit;
  _ ← io_res (get_or (dget_or "payload" (VDict []) envelope) "tag_id" VNone);
  mret ().

Definition get_all_current_positions : io session (list pydict) :=
  q ← io_res (load_sql "select_all_current_positions");
  rows ← execute q [];
  mret (zip_dict CURRENT_POS_COLUMNS <$> rows).

Definition get_position_history (tag_id : text) (from_ts to_ts : option Z) (limit offset : Z) :
    io session (list pydict) :=
  let '(time_clauses, time_params) := build_time_filters from_ts to_ts in
  query ← io_res (history_text time_clauses);
  rows ← execute query (history_params tag_id limit offset time_params);
  mret (zip_dict HISTORY_COLUMNS <$> rows).

Definition count_position_history (tag_id : text) (from_ts to_ts : option Z) :
    io session pyval :=
  let '(time_clauses, time_params) := build_time_filters from_ts to_ts in
  query ← io_res (count_text time_clauses);
  rows ← execute query (dupdate [(txt "tag_id", VStr tag_id)] time_params);
  match rows with
  | (v :: _) :: _ => mret v
  | [] :: _ => mret (VInt 0)
  | [] => mret (VInt 0)
  end.

(** ** [db.py] *)

(** [get_connection]: the block runs between [acquire] and the pool's exit. *)
Definition with_connection {A} (body : io session A) : io session A := fun s =>
  match acquire s with
  | (Raise e, s1) => (Raise e, s1)
  | (Ok _, s1) =>
      match body s1 with
      | (Ok a, s2) => match exit_ok s2 with
                      | (Ok _, s3) => (Ok a, s3)
                      | (Raise e, s3) => (Raise e, s3)
                      end
      | (Raise e, s2) => (Raise e, exit_raise s2)
      end
  end.

Definition probe_database : io session bool :=
  with_connection (rows ← execute "SELECT 1" [];
                   mret (match rows with
                         | [VInt 1] :: _ => true
                         | _ => false
                         end)).
End Sessions.

End Repository.
