(* ===== verification/RepositoryFacts.v ===== *)
(** * The repository: its theorems

    Atomicity of [persist_envelope], the table of current positions as the latest
    event of each tag (and its independence of arrival order and redelivery), the
    history queries and the cache of [load_sql]. *)

From S2P Require Export Repository TextFacts.
Import Repository.

(** ** The tables after a sequence of events *)

(** One persisted event. *)
Definition apply_row (db : database) (r : row) : database := upsert_current r (insert_event r db).

Definition ingest (rs : list row) (db : database) : database := foldl apply_row db rs.

Definition upserts (rs : list row) (m : gmap text row) : gmap text row :=
  foldl (fun m r => upsert_row r m) m rs.

Lemma ingest_events rs db : position_events (ingest rs db) = position_events db ++ rs.
Proof.
  revert db. induction rs as [|r rs IH]; intros db; simpl; [by rewrite app_nil_r|].
  unfold ingest in *. simpl. rewrite IH. simpl. by rewrite <-app_assoc.
Qed.

Lemma ingest_current rs db : current_positions (ingest rs db) = upserts rs (current_positions db).
Proof. revert db. induction rs as [|r rs IH]; intros db; [done|]. apply IH. Qed.

Lemma upserts_snoc rs r m : upserts (rs ++ [r]) m = upsert_row r (upserts rs m).
Proof. unfold upserts. by rewrite foldl_app. Qed.

Lemma upsert_row_ne r m tag : r_tag r ≠ tag -> upsert_row r m !! tag = m !! tag.
Proof. intros Hne. unfold upsert_row. repeat case_match; by rewrite ?lookup_insert_ne. Qed.

Lemma upsert_row_eq r m :
  upsert_row r m !! r_tag r =
  match m !! r_tag r with
  | Some old => if (r_ts old <=? r_ts r)%Z then Some r else Some old
  | None => Some r
  end.
Proof.
  unfold upsert_row. destruct (m !! r_tag r) as [old|] eqn:E; [case_match|];
    by rewrite ?lookup_insert_eq.
Qed.

(** [r] is the current row of [tag] after the events [rs]: none before it is newer,
    all after it are older. *)
Definition latest (tag : text) (rs : list row) (r : row) : Prop :=
  exists before after, rs = before ++ r :: after /\ r_tag r = tag /\
    Forall (fun r' => r_tag r' = tag -> (r_ts r' <= r_ts r)%Z) before /\
    Forall (fun r' => r_tag r' = tag -> (r_ts r' < r_ts r)%Z) after.

Lemma latest_max tag rs r r' :
  latest tag rs r -> r' ∈ rs -> r_tag r' = tag -> (r_ts r' <= r_ts r)%Z.
Proof.
  intros (b & a & -> & _ & Hb & Ha) Hr' Ht. rewrite Forall_forall in *.
  apply elem_of_app in Hr' as [Hr'|[->|Hr']%elem_of_cons]; [by apply Hb|done|].
  by apply Z.lt_le_incl, Ha.
Qed.

Lemma latest_elem tag rs r : latest tag rs r -> r ∈ rs /\ r_tag r = tag.
Proof. intros (b & a & -> & Ht & _). split; [|done]. set_solver. Qed.

Lemma upserts_latest rs tag :
  match upserts rs ∅ !! tag with
  | Some r => latest tag rs r
  | None => Forall (fun r => r_tag r ≠ tag) rs
  end.
Proof.
  induction rs as [|r rs IH] using rev_ind; [constructor|].
  rewrite upserts_snoc. destruct (decide (r_tag r = tag)) as [<-|Hne].
  - rewrite upsert_row_eq. destruct (upserts rs ∅ !! r_tag r) as [old|] eqn:E.
    + destruct (Z.leb_spec (r_ts old) (r_ts r)).
      * exists rs, []. split; [done|]. split; [done|]. split; [|constructor].
        apply Forall_forall. intros r' Hr' Ht. pose proof (latest_max _ _ _ _ IH Hr' Ht). lia.
      * destruct IH as (b & a & -> & Ht & Hb & Ha). exists b, (a ++ [r]).
        rewrite <-app_assoc. split; [done|]. split; [done|]. split; [done|].
        apply Forall_app. split; [done|]. by constructor.
    + exists rs, []. split; [done|]. split; [done|]. split; [|constructor].
      eapply Forall_impl; [done|]. intros r' Hne Ht. done.
  - rewrite upsert_row_ne by done. destruct (upserts rs ∅ !! tag) as [old|].
    + destruct IH as (b & a & -> & Ht & Hb & Ha). exists b, (a ++ [r]).
      rewrite <-app_assoc. split; [done|]. split; [done|]. split; [done|].
      apply Forall_app. split; [done|]. constructor; [done|constructor].
    + apply Forall_app. split; [done|]. by repeat constructor.
Qed.

(** Events of one tag have distinct timestamps, unless they are the same row. *)
Definition ts_distinct (rs : list row) : Prop :=
  forall r r', r ∈ rs -> r' ∈ rs -> r_tag r = r_tag r' -> r_ts r = r_ts r' -> r = r'.

(** The current table depends only on the set of the events. *)
Lemma upserts_set rs rs' :
  ts_distinct rs -> (forall r, r ∈ rs <-> r ∈ rs') -> upserts rs ∅ = upserts rs' ∅.
Proof.
  intros Hd Hset. apply map_eq. intros tag.
  pose proof (upserts_latest rs tag) as H1. pose proof (upserts_latest rs' tag) as H2.
  destruct (upserts rs ∅ !! tag) as [r|], (upserts rs' ∅ !! tag) as [r'|]; try done.
  - f_equal. pose proof (latest_elem _ _ _ H1) as [He Ht].
    pose proof (latest_elem _ _ _ H2) as [He' Ht']. apply Hset in He' as He''.
    apply Hd; [done..|congruence|].
    pose proof (latest_max _ _ _ _ H1 He'' Ht').
    apply Hset in He. pose proof (latest_max _ _ _ _ H2 He Ht). lia.
  - apply latest_elem in H1 as [He Ht]. rewrite Forall_forall in H2.
    apply Hset in He. by destruct (H2 r He).
  - apply latest_elem in H2 as [He Ht]. rewrite Forall_forall in H1.
    apply Hset in He. by destruct (H1 r' He).
Qed.

(** C23. After any sequence of persisted events the event table holds them in order
    and the current table holds, for each tag, its newest event (the last to
    arrive among equal timestamps), and nothing for a tag without events. *)
Theorem current_is_latest rs tag :
  let db := ingest rs empty_database in
  position_events db = rs /\
  match current_positions db !! tag with
  | Some r => latest tag rs r
  | None => Forall (fun r => r_tag r ≠ tag) rs
  end.
Proof.
  simpl. split; [apply ingest_events|]. rewrite ingest_current. apply upserts_latest.
Qed.

(** The current table does not depend on the order in which the events arrive,
    as long as the events of a tag have distinct timestamps. *)
Theorem current_order_insensitive rs rs' :
  ts_distinct rs -> rs ≡ₚ rs' ->
  current_positions (ingest rs empty_database) = current_positions (ingest rs' empty_database).
Proof.
  intros Hd Hp. rewrite !ingest_current. apply upserts_set; [done|].
  intros r. by rewrite Hp.
Qed.

(** A redelivered event is appended to the event table a second time and leaves
    the current table as it was. *)
Theorem redelivery_keeps_current rs r :
  ts_distinct rs -> r ∈ rs ->
  position_events (ingest (rs ++ [r]) empty_database) = rs ++ [r] /\
  current_positions (ingest (rs ++ [r]) empty_database) =
  current_positions (ingest rs empty_database).
Proof.
  intros Hd Hr. split; [apply ingest_events|]. rewrite !ingest_current.
  symmetry. apply upserts_set; [done|]. set_solver.
Qed.

Definition row_a : row := {| r_tag := "a"; r_ts := 5; r_cols := [] |}.
Definition row_b : row := {| r_tag := "a"; r_ts := 9; r_cols := [] |}.
Definition row_c : row := {| r_tag := "b"; r_ts := 5; r_cols := [] |}.

Lemma rows_distinct : ts_distinct [row_a; row_b; row_c].
Proof.
  intros r r' Hr Hr'. repeat (apply elem_of_cons in Hr as [->|Hr]);
    repeat (apply elem_of_cons in Hr' as [->|Hr']); try done; by apply elem_of_nil in Hr || apply elem_of_nil in Hr'.
Qed.

Lemma current_order_insensitive_witness :
  current_positions (ingest [row_a; row_b; row_c] empty_database) =
  current_positions (ingest [row_b; row_c; row_a] empty_database) /\
  current_positions (ingest [row_b; row_c; row_a] empty_database) !! txt "a" = Some row_b.
Proof.
  split; [|vm_compute; reflexivity].
  apply (current_order_insensitive [row_a; row_b; row_c] [row_b; row_c; row_a] rows_distinct).
  apply (Permutation_cons_append [row_b; row_c] row_a).
Defined.

Lemma redelivery_keeps_current_witness :
  position_events (ingest ([row_a; row_b; row_c] ++ [row_a]) empty_database)
    = [row_a; row_b; row_c] ++ [row_a] /\
  current_positions (ingest ([row_a; row_b; row_c] ++ [row_a]) empty_database) =
  current_positions (ingest [row_a; row_b; row_c] empty_database).
Proof.
  apply (redelivery_keeps_current [row_a; row_b; row_c] row_a rows_distinct).
  by apply elem_of_cons; left.
Defined.

(** ** Transactions *)

Lemma io_bind_Ok {S A B} (m : io S A) (f : A -> io S B) s b s' :
  (m ≫= f) s = (Ok b, s') -> exists a s1, m s = (Ok a, s1) /\ f a s1 = (Ok b, s').
Proof. unfold mbind, io_bind. destruct (m s) as [[a|e] s1]; [eauto|done]. Qed.

Lemma io_bind_Raise {S A B} (m : io S A) (f : A -> io S B) s e s' :
  (m ≫= f) s = (Raise e, s') ->
  m s = (Raise e, s') \/ exists a s1, m s = (Ok a, s1) /\ f a s1 = (Raise e, s').
Proof.
  unfold mbind, io_bind. destruct (m s) as [[a|e'] s1]; [eauto|].
  intros [= <- <-]. by left.
Qed.

Lemma io_res_inv {S A} (m : res A) (s : S) r s' : io_res m s = (r, s') -> r = m /\ s' = s.
Proof. unfold io_res. by intros [= <- <-]. Qed.

Ltac io_step :=
  match goal with
  | H : (_ ≫= _) ?s = (Ok _, _) |- _ =>
      let a := fresh "a" in let s1 := fresh "s" in let H1 := fresh "E" in
      apply io_bind_Ok in H as (a & s1 & H1 & H)
  | H : io_res _ _ = (Ok _, _) |- _ =>
      apply io_res_inv in H; destruct H as [H ->]; symmetry in H
  | H : mret _ _ = (_, _) |- _ => injection H as H; subst
  | H : mret _ = (fun _ => _) |- _ => fail
  end.

Lemma load_insert : load_sql "insert_position_event" = Ok insert_position_event_sql.
Proof. vm_compute. reflexivity. Qed.
Lemma load_upsert : load_sql "upsert_current_position" = Ok upsert_current_position_sql.
Proof. vm_compute. reflexivity. Qed.
Lemma load_select_all : load_sql "select_all_current_positions" = Ok select_all_current_positions_sql.
Proof. vm_compute. reflexivity. Qed.

(** ** The statements have distinct texts *)

Ltac query_absurd :=
  repeat match goal with
  | f : bool |- _ => destruct f
  end;
  match goal with H : @eq text _ _ |- _ => exfalso; vm_compute in H; discriminate H end.

Section Runs.
Context `{Columns} `{Interpreter}.

Lemma runs_insert p db db' rows :
  runs insert_position_event_sql p db db' rows ->
  exists r, row_of p = Ok r /\ db' = insert_event r db.
Proof.
  intros Hr. remember insert_position_event_sql as q eqn:Hq.
  destruct Hr; [eauto|query_absurd..].
Qed.

Lemma runs_upsert p db db' rows :
  runs upsert_current_position_sql p db db' rows ->
  exists r, row_of p = Ok r /\ db' = upsert_current r db.
Proof.
  intros Hr. remember upsert_current_position_sql as q eqn:Hq.
  destruct Hr; [query_absurd|eauto|query_absurd..].
Qed.

Lemma history_query_inj f t f' t' : history_query f t = history_query f' t' -> f = f' /\ t = t'.
Proof. destruct f, t, f', t'; try done; intros Hq; query_absurd. Qed.

Lemma count_query_inj f t f' t' : count_query f t = count_query f' t' -> f = f' /\ t = t'.
Proof. destruct f, t, f', t'; try done; intros Hq; query_absurd. Qed.

(** The relation of the history query, with its parameters read. *)
Lemma runs_history f t p db db' rows :
  runs (history_query f t) p db db' rows ->
  exists tag from_ts to_ts limit offset l,
    dget "tag_id" p = Some (VStr tag) /\ bound_param f "from_ts" p from_ts /\
    bound_param t "to_ts" p to_ts /\ int_param "limit" p = Some limit /\
    int_param "offset" p = Some offset /\
    l ≡ₚ history_matches tag from_ts to_ts db /\ StronglySorted ts_desc l /\ db' = db /\
    rows = project <$> take (Z.to_nat limit) (drop (Z.to_nat offset) l).
Proof.
  intros Hr. remember (history_query f t) as q eqn:Hq.
  destruct Hr; try query_absurd.
  apply history_query_inj in Hq as [<- <-]. do 6 eexists. by repeat split.
Qed.

Lemma runs_count f t p db db' rows :
  runs (count_query f t) p db db' rows ->
  exists tag from_ts to_ts,
    dget "tag_id" p = Some (VStr tag) /\ bound_param f "from_ts" p from_ts /\
    bound_param t "to_ts" p to_ts /\ db' = db /\
    rows = [[VInt (Z.of_nat (length (history_matches tag from_ts to_ts db)))]].
Proof.
  intros Hr. remember (count_query f t) as q eqn:Hq.
  destruct Hr; try query_absurd.
  apply count_query_inj in Hq as [<- <-]. do 3 eexists. by repeat split.
Qed.
End Runs.

Section Sessions.
Context `{Driver} `{Interpreter}.

(** A statement of the repository that succeeds does what its file says. *)
Lemma insert_event_ok envelope s s' :
  insert_position_event envelope s = (Ok (), s') ->
  exists params r, extract_params envelope = Ok params /\ row_of params = Ok r /\
    committed s' = committed s /\ visible s' = insert_event r (visible s).
Proof.
  unfold insert_position_event. rewrite load_insert. intros Hrun.
  repeat io_step. simplify_eq.
  pose proof (execute_row _ _ _ _ _ E1 (or_introl eq_refl)) as Hrow.
  destruct (row_of a) as [r|] eqn:Er; [|done].
  destruct (execute_ok _ _ _ _ _ E1) as [Hc Hv]. exists a, r.
  destruct (runs_insert a (visible s) (visible s') a1) as (r' & Hr' & Hv').
  { apply Hv. do 2 eexists. by apply run_insert. }
  rewrite Er in Hr'. by injection Hr' as <-.
Qed.

Lemma upsert_current_ok envelope s s' :
  upsert_current_position envelope s = (Ok (), s') ->
  exists params r, extract_params envelope = Ok params /\ row_of params = Ok r /\
    committed s' = committed s /\ visible s' = upsert_current r (visible s).
Proof.
  unfold upsert_current_position. rewrite load_upsert. intros Hrun.
  repeat io_step. simplify_eq.
  pose proof (execute_row _ _ _ _ _ E1 (or_intror eq_refl)) as Hrow.
  destruct (row_of a) as [r|] eqn:Er; [|done].
  destruct (execute_ok _ _ _ _ _ E1) as [Hc Hv]. exists a, r.
  destruct (runs_upsert a (visible s) (visible s') a1) as (r' & Hr' & Hv').
  { apply Hv. do 2 eexists. by apply run_upsert. }
  rewrite Er in Hr'. by injection Hr' as <-.
Qed.

(** One that raises leaves the durable tables alone. *)
Lemma statement_raise q envelope s e s' :
  (params ← io_res (extract_params envelope); t ← io_res q; _ ← execute t params; mret ()) s
    = (Raise e, s') -> committed s' = committed s.
Proof.
  intros [Hr|(a & s1 & Ha & Hr)]%io_bind_Raise.
  { apply io_res_inv in Hr as [_ ->]. done. }
  apply io_res_inv in Ha as [_ ->].
  apply io_bind_Raise in Hr as [Hr|(t & s2 & Ht & Hr)].
  { apply io_res_inv in Hr as [_ ->]. done. }
  apply io_res_inv in Ht as [_ ->].
  apply io_bind_Raise in Hr as [Hr|(rs & s3 & Hs & Hr)]; [by eapply execute_raise|done].
Qed.

(** The two outcomes of a persisted envelope for the durable tables. *)
Definition stored (envelope : pydict) (db db' : database) : Prop :=
  exists params r, extract_params envelope = Ok params /\ row_of params = Ok r /\
    db' = apply_row db r.

Lemma persist_body envelope s r s' :
  visible s = committed s -> persist_envelope envelope s = (r, s') ->
  match r with
  | Ok _ => stored envelope (committed s) (committed s') /\ visible s' = committed s'
  | Raise _ => committed s' = committed s \/ stored envelope (committed s) (committed s')
  end.
Proof.
  intros Hidle. unfold persist_envelope. destruct r as [[]|e]; intros Hrun.
  - repeat io_step. destruct a, a0, a1.
    destruct (insert_event_ok _ _ _ E) as (p & r & Hp & Hr & Hc1 & Hv1).
    destruct (upsert_current_ok _ _ _ E0) as (p' & r' & Hp' & Hr' & Hc2 & Hv2).
    rewrite Hp in Hp'. injection Hp' as <-. rewrite Hr in Hr'. injection Hr' as <-. destruct (commit_ok _ _ E1) as [Hc3 Hv3].
    split; [|congruence]. exists p, r. split; [done|]. split; [done|].
    rewrite Hc3, Hv2, Hv1, Hidle. done.
  - apply io_bind_Raise in Hrun as [Hrun|([] & s1 & E1 & Hrun)].
    { left. by eapply statement_raise. }
    destruct (insert_event_ok _ _ _ E1) as (p & r & Hp & Hr & Hc1 & Hv1).
    apply io_bind_Raise in Hrun as [Hrun|([] & s2 & E2 & Hrun)].
    { left. rewrite <-Hc1. by eapply statement_raise. }
    destruct (upsert_current_ok _ _ _ E2) as (p' & r' & Hp' & Hr' & Hc2 & Hv2).
    rewrite Hp in Hp'. injection Hp' as <-. rewrite Hr in Hr'. injection Hr' as <-.
    assert (stored envelope (committed s) (visible s2)) as Hst.
    { exists p, r. rewrite Hv2, Hv1, Hidle. done. }
    apply io_bind_Raise in Hrun as [Hrun|([] & s3 & E3 & Hrun)].
    { apply commit_raise in Hrun as [->| ->]; [left; congruence|by right]. }
    destruct (commit_ok _ _ E3) as [Hc3 Hv3].
    apply io_bind_Raise in Hrun as [Hrun|(v & s4 & E4 & Hrun)]; [|done].
    apply io_res_inv in Hrun as [_ ->]. right. by rewrite Hc3.
Qed.

(** C16. An envelope persisted over a pooled connection is stored atomically: when
    the block returns, the durable tables are the old ones with exactly this
    envelope's row appended and upserted; when it raises (a missing field, a
    failing statement, a failing or lost commit), they are the old ones or those,
    and never something in between. *)
Theorem persist_atomic envelope s r s' :
  with_connection (persist_envelope envelope) s = (r, s') ->
  match r with
  | Ok _ => stored envelope (committed s) (committed s')
  | Raise _ => committed s' = committed s \/ stored envelope (committed s) (committed s')
  end.
Proof.
  unfold with_connection. destruct (acquire s) as [[[]|e] s1] eqn:Ea;
    destruct (acquire_idle _ _ _ Ea) as [Hc Hi].
  2: { intros [= <- <-]. by left. }
  specialize (Hi eq_refl). rewrite <-Hc.
  destruct (persist_envelope envelope s1) as [[[]|e] s2] eqn:Ep;
    pose proof (persist_body _ _ _ _ Hi Ep) as Hb; simpl in Hb.
  - destruct Hb as [Hst Hv]. destruct (exit_ok s2) as [[[]|e] s3] eqn:Ex; intros [= <- <-];
      destruct (exit_ok_commits _ _ _ Ex) as [->|[-> Ho]]; rewrite ?Hv; try done; by right.
  - intros [= <- <-]. by rewrite exit_raise_rolls_back.
Qed.
End Sessions.
