(* ===== verification/MigrationsFacts.v ===== *)
(** * The schema: its theorems

    The migration and its rollback undo each other; the SQL files, the parameters and the
    column lists of the code agree with the columns of the tables. *)

From S2P Require Export RepositoryFacts.
Import Repository Migrations.

Module MigrationsFacts.

(** ** The catalog *)

(** Every index is on a table. *)
Definition wf_catalog (c : catalog) : Prop :=
  forall i t ks, cat_indexes c !! i = Some (t, ks) -> is_Some (cat_tables c !! t).

Lemma taken_false name c :
  taken name c = false <-> cat_tables c !! name = None /\ cat_indexes c !! name = None.
Proof.
  unfold taken. rewrite orb_false_iff, !bool_decide_eq_false, !eq_None_not_Some. done.
Qed.

(** A table that is made and dropped again leaves no trace, when no index was on its name. *)
Lemma drop_created name columns c :
  wf_catalog c -> taken name c = false ->
  exec (DropTable name) {| cat_tables := <[name := columns]> (cat_tables c); cat_indexes := cat_indexes c |}
  = Some c.
Proof.
  intros Hwf [Ht _]%taken_false. cbn. rewrite lookup_insert_eq. cbn.
  rewrite delete_insert_id by done. rewrite map_filter_id; [by destruct c|].
  intros i [t ks] Hi. cbn. intros ->. destruct (Hwf i name ks Hi) as [x Hx]. by rewrite Ht in Hx.
Qed.

(** An index that is made and dropped again leaves no trace. *)
Lemma drop_index_created name table keys c :
  taken name c = false ->
  exec (DropIndex name) {| cat_tables := cat_tables c; cat_indexes := <[name := (table, keys)]> (cat_indexes c) |}
  = Some c.
Proof.
  intros [_ Hi]%taken_false. cbn. rewrite lookup_insert_eq. cbn.
  rewrite delete_insert_id by done. by destruct c.
Qed.

Lemma exec_wf s c c' : wf_catalog c -> exec s c = Some c' -> wf_catalog c'.
Proof.
  intros Hwf. destruct s as [name columns|name table keys|name|name]; cbn.
  - destruct (taken name c) eqn:E; [done|]. intros [= <-] i t ks Hi. cbn in *.
    rewrite lookup_insert_is_Some'. right. by eapply Hwf.
  - destruct (cat_tables c !! table) as [columns|] eqn:Et; [|done]. cbn.
    destruct (_ || _); [done|]. intros [= <-] i t ks. cbn.
    destruct (decide (name = i)) as [->|Hne]; [rewrite lookup_insert_eq|rewrite lookup_insert_ne by done].
    + intros [= <- <-]. by eexists.
    + apply Hwf.
  - destruct (cat_indexes c !! name); [|done]. intros [= <-] i t ks. cbn.
    intros [_ Hi]%lookup_delete_Some. by eapply Hwf.
  - destruct (cat_tables c !! name); [|done]. intros [= <-] i t ks. cbn.
    intros [Hi Hne]%map_lookup_filter_Some. cbn in Hne. rewrite lookup_delete_ne by done. by eapply Hwf.
Qed.

(** The names of the migration *)
Definition created : list text :=
  [ txt "position_events"; txt "position_events_tag_id_ts_utc_ms_idx";
    txt "position_events_ts_utc_ms_idx"; txt "current_positions" ].

(** A table or an index more *)
Definition with_table (name : text) (columns : list column) (c : catalog) : catalog :=
  {| cat_tables := <[name := columns]> (cat_tables c); cat_indexes := cat_indexes c |}.
Definition with_index (name table : text) (keys : list (text * bool)) (c : catalog) : catalog :=
  {| cat_tables := cat_tables c; cat_indexes := <[name := (table, keys)]> (cat_indexes c) |}.

Lemma taken_with_table name n columns c : name ≠ n -> taken name (with_table n columns c) = taken name c.
Proof. intros Hne. unfold taken, with_table. cbn. by rewrite lookup_insert_ne. Qed.

Lemma taken_with_index name n t ks c : name ≠ n -> taken name (with_index n t ks c) = taken name c.
Proof. intros Hne. unfold taken, with_index. cbn. by rewrite lookup_insert_ne. Qed.

Lemma exec_create name columns c :
  exec (CreateTable name columns) c = if taken name c then None else Some (with_table name columns c).
Proof. done. Qed.

Lemma exec_index name table keys columns c :
  cat_tables c !! table = Some columns -> forallb (fun k => has_column columns k.1) keys = true ->
  exec (CreateIndex name table keys) c = if taken name c then None else Some (with_index name table keys c).
Proof. intros Ht Hk. cbn. rewrite Ht. cbn. by rewrite Hk, orb_false_r. Qed.

(** The catalog after the four statements *)
Definition migrated (c : catalog) : catalog :=
  with_table "current_positions" current_positions_columns
    (with_index "position_events_ts_utc_ms_idx" "position_events" [(txt "ts_utc_ms", true)]
      (with_index "position_events_tag_id_ts_utc_ms_idx" "position_events"
         [(txt "tag_id", false); (txt "ts_utc_ms", true)]
         (with_table "position_events" position_events_columns c))).

Lemma apply_spec c :
  exec_all apply_step c = if existsb (fun n => taken n c) created then None else Some (migrated c).
Proof.
  unfold apply_step, created. cbn [exec_all existsb].
  rewrite exec_create. destruct (taken (txt "position_events") c); [done|]. cbn [mbind option_bind orb].
  rewrite (exec_index _ _ _ position_events_columns) by (apply lookup_insert_eq || reflexivity).
  rewrite taken_with_table by discriminate.
  destruct (taken (txt "position_events_tag_id_ts_utc_ms_idx") c); [done|]. cbn [mbind option_bind orb].
  rewrite (exec_index _ _ _ position_events_columns) by (apply lookup_insert_eq || reflexivity).
  rewrite taken_with_index, taken_with_table by discriminate.
  destruct (taken (txt "position_events_ts_utc_ms_idx") c); [done|]. cbn [mbind option_bind orb].
  rewrite exec_create. rewrite !taken_with_index, taken_with_table by discriminate.
  by destruct (taken (txt "current_positions") c).
Qed.

Lemma rollback_spec c :
  wf_catalog c -> existsb (fun n => taken n c) created = false ->
  exec_all rollback_step (migrated c) = Some c.
Proof.
  intros Hwf Hfree. unfold created in Hfree. cbn [existsb] in Hfree.
  apply orb_false_iff in Hfree as [H1 [H2 [H3 [H4 _]%orb_false_iff]%orb_false_iff]%orb_false_iff].
  set (c1 := with_table "position_events" position_events_columns c).
  set (c2 := with_index "position_events_tag_id_ts_utc_ms_idx" "position_events"
               [(txt "tag_id", false); (txt "ts_utc_ms", true)] c1).
  set (c3 := with_index "position_events_ts_utc_ms_idx" "position_events" [(txt "ts_utc_ms", true)] c2).
  assert (wf_catalog c1) as W1.
  { apply (exec_wf (CreateTable "position_events" position_events_columns) c); [done|].
    by rewrite exec_create, H1. }
  assert (taken (txt "position_events_tag_id_ts_utc_ms_idx") c1 = false) as T2
    by (unfold c1; by rewrite taken_with_table).
  assert (wf_catalog c2) as W2.
  { eapply exec_wf; [exact W1|]. erewrite exec_index; [by rewrite T2|apply lookup_insert_eq|done]. }
  assert (taken (txt "position_events_ts_utc_ms_idx") c2 = false) as T3
    by (unfold c2, c1; by rewrite taken_with_index, taken_with_table).
  assert (wf_catalog c3) as W3.
  { eapply exec_wf; [exact W2|]. erewrite exec_index; [by rewrite T3|apply lookup_insert_eq|done]. }
  assert (taken (txt "current_positions") c3 = false) as T4
    by (unfold c3, c2, c1; by rewrite !taken_with_index, taken_with_table).
  unfold rollback_step. cbn [exec_all].
  change (migrated c) with {| cat_tables := <[txt "current_positions" := current_positions_columns]> (cat_tables c3);
                              cat_indexes := cat_indexes c3 |}.
  rewrite (drop_created _ _ c3 W3 T4). cbn [mbind option_bind].
  unfold c3 at 1. unfold with_index at 1. rewrite (drop_index_created _ _ _ c2 T3). cbn [mbind option_bind].
  unfold c2 at 1. unfold with_index at 1. rewrite (drop_index_created _ _ _ c1 T2). cbn [mbind option_bind].
  unfold c1 at 1. unfold with_table at 1. by rewrite (drop_created _ _ c Hwf H1).
Qed.

(** C18. The migration is all or nothing, and its rollback undoes it: where one of the four
    names is in use nothing changes; where none is, the two tables and the two indexes
    are made, and rolling back gives the old catalog, with whatever else it holds. *)
Theorem migration_roundtrip c :
  wf_catalog c ->
  if existsb (fun n => taken n c) created then run_step apply_step c = (false, c)
  else exists c', run_step apply_step c = (true, c') /\ wf_catalog c' /\
    cat_tables c' !! txt "position_events" = Some position_events_columns /\
    cat_tables c' !! txt "current_positions" = Some current_positions_columns /\
    run_step rollback_step c' = (true, c).
Proof.
  intros Hwf. unfold run_step. rewrite apply_spec. destruct (existsb _ created) eqn:Hfree; [done|].
  exists (migrated c). split; [done|]. split.
  - pose proof (apply_spec c) as Ha. rewrite Hfree in Ha. revert Ha. generalize (migrated c). intros c'.
    assert (forall l c0, wf_catalog c0 -> exec_all l c0 = Some c' -> wf_catalog c') as Hall; [|by apply Hall].
    induction l as [|st l IH]; intros c0 H0 Hl; cbn in Hl; [by injection Hl as <-|].
    destruct (exec st c0) as [c1|] eqn:E; [|done]. apply (IH c1); [by eapply exec_wf|done].
  - split; [|split; [apply lookup_insert_eq|by rewrite rollback_spec]].
    cbn. rewrite lookup_insert_ne by discriminate. apply lookup_insert_eq.
Qed.

(** ** The SQL files against the columns *)

(** The words and the signs of a text; a sign is a token of its own, blanks separate. *)
Definition word_char (c : N) : bool :=
  ((48 <=? c) && (c <=? 57) || (65 <=? c) && (c <=? 90) || (97 <=? c) && (c <=? 122) || (c =? 95))%N.
Definition blank_char (c : N) : bool := ((c =? 32) || (c =? 10))%N.

Fixpoint tokens_from (word : text) (s : text) : list text :=
  let flush := match word with [] => [] | _ => [rev word] end in
  match s with
  | [] => flush
  | c :: r =>
      if word_char c then tokens_from (c :: word) r
      else if blank_char c then flush ++ tokens_from [] r
      else flush ++ [c] :: tokens_from [] r
  end.

Definition tokens (s : text) : list text := tokens_from [] s.

Definition sign (t : text) (s : string) : bool := text_eqb t (txt s).

(** What comes after the first [s], and what comes before it *)
Fixpoint after (s : string) (l : list text) : list text :=
  match l with
  | [] => []
  | t :: r => if sign t s then r else after s r
  end.

Fixpoint before (s : string) (l : list text) : list text :=
  match l with
  | [] => []
  | t :: r => if sign t s then [] else t :: before s r
  end.

Definition names (l : list text) : list text := List.filter (fun t => negb (sign t ",")) l.

(** The column list of an [INSERT], its named parameters, the target of [ON CONFLICT], the
    assignments [c = EXCLUDED.d], and the list of a [SELECT] *)
Definition inserted (sql : text) : list text := names (before ")" (after "(" (tokens sql))).

Fixpoint placeholders_of (l : list text) : list text :=
  match l with
  | p :: ((o :: n :: _) as r) =>
      if sign p "%" && sign o "(" then n :: placeholders_of r else placeholders_of r
  | _ => []
  end.

Definition placeholders (sql : text) : list text := placeholders_of (tokens sql).

Definition conflict_target (sql : text) : list text :=
  names (before ")" (after "(" (after "CONFLICT" (tokens sql)))).

Fixpoint assigned_of (l : list text) : list (text * text) :=
  match l with
  | c :: ((e :: x :: dot :: d :: _) as r) =>
      if sign e "=" && sign x "EXCLUDED" && sign dot "." then (c, d) :: assigned_of r else assigned_of r
  | _ => []
  end.

Definition assigned (sql : text) : list (text * text) := assigned_of (tokens sql).

Definition selected (sql : text) : list text := names (before "FROM" (after "SELECT" (tokens sql))).

(** The columns that an [INSERT] must give a value *)
Definition needs_value (c : column) : bool :=
  negb (col_nullable c) && match col_default c, col_type c with
                           | None, BigSerial => false
                           | None, _ => true
                           | Some _, _ => false
                           end.

Definition names_of (columns : list column) : list text := col_name <$> columns.

(** The [INSERT] [sql] into a table of the columns is right: its columns are distinct columns
    of the table, it gives each its parameter, and it leaves out none that needs a value. *)
Definition insert_fits (sql : text) (columns : list column) : bool :=
  bool_decide (NoDup (inserted sql)) &&
  forallb (has_column columns) (inserted sql) &&
  forallb (fun c => existsb (text_eqb (col_name c)) (inserted sql)) (List.filter needs_value columns) &&
  bool_decide (placeholders sql = inserted sql).

Lemma extract_params_keys `{Interpreter} envelope params :
  extract_params envelope = Ok params -> params.*1 = inserted insert_position_event_sql.
Proof.
  unfold extract_params. intros Hp.
  repeat match type of Hp with
         | mbind _ ?m = _ => destruct m; [cbn [mbind res_bind] in Hp|discriminate Hp]
         end.
  injection Hp as <-. reflexivity.
Qed.

(** C19. The SQL files, the parameters and the schema agree: both [INSERT]s name distinct
    columns of their table, with the parameter of its own name for each, and none that
    needs a value is left out; the parameters of any envelope are exactly those named; the
    conflict target is the primary key of the current table and every other inserted column
    is overwritten by its own new value; and the three [SELECT] lists are the columns the
    code zips the rows with, which both tables have. *)
Theorem statements_fit_schema `{Interpreter} :
  insert_fits insert_position_event_sql position_events_columns = true /\
  insert_fits upsert_current_position_sql current_positions_columns = true /\
  (forall envelope params, extract_params envelope = Ok params ->
     params.*1 = placeholders insert_position_event_sql /\
     params.*1 = placeholders upsert_current_position_sql) /\
  conflict_target upsert_current_position_sql =
    names_of (List.filter col_primary current_positions_columns) /\
  assigned upsert_current_position_sql =
    (fun c => (c, c)) <$> List.filter (fun c => negb (text_eqb c "tag_id")) (inserted upsert_current_position_sql) /\
  selected select_position_history_sql = CURRENT_POS_COLUMNS /\
  selected select_all_current_positions_sql = CURRENT_POS_COLUMNS /\
  forallb (has_column position_events_columns) CURRENT_POS_COLUMNS = true /\
  forallb (has_column current_positions_columns) CURRENT_POS_COLUMNS = true.
Proof.
  split; [vm_compute; reflexivity|]. split; [vm_compute; reflexivity|].
  split; [|repeat split; vm_compute; reflexivity].
  intros envelope params Hp. rewrite (extract_params_keys envelope params Hp).
  split; vm_compute; reflexivity.
Qed.

Definition empty_catalog : catalog := {| cat_tables := ∅; cat_indexes := ∅ |}.

Lemma migration_roundtrip_witness :
  exists c', run_step apply_step empty_catalog = (true, c') /\ run_step rollback_step c' = (true, empty_catalog).
Proof.
  assert (wf_catalog empty_catalog) as Hwf by (intros i t ks Hi; discriminate Hi).
  pose proof (migration_roundtrip empty_catalog Hwf) as Hm.
  assert (existsb (fun n => taken n empty_catalog) created = false) as Hfree by (vm_compute; reflexivity).
  rewrite Hfree in Hm. destruct Hm as (c' & Ha & _ & _ & _ & Hr). exists c'. split; [exact Ha|exact Hr].
Defined.

End MigrationsFacts.
