(* ===== verification/MemDriver.v ===== *)
(** * A driver over lists and maps

    An instance of [Driver] whose session is the pair of the tables a transaction
    sees and the durable tables: the laws of the class can hold, and concrete runs
    evaluate. *)

From S2P Require Export RepositoryFacts.

Definition mem_row_of (p : pydict) : res row :=
  match dget "tag_id" p, dget "ts_utc_ms" p with
  | Some (VStr t), Some (VInt z) =>
      if Migrations.refused Migrations.position_events_columns p then raise Foreign "refused"
      else if forallb (fun c => Migrations.stores c (dget_none (Migrations.col_name c) p))
                (List.filter selected_column Migrations.position_events_columns)
      then Ok {| r_tag := t; r_ts := z; r_cols := p |}
      else raise Foreign "of another type"
  | _, _ => raise Foreign "invalid input"
  end.

#[export, program] Instance mem_columns : Columns :=
  {| row_of := mem_row_of; tag_le := fun _ _ => True |}.
Next Obligation.
  intros p r t z Hr Ht Hz. unfold mem_row_of in Hr. rewrite Ht, Hz in Hr.
  destruct (Migrations.refused _ p); [done|]. destruct (forallb _ _); [|done]. by injection Hr as <-.
Qed.
Next Obligation.
  intros p Hp. unfold mem_row_of. rewrite Hp. by repeat case_match.
Qed.
Next Obligation.
  intros p r c Hr Hc. unfold mem_row_of in Hr. destruct (dget "tag_id" p) as [[| | | |t| |]|]; try done.
  destruct (dget "ts_utc_ms" p) as [[| |z| | | |]|]; try done. destruct (Migrations.refused _ p); [done|].
  destruct (forallb _ _) eqn:Hf; [|done]. injection Hr as <-.
  rewrite forallb_forall in Hf. by apply Hf, list_elem_of_In.
Qed.
Next Obligation.
  intros l. exists l. split; [done|]. induction l; constructor; [done|]. by apply Forall_true.
Qed.

#[export] Instance ts_desc_dec a b : Decision (ts_desc a b).
Proof. unfold ts_desc. apply _. Defined.
#[export] Instance ts_desc_total : Total ts_desc.
Proof. intros a b. unfold ts_desc. lia. Qed.
#[export] Instance ts_desc_trans : Transitive ts_desc.
Proof. intros a b c. unfold ts_desc. lia. Qed.

Definition bound_of (present : bool) (k : text) (p : pydict) : option (option Z) :=
  if present then Some <$> int_param k p else Some None.

Lemma int_param_Some k p z : int_param k p = Some z -> dget k p = Some (VInt z).
Proof. unfold int_param. repeat case_match; naive_solver. Qed.

Lemma bound_of_param b k p o : bound_of b k p = Some o -> bound_param b k p o.
Proof.
  unfold bound_of, bound_param. destruct b; [|naive_solver].
  destruct (int_param k p) as [z|] eqn:E; simpl; [|done]. intros [= <-].
  exists z. split; [by apply int_param_Some|done].
Qed.

Definition mem_history (f t : bool) (p : pydict) (db : database) : res (list (list pyval)) :=
  match dget "tag_id" p, bound_of f "from_ts" p, bound_of t "to_ts" p,
        int_param "limit" p, int_param "offset" p with
  | Some (VStr tag), Some from_ts, Some to_ts, Some limit, Some offset =>
      if ((0 <=? limit) && (0 <=? offset))%Z then
        Ok (project <$> take (Z.to_nat limit) (drop (Z.to_nat offset)
              (merge_sort ts_desc (history_matches tag from_ts to_ts db))))
      else raise Foreign "negative"
  | _, _, _, _, _ => raise Foreign "invalid parameter"
  end.

Definition mem_count (f t : bool) (p : pydict) (db : database) : res (list (list pyval)) :=
  match dget "tag_id" p, bound_of f "from_ts" p, bound_of t "to_ts" p with
  | Some (VStr tag), Some from_ts, Some to_ts =>
      Ok [[VInt (Z.of_nat (length (history_matches tag from_ts to_ts db)))]]
  | _, _, _ => raise Foreign "invalid parameter"
  end.

(** The flags [f], [t] for which [q] is [query f t]. *)
Definition match_query (query : bool -> bool -> text) (q : text) : option (bool * bool) :=
  find (fun ft => text_eqb q (query ft.1 ft.2))
       [(false, false); (true, false); (false, true); (true, true)].

Definition mem_query (q : text) (p : pydict) (db : database) : res (list (list pyval)) :=
  match match_query history_query q, match_query count_query q with
  | Some (f, t), _ => mem_history f t p db
  | _, Some (f, t) => mem_count f t p db
  | _, _ =>
      if text_eqb q select_all_current_positions_sql then
        Ok (project <$> (map_to_list (current_positions db)).*2)
      else if text_eqb q (txt "SELECT 1") then Ok [[VInt 1]]
      else raise Foreign "syntax error"
  end.

Definition mem_execute (q : text) (p : pydict) : io (database * database) (list (list pyval)) :=
  fun s =>
  let write f := match mem_row_of p with
                 | Ok r => (Ok [], (f r s.1, s.2))
                 | Raise e => (Raise e, s)
                 end in
  if text_eqb q insert_position_event_sql then write insert_event
  else if text_eqb q upsert_current_position_sql then write upsert_current
  else (mem_query q p s.1, s).

Lemma match_query_Some query q f t : match_query query q = Some (f, t) -> q = query f t.
Proof.
  unfold match_query. intros Hf. apply find_some in Hf as [_ Hf].
  by apply text_eqb_eq in Hf.
Qed.

Lemma mem_query_runs q p db rows : mem_query q p db = Ok rows -> runs q p db db rows.
Proof.
  unfold mem_query. destruct (match_query history_query q) as [[f t]|] eqn:Eh.
  { apply match_query_Some in Eh as ->. unfold mem_history.
    destruct (dget "tag_id" p) as [[]|] eqn:Et; try done.
    destruct (bound_of f "from_ts" p) as [fo|] eqn:Ef; [|done].
    destruct (bound_of t "to_ts" p) as [to|] eqn:Eo; [|done].
    destruct (int_param "limit" p) as [lim|] eqn:El; [|done].
    destruct (int_param "offset" p) as [off|] eqn:Eoff; [|done].
    destruct (_ && _) eqn:Eb; [|done]. intros [= <-].
    apply bound_of_param in Ef, Eo. eapply run_history; try eassumption; try lia.
    - apply merge_sort_Permutation.
    - apply (StronglySorted_merge_sort ts_desc). }
  destruct (match_query count_query q) as [[f t]|] eqn:Ec.
  { apply match_query_Some in Ec as ->. unfold mem_count.
    destruct (dget "tag_id" p) as [[]|] eqn:Et; try done.
    destruct (bound_of f "from_ts" p) as [fo|] eqn:Ef; [|done].
    destruct (bound_of t "to_ts" p) as [to|] eqn:Eo; [|done].
    intros [= <-]. apply bound_of_param in Ef, Eo. by apply run_count. }
  destruct (text_eqb q select_all_current_positions_sql) eqn:Es.
  { apply text_eqb_eq in Es as ->. intros [= <-]. apply run_select_all; [done|].
    generalize ((map_to_list (current_positions db)).*2). intros l.
    induction l; constructor; [done|]. by apply Forall_true. }
  destruct (text_eqb q (txt "SELECT 1")) eqn:Ep; [|done].
  apply text_eqb_eq in Ep as ->. intros [= <-]. apply run_probe.
Qed.

#[export, program] Instance mem_driver : Driver := {|
  session := database * database;
  visible := fst;
  committed := snd;
  acquire := fun s => (Ok (), (s.2, s.2));
  execute := mem_execute;
  commit := fun s => (Ok (), (s.1, s.1));
  exit_ok := fun s => (Ok (), (s.1, s.1));
  exit_raise := fun s => (s.2, s.2);
|}.
Next Obligation. by intros s r s' [= <- <-]. Qed.
Next Obligation.
  intros q p [v c] rows [v' c']. unfold mem_execute, fst, snd.
  destruct (text_eqb q insert_position_event_sql) eqn:Ei; [|destruct (text_eqb q upsert_current_position_sql) eqn:Eu].
  - apply text_eqb_eq in Ei as ->. destruct (mem_row_of p) as [r|] eqn:Er; [|done].
    intros [= <- <- <-]. split; [done|]. intros _. by apply run_insert.
  - apply text_eqb_eq in Eu as ->. destruct (mem_row_of p) as [r|] eqn:Er; [|done].
    intros [= <- <- <-]. split; [done|]. intros _. by apply run_upsert.
  - intros [= Hq <- <-]. split; [done|]. intros _. by apply mem_query_runs.
Qed.
Next Obligation.
  intros q p s rows s' Hx Hq. change (row_of p) with (mem_row_of p).
  destruct (mem_row_of p) as [r|e] eqn:Er; [done|]. exfalso.
  unfold mem_execute in Hx. rewrite Er in Hx. destruct Hq as [->| ->].
  - by rewrite text_eqb_refl in Hx.
  - rewrite text_eqb_refl in Hx. by destruct (text_eqb _ _).
Qed.
Next Obligation.
  intros q p [v c] e [v' c']. unfold mem_execute.
  repeat case_match; naive_solver.
Qed.
Next Obligation. by intros s s' [= <-]. Qed.
Next Obligation. by intros s e s'. Qed.
Next Obligation. intros s r s' [= <- <-]. by left. Qed.
Next Obligation. done. Qed.
