(* ===== verification/HistoryFacts.v ===== *)
(** * The history queries and the SQL cache: theorems *)

From S2P Require Export MemDriver.
Import Repository.

(** ** The text and the parameters of the queries *)

Lemma history_text_ok from_ts to_ts :
  history_text (build_time_filters from_ts to_ts).1 =
  Ok (history_query (bool_decide (is_Some from_ts)) (bool_decide (is_Some to_ts))).
Proof. destruct from_ts, to_ts; vm_compute; reflexivity. Qed.

Lemma count_text_ok from_ts to_ts :
  count_text (build_time_filters from_ts to_ts).1 =
  Ok (count_query (bool_decide (is_Some from_ts)) (bool_decide (is_Some to_ts))).
Proof. destruct from_ts, to_ts; vm_compute; reflexivity. Qed.

Definition all_params (tag : text) (limit offset : Z) (from_ts to_ts : option Z) : pydict :=
  history_params tag limit offset (build_time_filters from_ts to_ts).2.

Lemma history_param_values tag limit offset from_ts to_ts :
  let p := all_params tag limit offset from_ts to_ts in
  dget "tag_id" p = Some (VStr tag) /\ int_param "limit" p = Some limit /\
  int_param "offset" p = Some offset /\
  bound_param (bool_decide (is_Some from_ts)) "from_ts" p from_ts /\
  bound_param (bool_decide (is_Some to_ts)) "to_ts" p to_ts.
Proof. destruct from_ts, to_ts; repeat split; by eexists. Qed.

Definition count_params (tag : text) (from_ts to_ts : option Z) : pydict :=
  dupdate [(txt "tag_id", VStr tag)] (build_time_filters from_ts to_ts).2.

Lemma count_param_values tag from_ts to_ts :
  let p := count_params tag from_ts to_ts in
  dget "tag_id" p = Some (VStr tag) /\
  bound_param (bool_decide (is_Some from_ts)) "from_ts" p from_ts /\
  bound_param (bool_decide (is_Some to_ts)) "to_ts" p to_ts.
Proof. destruct from_ts, to_ts; repeat split; by eexists. Qed.

Lemma bound_param_fun b k p o o' : bound_param b k p o -> bound_param b k p o' -> o = o'.
Proof. unfold bound_param. destruct b; naive_solver congruence. Qed.

Section Queries.
Context `{Driver} `{Interpreter}.

(** What the database answers to the history query. *)
Lemma history_run tag from_ts to_ts limit offset s rows s' :
  (0 <= limit)%Z -> (0 <= offset)%Z ->
  execute (history_query (bool_decide (is_Some from_ts)) (bool_decide (is_Some to_ts)))
    (all_params tag limit offset from_ts to_ts) s = (Ok rows, s') ->
  committed s' = committed s /\ visible s' = visible s /\
  exists l, l ≡ₚ history_matches tag from_ts to_ts (visible s) /\ StronglySorted ts_desc l /\
    rows = project <$> take (Z.to_nat limit) (drop (Z.to_nat offset) l).
Proof.
  intros Hl Ho Hx. destruct (execute_ok _ _ _ _ _ Hx) as [Hc Hv]. split; [done|].
  destruct (history_param_values tag limit offset from_ts to_ts) as (P1 & P2 & P3 & P4 & P5).
  destruct (runs_history _ _ _ _ _ _ (Hv ltac:(do 2 eexists; eapply run_history with
    (l := merge_sort ts_desc (history_matches tag from_ts to_ts (visible s)));
    [eassumption..|apply merge_sort_Permutation|apply (StronglySorted_merge_sort ts_desc)])))
    as (tag' & f' & t' & lim & off & l & Q1 & Q2 & Q3 & Q4 & Q5 & Hp & Hs & Hv' & Hr).
  split; [done|]. exists l.
  pose proof (bound_param_fun _ _ _ _ _ P4 Q2) as <-.
  pose proof (bound_param_fun _ _ _ _ _ P5 Q3) as <-.
  rewrite P1 in Q1. injection Q1 as <-. rewrite P2 in Q4. injection Q4 as <-.
  rewrite P3 in Q5. by injection Q5 as <-.
Qed.

(** The rows that [get_position_history] returns for a table. *)
Definition history_page (db : database) (tag : text) (from_ts to_ts : option Z)
    (limit offset : Z) (page : list row) : Prop :=
  exists l, l ≡ₚ history_matches tag from_ts to_ts db /\ StronglySorted ts_desc l /\
    page = take (Z.to_nat limit) (drop (Z.to_nat offset) l).

Lemma history_page_spec tag from_ts to_ts limit offset s rows s' :
  (0 <= limit)%Z -> (0 <= offset)%Z ->
  get_position_history tag from_ts to_ts limit offset s = (Ok rows, s') ->
  committed s' = committed s /\ visible s' = visible s /\
  exists page, history_page (visible s) tag from_ts to_ts limit offset page /\
    rows = (fun r => zip_dict HISTORY_COLUMNS (project r)) <$> page.
Proof.
  intros Hl Ho. unfold get_position_history.
  pose proof (history_text_ok from_ts to_ts) as Ht.
  destruct (build_time_filters from_ts to_ts) as [clauses params] eqn:Eb. simpl in Ht.
  rewrite Ht. intros Hrun. repeat io_step. injection E as <-.
  change params with (clauses, params).2 in E0. rewrite <-Eb in E0.
  destruct (history_run _ _ _ _ _ _ _ _ Hl Ho E0) as (Hc & Hv & l & Hp & Hs & ->).
  split; [done|]. split; [done|]. eexists. split; [by exists l|].
  by rewrite <-list_fmap_compose.
Qed.

(** The dict of a row has the row's columns. *)
Lemma zip_project r c v :
  (c, v) ∈ zip HISTORY_COLUMNS (project r) ->
  dget c (zip_dict HISTORY_COLUMNS (project r)) = Some v.
Proof.
  intros Hin. unfold project in *. simpl in Hin.
  repeat (apply elem_of_cons in Hin as [Hin|Hin]; [injection Hin as -> ->; reflexivity|]).
  by apply elem_of_nil in Hin.
Qed.

Lemma history_matches_spec tag from_ts to_ts db r :
  r ∈ history_matches tag from_ts to_ts db <->
  r ∈ position_events db /\ r_tag r = tag /\
  (forall f, from_ts = Some f -> (f <= r_ts r)%Z) /\
  (forall t, to_ts = Some t -> (r_ts r <= t)%Z).
Proof.
  unfold history_matches, in_window.
  rewrite list_elem_of_In, filter_In, <-list_elem_of_In, !andb_true_iff, text_eqb_eq.
  destruct from_ts, to_ts; rewrite ?Z.leb_le; naive_solver.
Qed.

Lemma StronglySorted_drop_take {A} (R : A -> A -> Prop) n m l :
  StronglySorted R l -> StronglySorted R (take n (drop m l)).
Proof.
  intros Hl. assert (StronglySorted R (drop m l)) as Hd.
  { revert l Hl. induction m as [|m IH]; intros [|x l] Hl; simpl; try done.
    apply IH. by inversion Hl. }
  clear Hl. revert n. induction Hd as [|x r Hr IH Hx]; intros [|n]; simpl; constructor; auto.
  by apply Forall_take.
Qed.

(** C34. [get_position_history] returns, newest first, at most [limit] of the events
    of the tag inside the inclusive time window, after skipping [offset]: as many
    as there are; each is an event of the table with its own columns: the page is
    the slice of one sorted arrangement of the matching events.  The tables are not
    changed. *)
Theorem history_correct tag from_ts to_ts limit offset s rows s' :
  (0 <= limit)%Z -> (0 <= offset)%Z ->
  get_position_history tag from_ts to_ts limit offset s = (Ok rows, s') ->
  committed s' = committed s /\
  exists page, rows = (fun r => zip_dict HISTORY_COLUMNS (project r)) <$> page /\
    history_page (visible s) tag from_ts to_ts limit offset page /\ StronglySorted ts_desc page /\
    length page = Nat.min (Z.to_nat limit)
      (length (history_matches tag from_ts to_ts (visible s)) - Z.to_nat offset) /\
    forall r, r ∈ page -> r ∈ position_events (visible s) /\ r_tag r = tag /\
      (forall f, from_ts = Some f -> (f <= r_ts r)%Z) /\
      (forall t, to_ts = Some t -> (r_ts r <= t)%Z).
Proof.
  intros Hl Ho Hx.
  destruct (history_page_spec _ _ _ _ _ _ _ _ Hl Ho Hx) as (Hc & _ & page & (l & Hp & Hs & ->) & ->).
  split; [done|]. eexists. split; [done|]. split; [by exists l|].
  split; [by apply StronglySorted_drop_take|]. split.
  - by rewrite length_take, length_drop, Hp.
  - apply Forall_forall, Forall_take, Forall_drop, Forall_forall. intros r Hr.
    rewrite Hp in Hr. by apply history_matches_spec.
Qed.

Lemma count_spec tag from_ts to_ts s v s' :
  count_position_history tag from_ts to_ts s = (Ok v, s') ->
  committed s' = committed s /\ visible s' = visible s /\
  v = VInt (Z.of_nat (length (history_matches tag from_ts to_ts (visible s)))).
Proof.
  unfold count_position_history.
  pose proof (count_text_ok from_ts to_ts) as Ht.
  pose proof (count_param_values tag from_ts to_ts) as (P1 & P2 & P3).
  unfold count_params in *.
  destruct (build_time_filters from_ts to_ts) as [clauses params] eqn:Eb. simpl in Ht, P1, P2, P3.
  rewrite Ht. intros Hrun.
  apply io_bind_Ok in Hrun as (q & s1 & Hq & Hrun). apply io_res_inv in Hq as [Hq ->].
  injection Hq as ->.
  apply io_bind_Ok in Hrun as (rows & s2 & Hx & Hrun).
  destruct (execute_ok _ _ _ _ _ Hx) as [Hc Hv].
  destruct (runs_count _ _ _ _ _ _ (Hv ltac:(do 2 eexists; eapply run_count; eassumption)))
    as (tag' & f' & t' & Q1 & Q2 & Q3 & Hv' & ->).
  pose proof (bound_param_fun _ _ _ _ _ P2 Q2) as <-.
  pose proof (bound_param_fun _ _ _ _ _ P3 Q3) as <-.
  rewrite P1 in Q1. injection Q1 as <-.
  injection Hrun as <- <-. done.
Qed.

(** [count_position_history] returns the number of the events of the tag inside
    the window: the number of rows that [get_position_history] returns for the same
    window without an offset and with a limit that does not cut. *)
Theorem count_correct tag from_ts to_ts s v s' :
  count_position_history tag from_ts to_ts s = (Ok v, s') ->
  committed s' = committed s /\
  v = VInt (Z.of_nat (length (history_matches tag from_ts to_ts (visible s)))).
Proof. intros Hx. by destruct (count_spec _ _ _ _ _ _ Hx) as (? & _ & ?). Qed.
End Queries.

(** ** The cache of [load_sql] *)

(** A cache that holds only results of the files. *)
Definition cache_ok (files : list (text * text)) (cache : gmap text text) : Prop :=
  forall name t, cache !! name = Some t -> read_sql files name = Ok t.

(** Every call of a sequence returns what reading the file returns, and leaves a
    sound cache to the next. *)
Fixpoint loads_sound (files : list (text * text)) (names : list text) (cache : gmap text text) :
    Prop :=
  match names with
  | [] => True
  | n :: r => (load_sql_cached files n cache).1 = read_sql files n /\
              cache_ok files (load_sql_cached files n cache).2 /\
              loads_sound files r (load_sql_cached files n cache).2
  end.

(** As long as the files do not change, [load_sql] with its cache returns, on
    every call of any sequence, what reading the file returns, an exception
    included. *)
Theorem load_sql_cache_sound files names cache :
  cache_ok files cache -> loads_sound files names cache.
Proof.
  revert cache. induction names as [|n names IH]; intros cache Hc; [done|].
  assert ((load_sql_cached files n cache).1 = read_sql files n /\
          cache_ok files (load_sql_cached files n cache).2) as [H1 H2].
  { unfold load_sql_cached. destruct (cache !! n) as [t|] eqn:E.
    - split; [by rewrite (Hc n t E)|done].
    - destruct (read_sql files n) as [t|e] eqn:Er; (split; [done|]); [|done].
      intros n' t'. simpl. destruct (decide (n' = n)) as [->|Hne].
      + rewrite lookup_insert_eq. by intros [= <-].
      + rewrite lookup_insert_ne by done. apply Hc. }
  split; [done|]. split; [done|]. by apply IH.
Qed.

(** ** The theorems at concrete tables *)

#[local] Existing Instance ascii_unicode.

Definition sample_payload : pydict :=
  [ (txt "tag_id", VStr "a"); (txt "ts_utc_ms", VInt 7); (txt "layer", VInt 2);
    (txt "parse_warnings", VList [VStr "w"]) ].
Definition sample_envelope : pydict :=
  [ (txt "schema_version", VStr "1.0"); (txt "event_type", VStr "position");
    (txt "origin", VStr "stream"); (txt "normalized", VBool true);
    (txt "ingested_at_ms", VInt 8); (txt "payload", VDict sample_payload) ].

Definition sample_database : database := ingest [row_a; row_b; row_c] empty_database.

Definition sample_session : session (Driver := mem_driver) := (sample_database, sample_database).

Lemma persist_atomic_witness :
  exists s', with_connection (persist_envelope sample_envelope) sample_session
    = (Ok (), s') /\ stored sample_envelope sample_database (committed s').
Proof.
  eexists. split; [vm_compute; reflexivity|].
  apply (persist_atomic sample_envelope sample_session (Ok ())).
  vm_compute. reflexivity.
Defined.

Lemma history_correct_witness :
  exists rows s', get_position_history "a" (Some 1%Z) None 10 0 sample_session
    = (Ok rows, s') /\ length rows = 2 /\ committed s' = sample_database.
Proof.
  do 2 eexists. split; [vm_compute; reflexivity|]. split; [reflexivity|].
  apply (history_correct "a" (Some 1%Z) None 10 0 sample_session
           _ sample_session ltac:(lia) ltac:(lia) ltac:(vm_compute; reflexivity)).
Defined.

Lemma count_correct_witness :
  exists v s', count_position_history "a" None (Some 6%Z) sample_session
    = (Ok v, s') /\ v = VInt 1.
Proof.
  do 2 eexists. split; [vm_compute; reflexivity|].
  apply (count_correct "a" None (Some 6%Z) sample_session
           _ sample_session ltac:(vm_compute; reflexivity)).
Defined.

Lemma load_sql_cache_sound_witness :
  loads_sound sql_files [txt "count_position_history"; txt "missing"; txt "count_position_history"] ∅.
Proof. apply load_sql_cache_sound. intros n t Hn. by rewrite lookup_empty in Hn. Defined.
