(* ===== verification/Broadcast.v ===== *)
(** * In-process broadcast: [backend/broadcast.py]

    The queues are objects of a heap, since a session keeps its queue after it is
    unsubscribed; the broadcast holds the set of the subscribed ones.  A bounded
    [asyncio.Queue] is its [maxsize] and its items. *)

From S2P Require Export Event.

Module Broadcast.

(** ** [asyncio.Queue] *)

Record queue := { q_maxsize : Z; q_items : list pydict }.

Definition full (q : queue) : bool :=
  (0 <? q_maxsize q)%Z && (q_maxsize q <=? Z.of_nat (length (q_items q)))%Z.

Definition put_nowait (q : queue) (item : pydict) : res queue :=
  if full q then raise QueueFull []
  else Ok {| q_maxsize := q_maxsize q; q_items := q_items q ++ [item] |}.

(** [queue.get()], when an item is there *)
Definition get_nowait (q : queue) : option (pydict * queue) :=
  match q_items q with
  | [] => None
  | x :: r => Some (x, {| q_maxsize := q_maxsize q; q_items := r |})
  end.

(** ** The class *)

Record state := {
  maxsize : Z;
  subscribers : gset nat;
  queues : gmap nat queue;
}.

Definition init (maxsize : Z) : state :=
  {| maxsize := maxsize; subscribers := ∅; queues := ∅ |}.
Definition default_maxsize : Z := 256.

Definition set_queue (id : nat) (q : queue) (b : state) : state :=
  {| maxsize := maxsize b; subscribers := subscribers b; queues := <[id := q]> (queues b) |}.

Definition subscribe (b : state) : nat * state :=
  let id := fresh (dom (queues b)) in
  (id, {| maxsize := maxsize b; subscribers := {[id]} ∪ subscribers b;
          queues := <[id := {| q_maxsize := maxsize b; q_items := [] |}]> (queues b) |}).

Definition unsubscribe (id : nat) (b : state) : state :=
  {| maxsize := maxsize b; subscribers := subscribers b ∖ {[id]}; queues := queues b |}.

(** One turn of the loop of [publish]: [QueueFull] drops the message. *)
Definition offer (envelope : pydict) (b : state) (id : nat) : state :=
  match queues b !! id with
  | Some q => match put_nowait q envelope with
              | Ok q' => set_queue id q' b
              | Raise _ => b
              end
  | None => b
  end.

(** The loop over the subscribers in a given order; a set has no order of its own. *)
Definition publish_in (order : list nat) (envelope : pydict) (b : state) : state :=
  foldl (offer envelope) b order.

Definition publish (envelope : pydict) (b : state) : state :=
  publish_in (elements (subscribers b)) envelope b.

Definition subscriber_count (b : state) : nat := size (subscribers b).

(** ** Operations as steps *)

Inductive op :=
  | Subscribe
  | Unsubscribe (id : nat)
  | Publish (envelope : pydict)
  | Get (id : nat).

(** The state after an operation, and the item that a [Get] returned. *)
Definition step (o : op) (b : state) : option pydict * state :=
  match o with
  | Subscribe => (None, (subscribe b).2)
  | Unsubscribe id => (None, unsubscribe id b)
  | Publish e => (None, publish e b)
  | Get id =>
      match queues b !! id with
      | Some q => match get_nowait q with
                  | Some (x, q') => (Some x, set_queue id q' b)
                  | None => (None, b)
                  end
      | None => (None, b)
      end
  end.

(** Runs the operations; the items that [Get id] returned, in order. *)
Fixpoint run (id : nat) (ops : list op) (b : state) : list pydict * state :=
  match ops with
  | [] => ([], b)
  | o :: r =>
      let '(x, b1) := step o b in
      let '(xs, b2) := run id r b1 in
      (match o, x with
       | Get i, Some x => if decide (i = id) then x :: xs else xs
       | _, _ => xs
       end, b2)
  end.

End Broadcast.
