(* ===== verification/BroadcastFacts.v ===== *)
(** * The broadcast: its theorems

    What one [publish] does to every queue, in any order of iteration; the bound of
    the queues; delivery in order without loss unless a queue is full. *)

From S2P Require Export Broadcast.
Import Broadcast.

(** Every subscriber has its queue, and a queue within its bound. *)
Definition queue_ok (q : queue) : Prop :=
  (0 < q_maxsize q -> Z.of_nat (length (q_items q)) <= q_maxsize q)%Z.

Definition wf (b : state) : Prop :=
  (forall id, id ∈ subscribers b -> is_Some (queues b !! id)) /\
  (forall id q, queues b !! id = Some q -> q_maxsize q = maxsize b /\ queue_ok q).

(** The queue after an offer. *)
Definition offered (e : pydict) (q : queue) : queue :=
  if full q then q else {| q_maxsize := q_maxsize q; q_items := q_items q ++ [e] |}.

Lemma offer_queue e b id i :
  queues (offer e b id) !! i =
  if decide (i = id) then offered e <$> queues b !! i else queues b !! i.
Proof.
  unfold offer, offered, put_nowait. case_decide as Hi.
  - subst i. destruct (queues b !! id) as [q|] eqn:E; simpl; [|by rewrite E].
    destruct (full q); simpl; [by rewrite E|]. by rewrite lookup_insert_eq.
  - destruct (queues b !! id) as [q|]; [|done]. destruct (full q); simpl; [done|].
    by rewrite lookup_insert_ne.
Qed.

Lemma offer_rest e b id :
  subscribers (offer e b id) = subscribers b /\ maxsize (offer e b id) = maxsize b.
Proof. unfold offer. repeat case_match; done. Qed.

Lemma publish_in_queue order e b i :
  NoDup order ->
  queues (publish_in order e b) !! i =
    (if decide (i ∈ order) then offered e <$> queues b !! i else queues b !! i) /\
  subscribers (publish_in order e b) = subscribers b /\
  maxsize (publish_in order e b) = maxsize b.
Proof.
  unfold publish_in. intros Hnd. revert b.
  induction Hnd as [|id order Hid Hnd IH]; intros b; cbn [foldl].
  - case_decide as Hi; [by apply elem_of_nil in Hi|done].
  - destruct (IH (offer e b id)) as (Hq & Hs & Hm).
    destruct (offer_rest e b id) as [Hs' Hm']. rewrite Hq, Hs, Hm, Hs', Hm'.
    split; [|done]. rewrite offer_queue.
    destruct (decide (i = id)) as [->|Hne].
    + rewrite decide_False by done. by rewrite decide_True by set_solver.
    + destruct (decide (i ∈ order)); [by rewrite decide_True by set_solver|].
      by rewrite decide_False by set_solver.
Qed.

Lemma publish_queue e b i :
  queues (publish e b) !! i =
    (if decide (i ∈ subscribers b) then offered e <$> queues b !! i else queues b !! i) /\
  subscribers (publish e b) = subscribers b /\ maxsize (publish e b) = maxsize b.
Proof.
  destruct (publish_in_queue (elements (subscribers b)) e b i (NoDup_elements _)) as (H1 & H2 & H3).
  split; [|done]. unfold publish. rewrite H1.
  destruct (decide (i ∈ subscribers b)); [by rewrite decide_True by set_solver|].
  by rewrite decide_False by set_solver.
Qed.

Lemma offered_ok e q : queue_ok q -> queue_ok (offered e q).
Proof.
  unfold queue_ok, offered, full. intros Hq. case_if; [done|]. simpl. rewrite length_app. simpl. lia.
Qed.

Lemma wf_step o b : wf b -> wf (step o b).2.
Proof.
  intros [Hs Hq]. destruct o as [|id|e|id]; simpl.
  - split; simpl.
    + intros id [->%elem_of_singleton|Hid]%elem_of_union; [by rewrite lookup_insert_eq|].
      rewrite lookup_insert_is_Some'. right. by apply Hs.
    + intros id q. destruct (decide (id = fresh (dom (queues b)))) as [->|Hne].
      * rewrite lookup_insert_eq. intros [= <-]. split; [done|]. unfold queue_ok. simpl. lia.
      * rewrite lookup_insert_ne by done. apply Hq.
  - split; simpl; [set_solver|done].
  - split; intros id; destruct (publish_queue e b id) as (H1 & H2 & H3).
    + rewrite H1, H2. intros Hid. rewrite decide_True by done. apply fmap_is_Some. by apply Hs.
    + intros q. rewrite H1, H3. case_decide; [|apply Hq].
      intros (q' & Hq' & ->)%fmap_Some. apply Hq in Hq' as [Hm Hok]. split; [|by apply offered_ok].
      unfold offered. by case_if.
  - destruct (queues b !! id) as [q|] eqn:E; [|done]. unfold get_nowait.
    destruct (q_items q) as [|x r] eqn:Ei; [done|]. simpl. split; simpl.
    + intros i Hi. rewrite lookup_insert_is_Some'. right. by apply Hs.
    + intros i q'. destruct (decide (i = id)) as [->|Hne]; [|rewrite lookup_insert_ne by done; apply Hq].
      rewrite lookup_insert_eq. intros [= <-]. simpl. apply Hq in E as [Hm Hok]. split; [done|].
      unfold queue_ok in *. simpl. rewrite Ei in Hok. simpl in Hok. lia.
Qed.

Lemma run_snd id o ops b : (run id (o :: ops) b).2 = (run id ops (step o b).2).2.
Proof. simpl. destruct (step o b) as [x b1]. simpl. by destruct (run id ops b1). Qed.

Lemma wf_run id ops b : wf b -> wf (run id ops b).2.
Proof.
  revert b. induction ops as [|o ops IH]; intros b Hb; [done|].
  rewrite run_snd. by apply IH, wf_step.
Qed.

Lemma wf_init n : wf (init n).
Proof. split; simpl; [set_solver|]. intros id q. by rewrite lookup_empty. Qed.

(** ** Theorems *)

(** [publish] appends the envelope to the queue of every subscriber that is not
    full, leaves every other queue and the set of subscribers as they were, and has
    this effect for every order in which the set is iterated; it never raises. *)
Theorem publish_spec order e b :
  order ≡ₚ elements (subscribers b) ->
  let b' := publish_in order e b in
  subscribers b' = subscribers b /\ maxsize b' = maxsize b /\
  forall id, queues b' !! id =
    match queues b !! id with
    | Some q =>
        Some (if bool_decide (id ∈ subscribers b) && negb (full q)
              then {| q_maxsize := q_maxsize q; q_items := q_items q ++ [e] |} else q)
    | None => None
    end.
Proof.
  intros Hp. assert (NoDup order) as Hnd by (rewrite Hp; apply NoDup_elements).
  split; [|split]; [by apply (publish_in_queue order e b 0)..|].
  intros id. destruct (publish_in_queue order e b id Hnd) as [-> _].
  assert (id ∈ order <-> id ∈ subscribers b) as Hin by (rewrite Hp; apply elem_of_elements).
  unfold offered. destruct (decide (id ∈ order)) as [Hi|Hi].
  - rewrite bool_decide_eq_true_2 by tauto. destruct (queues b !! id) as [q|]; [|done].
    simpl. by destruct (full q).
  - rewrite bool_decide_eq_false_2 by tauto. by destruct (queues b !! id).
Qed.

(** C40. In every state that a sequence of operations reaches from a new broadcast
    with a positive bound, no queue holds more items than the bound, and every
    subscriber has a queue. *)
Theorem queues_bounded n id ops :
  (0 < n)%Z ->
  let b := (run id ops (init n)).2 in
  (forall i q, queues b !! i = Some q -> Z.of_nat (length (q_items q)) <= n)%Z /\
  (forall i, i ∈ subscribers b -> is_Some (queues b !! i)).
Proof.
  intros Hn b. pose proof (wf_run id ops (init n) (wf_init n)) as [Hs Hq]. fold b in Hs, Hq.
  assert (maxsize b = n) as Hm.
  { subst b. clear. assert (forall st, maxsize (run id ops st).2 = maxsize st) as H; [|by rewrite H].
    induction ops as [|o ops IH]; intros st; [done|]. rewrite run_snd, IH.
    destruct o as [|i|e|i]; simpl; try done; [apply (publish_queue e st 0)|].
    destruct (queues st !! i) as [q|]; [|done]. unfold get_nowait. by destruct (q_items q). }
  split; [|done]. intros i q Hi. apply Hq in Hi as [Hmi Hok]. unfold queue_ok in Hok. lia.
Qed.

(** The items of a queue that may not exist. *)
Definition items (id : nat) (b : state) : list pydict :=
  match queues b !! id with Some q => q_items q | None => [] end.

(** The envelopes published while the subscriber is subscribed, and those of them
    its queue had room for. *)
Fixpoint published (id : nat) (ops : list op) (b : state) : list pydict :=
  match ops with
  | [] => []
  | o :: r =>
      match o with
      | Publish e => if decide (id ∈ subscribers b) then [e] else []
      | _ => []
      end ++ published id r (step o b).2
  end.

Fixpoint accepted (id : nat) (ops : list op) (b : state) : list pydict :=
  match ops with
  | [] => []
  | o :: r =>
      match o, queues b !! id with
      | Publish e, Some q => if decide (id ∈ subscribers b) then (if full q then [] else [e]) else []
      | _, _ => []
      end ++ accepted id r (step o b).2
  end.

Lemma accepted_sublist id ops b : accepted id ops b `sublist_of` published id ops b.
Proof.
  revert b. induction ops as [|o ops IH]; intros b; simpl; [done|].
  apply sublist_app; [|apply IH]. destruct o; try done.
  repeat case_match; try done; try apply sublist_nil_l; by apply sublist_nil_l.
Qed.

(** The queue of [id] is not created by the operations. *)
Lemma step_items id o b x b' :
  is_Some (queues b !! id) -> step o b = (x, b') ->
  is_Some (queues b' !! id) /\
  match o, x with Get i, Some x => if decide (i = id) then [x] else [] | _, _ => [] end ++ items id b'
  = items id b ++
    match o, queues b !! id with
    | Publish e, Some q => if decide (id ∈ subscribers b) then (if full q then [] else [e]) else []
    | _, _ => []
    end.
Proof.
  intros [q Hq] Hstep. unfold items. rewrite Hq. destruct o as [|i|e|i]; simpl in Hstep.
  - injection Hstep as <- <-. simpl. rewrite lookup_insert_ne, Hq, app_nil_r; [done|].
    intros Hf. apply (is_fresh (dom (queues b))). rewrite Hf. by apply elem_of_dom.
  - injection Hstep as <- <-. simpl. by rewrite Hq, app_nil_r.
  - injection Hstep as <- <-. destruct (publish_queue e b id) as [-> _]. rewrite Hq.
    case_decide; simpl; [|by rewrite app_nil_r]. unfold offered. destruct (full q); simpl;
      by rewrite ?app_nil_r.
  - rewrite app_nil_r. destruct (queues b !! i) as [qi|] eqn:Ei; [|injection Hstep as <- <-; by rewrite Hq].
    unfold get_nowait in Hstep. destruct (q_items qi) as [|y r] eqn:Eq; injection Hstep as <- <-.
    { by rewrite Hq. }
    simpl. destruct (decide (i = id)) as [->|Hne].
    + rewrite lookup_insert_eq. rewrite Ei in Hq. injection Hq as ->. by rewrite Eq.
    + by rewrite lookup_insert_ne, Hq by done.
Qed.

(** C39. What a subscriber takes from its queue followed by what is left in it is what
    was in it before followed by the envelopes it had room for: they come in the
    order of publication, without duplicates or reordering, and form a
    subsequence of what was published while it was subscribed. *)
Theorem delivery_in_order id ops b :
  is_Some (queues b !! id) ->
  (run id ops b).1 ++ items id (run id ops b).2 = items id b ++ accepted id ops b /\
  accepted id ops b `sublist_of` published id ops b.
Proof.
  intros Hid. split; [|apply accepted_sublist]. revert b Hid.
  induction ops as [|o ops IH]; intros b Hid; simpl; [by rewrite app_nil_r|].
  destruct (step o b) as [x b1] eqn:Es. destruct (step_items id o b x b1 Hid Es) as [Hid1 Hi].
  specialize (IH b1 Hid1). simpl. destruct (run id ops b1) as [xs b2]. simpl in *.
  rewrite app_assoc, <-Hi, <-app_assoc, <-IH.
  destruct o as [|i|e|i], x as [x|]; simpl; try done. by case_decide.
Qed.

Definition env_1 : pydict := [(txt "n", VInt 1)].
Definition env_2 : pydict := [(txt "n", VInt 2)].
Definition env_3 : pydict := [(txt "n", VInt 3)].
Definition one_subscriber : state := (subscribe (init 2)).2.
Definition its_id : nat := (subscribe (init 2)).1.

Lemma publish_spec_witness :
  subscribers (publish_in [its_id] env_1 one_subscriber) = subscribers one_subscriber /\
  queues (publish_in [its_id] env_1 one_subscriber) !! its_id =
    Some {| q_maxsize := 2; q_items := [env_1] |}.
Proof.
  destruct (publish_spec [its_id] env_1 one_subscriber) as (Hs & _ & Hq).
  - vm_compute. constructor. constructor.
  - split; [exact Hs|]. rewrite Hq. vm_compute. reflexivity.
Defined.

Lemma queues_bounded_witness :
  (0 < 2)%Z /\
  (length (items 0 (run 0 [Subscribe; Publish env_1; Publish env_2; Publish env_3] (init 2)).2) = 2) /\
  (forall i q, queues (run 0 [Subscribe; Publish env_1; Publish env_2; Publish env_3] (init 2)).2 !! i
               = Some q -> (Z.of_nat (length (q_items q)) <= 2)%Z).
Proof.
  split; [lia|]. split; [vm_compute; reflexivity|]. apply (queues_bounded 2 0); lia.
Defined.

Lemma delivery_in_order_witness :
  (run its_id [Publish env_1; Publish env_2; Publish env_3; Get its_id; Publish env_3] one_subscriber).1
    = [env_1] /\
  [env_1] ++ items its_id (run its_id [Publish env_1; Publish env_2; Publish env_3; Get its_id;
                                       Publish env_3] one_subscriber).2 = [env_1; env_2; env_3].
Proof.
  split; [vm_compute; reflexivity|].
  destruct (delivery_in_order its_id
    [Publish env_1; Publish env_2; Publish env_3; Get its_id; Publish env_3] one_subscriber) as [Hd _].
  - vm_compute. by eexists.
  - etransitivity; [etransitivity; [|exact Hd]|]; vm_compute; reflexivity.
Defined.
