(* ===== verification/Consumer.v ===== *)
(** * The message consumers: [backend/app.py] ([_on_message]) and [backend/consumer.py]

    A handler runs inside [message.process(requeue=True)], which settles the
    message when its block ends; [Process] is that interface of aio-pika.  The
    state of a handler is the database session, the broadcast and the Prometheus
    counters. *)

From S2P Require Export Repository Broadcast Tracing.
Import Repository Tracing.

Module Consumer.

Record message := { msg_body : bytes; msg_headers : option pydict }.

Inductive disposition := Acked | Requeued.

(** [message.process(requeue)]: how the end of the block settles the message. *)
Class Process := {
  settle : bool -> option exn -> disposition;
  settle_ok requeue : settle requeue None = Acked;
  settle_raise e : settle true (Some e) = Requeued;
}.

(** The counters of [backend/metrics.py] that the consumer moves. *)
Record metrics := {
  messages_processed : nat;
  messages_failed : gmap text nat;   (* by the label [reason] *)
  write_latencies : nat;             (* number of observations *)
}.

Definition no_metrics : metrics :=
  {| messages_processed := 0; messages_failed := ∅; write_latencies := 0 |}.

Definition inc_processed (m : metrics) : metrics :=
  {| messages_processed := S (messages_processed m); messages_failed := messages_failed m;
     write_latencies := write_latencies m |}.
Definition inc_failed (reason : text) (m : metrics) : metrics :=
  {| messages_processed := messages_processed m;
     messages_failed := <[reason := S (default 0 (messages_failed m !! reason))]> (messages_failed m);
     write_latencies := write_latencies m |}.
Definition observe_latency (m : metrics) : metrics :=
  {| messages_processed := messages_processed m; messages_failed := messages_failed m;
     write_latencies := S (write_latencies m) |}.

Section Handlers.
Context `{Interpreter} `{Propagator} `{Driver} `{Process}.

Record state := {
  st_session : session;
  st_broadcast : Broadcast.state;
  st_metrics : metrics;
}.

Definition with_metrics (f : metrics -> metrics) : io state () := fun s =>
  (Ok (), {| st_session := st_session s; st_broadcast := st_broadcast s;
             st_metrics := f (st_metrics s) |}).

Definition with_broadcast (f : Broadcast.state -> Broadcast.state) : io state () := fun s =>
  (Ok (), {| st_session := st_session s; st_broadcast := f (st_broadcast s);
             st_metrics := st_metrics s |}).

(** A computation on the session, as one on the whole state. *)
Definition on_session {A} (m : io session A) : io state A := fun s =>
  let '(r, s') := m (st_session s) in
  (r, {| st_session := s'; st_broadcast := st_broadcast s; st_metrics := st_metrics s |}).

(** [try: m except Exception: h; raise] *)
Definition on_exception {A} (m : io state A) (h : io state ()) : io state A := fun s =>
  match m s with
  | (Ok a, s') => (Ok a, s')
  | (Raise e, s') => match h s' with
                     | (Ok _, s'') => (Raise e, s'')
                     | (Raise e', s'') => (Raise e', s'')
                     end
  end.

(** [_write_to_db], in both files *)
Definition write_to_db (envelope : pydict) : io session () :=
  with_connection (persist_envelope envelope).

(** What the body decodes to: the caught errors, the payload test, the rest. *)
Inductive decoded :=
  | Malformed
  | MissingTag
  | Usable (envelope payload : pydict).

Definition decode (body : bytes) : res decoded :=
  match json_loads_bytes body with
  | Raise e =>
      if existsb (exn_isinstance (exn_cls e)) [JSONDecodeError; UnicodeDecodeError]
      then Ok Malformed else Raise e
  | Ok (VDict envelope) =>
      match dget_none "payload" envelope with
      | VDict payload =>
          if dhas "tag_id" payload then Ok (Usable envelope payload) else Ok MissingTag
      | _ => Ok MissingTag
      end
  | Ok _ => raise AttributeError "get"
  end.

(** The block of [backend/app.py]'s [_on_message]. *)
Definition app_body (m : message) : io state () :=
  d ← io_res (decode (msg_body m));
  match d with
  | Malformed => with_metrics (inc_failed "malformed_json")
  | MissingTag => with_metrics (inc_failed "missing_tag_id")
  | Usable envelope payload =>
      _ ← io_res (extract_from_headers (msg_headers m));
      _ ← on_exception
            (_ ← on_session (write_to_db envelope); with_metrics observe_latency)
            (with_metrics (inc_failed "db_error"));
      _ ← with_broadcast (Broadcast.publish envelope);
      with_metrics inc_processed
  end.

(** The block of [backend/consumer.py]'s [on_message]. *)
Definition standalone_body (m : message) : io state () :=
  d ← io_res (decode (msg_body m));
  match d with
  | Malformed | MissingTag => mret ()
  | Usable envelope payload => on_session (write_to_db envelope)
  end.

(** [async with message.process(requeue=True)] around a block *)
Definition process (block : io state ()) (s : state) : disposition * state :=
  match block s with
  | (Ok _, s') => (settle true None, s')
  | (Raise e, s') => (settle true (Some e), s')
  end.

Definition app_on_message (m : message) (s : state) : disposition * state :=
  process (app_body m) s.

Definition on_message (m : message) (s : state) : disposition * state :=
  process (standalone_body m) s.

(** A message that is requeued is delivered again; its state after [n] deliveries,
    if it is requeued every time. *)
Fixpoint redeliver (handler : message -> state -> disposition * state) (n : nat) (m : message)
    (s : state) : disposition * state :=
  match n with
  | O => (Requeued, s)
  | S k => match handler m s with
           | (Requeued, s') => redeliver handler k m s'
           | (Acked, s') => (Acked, s')
           end
  end.
End Handlers.

#[export, program] Instance aio_pika_process : Process := {|
  settle := fun requeue e => match e with
                             | None => Acked
                             | Some _ => if requeue then Requeued else Acked
                             end;
|}.
Next Obligation. done. Qed.
Next Obligation. done. Qed.

End Consumer.
