(* ===== verification/ConsumerFacts.v ===== *)
(** * The consumers: their theorems

    What each message does to the tables, the broadcast, the counters and its own
    settlement; the two handlers agree on the tables and the settlement. *)

From S2P Require Export Consumer BroadcastFacts HistoryFacts.
Import Repository Tracing Consumer.

Section Facts.
Context `{Interpreter} `{Propagator} `{Driver} `{Process}.

(** The durable tables of a handler's state. *)
Definition tables (s : state) : database := committed (st_session s).

Lemma write_to_db_spec envelope s r s' :
  write_to_db envelope s = (r, s') ->
  match r with
  | Ok _ => stored envelope (committed s) (committed s')
  | Raise _ => committed s' = committed s \/ stored envelope (committed s) (committed s')
  end.
Proof.
  unfold write_to_db, with_connection. destruct (acquire s) as [[[]|e] s1] eqn:Ea;
    destruct (acquire_idle _ _ _ Ea) as [Hc Hi].
  2: { intros [= <- <-]. by left. }
  specialize (Hi eq_refl). rewrite <-Hc.
  destruct (persist_envelope envelope s1) as [[[]|e] s2] eqn:Ep;
    pose proof (persist_body _ _ _ _ Hi Ep) as Hb; simpl in Hb.
  - destruct Hb as [Hst Hv]. destruct (exit_ok s2) as [[[]|e] s3] eqn:Ex; intros [= <- <-];
      destruct (exit_ok_commits _ _ _ Ex) as [->|[-> Ho]]; rewrite ?Hv; try done; by right.
  - intros [= <- <-]. by rewrite exit_raise_rolls_back.
Qed.

(** The parts of a state. *)
Definition parts (s : state) : database * Broadcast.state * metrics :=
  (tables s, st_broadcast s, st_metrics s).

(** What the app's handler does with a usable envelope. *)
Inductive usable_outcome (envelope : pydict) (s : state) : disposition -> state -> Prop :=
  | outcome_done s' :
      stored envelope (tables s) (tables s') ->
      st_broadcast s' = Broadcast.publish envelope (st_broadcast s) ->
      st_metrics s' = inc_processed (observe_latency (st_metrics s)) ->
      usable_outcome envelope s Acked s'
  | outcome_db_error s' :
      tables s' = tables s \/ stored envelope (tables s) (tables s') ->
      st_broadcast s' = st_broadcast s ->
      st_metrics s' = inc_failed "db_error" (st_metrics s) ->
      usable_outcome envelope s Requeued s'
  | outcome_bad_headers :
      usable_outcome envelope s Requeued s.

Lemma app_usable envelope payload m s :
  decode (msg_body m) = Ok (Usable envelope payload) ->
  usable_outcome envelope s (app_on_message m s).1 (app_on_message m s).2.
Proof.
  intros Hd. unfold app_on_message, process, app_body.
  rewrite Hd. unfold mbind, io_bind, io_res.
  destruct (extract_from_headers (msg_headers m)) as [c|e].
  2: { rewrite settle_raise. apply outcome_bad_headers. }
  unfold on_exception, on_session, with_metrics, with_broadcast.
  destruct (write_to_db envelope (st_session s)) as [[[]|e] s1] eqn:E;
    pose proof (write_to_db_spec _ _ _ _ E) as Hw.
  - rewrite settle_ok. by apply outcome_done.
  - rewrite settle_raise. by apply outcome_db_error.
Qed.

(** C33. The consumer of the backend, on any message: a body that is no JSON, or an
    object without [payload.tag_id], is acknowledged and counted under its reason
    with nothing written; a usable envelope is acknowledged exactly when it is
    stored, broadcast once after the commit and counted, and is requeued without
    a broadcast otherwise; any other body is requeued with nothing changed. *)
Theorem app_message_outcome m s :
  let '(d, s') := app_on_message m s in
  match decode (msg_body m) with
  | Ok Malformed => d = Acked /\ parts s' = (tables s, st_broadcast s,
                                             inc_failed "malformed_json" (st_metrics s))
  | Ok MissingTag => d = Acked /\ parts s' = (tables s, st_broadcast s,
                                              inc_failed "missing_tag_id" (st_metrics s))
  | Ok (Usable envelope _) => usable_outcome envelope s d s'
  | Raise _ => d = Requeued /\ s' = s
  end.
Proof.
  pose proof (fun envelope payload => app_usable envelope payload m s) as Hu.
  destruct (app_on_message m s) as [d s'] eqn:E.
  destruct (decode (msg_body m)) as [[| |envelope payload]|e] eqn:Ed;
    [| |by apply (Hu envelope payload)|];
    unfold app_on_message, process, app_body in E; rewrite Ed in E;
    unfold mbind, io_bind, io_res in E; rewrite ?settle_ok, ?settle_raise in E;
    injection E as <- <-; done.
Qed.

(** C14. No message is lost: a message that either handler acknowledges was stored
    in the tables, unless its body is no JSON or an object without
    [payload.tag_id]. *)
Theorem acked_is_stored m s s' :
  app_on_message m s = (Acked, s') \/ on_message m s = (Acked, s') ->
  decode (msg_body m) = Ok Malformed \/ decode (msg_body m) = Ok MissingTag \/
  exists envelope payload, decode (msg_body m) = Ok (Usable envelope payload) /\
    stored envelope (tables s) (tables s').
Proof.
  destruct (decode (msg_body m)) as [[| |envelope payload]|e] eqn:Ed; [by left|by right; left|..].
  - intros Ha. right; right. exists envelope, payload. split; [done|]. destruct Ha as [Ha|Ha].
    + pose proof (app_usable envelope payload m s Ed) as Hu. rewrite Ha in Hu.
      simpl in Hu. inversion Hu; subst; done.
    + unfold on_message, process, standalone_body in Ha. rewrite Ed in Ha.
      unfold mbind, io_bind, io_res, on_session in Ha.
      destruct (write_to_db envelope (st_session s)) as [[[]|e] s1] eqn:E;
        pose proof (write_to_db_spec _ _ _ _ E) as Hw.
      * by injection Ha as _ <-.
      * by rewrite settle_raise in Ha.
  - intros [Ha|Ha]; unfold app_on_message, on_message, process, app_body, standalone_body in Ha;
      rewrite Ed in Ha; unfold mbind, io_bind, io_res in Ha; by rewrite settle_raise in Ha.
Qed.

(** The two consumers agree: from the same session, and when the trace headers
    can be read, they settle a message in the same way and leave the same session
    behind. *)
Theorem consumers_agree m s c :
  extract_from_headers (msg_headers m) = Ok c ->
  (app_on_message m s).1 = (on_message m s).1 /\
  st_session (app_on_message m s).2 = st_session (on_message m s).2.
Proof.
  intros Hc. unfold app_on_message, on_message, process, app_body, standalone_body.
  destruct (decode (msg_body m)) as [[| |envelope payload]|e]; try done.
  unfold mbind, io_bind, io_res. rewrite Hc.
  unfold on_exception, on_session, with_metrics, with_broadcast.
  by destruct (write_to_db envelope (st_session s)) as [[[]|e] s1].
Qed.

Lemma requeued_decode m s e :
  decode (msg_body m) = Raise e -> app_on_message m s = (Requeued, s).
Proof.
  intros Hd. unfold app_on_message, process, app_body. rewrite Hd.
  unfold mbind, io_bind, io_res. by rewrite settle_raise.
Qed.

(** A JSON body that is not an object (a list, a number, a text) is requeued on
    every delivery, with nothing changed: it is never settled. *)
Theorem poison_message_never_settles m v s n :
  json_loads_bytes (msg_body m) = Ok v -> (forall d, v ≠ VDict d) ->
  redeliver app_on_message n m s = (Requeued, s).
Proof.
  intros Hv Hd. assert (exists e, decode (msg_body m) = Raise e) as [e He].
  { unfold decode. rewrite Hv. destruct v; try by eexists. by destruct (Hd d). }
  induction n as [|n IH]; [done|]. simpl. by rewrite (requeued_decode m s e He).
Qed.
End Facts.

(** ** The theorems at concrete messages *)

#[local] Existing Instance ascii_unicode.

Definition body_of (v : pyval) : bytes :=
  match (s ← json_dumps compact_style v; utf8_encode s) with Ok b => b | Raise _ => [] end.

Definition sample_message : message :=
  {| msg_body := body_of (VDict sample_envelope); msg_headers := None |}.
Definition poison_message : message := {| msg_body := body_of (VList []); msg_headers := None |}.

Definition sample_state : state (H1 := mem_columns) (H2 := mem_driver) :=
  {| st_session := sample_session; st_broadcast := one_subscriber; st_metrics := no_metrics |}.

Lemma acked_is_stored_witness :
  exists s', app_on_message (H := ascii_unicode) (H0 := plain_propagator) (H3 := aio_pika_process)
               sample_message sample_state = (Acked, s') /\
    (decode (msg_body sample_message) = Ok Malformed \/ decode (msg_body sample_message) = Ok MissingTag \/
     exists envelope payload, decode (msg_body sample_message) = Ok (Usable envelope payload) /\
       stored envelope (tables sample_state) (tables s')).
Proof.
  destruct (app_on_message (H := ascii_unicode) (H0 := plain_propagator) (H3 := aio_pika_process)
              sample_message sample_state) as [d s'] eqn:E.
  assert (d = Acked) as ->.
  { change d with (d, s').1. rewrite <-E. vm_compute. reflexivity. }
  exists s'. split; [reflexivity|].
  apply (acked_is_stored (H := ascii_unicode) (H0 := plain_propagator) (H3 := aio_pika_process)
           sample_message sample_state).
  left. exact E.
Defined.

Lemma consumers_agree_witness :
  (app_on_message (H := ascii_unicode) (H0 := plain_propagator) (H3 := aio_pika_process)
     sample_message sample_state).1 =
  (on_message (H3 := aio_pika_process) sample_message sample_state).1.
Proof.
  destruct (consumers_agree (H := ascii_unicode) (H0 := plain_propagator) (H3 := aio_pika_process)
              sample_message sample_state () eq_refl) as [Ha _].
  exact Ha.
Defined.

Lemma poison_message_witness :
  redeliver (app_on_message (H := ascii_unicode) (H0 := plain_propagator) (H3 := aio_pika_process))
    5 poison_message sample_state = (Requeued, sample_state).
Proof.
  apply (poison_message_never_settles _ (VList [])); [vm_compute; reflexivity|discriminate].
Defined.
