(* ===== verification/Ws.v ===== *)
(** * The WebSocket session: [backend/api/ws.py]

    The coroutine [positions_ws] between its suspension points: the snapshot that
    the executor returns, the outcome of each [send_json], each envelope that the
    queue delivers. *)

From S2P Require Export Repository Broadcast.
Import Repository.

Module Ws.

(** ** Helpers *)

(** [_snapshot_timestamps]: the column [tag_id] is a text. *)
Fixpoint timestamps_from (snapshot : list pydict) (m : gmap text pyval) : res (gmap text pyval) :=
  match snapshot with
  | [] => Ok m
  | row :: rest =>
      match dget "tag_id" row with
      | None => timestamps_from rest m
      | Some (VStr tag) => ts ← dindex "ts_utc_ms" row; timestamps_from rest (<[tag := ts]> m)
      | Some _ => raise TypeError "tag_id"
      end
  end.

Definition snapshot_timestamps (snapshot : list pydict) : res (gmap text pyval) :=
  timestamps_from snapshot ∅.

(** [f < z], exact *)
Definition float_lt_int (f : pyfloat) (z : Z) : bool :=
  match f with
  | S754_nan => false
  | S754_infinity s => s
  | S754_zero _ => (0 <? z)%Z
  | S754_finite s m e =>
      let v := if s then Z.neg m else Z.pos m in
      match e with
      | Z.neg k => (v <? z * 2 ^ Z.pos k)%Z
      | _ => (v * 2 ^ e <? z)%Z
      end
  end.

Definition bool_Z (b : bool) : Z := if b then 1%Z else 0%Z.

(** [v < z] against an integer *)
Definition lt_int (v : pyval) (z : Z) : res bool :=
  match v with
  | VInt a => Ok (a <? z)%Z
  | VBool b => Ok (bool_Z b <? z)%Z
  | VFloat f => Ok (float_lt_int f z)
  | _ => raise TypeError "'<' not supported"
  end.

(** [snapshot_ts.get(tag_id, 0)]: the keys are texts, so no other hashable value
    is found. *)
Definition snapshot_get (m : gmap text pyval) (tag : pyval) : res pyval :=
  match tag with
  | VStr t => Ok (default (VInt 0) (m !! t))
  | VList _ | VDict _ => raise TypeError "unhashable type"
  | _ => Ok (VInt 0)
  end.

(** [_is_stale]; the timestamps of the map come from an integer column. *)
Definition is_stale (envelope : pydict) (snapshot_ts : gmap text pyval) : res bool :=
  let payload := dget_or "payload" (VDict []) envelope in
  tag_id ← get_or payload "tag_id" VNone;
  ts ← get_or payload "ts_utc_ms" VNone;
  match tag_id, ts with
  | VNone, _ | _, VNone => Ok false
  | _, _ =>
      bound ← snapshot_get snapshot_ts tag_id;
      match bound with
      | VInt z => lt_int ts z
      | _ => raise TypeError "'<' not supported"
      end
  end.

(** [_snapshot] *)
Definition snapshot `{Driver} : io session (list pydict) := with_connection get_all_current_positions.

(** ** The session *)

Inductive frame :=
  | SnapshotFrame (rows : list pydict)
  | UpdateFrame (envelope : pydict).

Inductive phase :=
  | Subscribed                               (* waiting for the snapshot *)
  | Streaming (ts_map : gmap text pyval)     (* in the loop *)
  | Finished (r : res ()).

Record client := { c_queue : nat; c_phase : phase; c_sent : list frame }.

(** What the sessions of the application share. *)
Record server := { sv_broadcast : Broadcast.state; sv_active : Z }.

(** [accept], the gauge, [subscribe] *)
Definition open (sv : server) : client * server :=
  let '(id, b) := Broadcast.subscribe (sv_broadcast sv) in
  ({| c_queue := id; c_phase := Subscribed; c_sent := [] |},
   {| sv_broadcast := b; sv_active := (sv_active sv + 1)%Z |}).

(** The [except] and [finally] clauses. *)
Definition finish (e : exn) (c : client) (sv : server) : client * server :=
  ({| c_queue := c_queue c;
      c_phase := Finished (if exn_isinstance (exn_cls e) WebSocketDisconnect then Ok () else Raise e);
      c_sent := c_sent c |},
   {| sv_broadcast := Broadcast.unsubscribe (c_queue c) (sv_broadcast sv);
      sv_active := (sv_active sv - 1)%Z |}).

Definition sent (f : frame) (ph : phase) (c : client) : client :=
  {| c_queue := c_queue c; c_phase := ph; c_sent := c_sent c ++ [f] |}.

(** The snapshot arrives, or the executor raises; [send] is the outcome of
    [send_json]. *)
Definition on_snapshot (snap : res (list pydict)) (send : res ()) (c : client) (sv : server) :
    client * server :=
  match snap with
  | Raise e => finish e c sv
  | Ok rows =>
      match send with
      | Raise e => finish e c sv
      | Ok _ => match snapshot_timestamps rows with
                | Raise e => finish e (sent (SnapshotFrame rows) Subscribed c) sv
                | Ok m => (sent (SnapshotFrame rows) (Streaming m) c, sv)
                end
      end
  end.

(** One turn of the loop, on the envelope that [queue.get()] returned. *)
Definition on_envelope (envelope : pydict) (ts_map : gmap text pyval) (send : res ())
    (c : client) (sv : server) : client * server :=
  match is_stale envelope ts_map with
  | Raise e => finish e c sv
  | Ok true => (c, sv)
  | Ok false => match send with
                | Raise e => finish e c sv
                | Ok _ => (sent (UpdateFrame envelope) (Streaming ts_map) c, sv)
                end
  end.

(** The events that resume a session, and cancellation at a suspension point. *)
Inductive event :=
  | SnapshotReady (snap : res (list pydict)) (send : res ())
  | QueueReady (send : res ())
  | Cancelled (e : exn).

Definition resume (ev : event) (c : client) (sv : server) : client * server :=
  match c_phase c, ev with
  | Finished _, _ => (c, sv)
  | Subscribed, SnapshotReady snap send => on_snapshot snap send c sv
  | Streaming m, QueueReady send =>
      match Broadcast.queues (sv_broadcast sv) !! c_queue c with
      | Some q =>
          match Broadcast.get_nowait q with
          | Some (envelope, q') =>
              on_envelope envelope m send c
                {| sv_broadcast := Broadcast.set_queue (c_queue c) q' (sv_broadcast sv);
                   sv_active := sv_active sv |}
          | None => (c, sv)
          end
      | None => (c, sv)
      end
  | _, Cancelled e => finish e c sv
  | _, _ => (c, sv)
  end.

Fixpoint resume_all (evs : list event) (c : client) (sv : server) : client * server :=
  match evs with
  | [] => (c, sv)
  | ev :: r => let '(c', sv') := resume ev c sv in resume_all r c' sv'
  end.

End Ws.
