(* ===== verification/WsFacts.v ===== *)
(** * The WebSocket session: its theorems

    The session's resources (its subscription and the gauge) over every run; the
    order of its frames; the filter of stale updates. *)

From S2P Require Export Ws BroadcastFacts.
Import Ws.

(** ** Resources *)

Definition finished (c : client) : bool :=
  match c_phase c with Finished _ => true | _ => false end.

(** The session holds its subscription and its share of the gauge until it
    finishes; the other subscribers [others] and the rest [active] of the gauge are
    not its own. *)
Definition holds (others : gset nat) (active : Z) (c : client) (sv : server) : Prop :=
  c_queue c ∉ others /\
  Broadcast.subscribers (sv_broadcast sv) =
    (if finished c then others else {[c_queue c]} ∪ others) /\
  sv_active sv = (if finished c then active else active + 1)%Z.

Lemma finish_holds others active e c sv :
  finished c = false -> holds others active c sv ->
  holds others active (finish e c sv).1 (finish e c sv).2.
Proof.
  intros Hf (Hq & Hs & Ha). rewrite Hf in Hs, Ha. split; [done|]. simpl. split; [|lia].
  rewrite Hs. set_solver.
Qed.

Lemma sent_holds others active f ph c sv :
  finished c = false -> finished (sent f ph c) = false -> holds others active c sv ->
  holds others active (sent f ph c) sv.
Proof. unfold holds. intros -> ->. done. Qed.

Lemma resume_holds others active ev c sv :
  holds others active c sv -> holds others active (resume ev c sv).1 (resume ev c sv).2.
Proof.
  intros Hh. unfold resume. destruct (c_phase c) as [|m|r] eqn:Ep; [| |done].
  - assert (finished c = false) as Hf by (unfold finished; by rewrite Ep).
    destruct ev as [snap send|send|e]; [|done|by apply finish_holds].
    unfold on_snapshot. destruct snap as [rows|e]; [|by apply finish_holds].
    destruct send as [[]|e]; [|by apply finish_holds].
    destruct (snapshot_timestamps rows); [by apply sent_holds|].
    apply finish_holds; [done|by apply sent_holds].
  - assert (finished c = false) as Hf by (unfold finished; by rewrite Ep).
    destruct ev as [snap send|send|e]; [done| |by apply finish_holds].
    destruct (Broadcast.queues _ !! c_queue c) as [q|]; [|done].
    destruct (Broadcast.get_nowait q) as [[envelope q']|]; [|done].
    set (sv' := {| sv_broadcast := _; sv_active := _ |}).
    assert (holds others active c sv') as Hh' by done.
    unfold on_envelope. destruct (is_stale envelope m) as [[]|e]; [done| |by apply finish_holds].
    destruct send as [[]|e]; [by apply sent_holds|by apply finish_holds].
Qed.

Lemma open_holds sv :
  wf (sv_broadcast sv) ->
  holds (Broadcast.subscribers (sv_broadcast sv)) (sv_active sv) (open sv).1 (open sv).2.
Proof.
  intros [Hs _]. unfold open, Broadcast.subscribe. split; [|done]. simpl. intros Hin.
  apply Hs, elem_of_dom in Hin. by apply is_fresh in Hin.
Qed.

Lemma resume_all_holds others active evs c sv :
  holds others active c sv ->
  holds others active (resume_all evs c sv).1 (resume_all evs c sv).2.
Proof.
  revert c sv. induction evs as [|ev evs IH]; intros c sv Hh; [done|]. simpl.
  pose proof (resume_holds others active ev c sv Hh) as Hr.
  destruct (resume ev c sv) as [c' sv']. by apply IH.
Qed.

(** C25. Whatever happens in a session (the snapshot query failing, the client
    disconnecting during any send, a malformed envelope, cancellation), once it has
    finished its queue is no longer subscribed, the gauge has its old value and the
    other subscribers are as they were; until then both count it exactly once. *)
Theorem session_releases sv evs :
  wf (sv_broadcast sv) ->
  let '(c, sv') := resume_all evs (open sv).1 (open sv).2 in
  c_queue c ∉ Broadcast.subscribers (sv_broadcast sv) /\
  (if finished c
   then Broadcast.subscribers (sv_broadcast sv') = Broadcast.subscribers (sv_broadcast sv) /\
        sv_active sv' = sv_active sv
   else Broadcast.subscribers (sv_broadcast sv') =
          {[c_queue c]} ∪ Broadcast.subscribers (sv_broadcast sv) /\
        sv_active sv' = sv_active sv + 1)%Z.
Proof.
  intros Hwf. pose proof (resume_all_holds _ _ evs _ _ (open_holds sv Hwf)) as Hh.
  destruct (resume_all evs _ _) as [c sv']. destruct Hh as (Hq & Hs & Ha). split; [done|].
  simpl in Hs, Ha. by destruct (finished c).
Qed.

(** ** Frames *)

Definition update_fresh (m : gmap text pyval) (f : frame) : Prop :=
  match f with UpdateFrame e => is_stale e m = Ok false | SnapshotFrame _ => False end.

(** Nothing, or a snapshot and then updates that are not stale against it. *)
Definition frames_ok (fs : list frame) : Prop :=
  fs = [] \/
  exists rows, match fs with
    | SnapshotFrame rows' :: ups =>
        rows' = rows /\
        (ups = [] \/ exists m, snapshot_timestamps rows = Ok m /\ Forall (update_fresh m) ups)
    | _ => False
    end.

Definition session_ok (c : client) : Prop :=
  match c_phase c with
  | Subscribed => c_sent c = []
  | Streaming m => exists rows ups, c_sent c = SnapshotFrame rows :: ups /\
                     snapshot_timestamps rows = Ok m /\ Forall (update_fresh m) ups
  | Finished _ => frames_ok (c_sent c)
  end.

Lemma session_ok_frames c : session_ok c -> frames_ok (c_sent c).
Proof.
  unfold session_ok, frames_ok. destruct (c_phase c) as [|m|r]; [by left| |done].
  intros (rows & ups & -> & Hm & Hu). right. exists rows. split; [done|]. right. eauto.
Qed.

Lemma resume_session_ok ev c sv : session_ok c -> session_ok (resume ev c sv).1.
Proof.
  intros Hc. pose proof (session_ok_frames c Hc) as Hf. unfold resume.
  destruct (c_phase c) as [|m|r] eqn:Ep; [| |done].
  - destruct ev as [snap send|send|e]; [|done|done].
    unfold on_snapshot. destruct snap as [rows|e]; [|done].
    destruct send as [[]|e]; [|done].
    unfold session_ok in Hc. rewrite Ep in Hc.
    destruct (snapshot_timestamps rows) as [m|e] eqn:Em; unfold session_ok; simpl; rewrite Hc.
    + exists rows, []. by repeat split.
    + right. exists rows. split; [done|by left].
  - destruct ev as [snap send|send|e]; [done| |done].
    destruct (Broadcast.queues _ !! c_queue c) as [q|]; [|done].
    destruct (Broadcast.get_nowait q) as [[envelope q']|]; [|done].
    unfold on_envelope. destruct (is_stale envelope m) as [[]|e] eqn:Es; [done| |done].
    destruct send as [[]|e]; [|done].
    unfold session_ok in *. rewrite Ep in Hc. destruct Hc as (rows & ups & Hs & Hm & Hu).
    simpl. exists rows, (ups ++ [UpdateFrame envelope]). rewrite Hs. split; [done|].
    split; [done|]. apply Forall_app. split; [done|]. by constructor.
Qed.

(** What a session sends is, at every moment, nothing or the snapshot followed by
    updates none of which is stale against that snapshot. *)
Theorem snapshot_first sv evs : frames_ok (c_sent (resume_all evs (open sv).1 (open sv).2).1).
Proof.
  apply session_ok_frames.
  assert (session_ok (open sv).1) as Hc by (unfold open; by destruct (Broadcast.subscribe _)).
  revert Hc. generalize (open sv).1 (open sv).2. induction evs as [|ev evs IH]; intros c sv' Hc; [done|].
  simpl. pose proof (resume_session_ok ev c sv' Hc). destruct (resume ev c sv') as [c' sv''].
  by apply IH.
Qed.

Lemma session_releases_witness :
  let '(c, sv') := resume_all [SnapshotReady (Ok []) (Ok ()); Cancelled (Exn Foreign [])]
    (open {| sv_broadcast := Broadcast.init 2; sv_active := 3 |}).1
    (open {| sv_broadcast := Broadcast.init 2; sv_active := 3 |}).2 in
  finished c = true /\ sv_active sv' = 3%Z.
Proof.
  pose proof (session_releases {| sv_broadcast := Broadcast.init 2; sv_active := 3 |}
    [SnapshotReady (Ok []) (Ok ()); Cancelled (Exn Foreign [])] (wf_init 2)) as Hs.
  destruct (resume_all _ _ _) as [c sv'] eqn:E.
  assert (finished c = true) as Hf.
  { change c with (c, sv').1. rewrite <-E. vm_compute. reflexivity. }
  rewrite Hf in Hs. split; [exact Hf|]. exact (proj2 (proj2 Hs)).
Defined.
