(* ===== verification/Live.v ===== *)
(** * Live updates: the consumer, the broadcast and one WebSocket session together

    The steps that the event loop and the executor threads interleave: a commit of
    the consumer ([_write_to_db]), the broadcast that follows it, the session's
    subscription, its read of the snapshot, and its sends.  Several messages may be
    between their commit and their broadcast at once (the consumer prefetches).
    The system keeps the current table by tag, as [upsert_current_position] does. *)

From S2P Require Export WsFacts ConsumerFacts.
Import Repository Ws.

Module Live.

(** The tag and the timestamp of an envelope's payload. *)
Definition envelope_key (e : pydict) : option (text * Z) :=
  match dget "payload" e with
  | Some (VDict p) =>
      match dget "tag_id" p, dget "ts_utc_ms" p with
      | Some (VStr t), Some (VInt z) => Some (t, z)
      | _, _ => None
      end
  | _ => None
  end.

(** A row as the session's snapshot holds it. *)
Definition row_dict (r : row) : pydict := zip_dict CURRENT_POS_COLUMNS (project r).

Record live := {
  current : gmap text row;             (* the durable table *)
  pending : list pydict;               (* committed, not yet broadcast *)
  server : Ws.server;
  ws_session : option client;
  snap_read : option (list pydict);    (* what the executor has read *)
  dropped : bool;                      (* the session's queue was full at a broadcast *)
}.

Definition init (db : gmap text row) (maxsize : Z) : live :=
  {| current := db; pending := []; server := {| sv_broadcast := Broadcast.init maxsize; sv_active := 0 |};
     ws_session := None; snap_read := None; dropped := false |}.

(** The items waiting in the session's queue. *)
Definition queued (c : client) (sv : Ws.server) : list pydict := items (c_queue c) (sv_broadcast sv).

Definition queue_full (c : client) (sv : Ws.server) : bool :=
  match Broadcast.queues (sv_broadcast sv) !! c_queue c with
  | Some q => Broadcast.full q
  | None => false
  end.

Definition set_broadcast (b : Broadcast.state) (sv : Ws.server) : Ws.server :=
  {| sv_broadcast := b; sv_active := sv_active sv |}.

(** An operation of another session on the broadcast. *)
Definition foreign_op (c : option client) (o : Broadcast.op) : Prop :=
  match o with
  | Broadcast.Subscribe => True
  | Broadcast.Publish _ => False
  | Broadcast.Unsubscribe id | Broadcast.Get id =>
      match c with Some c => id ≠ c_queue c | None => True end
  end.

(** The broadcast of [e] may leave [rest] of what was pending: everything else, and
    none, some or all of the copies of [e] (a message that is delivered again is
    committed again, with the same envelope). *)
Definition discharges (e : pydict) (l rest : list pydict) : Prop :=
  (forall e', e' ∈ rest -> e' ∈ l) /\ (forall e', e' ∈ l -> e' = e \/ e' ∈ rest).

Inductive step : live -> live -> Prop :=
  | step_commit s e r :
      envelope_key e = Some (r_tag r, r_ts r) -> (0 <= r_ts r)%Z ->
      step s {| current := upsert_row r (current s); pending := pending s ++ [e];
                server := server s; ws_session := ws_session s; snap_read := snap_read s;
                dropped := dropped s |}
  (* a commit that brings nothing new (a message delivered again) *)
  | step_recommit s r old :
      current s !! r_tag r = Some old -> (0 <= r_ts r <= r_ts old)%Z ->
      step s {| current := upsert_row r (current s); pending := pending s;
                server := server s; ws_session := ws_session s; snap_read := snap_read s;
                dropped := dropped s |}
  | step_broadcast s e rest :
      e ∈ pending s -> discharges e (pending s) rest ->
      step s {| current := current s; pending := rest;
                server := set_broadcast (Broadcast.publish e (sv_broadcast (server s))) (server s);
                ws_session := ws_session s; snap_read := snap_read s;
                dropped := dropped s || match ws_session s with
                                        | Some c => queue_full c (server s)
                                        | None => false
                                        end |}
  | step_other s o :
      foreign_op (ws_session s) o ->
      step s {| current := current s; pending := pending s;
                server := set_broadcast (Broadcast.step o (sv_broadcast (server s))).2 (server s);
                ws_session := ws_session s; snap_read := snap_read s; dropped := dropped s |}
  | step_open s :
      ws_session s = None ->
      step s {| current := current s; pending := pending s; server := (open (server s)).2;
                ws_session := Some (open (server s)).1; snap_read := None; dropped := false |}
  | step_read s c l :
      ws_session s = Some c -> c_phase c = Subscribed -> snap_read s = None ->
      l ≡ₚ (map_to_list (current s)).*2 ->
      step s {| current := current s; pending := pending s; server := server s;
                ws_session := Some c; snap_read := Some (row_dict <$> l); dropped := dropped s |}
  | step_snapshot s c rows send :
      ws_session s = Some c -> snap_read s = Some rows -> c_phase c = Subscribed ->
      step s {| current := current s; pending := pending s;
                server := (resume (SnapshotReady (Ok rows) send) c (server s)).2;
                ws_session := Some (resume (SnapshotReady (Ok rows) send) c (server s)).1;
                snap_read := Some rows; dropped := dropped s |}
  | step_receive s c m send :
      ws_session s = Some c -> c_phase c = Streaming m ->
      step s {| current := current s; pending := pending s;
                server := (resume (QueueReady send) c (server s)).2;
                ws_session := Some (resume (QueueReady send) c (server s)).1;
                snap_read := snap_read s; dropped := dropped s |}
  | step_leave s c e :
      ws_session s = Some c ->
      step s {| current := current s; pending := pending s;
                server := (resume (Cancelled e) c (server s)).2;
                ws_session := Some (resume (Cancelled e) c (server s)).1;
                snap_read := snap_read s; dropped := dropped s |}.

Inductive reachable (s0 : live) : live -> Prop :=
  | reach_refl : reachable s0 s0
  | reach_step s s' : reachable s0 s -> step s s' -> reachable s0 s'.

(** What the client has been told: a tag with a timestamp. *)
Definition row_key (row : pydict) (tag : text) (z : Z) : Prop :=
  dget "tag_id" row = Some (VStr tag) /\ dget "ts_utc_ms" row = Some (VInt z).

Definition frame_tells (tag : text) (z : Z) (f : frame) : Prop :=
  match f with
  | SnapshotFrame rows => Exists (fun row => row_key row tag z) rows
  | UpdateFrame e => envelope_key e = Some (tag, z)
  end.

Definition told (c : client) (tag : text) (z : Z) : Prop := Exists (frame_tells tag z) (c_sent c).

Definition keyed (m : gmap text row) : Prop := forall tag r, m !! tag = Some r -> r_tag r = tag.
Definition epoch (m : gmap text row) : Prop := forall tag r, m !! tag = Some r -> (0 <= r_ts r)%Z.

End Live.
