(* ===== verification/LiveFacts.v ===== *)
(** * Live updates: the theorems

    The client is never told of anything that is not in the tables, and when nothing
    is in flight it has been told of every current row, unless its queue was full. *)

From S2P Require Export Live.
Import Repository Ws Live.

(** ** Elementary effects *)

Definition bounded (m : gmap text row) (tag : text) (z : Z) : Prop :=
  exists r, m !! tag = Some r /\ (z <= r_ts r)%Z.

Lemma upsert_cases r m :
  (upsert_row r m = <[r_tag r := r]> m /\
   (forall old, m !! r_tag r = Some old -> (r_ts old <= r_ts r)%Z)) \/
  (upsert_row r m = m /\ exists old, m !! r_tag r = Some old /\ (r_ts r < r_ts old)%Z).
Proof.
  unfold upsert_row. destruct (m !! r_tag r) as [old|] eqn:E; [|left; by split].
  destruct (Z.leb_spec (r_ts old) (r_ts r)); [left|right; eauto].
  split; [done|]. by intros ? [= <-].
Qed.

Lemma bounded_upsert r m tag z : bounded m tag z -> bounded (upsert_row r m) tag z.
Proof.
  intros (r' & Hr' & Hz). destruct (upsert_cases r m) as [[-> Hle]|[-> _]]; [|by exists r'].
  destruct (decide (r_tag r = tag)) as [<-|Hne].
  - exists r. rewrite lookup_insert_eq. split; [done|]. specialize (Hle _ Hr'). lia.
  - exists r'. by rewrite lookup_insert_ne.
Qed.

Lemma bounded_self r m : bounded (upsert_row r m) (r_tag r) (r_ts r).
Proof.
  destruct (upsert_cases r m) as [[-> _]|[-> (old & Ho & Hlt)]].
  - exists r. by rewrite lookup_insert_eq.
  - exists old. split; [done|lia].
Qed.

Lemma upsert_keyed r m : keyed m -> keyed (upsert_row r m).
Proof.
  intros Hk tag r'. destruct (upsert_cases r m) as [[-> _]|[-> _]]; [|apply Hk].
  destruct (decide (r_tag r = tag)) as [<-|Hne].
  - rewrite lookup_insert_eq. by intros [= <-].
  - rewrite lookup_insert_ne by done. apply Hk.
Qed.

Lemma upsert_epoch r m : (0 <= r_ts r)%Z -> epoch m -> epoch (upsert_row r m).
Proof.
  intros Hr Hk tag r'. destruct (upsert_cases r m) as [[-> _]|[-> _]]; [|apply Hk].
  destruct (decide (r_tag r = tag)) as [<-|Hne].
  - rewrite lookup_insert_eq. by intros [= <-].
  - rewrite lookup_insert_ne by done. apply Hk.
Qed.

(** ** The snapshot's timestamps *)

Lemma row_dict_key r tag z : row_key (row_dict r) tag z <-> r_tag r = tag /\ r_ts r = z.
Proof.
  unfold row_key.
  change (dget "tag_id" (row_dict r)) with (Some (VStr (r_tag r))).
  change (dget "ts_utc_ms" (row_dict r)) with (Some (VInt (r_ts r))).
  naive_solver.
Qed.

Lemma timestamps_from_rows l m m' :
  timestamps_from (row_dict <$> l) m = Ok m' ->
  forall tag v, m' !! tag = Some v ->
    m !! tag = Some v \/ exists r, r ∈ l /\ r_tag r = tag /\ v = VInt (r_ts r).
Proof.
  revert m. induction l as [|r l IH]; intros m; [intros [= <-]; by left|].
  rewrite fmap_cons. cbn [timestamps_from].
  change (dget "tag_id" (row_dict r)) with (Some (VStr (r_tag r))).
  change (dindex "ts_utc_ms" (row_dict r)) with (@Ok pyval (VInt (r_ts r))).
  cbn iota. cbn [mbind res_bind]. intros Ht tag v Hv.
  destruct (IH _ Ht tag v Hv) as [Hi|(r' & Hr' & Htag & ->)].
  - destruct (decide (r_tag r = tag)) as [<-|Hne].
    + rewrite lookup_insert_eq in Hi. injection Hi as <-. right. exists r. set_solver.
    + rewrite lookup_insert_ne in Hi by done. by left.
  - right. exists r'. set_solver.
Qed.

(** A queued update that is stale is older than what the snapshot told. *)
Lemma stale_is_told l m e tag z :
  snapshot_timestamps (row_dict <$> l) = Ok m -> envelope_key e = Some (tag, z) -> (0 <= z)%Z ->
  is_stale e m = Ok true ->
  exists z', (z <= z')%Z /\ Exists (fun row => row_key row tag z') (row_dict <$> l).
Proof.
  intros Hm Hk Hz. unfold envelope_key in Hk.
  destruct (dget "payload" e) as [[| | | | | |p]|] eqn:Ep; try done.
  destruct (dget "tag_id" p) as [[| | | |t| |]|] eqn:Et; try done.
  destruct (dget "ts_utc_ms" p) as [[| |z0| | | |]|] eqn:Ez; try done. injection Hk as -> ->.
  unfold is_stale, dget_or. rewrite Ep. unfold get_or, dget_or. rewrite Et, Ez.
  cbn [mbind res_bind snapshot_get].
  destruct (m !! tag) as [v|] eqn:Ev; cbn [default].
  - destruct (timestamps_from_rows l ∅ m Hm tag v Ev) as [Hi|(r & Hr & Htag & ->)];
      [by rewrite lookup_empty in Hi|].
    cbn. intros [= Hlt%Z.ltb_lt]. exists (r_ts r). split; [lia|].
    apply Exists_exists. exists (row_dict r). split; [by apply list_elem_of_fmap_2|].
    by apply row_dict_key.
  - cbn. intros [= Hlt%Z.ltb_lt]. lia.
Qed.

(** ** The steps of the session *)

Lemma open_facts sv :
  let '(c, sv') := open sv in
  c_phase c = Subscribed /\ c_sent c = [] /\ queued c sv' = [] /\
  c_queue c ∈ Broadcast.subscribers (sv_broadcast sv') /\
  is_Some (Broadcast.queues (sv_broadcast sv') !! c_queue c).
Proof.
  unfold open, Broadcast.subscribe, queued, items. simpl. rewrite lookup_insert_eq.
  repeat split; [set_solver|by eexists].
Qed.

(** The queue and the subscription of a session survive what is not its own. *)
Definition attached (c : client) (sv : Ws.server) : Prop :=
  is_Some (Broadcast.queues (sv_broadcast sv) !! c_queue c) /\
  (finished c = true \/ c_queue c ∈ Broadcast.subscribers (sv_broadcast sv)).

Lemma foreign_queued c o sv :
  foreign_op (Some c) o -> attached c sv ->
  let sv' := set_broadcast (Broadcast.step o (sv_broadcast sv)).2 sv in
  queued c sv' = queued c sv /\ attached c sv'.
Proof.
  intros Hf [Hq Hs]. simpl. unfold queued, attached. simpl.
  destruct (Broadcast.step o (sv_broadcast sv)) as [x b] eqn:E.
  destruct (step_items (c_queue c) o _ x b Hq E) as [Hq' Hi]. simpl. split.
  - destruct o as [|i|e|i]; simpl in Hf, Hi, E; try done.
    + injection E as <- <-. by rewrite app_nil_r in Hi.
    + injection E as <- <-. by rewrite app_nil_r in Hi.
    + rewrite app_nil_r in Hi. destruct x; [|done]. by rewrite decide_False in Hi.
  - split; [done|]. destruct Hs as [Hs|Hs]; [by left|right].
    destruct o as [|i|e|i]; simpl in Hf, E; try done.
    + injection E as <- <-. simpl. set_solver.
    + injection E as <- <-. simpl. set_solver.
    + destruct (Broadcast.queues _ !! i) as [q|]; [|by injection E as <- <-].
      unfold Broadcast.get_nowait in E. destruct (Broadcast.q_items q); by injection E as <- <-.
Qed.

Lemma publish_queued c e sv :
  attached c sv -> finished c = false ->
  let sv' := set_broadcast (Broadcast.publish e (sv_broadcast sv)) sv in
  queued c sv' = queued c sv ++ (if queue_full c sv then [] else [e]) /\ attached c sv'.
Proof.
  intros [[q Hq] Hs] Hf. unfold queued, attached, queue_full, items. simpl.
  destruct (publish_queue e (sv_broadcast sv) (c_queue c)) as (-> & -> & _).
  rewrite Hq. destruct Hs as [Hs|Hs]; [congruence|].
  rewrite decide_True by done. simpl. split; [|split; [by eexists|by right]].
  unfold offered. destruct (Broadcast.full q); simpl; by rewrite ?app_nil_r.
Qed.

Lemma publish_queued_finished c e sv :
  attached c sv ->
  let sv' := set_broadcast (Broadcast.publish e (sv_broadcast sv)) sv in
  (forall e', e' ∈ queued c sv' -> e' ∈ queued c sv \/ e' = e) /\ attached c sv'.
Proof.
  intros [[q Hq] Hs]. unfold queued, attached, items. simpl.
  destruct (publish_queue e (sv_broadcast sv) (c_queue c)) as (-> & -> & _).
  rewrite Hq. split; [|split; [case_decide; by eexists|done]].
  intros e'. case_decide; simpl; [|by left]. unfold offered.
  destruct (Broadcast.full q); simpl; [by left|]. rewrite elem_of_app, list_elem_of_singleton. naive_solver.
Qed.

(** What one turn of the loop does. *)
Lemma receive_cases c m send sv c' sv' :
  c_phase c = Streaming m -> attached c sv -> resume (QueueReady send) c sv = (c', sv') ->
  attached c' sv' /\ c_queue c' = c_queue c /\
  ((c' = c /\ queued c sv' = queued c sv) \/
   exists e, queued c sv = e :: queued c' sv' /\
     ((c' = c /\ is_stale e m = Ok true) \/
      (c_phase c' = Streaming m /\ c_sent c' = c_sent c ++ [UpdateFrame e]) \/
      (finished c' = true /\ c_sent c' = c_sent c))).
Proof.
  intros Hp [[q Hq] Hs] Hr. unfold resume in Hr. rewrite Hp, Hq in Hr.
  unfold Broadcast.get_nowait in Hr. destruct (Broadcast.q_items q) as [|e r] eqn:Ei.
  { injection Hr as <- <-. split; [by split; [eexists|]|]. split; [done|by left]. }
  set (q' := {| Broadcast.q_maxsize := _; Broadcast.q_items := r |}) in *.
  set (sv1 := {| sv_broadcast := _; sv_active := _ |}) in *.
  assert (Broadcast.queues (sv_broadcast sv1) !! c_queue c = Some q') as Hq1
    by (simpl; apply lookup_insert_eq).
  assert (queued c sv = e :: r) as Hqu by (unfold queued, items; rewrite Hq; exact Ei).
  assert (queued c sv1 = r) as Hqu1 by (unfold queued, items; by rewrite Hq1).
  assert (attached c sv1) as Hat by (split; [by eexists|done]).
  assert (forall x, resume (Cancelled x) c sv1 = (c', sv') ->
    attached c' sv' /\ c_queue c' = c_queue c /\ queued c' sv' = r /\ finished c' = true /\
    c_sent c' = c_sent c) as Hfin.
  { intros x. unfold resume. rewrite Hp. intros [= <- <-]. unfold attached, queued, items.
    simpl. rewrite lookup_insert_eq. split; [split; [by eexists|by left]|done]. }
  unfold resume in Hfin. rewrite Hp in Hfin.
  unfold on_envelope in Hr. destruct (is_stale e m) as [[]|x] eqn:Est.
  - injection Hr as <- <-. split; [done|]. split; [done|]. right. exists e.
    rewrite Hqu, Hqu1. split; [done|by left].
  - destruct send as [[]|x].
    + injection Hr as <- <-. split; [by split; [eexists|destruct Hs as [Hs|Hs]; [by unfold finished in Hs; rewrite Hp in Hs|by right]]|].
      split; [done|]. right. exists e. split; [by rewrite Hqu, <-Hqu1|]. right; left. done.
    + destruct (Hfin x Hr) as (H1 & H2 & H3 & H4 & H5). split; [done|]. split; [done|].
      right. exists e. rewrite Hqu, H3. split; [done|]. by right; right.
  - destruct (Hfin x Hr) as (H1 & H2 & H3 & H4 & H5). split; [done|]. split; [done|].
    right. exists e. rewrite Hqu, H3. split; [done|]. by right; right.
Qed.

(** What the snapshot's arrival does. *)
Lemma snapshot_cases c rows send sv c' sv' :
  c_phase c = Subscribed -> attached c sv -> resume (SnapshotReady (Ok rows) send) c sv = (c', sv') ->
  attached c' sv' /\ c_queue c' = c_queue c /\ queued c' sv' = queued c sv /\
  ((exists m, snapshot_timestamps rows = Ok m /\ c_phase c' = Streaming m /\
      c_sent c' = c_sent c ++ [SnapshotFrame rows]) \/
   (finished c' = true /\ (c_sent c' = c_sent c \/ c_sent c' = c_sent c ++ [SnapshotFrame rows]))).
Proof.
  intros Hp [[q Hq] Hs] Hr. unfold resume in Hr. rewrite Hp in Hr. unfold on_snapshot in Hr.
  destruct send as [[]|x]; [destruct (snapshot_timestamps rows) as [m|x] eqn:Em|];
    injection Hr as <- <-; unfold attached, queued, items; simpl; rewrite Hq.
  - split; [split; [by eexists|right]|].
    { destruct Hs as [Hs|Hs]; [by unfold finished in Hs; rewrite Hp in Hs|done]. }
    repeat split. left. by exists m.
  - split; [split; [by eexists|by left]|]. repeat split. right. split; [done|by right].
  - split; [split; [by eexists|by left]|]. repeat split. right. split; [done|by left].
Qed.

Lemma leave_cases c e sv c' sv' :
  attached c sv -> resume (Cancelled e) c sv = (c', sv') ->
  attached c' sv' /\ c_queue c' = c_queue c /\ queued c' sv' = queued c sv /\
  finished c' = true /\ c_sent c' = c_sent c.
Proof.
  intros [[q Hq] Hs] Hr. unfold resume in Hr.
  destruct (c_phase c) eqn:Ep; injection Hr as <- <-; unfold attached, queued, items, finished;
    simpl; rewrite Hq, ?Ep; repeat split; by eauto.
Qed.

(** ** The invariant *)

Definition ok_env (m : gmap text row) (e : pydict) : Prop :=
  exists tag z, envelope_key e = Some (tag, z) /\ (0 <= z)%Z /\ bounded m tag z.

Definition ok_rows (m : gmap text row) (rows : list pydict) : Prop :=
  (exists l, rows = row_dict <$> l) /\
  forall tag z, Exists (fun row => row_key row tag z) rows -> bounded m tag z.

(** The session's phase agrees with what was read and sent. *)
Definition phase_ok (read : option (list pydict)) (c : client) : Prop :=
  match c_phase c with
  | Subscribed => c_sent c = []
  | Streaming m => exists rows ups, read = Some rows /\ snapshot_timestamps rows = Ok m /\
                     c_sent c = SnapshotFrame rows :: ups
  | Finished _ => True
  end.

(** A timestamp of the tag at least [z] is told, read, queued or pending. *)
Definition covered (s : live) (c : client) (tag : text) (z : Z) : Prop :=
  exists z', (z <= z')%Z /\
    (told c tag z' \/
     (exists rows, snap_read s = Some rows /\ Exists (fun row => row_key row tag z') rows) \/
     (exists e, e ∈ queued c (server s) /\ envelope_key e = Some (tag, z')) \/
     (exists e, e ∈ pending s /\ envelope_key e = Some (tag, z'))).

Record inv (s : live) : Prop := {
  inv_keyed : keyed (current s);
  inv_epoch : epoch (current s);
  inv_wf : wf (sv_broadcast (server s));
  inv_pending : Forall (ok_env (current s)) (pending s);
  inv_read : forall rows, snap_read s = Some rows -> ok_rows (current s) rows;
  inv_none : ws_session s = None -> snap_read s = None;
  inv_attached : forall c, ws_session s = Some c -> attached c (server s);
  inv_phase : forall c, ws_session s = Some c -> phase_ok (snap_read s) c;
  inv_queued : forall c, ws_session s = Some c -> Forall (ok_env (current s)) (queued c (server s));
  inv_told : forall c, ws_session s = Some c ->
    forall tag z, told c tag z -> bounded (current s) tag z;
  inv_cover : forall c, ws_session s = Some c -> finished c = false -> is_Some (snap_read s) ->
    dropped s = false -> forall tag r, current s !! tag = Some r -> covered s c tag (r_ts r);
}.

Lemma ok_env_upsert m r e : ok_env m e -> ok_env (upsert_row r m) e.
Proof. intros (t & z & Hk & Hz & Hb). exists t, z. eauto using bounded_upsert. Qed.

Lemma told_snoc c f c' tag z :
  c_sent c' = c_sent c ++ [f] -> told c' tag z <-> told c tag z \/ frame_tells tag z f.
Proof.
  intros E. unfold told. rewrite E, Exists_app, Exists_cons, Exists_nil. tauto.
Qed.

Lemma wf_publish e b : wf b -> wf (Broadcast.publish e b).
Proof. apply (wf_step (Broadcast.Publish e)). Qed.

(** A session's step keeps the broadcast well formed. *)
Lemma wf_resume ev c sv : wf (sv_broadcast sv) -> wf (sv_broadcast (resume ev c sv).2).
Proof.
  intros Hw.
  assert (forall e c sv, wf (sv_broadcast sv) -> wf (sv_broadcast (finish e c sv).2)) as Hfin.
  { intros e c0 sv0 H0. apply (wf_step (Broadcast.Unsubscribe (c_queue c0))), H0. }
  unfold resume. destruct (c_phase c) as [|m|r]; [| |done].
  - destruct ev as [snap send|send|e]; [|done|by apply Hfin].
    unfold on_snapshot. destruct snap as [rows|e]; [|by apply Hfin].
    destruct send; [|by apply Hfin]. destruct (snapshot_timestamps rows); [done|by apply Hfin].
  - destruct ev as [snap send|send|e]; [done| |by apply Hfin].
    destruct (Broadcast.queues _ !! c_queue c) as [q|] eqn:Eq; [|done].
    destruct (Broadcast.get_nowait q) as [[envelope q']|] eqn:Eg; [|done].
    assert (wf (Broadcast.set_queue (c_queue c) q' (sv_broadcast sv))) as Hw'.
    { pose proof (wf_step (Broadcast.Get (c_queue c)) _ Hw) as H'. simpl in H'.
      by rewrite Eq, Eg in H'. }
    unfold on_envelope. destruct (is_stale envelope m) as [[]|e]; [done| |by apply Hfin].
    destruct send; [done|by apply Hfin].
Qed.

Lemma inv_commit s e r :
  envelope_key e = Some (r_tag r, r_ts r) -> (0 <= r_ts r)%Z -> inv s ->
  inv {| current := upsert_row r (current s); pending := pending s ++ [e];
         server := server s; ws_session := ws_session s; snap_read := snap_read s;
         dropped := dropped s |}.
Proof.
  intros He Hr Hi. destruct Hi. constructor; simpl; eauto using upsert_keyed, upsert_epoch.
  - apply Forall_app. split; [eapply Forall_impl; eauto using ok_env_upsert|].
    constructor; [|constructor]. exists (r_tag r), (r_ts r). eauto using bounded_self.
  - intros rows Hrows. destruct (inv_read0 rows Hrows) as [Hl Hb]. split; [done|].
    intros tag z Hx. by apply bounded_upsert, Hb.
  - intros c Hc. eapply Forall_impl; [by apply inv_queued0|]. intros. by apply ok_env_upsert.
  - intros c Hc tag z Ht. by eapply bounded_upsert, inv_told0.
  - intros c Hc Hf Hs Hd tag r' Hr'.
    assert (r' = r \/ current s !! tag = Some r') as [->|Hold].
    { destruct (upsert_cases r (current s)) as [[E _]|[E _]]; rewrite E in Hr'; [|by right].
      destruct (decide (r_tag r = tag)) as [<-|Hne];
        [rewrite lookup_insert_eq in Hr'; injection Hr' as ->; by left|].
      rewrite lookup_insert_ne in Hr' by done. by right. }
    + exists (r_ts r). split; [done|]. right; right; right. exists e. split; [set_solver|].
      rewrite He. do 2 f_equal. by apply (upsert_keyed r _ inv_keyed0 tag).
    + destruct (inv_cover0 c Hc Hf Hs Hd tag r' Hold) as (z' & Hz' & Hcov). exists z'.
      split; [done|]. simpl in *. destruct Hcov as [?|[?|[?|(e' & He' & Hk)]]]; [tauto..|].
      right; right; right. exists e'. set_solver.
Qed.

Lemma inv_recommit s r old :
  current s !! r_tag r = Some old -> (0 <= r_ts r <= r_ts old)%Z -> inv s ->
  inv {| current := upsert_row r (current s); pending := pending s;
         server := server s; ws_session := ws_session s; snap_read := snap_read s;
         dropped := dropped s |}.
Proof.
  intros Hold [Hr0 Hr] Hi. destruct Hi.
  constructor; simpl; eauto using upsert_keyed, upsert_epoch.
  - eapply Forall_impl; eauto using ok_env_upsert.
  - intros rows Hrows. destruct (inv_read0 rows Hrows) as [Hl Hb]. split; [done|].
    intros tag z Hx. by apply bounded_upsert, Hb.
  - intros c Hc. eapply Forall_impl; [by apply inv_queued0|]. intros. by apply ok_env_upsert.
  - intros c Hc tag z Ht. by eapply bounded_upsert, inv_told0.
  - intros c Hc Hf Hs Hd tag r' Hr'.
    assert (exists r0, current s !! tag = Some r0 /\ (r_ts r' <= r_ts r0)%Z) as (r0 & Hr0' & Hle).
    { destruct (upsert_cases r (current s)) as [[E _]|[E _]]; rewrite E in Hr'; [|by exists r'].
      destruct (decide (r_tag r = tag)) as [<-|Hne];
        [rewrite lookup_insert_eq in Hr'; injection Hr' as <-; by exists old|].
      rewrite lookup_insert_ne in Hr' by done. by exists r'. }
    destruct (inv_cover0 c Hc Hf Hs Hd tag r0 Hr0') as (z' & Hz' & Hcov). exists z'.
    split; [lia|]. exact Hcov.
Qed.

Lemma inv_broadcast s e rest :
  e ∈ pending s -> discharges e (pending s) rest -> inv s ->
  inv {| current := current s; pending := rest;
         server := set_broadcast (Broadcast.publish e (sv_broadcast (server s))) (server s);
         ws_session := ws_session s; snap_read := snap_read s;
         dropped := dropped s || match ws_session s with
                                 | Some c => queue_full c (server s)
                                 | None => false
                                 end |}.
Proof.
  intros Hp [Hsub Hkeep] Hi. destruct Hi. rewrite Forall_forall in inv_pending0.
  constructor; simpl; eauto.
  - by apply wf_publish.
  - apply Forall_forall. auto.
  - intros c Hc. by apply publish_queued_finished, inv_attached0.
  - intros c Hc. apply Forall_forall. intros e' He'.
    destruct (publish_queued_finished c e (server s) (inv_attached0 c Hc)) as [Hq _].
    specialize (inv_queued0 c Hc). rewrite Forall_forall in inv_queued0.
    destruct (Hq e' He') as [?| ->]; auto.
  - intros c Hc Hf Hs Hd tag r Hr. apply orb_false_iff in Hd as [Hd Hfull]. rewrite Hc in Hfull.
    destruct (inv_cover0 c Hc Hf Hs Hd tag r Hr) as (z' & Hz' & Hcov). exists z'. split; [done|].
    simpl. destruct (publish_queued c e (server s) (inv_attached0 c Hc) Hf) as [-> _].
    rewrite Hfull. destruct Hcov as [?|[?|[(e' & He' & Hk)|(e' & He' & Hk)]]]; [tauto..| |].
    + right; right; left. exists e'. set_solver.
    + destruct (Hkeep e' He') as [->|He''].
      * right; right; left. exists e. set_solver.
      * right; right; right. exists e'. set_solver.
Qed.

Lemma inv_other s o :
  foreign_op (ws_session s) o -> inv s ->
  inv {| current := current s; pending := pending s;
         server := set_broadcast (Broadcast.step o (sv_broadcast (server s))).2 (server s);
         ws_session := ws_session s; snap_read := snap_read s; dropped := dropped s |}.
Proof.
  intros Ho Hi. destruct Hi.
  assert (forall c, ws_session s = Some c ->
    let sv' := set_broadcast (Broadcast.step o (sv_broadcast (server s))).2 (server s) in
    queued c sv' = queued c (server s) /\ attached c sv') as Hq.
  { intros c Hc. rewrite Hc in Ho. exact (foreign_queued c o (server s) Ho (inv_attached0 c Hc)). }
  constructor; simpl; eauto.
  - by apply wf_step.
  - intros c Hc. by apply Hq.
  - intros c Hc. destruct (Hq c Hc) as [-> _]. auto.
  - intros c Hc Hf Hs Hd tag r Hr. destruct (inv_cover0 c Hc Hf Hs Hd tag r Hr) as (z' & Hz' & Hcov).
    exists z'. split; [done|]. simpl. by destruct (Hq c Hc) as [-> _].
Qed.

Lemma inv_open s :
  ws_session s = None -> inv s ->
  inv {| current := current s; pending := pending s; server := (open (server s)).2;
         ws_session := Some (open (server s)).1; snap_read := None; dropped := false |}.
Proof.
  intros Hn Hi. destruct Hi. pose proof (open_facts (server s)) as Ho.
  assert (wf (sv_broadcast (open (server s)).2)) as Hw.
  { exact (wf_step Broadcast.Subscribe _ inv_wf0). }
  destruct (open (server s)) as [c sv]. destruct Ho as (Hp & Hsent & Hq & Hsub & Hqu).
  simpl in *. constructor; simpl; try done.
  all: intros c' [= <-].
  - split; [done|by right].
  - unfold phase_ok. by rewrite Hp.
  - rewrite Hq. constructor.
  - intros tag z. unfold told. rewrite Hsent. by intros ?%Exists_nil.
Qed.

Lemma inv_snapshot_read s c l :
  ws_session s = Some c -> c_phase c = Subscribed -> l ≡ₚ (map_to_list (current s)).*2 -> inv s ->
  inv {| current := current s; pending := pending s; server := server s;
         ws_session := Some c; snap_read := Some (row_dict <$> l); dropped := dropped s |}.
Proof.
  intros Hc Hp Hl Hi. destruct Hi.
  assert (forall r, r ∈ l <-> current s !! r_tag r = Some r) as Hlr.
  { intros r. rewrite Hl, list_elem_of_fmap. split.
    - intros ([k r'] & -> & Hm%elem_of_map_to_list). simpl. by rewrite (inv_keyed0 k r' Hm).
    - intros Hm. exists (r_tag r, r). split; [done|]. by apply elem_of_map_to_list. }
  constructor; simpl; try done.
  - intros rows [= <-]. split; [by exists l|]. intros tag z (x & Hx & Hk)%Exists_exists.
    apply list_elem_of_fmap in Hx as (r & -> & Hr). apply row_dict_key in Hk as [<- <-].
    apply Hlr in Hr. by exists r.
  - intros c' [= <-]. auto.
  - intros c' [= <-]. unfold phase_ok. rewrite Hp. specialize (inv_phase0 c Hc).
    unfold phase_ok in inv_phase0. by rewrite Hp in inv_phase0.
  - intros c' [= <-]. auto.
  - intros c' [= <-]. by apply inv_told0.
  - intros c' [= <-] Hf _ Hd tag r Hr. exists (r_ts r). split; [done|]. right; left.
    eexists. split; [done|]. apply Exists_exists. exists (row_dict r). split.
    + apply list_elem_of_fmap_2, Hlr. by rewrite (inv_keyed0 _ _ Hr).
    + apply row_dict_key. split; [|done]. by apply inv_keyed0.
Qed.

(** A step of the session itself, from what it does to the queue and the frames. *)
Lemma inv_resume s c ev :
  ws_session s = Some c -> inv s ->
  (forall c' sv', resume ev c (server s) = (c', sv') ->
     attached c' sv' /\ phase_ok (snap_read s) c' /\
     Forall (ok_env (current s)) (queued c' sv') /\
     (forall tag z, told c' tag z -> bounded (current s) tag z) /\
     (finished c' = false -> is_Some (snap_read s) -> dropped s = false ->
      forall tag r, current s !! tag = Some r -> exists z', (r_ts r <= z')%Z /\
        (told c' tag z' \/
         (exists rows, snap_read s = Some rows /\ Exists (fun row => row_key row tag z') rows) \/
         (exists e, e ∈ queued c' sv' /\ envelope_key e = Some (tag, z')) \/
         (exists e, e ∈ pending s /\ envelope_key e = Some (tag, z'))))) ->
  inv {| current := current s; pending := pending s;
         server := (resume ev c (server s)).2; ws_session := Some (resume ev c (server s)).1;
         snap_read := snap_read s; dropped := dropped s |}.
Proof.
  intros Hc Hi Hr. pose proof (wf_resume ev c (server s) (inv_wf s Hi)) as Hw.
  destruct (resume ev c (server s)) as [c' sv']. destruct (Hr c' sv' eq_refl) as (H1 & H2 & H3 & H4 & H5).
  destruct Hi. constructor; simpl in *; try done; try (by intros ? [= <-]).
Qed.

Lemma inv_snapshot s c rows send :
  ws_session s = Some c -> snap_read s = Some rows -> c_phase c = Subscribed -> inv s ->
  inv {| current := current s; pending := pending s;
         server := (resume (SnapshotReady (Ok rows) send) c (server s)).2;
         ws_session := Some (resume (SnapshotReady (Ok rows) send) c (server s)).1;
         snap_read := snap_read s; dropped := dropped s |}.
Proof.
  intros Hc Hrd Hp Hi. apply inv_resume; [done..|]. intros c' sv' Hr. destruct Hi.
  destruct (snapshot_cases c rows send (server s) c' sv' Hp (inv_attached0 c Hc) Hr)
    as (Hat & Hq & Hqu & Hcases).
  assert (c_sent c = []) as Hs.
  { specialize (inv_phase0 c Hc). unfold phase_ok in inv_phase0. by rewrite Hp in inv_phase0. }
  assert (forall tag z, told c' tag z -> bounded (current s) tag z) as Ht.
  { intros tag z Ht. destruct (inv_read0 rows Hrd) as [_ Hb].
    assert (c_sent c' = [] \/ c_sent c' = [SnapshotFrame rows]) as [E|E]
      by (rewrite Hs in Hcases; naive_solver);
      unfold told in Ht; rewrite E in Ht; [by apply Exists_nil in Ht|].
    apply Exists_cons in Ht as [Ht|Ht%Exists_nil]; [by apply Hb|done]. }
  split; [done|]. split; [|split; [rewrite Hqu; auto|split; [done|]]].
  - destruct Hcases as [(m & Hm & Hp' & Hs')|[Hf _]]; unfold phase_ok.
    + rewrite Hp', Hs', Hs. by exists rows, [].
    + unfold finished in Hf. by destruct (c_phase c').
  - intros Hf Hrs Hd tag r Hcur.
    destruct (inv_cover0 c Hc) with tag r as (z' & Hz' & Hcov); try done.
    { unfold finished. by rewrite Hp. }
    exists z'. split; [done|]. rewrite Hqu. destruct Hcov as [Ht'|?]; [|by right].
    unfold told in Ht'. rewrite Hs in Ht'. by apply Exists_nil in Ht'.
Qed.

Lemma inv_receive s c m send :
  ws_session s = Some c -> c_phase c = Streaming m -> inv s ->
  inv {| current := current s; pending := pending s;
         server := (resume (QueueReady send) c (server s)).2;
         ws_session := Some (resume (QueueReady send) c (server s)).1;
         snap_read := snap_read s; dropped := dropped s |}.
Proof.
  intros Hc Hp Hi. apply inv_resume; [done..|]. intros c' sv' Hr. destruct Hi.
  destruct (receive_cases c m send (server s) c' sv' Hp (inv_attached0 c Hc) Hr)
    as (Hat & Hq & Hcases).
  pose proof (inv_phase0 c Hc) as Hph. pose proof (inv_queued0 c Hc) as Hok.
  pose proof (inv_told0 c Hc) as Ht.
  assert (finished c = false) as Hfc by (unfold finished; by rewrite Hp).
  destruct Hcases as [[-> Hqu]|(e & Hqu & Hcases)].
  { rewrite Hqu. do 4 (split; [done|]). exact (inv_cover0 c Hc). }
  rewrite Hqu in Hok. apply Forall_cons in Hok as [He Hok].
  assert (phase_ok (snap_read s) c' /\ (forall tag z, told c' tag z -> bounded (current s) tag z))
    as [Hph' Ht'].
  { destruct Hcases as [[-> _]|[[Hp' Hs']|[Hf Hs']]]; [done|split|split].
    - unfold phase_ok in *. rewrite Hp in Hph. rewrite Hp', Hs'.
      destruct Hph as (rows & ups & Hrd & Hm & ->). by exists rows, (ups ++ [UpdateFrame e]).
    - intros tag z [Ht'|Ht']%(told_snoc c _ c' tag z Hs'); [by apply Ht|].
      destruct He as (t & z' & Hk & _ & Hb). simpl in Ht'. rewrite Hk in Ht'. by injection Ht' as <- <-.
    - unfold phase_ok, finished in *. by destruct (c_phase c').
    - unfold told. rewrite Hs'. exact Ht. }
  split; [done|]. split; [done|]. split; [done|]. split; [done|].
  intros Hf Hrs Hd tag r Hcur.
  destruct (inv_cover0 c Hc Hfc Hrs Hd tag r Hcur) as (z' & Hz' & Hcov).
  destruct Hcov as [Htold|[Hread|[(e' & He' & Hk)|Hpend]]].
  - exists z'. split; [done|]. left.
    destruct Hcases as [[-> _]|[[_ Hs']|[_ Hs']]]; [done|by apply (told_snoc c _ c' tag z' Hs'); left|].
    unfold told. by rewrite Hs'.
  - exists z'. split; [done|by right; left].
  - rewrite Hqu in He'. apply elem_of_cons in He' as [->|He']; [|exists z'; split; [done|]; right; right; left; eauto].
    destruct Hcases as [[-> Hst]|[[_ Hs']|[Hf' _]]]; [|exists z'; split; [done|left]|congruence].
    + destruct Hrs as [rows Hrd]. destruct (inv_read0 rows Hrd) as [[l Hl] _].
      unfold phase_ok in Hph. rewrite Hp in Hph. destruct Hph as (rows' & ups & Hrd' & Hm & _).
      rewrite Hrd in Hrd'. injection Hrd' as <-. rewrite Hl in Hm.
      destruct He as (t & z0 & Hk' & Hz0 & _). rewrite Hk in Hk'. injection Hk' as <- <-.
      destruct (stale_is_told l m e tag z' Hm Hk Hz0 Hst) as (z1 & Hz1 & Hx).
      exists z1. split; [lia|]. right; left. exists rows. by rewrite Hl in *.
    + by apply (told_snoc c _ c' tag z' Hs'); right.
  - exists z'. split; [done|]. by right; right; right.
Qed.

Lemma inv_leave s c e :
  ws_session s = Some c -> inv s ->
  inv {| current := current s; pending := pending s;
         server := (resume (Cancelled e) c (server s)).2;
         ws_session := Some (resume (Cancelled e) c (server s)).1;
         snap_read := snap_read s; dropped := dropped s |}.
Proof.
  intros Hc Hi. apply inv_resume; [done..|]. intros c' sv' Hr. destruct Hi.
  destruct (leave_cases c e (server s) c' sv' (inv_attached0 c Hc) Hr) as (Hat & Hq & Hqu & Hf & Hs).
  split; [done|]. rewrite Hqu, Hf. split; [unfold phase_ok, finished in *; by destruct (c_phase c')|].
  split; [auto|]. split; [|done]. unfold told. rewrite Hs. by apply inv_told0.
Qed.

Lemma inv_step s s' : inv s -> step s s' -> inv s'.
Proof.
  intros Hi Hs. destruct Hs.
  - by apply inv_commit.
  - by eapply inv_recommit.
  - by apply inv_broadcast.
  - by apply inv_other.
  - by apply inv_open.
  - by eapply inv_snapshot_read.
  - rewrite <-H0. by apply inv_snapshot.
  - by eapply inv_receive.
  - by apply inv_leave.
Qed.

Lemma inv_init db n : keyed db -> epoch db -> inv (Live.init db n).
Proof. intros Hk He. constructor; simpl; try done; apply wf_init. Qed.

Lemma inv_reachable db n s : keyed db -> epoch db -> reachable (Live.init db n) s -> inv s.
Proof. intros Hk He Hr. induction Hr; [by apply inv_init|by eapply inv_step]. Qed.

(** A client is never told of anything that is not durable: in every reachable
    state each tag and timestamp it was sent, in the snapshot or as an update, is
    at most the timestamp of that tag's row in the current table. *)
Theorem told_is_durable db n s c tag z :
  keyed db -> epoch db -> reachable (Live.init db n) s ->
  ws_session s = Some c -> told c tag z ->
  exists r, current s !! tag = Some r /\ (z <= r_ts r)%Z.
Proof. intros Hk He Hr Hc Ht. by eapply inv_told; [eapply inv_reachable| |]. Qed.

(** No update is missed: in every reachable state in which the client streams,
    its queue is empty, no committed message waits for its broadcast and its queue
    was never full at a broadcast, the client has been told the timestamp of every
    row of the current table, and nothing newer, whatever the interleaving of
    commits, broadcasts, the subscription and the snapshot. *)
Theorem no_update_missed db n s c m tag r :
  keyed db -> epoch db -> reachable (Live.init db n) s ->
  ws_session s = Some c -> c_phase c = Streaming m -> queued c (server s) = [] ->
  pending s = [] -> dropped s = false -> current s !! tag = Some r ->
  told c tag (r_ts r) /\ forall z, told c tag z -> (z <= r_ts r)%Z.
Proof.
  intros Hk He Hr Hc Hp Hq Hpe Hd Hcur. pose proof (inv_reachable db n s Hk He Hr) as Hi.
  assert (forall z, told c tag z -> (z <= r_ts r)%Z) as Hmax.
  { intros z Ht. destruct (inv_told s Hi c Hc tag z Ht) as (r' & Hr' & Hz). by simplify_eq. }
  split; [|done]. pose proof (inv_phase s Hi c Hc) as Hph. unfold phase_ok in Hph. rewrite Hp in Hph.
  destruct Hph as (rows & ups & Hrd & _ & Hs).
  assert (finished c = false) as Hf by (unfold finished; by rewrite Hp).
  destruct (inv_cover s Hi c Hc Hf (mk_is_Some _ _ Hrd) Hd tag r Hcur) as (z' & Hz' & Hcov).
  assert (told c tag z') as Ht.
  { destruct Hcov as [?|[(rows' & Hrd' & Hx)|[(e & Hin & _)|(e & Hin & _)]]]; [done| | |].
    - rewrite Hrd in Hrd'. injection Hrd' as <-. unfold told. rewrite Hs. by apply Exists_cons; left.
    - rewrite Hq in Hin. by apply elem_of_nil in Hin.
    - rewrite Hpe in Hin. by apply elem_of_nil in Hin. }
  assert (z' = r_ts r) as <-; [|done]. specialize (Hmax z' Ht). lia.
Qed.

(** ** A concrete run: subscription, snapshot, commit, broadcast, delivery *)

Definition sample_row : row := {| r_tag := "a"; r_ts := 7; r_cols := [] |}.

Lemma keyed_empty : keyed ∅.
Proof. intros tag r. by rewrite lookup_empty. Qed.
Lemma epoch_empty : epoch ∅.
Proof. intros tag r. by rewrite lookup_empty. Qed.

Lemma sample_run :
  exists s c m, reachable (Live.init ∅ 4) s /\ ws_session s = Some c /\ c_phase c = Streaming m /\
    queued c (server s) = [] /\ pending s = [] /\ dropped s = false /\
    current s !! txt "a" = Some sample_row /\ told c "a" 7.
Proof.
  pose proof (reach_refl (Live.init ∅ 4)) as R0.
  eassert (reachable (Live.init ∅ 4) _) as R1.
  { eapply (reach_step _ _ _ R0). by apply step_open. }
  eassert (reachable (Live.init ∅ 4) _) as R2.
  { eapply (reach_step _ _ _ R1). eapply (step_read _ _ []); [reflexivity..|vm_compute; constructor]. }
  eassert (reachable (Live.init ∅ 4) _) as R3.
  { eapply (reach_step _ _ _ R2). eapply (step_snapshot _ _ _ (Ok ())); reflexivity. }
  eassert (reachable (Live.init ∅ 4) _) as R4.
  { eapply (reach_step _ _ _ R3).
    by apply (step_commit _ sample_envelope sample_row). }
  eassert (reachable (Live.init ∅ 4) _) as R5.
  { eapply (reach_step _ _ _ R4). apply (step_broadcast _ sample_envelope []); [by apply elem_of_cons; left|].
    split; intros e'; simpl; [by intros ?%elem_of_nil|]. rewrite elem_of_cons. tauto. }
  eassert (reachable (Live.init ∅ 4) _) as R6.
  { eapply (reach_step _ _ _ R5). eapply (step_receive _ _ _ (Ok ())); reflexivity. }
  do 3 eexists. split; [exact R6|]. split; [reflexivity|]. split; [vm_compute; reflexivity|].
  split; [vm_compute; reflexivity|]. split; [reflexivity|]. split; [vm_compute; reflexivity|].
  split; [vm_compute; reflexivity|].
  apply Exists_exists. exists (UpdateFrame sample_envelope). split; [|reflexivity].
  vm_compute. right. left.
Qed.

Lemma told_is_durable_witness :
  exists s c, reachable (Live.init ∅ 4) s /\ ws_session s = Some c /\ told c "a" 7 /\
    exists r, current s !! txt "a" = Some r /\ (7 <= r_ts r)%Z.
Proof.
  destruct sample_run as (s & c & m & Hr & Hc & Hp & Hq & Hpe & Hd & Hcur & Ht).
  exists s, c. split; [exact Hr|]. split; [exact Hc|]. split; [exact Ht|].
  exact (told_is_durable ∅ 4 s c "a" 7 keyed_empty epoch_empty Hr Hc Ht).
Defined.

Lemma no_update_missed_witness :
  exists s c, reachable (Live.init ∅ 4) s /\ ws_session s = Some c /\
    told c "a" (r_ts sample_row) /\ forall z, told c "a" z -> (z <= r_ts sample_row)%Z.
Proof.
  destruct sample_run as (s & c & m & Hr & Hc & Hp & Hq & Hpe & Hd & Hcur & Ht).
  exists s, c. split; [exact Hr|]. split; [exact Hc|].
  exact (no_update_missed ∅ 4 s c m "a" sample_row keyed_empty epoch_empty Hr Hc Hp Hq Hpe Hd Hcur).
Defined.
