(* ===== verification/PipelineFacts.v ===== *)
(** * From a datagram to the tables: theorems across the receiver and the consumer

    What the receiver publishes is what the consumer can store: the message decodes
    to a usable envelope, its parameters are those of the event, and acknowledging
    it means that the event's row is in both tables. *)

From S2P Require Export ServerFacts ConsumerFacts.
Import Repository Tracing UdpServer Consumer.

(** The statement parameters of an event received at [now] with origin [o], its
    warnings written as [w]. *)
Definition event_params (e : NormalizedEvent) (event_type o w : text) (now : Z) : pydict :=
  [ (txt "schema_version", VStr "1.0"); (txt "event_type", VStr event_type);
    (txt "origin", VStr o); (txt "normalized", VBool true);
    (txt "ingested_at_ms", VInt now); (txt "tag_id", VStr (tag_id e));
    (txt "ts_utc_ms", val_of_pyint (ts_utc_ms e));
    (txt "source_type", VStr (source_type e));
    (txt "status", opt_val VStr (Event.status e)); (txt "layer", opt_val val_of_pyint (layer e));
    (txt "area", opt_val VStr (area e)); (txt "x", opt_val VFloat (ev_x e));
    (txt "y", opt_val VFloat (ev_y e)); (txt "z", opt_val VFloat (ev_z e));
    (txt "lng", opt_val VFloat (lng e)); (txt "lat", opt_val VFloat (lat e));
    (txt "raw_message", VStr (raw_message e)); (txt "parse_warnings", VStr w) ].

Definition event_envelope (e : NormalizedEvent) (event_type o : text) (now : Z) : pydict :=
  Envelope.V1_build (VDict (asdict e))
    {| Envelope.cx_schema_version := "1.0"; Envelope.cx_event_type := event_type;
       Envelope.cx_origin := VStr o; Envelope.cx_normalized := true;
       Envelope.cx_ingested_at_ms := now |}.

Section Params.
Context `{Interpreter}.

Lemma dumps_texts (l : list text) : exists w, json_dumps default_style (VList (VStr <$> l)) = Ok w.
Proof.
  rewrite json_dumps_list. generalize (pred nesting_limit). intros n.
  assert (exists ys, res_mapM (dumps_at default_style n) (VStr <$> l) = Ok ys) as [ys ->].
  { induction l as [|t l [ys IH]]; [by exists []|].
    exists (json_string true t :: ys). rewrite fmap_cons. simpl. by rewrite IH. }
  by eexists.
Qed.

Lemma event_extract e event_type o now :
  exists w, json_dumps default_style (VList (VStr <$> parse_warnings e)) = Ok w /\
    extract_params (event_envelope e event_type o now) = Ok (event_params e event_type o w now).
Proof.
  destruct (dumps_texts (parse_warnings e)) as [w Hw]. exists w. split; [done|].
  unfold extract_params.
  change (dget_or "payload" (VDict []) (event_envelope e event_type o now)) with (VDict (asdict e)).
  change (get_or (VDict (asdict e)) "parse_warnings" (VList []))
    with (Ok (VList (VStr <$> parse_warnings e))).
  cbn [mbind res_bind]. rewrite Hw. reflexivity.
Qed.

End Params.

Section Pipeline.
Context `{Interpreter} `{Propagator} `{Driver} `{Process}.
Variable self : UdpServer.

(** [e], with origin [o], is the event that the receiver reads in a text: the parser's,
    or, for a text that has none for it, the normalizer's of the text's own JSON object
    less its trace fields, which the validator accepts. *)
Definition event_of (clock : pyfloat) (decoded : text) (e : NormalizedEvent) (o : text) : Prop :=
  (parser self = true /\ o = "ls-1000" /\
   exists er, Ls1000.parse_message decoded = Ok (Some e, er)) \/
  (not_ls1000 self decoded /\ o = document_origin self /\
   exists self_origin obj, json_normalizer self = Some self_origin /\
     json_loads decoded = Ok (VDict obj) /\
     accepted_document self (VDict (strip_trace_keys obj)) /\
     JsonNormalizer.normalize self_origin clock (strip_trace_keys obj) decoded = Ok (Some e)).

Lemma read_event clock decoded payload o so :
  json_normalizer self = Some so -> payload_read self clock decoded payload o ->
  exists e, payload = VDict (asdict e) /\ event_of clock decoded e o.
Proof.
  intros Hj Hr. destruct Hr as [e er Hpar Hm|v _ Hj'|so' obj e Hno Hj' Hl Ha Hn]; [|congruence|].
  - exists e. split; [done|]. left. eauto.
  - exists e. split; [done|]. right. repeat (split; [done|]). by exists so', obj.
Qed.

Lemma published_usable env data addr p so :
  config_ok self -> json_normalizer self = Some so -> prepare self env data addr = Ok p ->
  exists decoded e o now,
    utf8_decode data = Ok decoded /\ event_of (env_clock_normalize env) decoded e o /\
    JsonNormalizer.now_ms (env_clock_envelope env) = Ok now /\
    decode (msg_body {| msg_body := pub_message p; msg_headers := None |}) =
      Ok (Usable (event_envelope e (event_type self) o now) (asdict e)).
Proof.
  intros Hc Hj Hp.
  destruct (prepare_spec self env data addr p Hc Hp) as
    (port & decoded & payload & h & now & _ & Hd & _ & Hpr & Hnow & _ & _ & Hl & Hv & _).
  exists decoded. apply utf8_decode_valid in Hd as Hval.
  destruct (processed_read _ _ _ _ _ _ Hval Hpr) as (o & Ho & Hr).
  destruct (read_event _ _ _ _ _ Hj Hr) as (e & -> & He).
  exists e, o, now. do 3 (split; [done|]). unfold decode. cbn [msg_body]. rewrite Hl.
  unfold payload_origin. rewrite Ho, Hv. reflexivity.
Qed.

(** C11. From the datagram to the tables: whatever a receiver with a normalizer
    publishes, the consumer of the backend reads it as the envelope of the event of
    that datagram: the event that the LS-1000 parser reads in its text or, for a text
    that has none for the parser, the one that the normalizer reads in its JSON object
    less the trace fields, with that event's origin and the time of the receiver's
    clock.  When the consumer acknowledges the message, exactly that event's row is
    added to both tables and its envelope was broadcast; when it requeues it,
    nothing was broadcast and the tables hold all of the row or nothing of it. *)
Theorem received_event_is_stored env data addr p so :
  config_ok self -> json_normalizer self = Some so -> prepare self env data addr = Ok p ->
  exists decoded e o now w,
    utf8_decode data = Ok decoded /\ event_of (env_clock_normalize env) decoded e o /\
    JsonNormalizer.now_ms (env_clock_envelope env) = Ok now /\
    json_dumps default_style (VList (VStr <$> parse_warnings e)) = Ok w /\
    forall headers s,
      let '(d, s') := app_on_message {| msg_body := pub_message p; msg_headers := headers |} s in
      let stored_row := exists r, row_of (event_params e (event_type self) o w now) = Ok r /\
                                  tables s' = apply_row (tables s) r in
      match d with
      | Acked => stored_row /\
          st_broadcast s' = Broadcast.publish (event_envelope e (event_type self) o now) (st_broadcast s)
      | Requeued => (tables s' = tables s \/ stored_row) /\ st_broadcast s' = st_broadcast s
      end.
Proof.
  intros Hc Hj Hp. destruct (published_usable env data addr p so Hc Hj Hp)
    as (decoded & e & o & now & Hd & He & Hnow & Hdec).
  destruct (event_extract e (event_type self) o now) as (w & Hw & Hx).
  exists decoded, e, o, now, w. do 4 (split; [done|]). intros headers s.
  assert (forall s', stored (event_envelope e (event_type self) o now) (tables s) (tables s') ->
            exists r, row_of (event_params e (event_type self) o w now) = Ok r /\
                      tables s' = apply_row (tables s) r) as Hst.
  { intros s' (params & r & Hps & Hr & Ht). rewrite Hx in Hps. injection Hps as <-. by exists r. }
  pose proof (app_usable _ _ {| msg_body := pub_message p; msg_headers := headers |} s Hdec) as Hu.
  destruct (app_on_message _ s) as [d s']. cbn [fst snd] in Hu.
  inversion Hu as [s1 Hs Hb _|s1 Hs Hb _|]; subst; [by split; [apply Hst|]| |by split; [left|]].
  split; [|done]. destruct Hs as [Hs|Hs]; [by left|right; by apply Hst].
Qed.
End Pipeline.

(** ** A concrete run *)

Definition sample_prepared : res publication :=
  prepare (H := ascii_unicode) (H0 := plain_propagator) (sample_server "1.0") sample_env
    display_datagram sample_addr.

Definition consumed (p : publication) : disposition * state :=
  app_on_message (H := ascii_unicode) (H0 := plain_propagator) (H3 := aio_pika_process)
    {| msg_body := pub_message p; msg_headers := None |} sample_state.

Lemma sample_acked : (p ← sample_prepared; Ok (consumed p).1) = Ok Acked.
Proof. vm_compute. reflexivity. Qed.

Lemma received_event_is_stored_witness :
  exists p s', sample_prepared = Ok p /\ consumed p = (Acked, s') /\
    exists e r o now w, row_of (event_params e "position" o w now) = Ok r /\
      tables s' = apply_row (tables sample_state) r.
Proof.
  pose proof sample_acked as Hd. destruct sample_prepared as [p|?] eqn:E; [|discriminate Hd].
  destruct (received_event_is_stored (H := ascii_unicode) (H0 := plain_propagator)
              (H3 := aio_pika_process) (sample_server "1.0") sample_env display_datagram sample_addr
              p "stream" (sample_config_ok _) eq_refl E)
    as (decoded & e & o & now & w & _ & _ & _ & _ & Hs).
  specialize (Hs None sample_state). fold (consumed p) in Hs. cbn [mbind res_bind] in Hd.
  destruct (consumed p) as [d s'] eqn:Ec. injection Hd as ->.
  exists p, s'. split; [reflexivity|]. split; [exact Ec|].
  destruct Hs as [(r & Hr & Ht) _]. exists e, r, o, now, w. split; [exact Hr|exact Ht].
Defined.
