(* ===== verification/Api.v ===== *)
(** * The HTTP API: [backend/api/] and the middleware of [backend/app.py]

    The web framework is an interface: it checks the bounds that the code declares
    for its query parameters ([Query]), builds the response models and renders the
    responses. *)

From S2P Require Export Repository.
Import Repository.

Module Api.

(** The declaration [Query(default, ge=..., le=...)] of an integer parameter *)
Record Query := { q_default : option Z; q_ge : option Z; q_le : option Z }.

Definition in_bounds (q : Query) (z : Z) : bool :=
  match q_ge q with Some lo => (lo <=? z)%Z | None => true end &&
  match q_le q with Some hi => (z <=? hi)%Z | None => true end.

(** The fields of the model [PositionOut] *)
Inductive field_type := FStr | FInt | FFloat.
Record field := { f_name : text; f_type : field_type; f_optional : bool }.

Definition field_of (name : text) (ty : field_type) : field :=
  {| f_name := name; f_type := ty; f_optional := false |}.
Definition optional_field (name : text) (ty : field_type) : field :=
  {| f_name := name; f_type := ty; f_optional := true |}.

Definition PositionOut_fields : list field :=
  [ field_of "tag_id" FStr; field_of "ts_utc_ms" FInt; field_of "source_type" FStr;
    field_of "origin" FStr; optional_field "status" FStr; optional_field "layer" FInt;
    optional_field "area" FStr; optional_field "x" FFloat; optional_field "y" FFloat;
    optional_field "z" FFloat; optional_field "lng" FFloat; optional_field "lat" FFloat ].

(** A value of the field's declared type *)
Definition field_accepts (f : field) (v : pyval) : bool :=
  match v, f_type f with
  | VNone, _ => f_optional f
  | VStr _, FStr | VInt _, FInt | VFloat _, FFloat => true
  | _, _ => false
  end.

(** What UTF-8 and the digits of an integer can always be written of *)
Definition writable (v : pyval) : bool :=
  match v with
  | VStr s => is_ok (utf8_encode s)
  | VInt z => Migrations.in_int8 z
  | _ => true
  end.

Definition position_accepted (d : pydict) : bool :=
  forallb (fun f => field_accepts f (dget_none (f_name f) d)) PositionOut_fields.
Definition position_writable (d : pydict) : bool :=
  forallb (fun f => writable (dget_none (f_name f) d)) PositionOut_fields.

(** None of the values is NaN or an infinity. *)
Definition position_finite (d : pydict) : bool :=
  forallb (fun f => match dget_none (f_name f) d with VFloat x => is_finite x | _ => true end)
    PositionOut_fields.

(** What the code relies on of FastAPI and pydantic: the value of a declared
    parameter ([None] where the request is answered with status 422), the model
    [PositionOut], which takes values of the declared types, and the rendering of the
    response: [JSONResponse] writes strict JSON ([allow_nan=False]), so that a NaN or an
    infinity raises [ValueError]. *)
Class Framework := {
  query_value : Query -> option Z -> option Z;
  query_value_spec q given z : query_value q given = Some z ->
    in_bounds q z = true /\ (given = Some z \/ given = None /\ q_default q = Some z);
  position_out : Type;
  PositionOut : pydict -> res position_out;
  PositionOut_accepts d : position_accepted d = true -> is_ok (PositionOut d) = true;
  render : list position_out -> pyval -> res bytes;
  render_strict ds ms z :
    Forall2 (fun d m => PositionOut d = Ok m) ds ms ->
    forallb position_accepted ds = true -> forallb position_writable ds = true ->
    Migrations.in_int8 z = true ->
    is_ok (render ms (VInt z)) = forallb position_finite ds;
}.

(** ** [positions.py] *)

Definition limit_query : Query := {| q_default := Some 100%Z; q_ge := Some 1%Z; q_le := Some 1000%Z |}.
Definition offset_query : Query := {| q_default := Some 0%Z; q_ge := Some 0%Z; q_le := None |}.

Section Endpoints.
Context `{Driver} `{Framework}.

Record PositionHistoryResponse := { items : list position_out; total : pyval }.

(** The body of [position_history], on the values of its parameters *)
Definition position_history (tag_id : text) (from_ts to_ts : option Z) (limit offset : Z) :
    io session PositionHistoryResponse :=
  p ← with_connection
        (rows ← get_position_history tag_id from_ts to_ts limit offset;
         total ← count_position_history tag_id from_ts to_ts;
         mret (rows, total));
  items ← io_res (res_mapM PositionOut p.1);
  mret {| items := items; total := p.2 |}.

(** A request to [/positions/history] *)
Record history_request := {
  rq_tag_id : option text; rq_from_ts : option Z; rq_to_ts : option Z;
  rq_limit : option Z; rq_offset : option Z;
}.

(** The endpoint: [None] is status 422, without a call of the handler. *)
Definition get_history (rq : history_request) : io session (option PositionHistoryResponse) :=
  match rq_tag_id rq, query_value limit_query (rq_limit rq), query_value offset_query (rq_offset rq) with
  | Some tag, Some limit, Some offset =>
      r ← position_history tag (rq_from_ts rq) (rq_to_ts rq) limit offset;
      mret (Some r)
  | _, _, _ => mret None
  end.

(** What FastAPI makes of the handler's model; an exception is status 500. *)
Definition respond (r : PositionHistoryResponse) : res bytes := render (items r) (total r).

Definition answer_history (rq : history_request) : io session (option bytes) :=
  r ← get_history rq;
  match r with
  | Some resp => body ← io_res (respond resp); mret (Some body)
  | None => mret None
  end.

(** ** [health.py] *)

Record JSONResponse := { status_code : Z; content : pydict }.

Definition health_ok : JSONResponse :=
  {| status_code := 200; content := [(txt "status", VStr "ok"); (txt "database", VStr "ok")] |}.
Definition health_degraded : JSONResponse :=
  {| status_code := 503;
     content := [(txt "status", VStr "degraded"); (txt "database", VStr "unavailable")] |}.

(** [build_health_response]: every exception of the probe reads as [False]. *)
Definition build_health_response (s : session) : JSONResponse * session :=
  let '(r, s') := probe_database s in
  (if match r with Ok database_ok => database_ok | Raise _ => false end
   then health_ok else health_degraded, s').
End Endpoints.

(** ** The middleware of [create_app] *)

(** [HTTP_REQUEST_COUNT] and [HTTP_REQUEST_LATENCY], by their labels *)
Record http_metrics := {
  request_count : gmap (text * text * Z) nat;
  request_latency : gmap (text * text) nat;   (* number of observations *)
}.

Definition no_requests : http_metrics := {| request_count := ∅; request_latency := ∅ |}.

Definition bump {K} `{Countable K} (k : K) (m : gmap K nat) : gmap K nat :=
  <[k := S (default 0 (m !! k))]> m.

(** [_prometheus_middleware]; [response] is what [call_next] returns or raises. *)
Definition prometheus_middleware (method path : text) (response : res Z) (m : http_metrics) :
    res Z * http_metrics :=
  if text_eqb path "/metrics" then (response, m)
  else match response with
       | Raise e => (Raise e, m)
       | Ok status =>
           (Ok status,
            {| request_count := bump (method, path, status) (request_count m);
               request_latency := bump (method, path) (request_latency m) |})
       end.

Record exchange := { ex_method : text; ex_path : text; ex_response : res Z }.

Definition serve (exchanges : list exchange) (m : http_metrics) : http_metrics :=
  foldl (fun m x => (prometheus_middleware (ex_method x) (ex_path x) (ex_response x) m).2) m exchanges.

End Api.
