(* ===== verification/ApiFacts.v ===== *)
(** * The HTTP API: theorems

    The history endpoint with its bounds and its paging, the health endpoint, and
    the request counters. *)

From S2P Require Export Api HistoryFacts.
Import Repository Api.

Section Endpoints.
Context `{Driver} `{Framework}.

(** A block of reads: it leaves the durable tables alone and sees them. *)
Lemma with_connection_reads {A} (body : io session A) (Q : database -> A -> Prop) s a s' :
  (forall s1 r s2, body s1 = (r, s2) ->
     match r with
     | Ok a => visible s2 = visible s1 /\ committed s2 = committed s1 /\ Q (visible s1) a
     | Raise _ => True
     end) ->
  with_connection body s = (Ok a, s') -> committed s' = committed s /\ Q (committed s) a.
Proof.
  intros Hbody. unfold with_connection.
  destruct (acquire s) as [[[]|e] s1] eqn:Ea; [|done].
  destruct (acquire_idle _ _ _ Ea) as [Hc Hi]. specialize (Hi eq_refl).
  destruct (body s1) as [[a'|e] s2] eqn:Eb; [|done]. specialize (Hbody _ _ _ Eb) as (Hv2 & Hc2 & HQ).
  destruct (exit_ok s2) as [[[]|e] s3] eqn:Ee; [|done]. intros [= <- <-].
  rewrite <-Hc, <-Hi. split; [|done].
  destruct (exit_ok_commits _ _ _ Ee) as [->|[-> _]]; congruence.
Qed.

Lemma res_mapM_length {A B} (f : A -> res B) l l' : res_mapM f l = Ok l' -> length l' = length l.
Proof.
  revert l'. induction l as [|x l IH]; simpl; intros l' Hl; [by injection Hl as <-|].
  apply bind_Ok in Hl as (y & _ & Hl). apply bind_Ok in Hl as (ys & Hys & Hl).
  injection Hl as <-. simpl. by rewrite (IH _ Hys).
Qed.


Lemma NoDup_fmap_elem {A B} (f : A -> B) l x y :
  NoDup (f <$> l) -> x ∈ l -> y ∈ l -> f x = f y -> x = y.
Proof.
  induction l as [|z l IH]; [by intros _ ?%elem_of_nil|]. rewrite fmap_cons.
  intros [Hz Hl]%NoDup_cons [->|Hx]%elem_of_cons [->|Hy]%elem_of_cons Hf; [done|..].
  - destruct Hz. rewrite Hf. by apply list_elem_of_fmap_2.
  - destruct Hz. rewrite <-Hf. by apply list_elem_of_fmap_2.
  - by apply IH.
Qed.

(** Paging: when the events of the tag in the window have distinct timestamps,
    a page and the page that starts where it ends are together the page of twice
    the size; without that assumption the query fixes no order among equals. *)
Theorem history_pages_tile db tag from_ts to_ts limit offset p1 p2 :
  (0 <= limit)%Z -> (0 <= offset)%Z ->
  NoDup (r_ts <$> history_matches tag from_ts to_ts db) ->
  history_page db tag from_ts to_ts limit offset p1 ->
  history_page db tag from_ts to_ts limit (offset + limit) p2 ->
  history_page db tag from_ts to_ts (2 * limit) offset (p1 ++ p2).
Proof.
  intros Hl Ho Hd (l & Hp & Hs & ->) (l' & Hp' & Hs' & ->).
  assert (l' = l) as ->.
  { apply (StronglySorted_unique_strong ts_desc); [|done|done|by rewrite Hp, Hp'].
    intros x y Hx Hy Hxy Hyx. apply (NoDup_fmap_elem r_ts (history_matches tag from_ts to_ts db));
      [done|by rewrite <-Hp'|by rewrite <-Hp|]. unfold ts_desc in *. lia. }
  exists l. split; [done|]. split; [done|].
  replace (Z.to_nat (offset + limit)) with (Z.to_nat offset + Z.to_nat limit) by lia.
  replace (Z.to_nat (2 * limit)) with (Z.to_nat limit + Z.to_nat limit) by lia.
  by rewrite <-drop_drop, take_take_drop.
Qed.

Lemma runs_probe p db db' rows : runs (txt "SELECT 1") p db db' rows -> db' = db /\ rows = [[VInt 1]].
Proof.
  intros Hr. remember (txt "SELECT 1") as q eqn:Eq.
  destruct Hr as [p db r Hr|p db r Hr|p db l Hl Hs|f t p db tag a b li o l|f t p db tag a b|p db];
    try done; try (vm_compute in Eq; discriminate Eq);
    destruct f, t; vm_compute in Eq; discriminate Eq.
Qed.

(** The health endpoint answers 200 exactly when the database can be reached (a
    connection is acquired, the probe runs and the connection is given back), and
    503 otherwise; it never raises and changes no table. *)
Theorem health_spec s :
  let '(resp, s') := build_health_response s in
  resp = (if is_ok (probe_database s).1 then health_ok else health_degraded) /\
  status_code resp = (if is_ok (probe_database s).1 then 200 else 503)%Z /\
  committed s' = committed s.
Proof.
  unfold build_health_response, probe_database, with_connection.
  destruct (acquire s) as [[[]|e] s1] eqn:Ea; destruct (acquire_idle _ _ _ Ea) as [Hc Hi]; [|done].
  specialize (Hi eq_refl). unfold mbind, io_bind.
  destruct (execute "SELECT 1" [] s1) as [[rows|e] s2] eqn:Ex.
  2: { apply execute_raise in Ex. by rewrite exit_raise_rolls_back, Ex. }
  destruct (execute_ok _ _ _ _ _ Ex) as [Hc2 Hv2].
  specialize (Hv2 ltac:(do 2 eexists; apply run_probe)).
  apply runs_probe in Hv2 as [Hv2 ->].
  unfold mret, io_ret. destruct (exit_ok s2) as [[[]|e] s3] eqn:Ee;
    destruct (exit_ok_commits _ _ _ Ee) as [Hx|[Hx _]]; cbn [is_ok];
    (split; [done|]; split; [done|]).
  all: rewrite Hx; congruence.
Qed.
End Endpoints.

(** ** The request counters *)

Definition counted (m p : text) (st : Z) (x : exchange) : bool :=
  text_eqb (ex_method x) m && text_eqb (ex_path x) p && negb (text_eqb p "/metrics") &&
  match ex_response x with Ok st' => (st' =? st)%Z | Raise _ => false end.

Lemma bump_lookup {K} `{Countable K} (k k' : K) (m : gmap K nat) :
  default 0 (bump k m !! k') = default 0 (m !! k') + (if decide (k = k') then 1 else 0).
Proof.
  unfold bump. destruct (decide (k = k')) as [->|Hne].
  - rewrite lookup_insert_eq. simpl. lia.
  - rewrite lookup_insert_ne by done. lia.
Qed.

(** [http_requests_total] for a method, path and status is the number of the
    requests that were answered so, in any sequence of requests; the scrapes of
    [/metrics] and the requests whose handler raised are not counted. *)
Theorem requests_counted exchanges m p st :
  default 0 (request_count (serve exchanges no_requests) !! (m, p, st)) =
  length (List.filter (counted m p st) exchanges).
Proof.
  assert (forall m0, default 0 (request_count (serve exchanges m0) !! (m, p, st)) =
    default 0 (request_count m0 !! (m, p, st)) + length (List.filter (counted m p st) exchanges)) as Hg.
  2: { rewrite Hg. unfold no_requests. cbn [request_count]. by rewrite lookup_empty. }
  induction exchanges as [|x xs IH]; intros m0; [simpl; lia|].
  cbn [serve foldl List.filter]. fold (serve xs). 
  change (foldl _ ?a xs) with (serve xs a). rewrite IH. clear IH.
  unfold prometheus_middleware, counted.
  destruct (text_eqb (ex_path x) "/metrics") eqn:Em; cbn [snd].
  - apply text_eqb_eq in Em. rewrite Em.
    destruct (text_eqb "/metrics" p) eqn:Ep; [|by rewrite andb_false_r].
    apply text_eqb_eq in Ep. subst p. rewrite text_eqb_refl. cbn [negb].
    by rewrite andb_false_r.
  - destruct (ex_response x) as [st'|e]; cbn [request_count snd]; [|rewrite !andb_false_r; lia].
    rewrite bump_lookup. destruct (decide _) as [[= <- <- ->]|Hne].
    + rewrite !text_eqb_refl, Em, Z.eqb_refl. simpl. lia.
    + destruct (text_eqb (ex_method x) m && text_eqb (ex_path x) p && negb (text_eqb p "/metrics") && (st' =? st)%Z) eqn:E; [|lia].
      rewrite !andb_true_iff, !text_eqb_eq, Z.eqb_eq in E. destruct Hne. naive_solver.
Qed.

(** ** Concrete requests *)

Definition plain_query_value (q : Query) (given : option Z) : option Z :=
  z ← match given with Some z => Some z | None => q_default q end;
  if in_bounds q z then Some z else None.

#[program] Definition plain_framework : Framework :=
  {| query_value := plain_query_value; position_out := pydict; PositionOut := fun row => Ok row;
     render := fun items _ =>
       if forallb position_finite items then Ok []
       else raise ValueError "Out of range float values are not JSON compliant" |}.
Next Obligation.
  intros q given z. unfold plain_query_value. destruct given as [z'|]; simpl.
  - destruct (in_bounds q z') eqn:E; [|done]. intros [= <-]. auto.
  - destruct (q_default q) as [z'|]; [|done]. simpl.
    destruct (in_bounds q z') eqn:E; [|done]. intros [= <-]. auto.
Qed.
Next Obligation. done. Qed.
Next Obligation.
  intros ds ms z Hall _ _ _. assert (ds = ms) as ->.
  { induction Hall as [|d m ds ms Hd _ IH]; [done|]. injection Hd as ->. by rewrite IH. }
  by destruct (forallb _ _).
Qed.

Definition sample_request : history_request :=
  {| rq_tag_id := Some (txt "a"); rq_from_ts := Some 1%Z; rq_to_ts := None; rq_limit := None;
     rq_offset := Some 1%Z |}.


Lemma history_pages_tile_witness :
  exists p1 p2, history_page sample_database "a" None None 1 0 p1 /\
    history_page sample_database "a" None None 1 1 p2 /\
    history_page sample_database "a" None None 2 0 (p1 ++ p2) /\ length (p1 ++ p2) = 2.
Proof.
  set (l := merge_sort ts_desc (history_matches "a" None None sample_database)).
  assert (l ≡ₚ history_matches "a" None None sample_database) as Hp by apply merge_sort_Permutation.
  assert (StronglySorted ts_desc l) as Hs by (apply StronglySorted_merge_sort; apply _).
  exists (take 1 (drop 0 l)), (take 1 (drop 1 l)).
  assert (history_page sample_database "a" None None 1 0 (take 1 (drop 0 l))) as H1 by (by exists l).
  assert (history_page sample_database "a" None None 1 1 (take 1 (drop 1 l))) as H2 by (by exists l).
  split; [exact H1|]. split; [exact H2|]. split; [|vm_compute; reflexivity].
  apply (history_pages_tile sample_database "a" None None 1 0); [lia|lia| |exact H1|exact H2].
  apply (bool_decide_unpack (NoDup (A := Z) _)). vm_compute. exact I.
Defined.
