(* ===== verification/App.v ===== *)
(** * Consumer start-up and shutdown: [_run_consumer] and [_lifespan] of
    [backend/app.py], [main] of [backend/consumer.py]

    A connection to the broker is a number, in order of creation.  What the broker
    and the event loop do during one turn of the retry loop is the input [attempt];
    an exception of an awaited call is an [Exception] (cancellation, which no
    handler of the loop catches, is not among the inputs). *)

From S2P Require Export Prelude.

Module App.

(** The awaited calls that set a connection up, in the order of the code. *)
Inductive action := OpenChannel | SetQos | DeclareExchange | DeclareQueue | Bind | Consume.

Definition setup : list action := [OpenChannel; SetQos; DeclareExchange; DeclareQueue; Bind; Consume].

Inductive effect :=
  | Connecting
  | Connected (id : nat)
  | Did (id : nat) (a : action)
  | Closed (id : nat)
  | CloseFailed (id : nat)
  | ClosePool.

(** One turn of the loop: whether the stop event is set at its head, whether each
    call raises, whether it is set within the retry delay, and whether the
    connection is found closed when the turn ends. *)
Record attempt := {
  at_stop : bool;
  at_connect : option exn;
  at_setup : action -> option exn;
  at_delay : bool;
  at_lost : bool;
  at_close : option exn;
}.

(** The local variable [connection], the open connections and the effects. *)
Record consumer := {
  created : nat;
  connection : option nat;
  open_connections : list nat;
  log : list effect;
}.

Definition fresh : consumer :=
  {| created := 0; connection := None; open_connections := []; log := [] |}.

Definition emit (es : list effect) (s : consumer) : consumer :=
  {| created := created s; connection := connection s; open_connections := open_connections s;
     log := log s ++ es |}.

Definition drop_connection (id : nat) (es : list effect) (s : consumer) : consumer :=
  {| created := created s; connection := connection s;
     open_connections := List.filter (fun i => negb (i =? id)) (open_connections s);
     log := log s ++ es |}.

(** [connection = await aio_pika.connect_robust(url)] *)
Definition connect (s : consumer) : nat * consumer :=
  (created s, {| created := S (created s); connection := Some (created s);
                 open_connections := created s :: open_connections s;
                 log := log s ++ [Connected (created s)] |}).

(** The calls up to the first that raises *)
Fixpoint run_setup (raises : action -> option exn) (id : nat) (actions : list action) (s : consumer) :
    option exn * consumer :=
  match actions with
  | [] => (None, s)
  | a :: rest => match raises a with
                 | Some e => (Some e, s)
                 | None => run_setup raises id rest (emit [Did id a] s)
                 end
  end.

(** The [try] block up to the wait for the stop event *)
Definition try_consume (a : attempt) (s : consumer) : option exn * consumer :=
  let s := emit [Connecting] s in
  match at_connect a with
  | Some e => (Some e, s)
  | None => let '(id, s) := connect s in run_setup (at_setup a) id setup s
  end.

(** The [finally] block *)
Definition release (a : attempt) (s : consumer) : option exn * consumer :=
  match connection s with
  | None => (None, s)
  | Some id =>
      let s := if at_lost a then drop_connection id [] s else s in
      if existsb (Nat.eqb id) (open_connections s) then
        match at_close a with
        | None => (None, drop_connection id [Closed id] s)
        | Some e => (Some e, emit [CloseFailed id] s)
        end
      else (None, s)
  end.

Inductive status := Running | Ended | Crashed (e : exn).

(** One turn of the [while] loop *)
Definition turn (a : attempt) (s : consumer) : status * consumer :=
  if at_stop a then (Ended, s)
  else
    let '(failed, s) := try_consume a s in
    let '(raised, s) := release a s in
    match raised with
    | Some e => (Crashed e, s)
    | None =>
        match failed with
        | None => (Ended, s)                       (* stop_event.wait(); break *)
        | Some _ => (if at_delay a then Ended else Running, s)
        end
    end.

Fixpoint run_consumer (attempts : list attempt) (s : consumer) : status * consumer :=
  match attempts with
  | [] => (Running, s)
  | a :: rest => match turn a s with
                 | (Running, s') => run_consumer rest s'
                 | (st, s') => (st, s')
                 end
  end.

(** ** [_lifespan] *)

(** The shutdown half: [stop_event.set()], then the task is awaited, which raises
    what the task raised, then the pool is closed. *)
Definition shutdown (task : status) (s : consumer) : option exn * consumer :=
  match task with
  | Crashed e => (Some e, s)
  | _ => (None, emit [ClosePool] s)
  end.

(** ** [main] of the standalone consumer *)

(** The signals for which the loop gets a handler, [stop_event.set]; others keep their
    default action and are not among the inputs. *)
Inductive signal := SIGINT | SIGTERM.

Definition handled_signals : list signal := [SIGINT; SIGTERM].

Definition signal_eqb (x y : signal) : bool :=
  match x, y with SIGINT, SIGINT | SIGTERM, SIGTERM => true | _, _ => false end.

(** The stop event after the signals that were received *)
Definition stop_event (received : list signal) : bool :=
  existsb (fun x => existsb (signal_eqb x) handled_signals) received.

(** [__aexit__] of the connection and what follows it *)
Definition leave (a : attempt) (id : nat) (failed : option exn) (s : consumer) : option exn * consumer :=
  match at_close a with
  | Some e => (Some e, emit [CloseFailed id] s)
  | None =>
      let s := drop_connection id [Closed id] s in
      match failed with
      | Some e => (Some e, s)
      | None => (None, emit [ClosePool] s)
      end
  end.

(** One connection without retry; [async with connection] closes it on every exit,
    the pool is closed after a normal one.  [None]: it waits for the stop event. *)
Definition main (a : attempt) (received : list signal) (s : consumer) : option (option exn) * consumer :=
  let s := emit [Connecting] s in
  match at_connect a with
  | Some e => (Some (Some e), s)
  | None =>
      let '(id, s) := connect s in
      let '(failed, s) := run_setup (at_setup a) id setup s in
      match failed, stop_event received with
      | None, false => (None, s)
      | _, _ => let '(raised, s) := leave a id failed s in (Some raised, s)
      end
  end.

End App.
