(* ===== verification/AppFacts.v ===== *)
(** * Consumer start-up and shutdown: theorems

    The retry loop never gives up before it is told to stop, consumes only through
    a connection that was set up in order, and leaves no connection open. *)

From S2P Require Export App.
Import App.

(** The calls that a set-up performs before the first that raises *)
Fixpoint performed (raises : action -> option exn) (actions : list action) : list action :=
  match actions with
  | [] => []
  | a :: rest => match raises a with Some _ => [] | None => a :: performed raises rest end
  end.

(** The connection is made and set up. *)
Definition succeeds (a : attempt) : bool :=
  match at_connect a with
  | Some _ => false
  | None => forallb (fun x => match at_setup a x with None => true | Some _ => false end) setup
  end.

(** The effects of one turn, [id] being the next connection. *)
Definition attempt_log (id : nat) (a : attempt) : list effect :=
  Connecting ::
  match at_connect a with
  | Some _ => []
  | None => Connected id :: (Did id <$> performed (at_setup a) setup) ++
            (if at_lost a then [] else [Closed id])
  end.

Definition connections_of (a : attempt) : nat :=
  match at_connect a with Some _ => 0 | None => 1 end.

Fixpoint attempts_log (id : nat) (attempts : list attempt) : list effect :=
  match attempts with
  | [] => []
  | a :: rest => attempt_log id a ++ attempts_log (id + connections_of a) rest
  end.

Definition connections (attempts : list attempt) : nat :=
  foldr (fun a n => connections_of a + n) 0 attempts.

(** Between turns no connection is open. *)
Definition idle (s : consumer) : Prop :=
  open_connections s = [] /\ (forall id, connection s = Some id -> id < created s).

Lemma run_setup_spec raises id actions s :
  run_setup raises id actions s =
  ((run_setup raises id actions s).1, emit (Did id <$> performed raises actions) s) /\
  ((run_setup raises id actions s).1 = None <->
   forallb (fun x => match raises x with None => true | Some _ => false end) actions = true).
Proof.
  revert s. induction actions as [|a rest IH]; intros s; simpl.
  - split; [|done]. destruct s. unfold emit. simpl. by rewrite app_nil_r.
  - destruct (raises a) as [e|]; simpl.
    + split; [|done]. destruct s. unfold emit. simpl. by rewrite app_nil_r.
    + destruct (IH (emit [Did id a] s)) as [-> Hn]. split; [|done].
      f_equal. unfold emit. simpl. by rewrite <-app_assoc.
Qed.

Lemma existsb_self id l : existsb (Nat.eqb id) (id :: l) = true.
Proof. simpl. by rewrite Nat.eqb_refl. Qed.

Lemma release_idle a s : idle s -> release a s = (None, s) \/
  exists id, connection s = Some id /\ release a s = (None, if at_lost a then drop_connection id [] s else s).
Proof.
  intros [Ho Hid]. unfold release. destruct (connection s) as [id|]; [right|by left].
  exists id. split; [done|]. destruct (at_lost a); simpl; by rewrite Ho.
Qed.

Lemma drop_idle id s : open_connections s = [] -> drop_connection id [] s = s.
Proof. intros Ho. destruct s. unfold drop_connection. simpl in *. subst. by rewrite app_nil_r. Qed.

Lemma turn_spec a s :
  idle s -> at_stop a = false -> at_close a = None ->
  exists s', turn a s = (if succeeds a || at_delay a then Ended else Running, s') /\ idle s' /\
    log s' = log s ++ attempt_log (created s) a /\ created s' = created s + connections_of a.
Proof.
  intros Hi Hs Hc. destruct Hi as [Ho Hid]. unfold turn, try_consume, succeeds, attempt_log, connections_of.
  rewrite Hs. destruct (at_connect a) as [e|] eqn:Ec.
  - assert (idle (emit [Connecting] s)) as Hi by done.
    eexists. split; [|split; [exact Hi|]; simpl; by rewrite Nat.add_0_r].
    destruct (release_idle a _ Hi) as [->|(id & _ & ->)]; [by destruct (at_delay a)|].
    rewrite drop_idle by done. by destruct (at_lost a), (at_delay a).
  - cbn [connect]. set (s1 := {| created := _ |}).
    destruct (run_setup_spec (at_setup a) (created (emit [Connecting] s)) setup s1) as [-> Hn].
    set (r := (run_setup _ _ _ _).1) in *. cbn [emit created] in *.
    assert (match r with None => true | Some _ => false end =
            forallb (fun x => match at_setup a x with None => true | Some _ => false end) setup) as <-.
    { destruct r, (forallb _ _); naive_solver. }
    unfold release. cbn [emit connection s1].
    destruct (at_lost a) eqn:El; cbn [drop_connection open_connections emit s1].
    + cbn [List.filter]. rewrite Nat.eqb_refl, Ho. cbn [negb List.filter existsb].
      eexists. split; [destruct r, (at_delay a); reflexivity|]. split; [split; simpl; [by rewrite Nat.eqb_refl, Ho|intros ? [= <-]; lia]|].
      simpl. split; [|lia]. by rewrite app_nil_r, <-!app_assoc, app_nil_r.
    + rewrite existsb_self, Hc. eexists. split; [destruct r, (at_delay a); reflexivity|].
      split; [split; simpl; [by rewrite Nat.eqb_refl, Ho|intros ? [= <-]; lia]|].
      simpl. split; [|lia]. by rewrite <-!app_assoc.
Qed.

Lemma run_failing attempts s rest :
  idle s ->
  Forall (fun a => at_stop a = false /\ at_close a = None /\ succeeds a || at_delay a = false) attempts ->
  exists s', run_consumer (attempts ++ rest) s = run_consumer rest s' /\ idle s' /\
    log s' = log s ++ attempts_log (created s) attempts /\
    created s' = created s + connections attempts.
Proof.
  intros Hi Hf. revert s Hi. induction Hf as [|a attempts (Hs & Hc & Hd) Hf IH]; intros s Hi.
  - exists s. simpl. rewrite app_nil_r. split; [done|]. split; [done|]. split; [done|].
    cbn [connections foldr]. lia.
  - destruct (turn_spec a s Hi Hs Hc) as (s1 & Ht & Hi1 & Hl1 & Hc1).
    destruct (IH s1 Hi1) as (s2 & Hr & Hi2 & Hl2 & Hc2). exists s2.
    cbn [app run_consumer]. rewrite Ht, Hd. split; [done|]. split; [done|].
    rewrite Hl2, Hl1, Hc2, Hc1, <-app_assoc. split; [done|]. cbn [connections foldr]. fold (connections attempts). lia.
Qed.

Lemma run_idle attempts s st s' :
  idle s -> Forall (fun a => at_close a = None) attempts -> run_consumer attempts s = (st, s') ->
  idle s' /\ (st = Running \/ st = Ended).
Proof.
  intros Hi Hc. revert s Hi. induction Hc as [|a attempts Hca Hc IH]; intros s Hi; simpl.
  - intros [= <- <-]. auto.
  - destruct (at_stop a) eqn:Es.
    { unfold turn. rewrite Es. intros [= <- <-]. auto. }
    destruct (turn_spec a s Hi Es Hca) as (s1 & -> & Hi1 & _).
    destruct (succeeds a || at_delay a); [intros [= <- <-]; auto|by apply IH].
Qed.

Lemma fresh_idle : idle fresh.
Proof. split; [done|]. by intros ? [=]. Qed.

(** C29. The consumer retries for ever, as long as closing a connection does not raise
    (in the [finally] block that would end the task) and it is not told to stop: through
    any number of failing attempts (the broker unreachable, or any call of the set-up
    raising) it keeps running, each attempt connecting anew and closing what it had
    opened, and the first attempt that succeeds ends the retries with one connection
    that was set up in order: channel, prefetch limit, exchange, queue, binding, and only
    then consuming. *)
Theorem consumer_retries attempts a rest :
  Forall (fun a => at_stop a = false /\ at_close a = None /\ succeeds a || at_delay a = false) attempts ->
  at_stop a = false -> at_close a = None -> succeeds a = true -> at_lost a = false ->
  let id := connections attempts in
  exists s, run_consumer (attempts ++ a :: rest) fresh = (Ended, s) /\
    open_connections s = [] /\
    log s = attempts_log 0 attempts ++ [Connecting; Connected id] ++ (Did id <$> setup) ++ [Closed id].
Proof.
  intros Hf Hs Hc Hok Hl. destruct (run_failing attempts fresh (a :: rest) fresh_idle Hf)
    as (s1 & -> & Hi1 & Hl1 & Hc1).
  destruct (turn_spec a s1 Hi1 Hs Hc) as (s2 & Ht & Hi2 & Hl2 & _).
  exists s2. cbn [run_consumer]. rewrite Ht, Hok. split; [done|]. split; [apply Hi2|].
  rewrite Hl2, Hl1, Hc1. cbn [log fresh created app]. rewrite <-?app_assoc. f_equal.
  unfold attempt_log. rewrite Hl. unfold succeeds in Hok. destruct (at_connect a); [done|].
  cbn [app]. do 2 f_equal. f_equal. f_equal.
  unfold setup in *. cbn [forallb performed] in *.
  repeat (destruct (at_setup a _); [rewrite ?andb_false_r in Hok; done|]). done.
Qed.

(** However the loop goes on and ends, no connection stays open and the task does
    not raise, so that the shutdown of the application closes the pool; this needs
    that closing a connection does not raise. *)
Theorem consumer_releases attempts :
  Forall (fun a => at_close a = None) attempts ->
  let '(st, s) := run_consumer attempts fresh in
  open_connections s = [] /\ (st = Running \/ st = Ended) /\
  shutdown st s = (None, emit [ClosePool] s).
Proof.
  intros Hc. destruct (run_consumer attempts fresh) as [st s] eqn:E.
  destruct (run_idle _ _ _ _ fresh_idle Hc E) as [[Ho _] [->| ->]]; auto.
Qed.

(** ** Concrete runs *)

Definition quiet : attempt :=
  {| at_stop := false; at_connect := None; at_setup := fun _ => None; at_delay := false;
     at_lost := false; at_close := None |}.
Definition unreachable : attempt :=
  {| at_stop := false; at_connect := Some (Exn OSError "refused"); at_setup := fun _ => None;
     at_delay := false; at_lost := false; at_close := None |}.
Definition no_queue : attempt :=
  {| at_stop := false; at_connect := None;
     at_setup := fun a => match a with DeclareQueue => Some (Exn Foreign "precondition") | _ => None end;
     at_delay := false; at_lost := false; at_close := None |}.

Lemma consumer_retries_witness :
  exists s, run_consumer ([unreachable; no_queue] ++ [quiet]) fresh = (Ended, s) /\
    open_connections s = [] /\
    log s = [Connecting; Connecting; Connected 0; Did 0 OpenChannel; Did 0 SetQos;
             Did 0 DeclareExchange; Closed 0; Connecting; Connected 1; Did 1 OpenChannel;
             Did 1 SetQos; Did 1 DeclareExchange; Did 1 DeclareQueue; Did 1 Bind; Did 1 Consume;
             Closed 1].
Proof.
  apply (consumer_retries [unreachable; no_queue] quiet []); [|reflexivity..].
  repeat constructor.
Defined.

Lemma consumer_releases_witness :
  Forall (fun a => at_close a = None) [unreachable; no_queue] /\
  open_connections (run_consumer [unreachable; no_queue] fresh).2 = [].
Proof.
  assert (Forall (fun a => at_close a = None) [unreachable; no_queue]) as Hc by repeat constructor.
  split; [exact Hc|]. pose proof (consumer_releases _ Hc) as Hr.
  destruct (run_consumer [unreachable; no_queue] fresh) as [st s]. apply Hr.
Defined.
