(* ===== verification/Client.v ===== *)
(** * The UDP client and the stream generator: [core/udp/client.py],
    [stream_generator/main.py]

    The socket is the function [sendto] from the number of datagrams sent so far and
    the payload to the outcome; what was sent and slept is recorded in order. *)

From S2P Require Export Validate Tracing Database.
Import Tracing.

Module Client.

Inductive effect := Opened | Sent (payload : bytes) | Slept (seconds : Z) | Closed.

(** [itertools.batched(objects, n)]: the next [n] objects at a time *)
Fixpoint batches {A} (fuel n : nat) (l : list A) : list (list A) :=
  match fuel, l with
  | S fuel, _ :: _ => take n l :: batches fuel n (drop n l)
  | _, _ => []
  end.

Definition batched {A} (l : list A) (n : Z) : res (list (list A)) :=
  if (n <? 1)%Z then raise ValueError "n must be at least one"
  else Ok (batches (length l) (Z.to_nat n) l).

(** The payload of an object *)
Definition payload_of `{Interpreter} (object : pyval) : res bytes :=
  s ← json_dumps compact_style object; utf8_encode s.

Fixpoint for_each {A} (f : A -> io (list effect) ()) (l : list A) : io (list effect) () :=
  match l with
  | [] => mret ()
  | x :: r => _ ← f x; for_each f r
  end.

Section Socket.
Context `{Interpreter}.
Variable sendto : nat -> bytes -> res ().

Definition is_sent (e : effect) : bool := match e with Sent _ => true | _ => false end.

(** [self.socket.sendto]; an error is logged and raised again. *)
Definition transmit (payload : bytes) : io (list effect) () := fun log =>
  match sendto (length (List.filter is_sent log)) payload with
  | Ok _ => (Ok (), log ++ [Sent payload])
  | Raise e => (Raise e, log)
  end.

Definition send_object (object : pyval) : io (list effect) () :=
  payload ← io_res (payload_of object); transmit payload.

(** [time.sleep] *)
Definition sleep (seconds : Z) : io (list effect) () := fun log =>
  if (seconds <? 0)%Z then (raise ValueError "sleep length must be non-negative", log)
  else (Ok (), log ++ [Slept seconds]).

(** [UdpClient.send] *)
Definition send (objects : list pyval) (batch_size time_between_batches : Z) : io (list effect) () :=
  bs ← io_res (batched objects batch_size);
  for_each (fun batch => _ ← for_each send_object batch; sleep time_between_batches) bs.

(** [with UdpClient(ip, port) as udp_client:] around a block: the constructor makes the
    socket, [__exit__] closes it on every exit. *)
Definition with_client (open_socket close_socket : res ()) (block : io (list effect) ()) :
    io (list effect) () := fun log =>
  match open_socket with
  | Raise e => (Raise e, log)
  | Ok _ =>
      let '(r, log) := block (log ++ [Opened]) in
      match close_socket with
      | Raise e => (Raise e, log)
      | Ok _ => (r, log ++ [Closed])
      end
  end.
End Socket.

End Client.

Module Generator.

Section Generate.
Context `{Interpreter} `{Propagator}.

(** [inject_into_dict] on a value: the setter fails on anything but a dict. *)
Definition inject_value (ctx : option span_context) (obj : pyval) : res pyval :=
  match obj with
  | VDict d => Ok (VDict (inject_into_dict ctx d))
  | _ => match inject_fields ctx with
         | [] => Ok obj
         | _ => raise TypeError "item assignment"
         end
  end.

(** [_inject_trace_context] *)
Definition inject_trace_context (ctx : option span_context) (objects : list pyval) : res (list pyval) :=
  res_mapM (inject_value ctx) objects.

(** [main] from the validator and the lines of the source file on *)
Definition main (sendto : nat -> bytes -> res ()) (open_socket close_socket : res ())
    (v : Validate.Validator) (ctx : option span_context)
    (lines : list text) (batch_size time_between_batches : Z) : io (list Client.effect) () :=
  p ← io_res (Validate.get_validated_objects_from_file v lines);
  Client.with_client open_socket close_socket
    (traced ← io_res (inject_trace_context ctx (Validate.vo_data <$> p.1));
     Client.send sendto traced batch_size time_between_batches).
End Generate.

End Generator.
