(* ===== verification/ClientFacts.v ===== *)
(** * The UDP client and the stream generator: theorems

    Which datagrams are sent, in which order and with which pauses; what the
    generator sends is what the receiver's validator gets to see. *)

From S2P Require Export Client ServerFacts.
Import Tracing Client.

Definition sent (log : list effect) : list bytes :=
  omap (fun e => match e with Sent p => Some p | _ => None end) log.

Lemma sent_app a b : sent (a ++ b) = sent a ++ sent b.
Proof. apply omap_app. Qed.

Lemma batches_concat {A} fuel n (l : list A) :
  0 < n -> length l <= fuel -> concat (batches fuel n l) = l.
Proof.
  intros Hn. revert l. induction fuel as [|fuel IH]; intros l Hf.
  - by destruct l; [|simpl in Hf; lia].
  - destruct l as [|x l]; [done|]. cbn [batches concat].
    rewrite IH; [by rewrite take_drop|]. rewrite length_drop. cbn [length] in *. lia.
Qed.

(** The size of every batch but the last is [n]. *)
Lemma batches_sizes {A} fuel n (l : list A) :
  0 < n -> Forall (fun b => 0 < length b <= n) (batches fuel n l) /\
  length (batches fuel n l) * n < length l + n.
Proof.
  intros Hn. revert l. induction fuel as [|fuel IH]; intros l; [simpl; split; [constructor|lia]|].
  destruct l as [|x l]; [simpl; split; [constructor|lia]|]. cbn [batches].
  destruct (IH (drop n (x :: l))) as [Hs Hc]. rewrite length_drop in Hc. split.
  - constructor; [|done]. rewrite length_take. cbn [length]. lia.
  - cbn [length] in *. rewrite Nat.mul_succ_l.
    destruct (decide (n <= S (length l))); [lia|].
    assert (length (batches fuel n (drop n (x :: l))) = 0) as -> by nia. lia.
Qed.

Section Sending.
Context `{I : Interpreter}.
Variable sendto : nat -> bytes -> res ().

(** What a computation of the client adds to the log. *)
Lemma for_each_log {A} (f : A -> io (list effect) ()) (R : A -> list effect -> Prop)
    (P : A -> list effect -> Prop) l log r log' :
  (forall x log r log', f x log = (r, log') -> exists es, log' = log ++ es /\
     match r with Ok _ => R x es | Raise _ => P x es end) ->
  for_each f l log = (r, log') ->
  exists ess, match r with
  | Ok _ => Forall2 R l ess /\ log' = log ++ concat ess
  | Raise _ => exists x rest es, (exists done, l = done ++ x :: rest /\ Forall2 R done ess) /\
                 P x es /\ log' = log ++ concat ess ++ es
  end.
Proof.
  intros Hf. revert log. induction l as [|x l IH]; intros log; cbn [for_each].
  - intros [= <- <-]. exists []. split; [constructor|]. by rewrite app_nil_r.
  - unfold mbind, io_bind. destruct (f x log) as [[[]|e] log1] eqn:Ex.
    + destruct (Hf _ _ _ _ Ex) as (es & -> & Hes). intros Hl.
      destruct (IH _ Hl) as [ess Hr]. exists (es :: ess). destruct r as [[]|e].
      * destruct Hr as [Hr ->]. split; [by constructor|]. by rewrite <-app_assoc.
      * destruct Hr as (x' & rest & es' & (d & -> & Hd) & Hp & ->).
        exists x', rest, es'. split; [exists (x :: d); split; [done|by constructor]|].
        split; [done|]. cbn [concat]. by rewrite <-!app_assoc.
    + destruct (Hf _ _ _ _ Ex) as (es & -> & Hes). intros [= <- <-]. exists []. exists x, l, es.
      split; [exists []; split; [done|constructor]|]. done.
Qed.

Definition sends (o : pyval) (es : list effect) : Prop :=
  exists p, payload_of o = Ok p /\ es = [Sent p].

Lemma send_object_log o log r log' :
  send_object sendto o log = (r, log') -> exists es, log' = log ++ es /\
    match r with Ok _ => sends o es | Raise _ => es = [] end.
Proof.
  unfold send_object, mbind, io_bind, io_res. destruct (payload_of o) as [p|e] eqn:Ep.
  - unfold transmit. destruct (sendto _ p) as [[]|e]; intros [= <- <-].
    + exists [Sent p]. split; [done|]. by exists p.
    + exists []. by rewrite app_nil_r.
  - intros [= <- <-]. exists []. by rewrite app_nil_r.
Qed.

Lemma sends_sent objects ess :
  Forall2 sends objects ess -> res_mapM payload_of objects = Ok (sent (concat ess)) /\
  Forall (fun e => is_sent e = true) (concat ess).
Proof.
  induction 1 as [|o es objects ess (p & Hp & ->) H [IH IHs]]; [by split|].
  cbn [res_mapM concat]. rewrite Hp, IH. cbn [mbind res_bind]. split; [done|by constructor].
Qed.

Lemma res_mapM_app {A B} (f : A -> res B) a b x y :
  res_mapM f a = Ok x -> res_mapM f b = Ok y -> res_mapM f (a ++ b) = Ok (x ++ y).
Proof.
  revert x. induction a as [|z a IH]; simpl; intros x Ha Hb; [by injection Ha as <-|].
  apply bind_Ok in Ha as (w & Hw & Ha). apply bind_Ok in Ha as (ws & Hws & Ha). injection Ha as <-.
  rewrite Hw. simpl. by rewrite (IH _ Hws Hb).
Qed.

(** What a batch adds when it is sent, and when it fails. *)
Definition batch_done (t : Z) (batch : list pyval) (es : list effect) : Prop :=
  exists ps, res_mapM payload_of batch = Ok ps /\ es = (Sent <$> ps) ++ [Slept t].
Definition batch_failed (batch : list pyval) (es : list effect) : Prop :=
  exists k, k <= length batch /\ res_mapM payload_of (take k batch) = Ok (sent es).

Lemma sent_fmap ps : sent (Sent <$> ps) = ps.
Proof. induction ps as [|p ps IH]; [done|]. simpl. by f_equal. Qed.

Lemma sends_fmap objects ess ps :
  Forall2 sends objects ess -> res_mapM payload_of objects = Ok ps -> concat ess = Sent <$> ps.
Proof.
  intros H. revert ps. induction H as [|o es objects ess (p & Hp & ->) H IH]; intros ps Hps.
  - by injection Hps as <-.
  - cbn [res_mapM] in Hps. rewrite Hp in Hps. apply bind_Ok in Hps as (? & [= <-] & Hps).
    apply bind_Ok in Hps as (qs & Hq & [= <-]). simpl. by rewrite (IH _ Hq).
Qed.

Lemma batch_log t batch log r log' :
  (_ ← for_each (send_object sendto) batch; sleep t) log = (r, log') ->
  exists es, log' = log ++ es /\ match r with Ok _ => batch_done t batch es | Raise _ => batch_failed batch es end.
Proof.
  unfold mbind, io_bind. destruct (for_each (send_object sendto) batch log) as [[[]|e] log1] eqn:Ef;
    destruct (for_each_log _ sends (fun _ es => es = []) _ _ _ _ send_object_log Ef) as [ess Hr].
  - destruct Hr as [Hr ->]. destruct (sends_sent _ _ Hr) as [Hm _].
    pose proof (sends_fmap _ _ _ Hr Hm) as Hc. unfold sleep.
    destruct (t <? 0)%Z; intros [= <- <-].
    + exists (concat ess). split; [done|]. exists (length batch). split; [done|]. by rewrite take_ge.
    + exists (concat ess ++ [Slept t]). rewrite <-app_assoc. split; [done|].
      exists (sent (concat ess)). split; [done|]. by rewrite <-Hc.
  - destruct Hr as (x & rest & es & (d & -> & Hd) & -> & ->). intros [= <- <-].
    exists (concat ess). rewrite app_nil_r. split; [done|]. exists (length d).
    rewrite length_app, take_app_length. split; [lia|]. by apply sends_sent.
Qed.

Lemma batches_done t bs ess :
  Forall2 (batch_done t) bs ess -> exists pss, res_mapM (res_mapM payload_of) bs = Ok pss /\
    res_mapM payload_of (concat bs) = Ok (concat pss) /\
    concat ess = concat ((fun ps => (Sent <$> ps) ++ [Slept t]) <$> pss) /\ sent (concat ess) = concat pss.
Proof.
  induction 1 as [|b es bs ess (ps & Hps & ->) H (pss & Hm & Hc & He & Hs)]; [by exists []|].
  exists (ps :: pss). cbn [res_mapM concat]. rewrite Hps, Hm. split; [done|].
  split; [by apply res_mapM_app|]. rewrite fmap_cons. cbn [concat]. split; [by rewrite He|].
  by rewrite !sent_app, sent_fmap, Hs, app_nil_r.
Qed.

Lemma send_done objects n t log0 log :
  send sendto objects n t log0 = (Ok (), log) ->
  exists es bs pss, log = log0 ++ es /\ concat bs = objects /\
      Forall (fun b => 0 < length b <= Z.to_nat n) bs /\
      length bs * Z.to_nat n < length objects + Z.to_nat n /\
      res_mapM (res_mapM payload_of) bs = Ok pss /\
      es = concat ((fun ps => (Sent <$> ps) ++ [Slept t]) <$> pss) /\
      res_mapM payload_of objects = Ok (sent es).
Proof.
  unfold send, batched, mbind at 1, io_bind at 1, io_res. destruct (Z.ltb_spec n 1) as [Hn|Hn]; [done|].
  assert (0 < Z.to_nat n) as Hn0 by lia.
  set (bs := batches (length objects) (Z.to_nat n) objects).
  assert (concat bs = objects) as Hbs by (by apply batches_concat).
  destruct (batches_sizes (length objects) (Z.to_nat n) objects Hn0) as [Hsz Hcnt].
  fold bs in Hsz, Hcnt. intros Hf.
  destruct (for_each_log _ (batch_done t) batch_failed _ _ _ _ (batch_log t) Hf) as (ess & Hr & ->).
  destruct (batches_done _ _ _ Hr) as (pss & Hm & Hc & He & Hs).
  exists (concat ess), bs, pss. do 5 (split; [done|]). split; [done|].
  by rewrite Hs, <-Hc, Hbs.
Qed.

Lemma send_failed objects n t e log0 log :
  send sendto objects n t log0 = (Raise e, log) ->
  exists es k, log = log0 ++ es /\ res_mapM payload_of (take k objects) = Ok (sent es).
Proof.
  unfold send, batched, mbind at 1, io_bind at 1, io_res. destruct (Z.ltb_spec n 1) as [Hn|Hn].
  { intros [= <- <-]. exists [], 0. by rewrite app_nil_r. }
  intros Hf. destruct (for_each_log _ (batch_done t) batch_failed _ _ _ _ (batch_log t) Hf)
    as (ess & x & rest & es & (d & Hd & Hdone) & (k & Hle & Hk) & ->).
  destruct (batches_done _ _ _ Hdone) as (pss & _ & Hc & _ & Hs).
  exists (concat ess ++ es), (length (concat d) + k). split; [done|]. rewrite sent_app, Hs.
  rewrite <-(batches_concat (length objects) (Z.to_nat n) objects) by lia.
  rewrite Hd, concat_app. cbn [concat].
  rewrite take_app_add, take_app_le by done. by apply res_mapM_app.
Qed.

(** ** The socket *)

(** Neither opening nor closing *)
Definition quiet (es : list effect) : Prop :=
  Forall (fun e => match e with Opened | Closed => False | _ => True end) es.

Lemma quiet_concat ess : Forall quiet ess -> quiet (concat ess).
Proof. induction 1; [constructor|]. by apply Forall_app. Qed.

Lemma for_each_quiet {A} (f : A -> io (list effect) ()) l log r log' :
  (forall x log r log', f x log = (r, log') -> exists es, log' = log ++ es /\ quiet es) ->
  for_each f l log = (r, log') -> exists es, log' = log ++ es /\ quiet es.
Proof.
  intros Hf Hl. destruct (for_each_log f (fun _ => quiet) (fun _ => quiet) _ _ _ _
    ltac:(intros x l0 r0 l1 E; destruct (Hf x l0 r0 l1 E) as (es & ? & ?); exists es; by destruct r0) Hl)
    as [ess Hr].
  assert (forall (a : list A), Forall2 (fun _ => quiet) a ess -> quiet (concat ess)) as Hq
    by (intros a Ha; apply quiet_concat; clear -Ha; induction Ha; by constructor).
  destruct r as [[]|e].
  - destruct Hr as [Hr ->]. exists (concat ess). split; [done|]. by eapply Hq.
  - destruct Hr as (x & rest & es & (d & _ & Hd) & Hes & ->). exists (concat ess ++ es).
    split; [done|]. apply Forall_app. split; [by eapply Hq|done].
Qed.

Lemma send_object_quiet o log r log' :
  send_object sendto o log = (r, log') -> exists es, log' = log ++ es /\ quiet es.
Proof.
  intros E. destruct (send_object_log o log r log' E) as (es & -> & Hes). exists es. split; [done|].
  destruct r; [destruct Hes as (p & _ & ->)|subst es]; by repeat constructor.
Qed.

Lemma send_quiet objects n t log r log' :
  send sendto objects n t log = (r, log') -> exists es, log' = log ++ es /\ quiet es.
Proof.
  unfold send, mbind at 1, io_bind at 1, io_res. destruct (batched objects n) as [bs|e].
  2: { intros [= <- <-]. exists []. rewrite app_nil_r. by split; [|constructor]. }
  apply for_each_quiet. intros batch l0 r0 l1. unfold mbind, io_bind.
  destruct (for_each (send_object sendto) batch l0) as [[[]|e] l2] eqn:Ef;
    destruct (for_each_quiet _ _ _ _ _ send_object_quiet Ef) as (es & -> & Hes).
  - unfold sleep. destruct (t <? 0)%Z; intros [= <- <-]; [by exists es|].
    exists (es ++ [Slept t]). rewrite app_assoc. split; [done|]. apply Forall_app. split; [done|by repeat constructor].
  - intros [= <- <-]. by exists es.
Qed.

(** [UdpClient.send]: when it returns, every object was sent, compactly
    serialised, in order, in batches of at most [batch_size], no more of them than
    needed, with one pause after each batch; when it raises (an object that cannot
    be serialised, an error of the socket, an invalid argument), what was sent are
    the payloads of the first objects, and nothing else. *)
Theorem send_spec objects n t r log :
  send sendto objects n t [] = (r, log) ->
  match r with
  | Ok _ => exists bs pss, concat bs = objects /\ Forall (fun b => 0 < length b <= Z.to_nat n) bs /\
      length bs * Z.to_nat n < length objects + Z.to_nat n /\
      res_mapM (res_mapM payload_of) bs = Ok pss /\
      log = concat ((fun ps => (Sent <$> ps) ++ [Slept t]) <$> pss) /\
      res_mapM payload_of objects = Ok (sent log)
  | Raise _ => exists k, res_mapM payload_of (take k objects) = Ok (sent log)
  end.
Proof.
  intros Hs. destruct r as [[]|e].
  - destruct (send_done _ _ _ _ _ Hs) as (es & bs & pss & Hl & H1 & H2 & H3 & H4 & H5 & H6).
    rewrite app_nil_l in Hl. subst log. by exists bs, pss.
  - destruct (send_failed _ _ _ _ _ _ Hs) as (es & k & -> & Hk). by exists k.
Qed.
End Sending.

(** ** From the generator's file to the receiver's validator *)

Lemma res_mapM_returns {A B} (f : A -> res B) l :
  returns (res_mapM f l) <-> Forall (fun x => returns (f x)) l.
Proof.
  split.
  - induction l as [|x l IH]; [constructor|]. intros [ys Hy]. cbn [res_mapM] in Hy.
    apply bind_Ok in Hy as (y & Hx & Hy). apply bind_Ok in Hy as (zs & Hz & _).
    constructor; [by exists y|]. apply IH. by exists zs.
  - induction 1 as [|x l [y Hx] _ [ys IH]]; [by exists []|]. exists (y :: ys).
    cbn [res_mapM]. by rewrite Hx, IH.
Qed.

Lemma res_mapM_Forall2 {A B} (f : A -> res B) l l' :
  res_mapM f l = Ok l' -> Forall2 (fun x y => f x = Ok y) l l'.
Proof.
  revert l'. induction l as [|x l IH]; intros l'; cbn [res_mapM]; [by intros [= <-]|].
  intros (y & Hx & (ys & Hl & [= <-])%bind_Ok)%bind_Ok. constructor; [done|by apply IH].
Qed.

(** What can be serialised can be serialised without some of its members. *)
Lemma dumps_subset `{Interpreter} style d d' s :
  (forall kv, kv ∈ d' -> kv ∈ d) -> json_dumps style (VDict d) = Ok s ->
  returns (json_dumps style (VDict d')).
Proof.
  rewrite !json_dumps_dict. intros Hsub Hd. apply bind_Ok in Hd as (ps & Hps & _).
  assert (returns (res_mapM (dumps_member style (pred nesting_limit)) d')) as [qs ->]; [|by eexists].
  apply res_mapM_returns, Forall_forall. intros kv Hkv. apply Hsub in Hkv.
  assert (Forall (fun x => returns (dumps_member style (pred nesting_limit) x)) d) as Hall
    by (apply res_mapM_returns; by exists ps).
  rewrite Forall_forall in Hall. by apply Hall.
Qed.

Definition validated (v : Validate.Validator) (o : Validate.ValidatedObject) : Prop :=
  Validate.vo_origin o = Validate.v_origin v /\ Validate.v_iter_errors v (Validate.vo_data o) = [] /\
  val_ok (Validate.vo_data o).

Lemma validate_lines_spec `{Interpreter} v n lines objs errs :
  Forall valid_text lines -> Validate.validate_lines v n lines = Ok (objs, errs) ->
  Forall (validated v) objs.
Proof.
  intros Hv. revert n objs errs. induction Hv as [|line lines Hl Hv IH]; intros n objs errs;
    cbn [Validate.validate_lines]; [intros [= <- <-]; constructor|].
  destruct (strip line) as [|c s] eqn:Es; [by apply IH|]. rewrite <-Es.
  intros ([o er] & Ho & ([os ers] & Hr & Hp)%bind_Ok)%bind_Ok. apply IH in Hr.
  destruct o as [o|]; injection Hp as <- <-; [|done]. constructor; [|done].
  unfold Validate.get_validated_object in Ho. destruct (json_loads (strip line)) as [obj|e] eqn:Ej.
  - destruct (_ <$> Validate.v_iter_errors v obj) eqn:Ee; [|done]. injection Ho as <- _.
    apply fmap_nil_inv in Ee. split; [done|]. split; [done|].
    eapply json_loads_ok; [|done]. by apply strip_valid.
  - by case_if.
Qed.

Lemma dpop_subset kv k (d : list (text * pyval)) : kv ∈ dpop k d -> kv ∈ d.
Proof.
  induction d as [|[k' v'] d IH]; simpl; [done|]. destruct (text_eqb k k'); [set_solver|].
  rewrite !elem_of_cons. naive_solver.
Qed.

Lemma elem_of_strip kv (d : list (text * pyval)) : kv ∈ strip_trace_keys d -> kv ∈ d.
Proof.
  unfold strip_trace_keys, TRACE_KEYS. cbn [foldl]. intros Hk.
  by apply dpop_subset, dpop_subset in Hk.
Qed.

(** A datagram that the generator makes of a validated object, as the receiver's
    validation stage reads it. *)
Definition accepted_by `{Interpreter} (v : Validate.Validator) (o : Validate.ValidatedObject) (p : bytes) :
    Prop :=
  exists decoded cleaned, utf8_decode p = Ok decoded /\
    UdpServer.strip_trace_from_string decoded = Ok cleaned /\
    Validate.get_validated_object v cleaned 1 = Ok (Some o, []).

Section Generated.
Context `{Interpreter} `{Propagator}.

(** A validated object less the trace fields [d] has of its own *)
Definition untraced (o : Validate.ValidatedObject) (d : pydict) : Validate.ValidatedObject :=
  {| Validate.vo_origin := Validate.vo_origin o; Validate.vo_data := VDict (strip_trace_keys d) |}.

Lemma untraced_clean o d :
  Validate.vo_data o = VDict d -> Forall (fun k => k ∉ d.*1) TRACE_KEYS -> untraced o d = o.
Proof. intros Hd Hk. unfold untraced. rewrite strip_clean by done. destruct o. simpl in *. by subst. Qed.

Lemma generated_object v ctx o d p :
  w3c_fields (inject_fields ctx) ->
  Forall (fun kv => valid_text kv.1 /\ valid_text kv.2) (inject_fields ctx) ->
  validated v o -> Validate.vo_data o = VDict d ->
  Validate.v_iter_errors v (VDict (strip_trace_keys d)) = [] ->
  payload_of (VDict (inject_into_dict ctx d)) = Ok p -> accepted_by v (untraced o d) p.
Proof.
  intros Hw Hf (Ho & _ & Hok) Hd He Hp. rewrite Hd in Hok. apply val_ok_dict in Hok.
  apply bind_Ok in Hp as (decoded & Hdec & Hp).
  pose proof (inject_ok ctx d Hf Hok) as Hi. apply val_ok_dict in Hi as Hiv.
  pose proof (dumps_ok_valid _ _ Hiv Hdec) as Hvt.
  destruct (dumps_subset compact_style _ (strip_trace_keys (inject_into_dict ctx d)) _
              (fun kv => elem_of_strip kv _) Hdec) as [cleaned Hcl].
  exists decoded, cleaned. split; [by apply utf8_roundtrip|].
  assert (UdpServer.strip_trace_from_string decoded = Ok cleaned) as Hs.
  { unfold UdpServer.strip_trace_from_string. rewrite (json_roundtrip _ _ Hiv Hdec).
    cbn [mbind res_bind]. by rewrite Hcl. }
  split; [done|].
  pose proof (injected_fields_are_stripped ctx d decoded cleaned Hw Hf Hok Hdec Hs) as Hj.
  unfold Validate.get_validated_object, untraced. rewrite Hj, He, Ho. done.
Qed.

(** C17. From the generator's source file to the receiver's validator: when a run of
    the generator returns, it sent one datagram per valid line of the file, in
    order.  In the datagram of an object without trace fields of its own a receiver with
    the same schema finds exactly the validated object: the injected trace context
    neither hides it nor makes the schema reject it.  In the datagram of an object that
    has such fields it finds the object less those fields, when the schema accepts that. *)
Theorem generated_is_accepted sendto opens closes v ctx lines n t log :
  w3c_fields (inject_fields ctx) ->
  Forall (fun kv => valid_text kv.1 /\ valid_text kv.2) (inject_fields ctx) ->
  Forall valid_text lines ->
  Generator.main sendto opens closes v ctx lines n t [] = (Ok (), log) ->
  exists objs errs, Validate.get_validated_objects_from_file v lines = Ok (objs, errs) /\
    Forall2 (fun o p => forall d, Validate.vo_data o = VDict d ->
        (Forall (fun k => k ∉ d.*1) TRACE_KEYS -> accepted_by v o p) /\
        (Validate.v_iter_errors v (VDict (strip_trace_keys d)) = [] -> accepted_by v (untraced o d) p))
      objs (sent log).
Proof.
  intros Hw Hf Hl. unfold Generator.main, mbind, io_bind, io_res.
  destruct (Validate.get_validated_objects_from_file v lines) as [[objs errs]|e] eqn:Ev; [|done].
  cbn [fst]. unfold with_client. destruct opens as [[]|e]; [|done].
  destruct (Generator.inject_trace_context ctx _) as [traced|e] eqn:Ei; [|by destruct closes].
  destruct (send sendto traced n t ([] ++ [Opened])) as [r log1] eqn:Hs.
  destruct closes as [[]|e]; [|done]. intros [= -> <-].
  exists objs, errs. split; [done|].
  destruct (send_done _ _ _ _ _ _ Hs) as (es & _ & _ & -> & _ & _ & _ & _ & _ & Hsent).
  replace (sent ((([] ++ [Opened]) ++ es) ++ [Closed])) with (sent es)
    by (rewrite !sent_app; cbn; by rewrite app_nil_r).
  clear Hs. rename Hsent into Hs.
  pose proof (validate_lines_spec _ _ _ _ _ Hl Ev) as Hval.
  apply res_mapM_Forall2 in Ei, Hs. rewrite Forall2_fmap_l in Ei.
  revert traced Ei Hs. generalize (sent es). clear Ev. induction Hval as [|o objs Ho Hval IH];
    intros ps traced Hi Hs.
  { inversion Hi; subst. inversion Hs; subst. constructor. }
  inversion Hi as [|? tr ? trs Hin Hi']; subst. inversion Hs as [|? p ? ps' Hp Hs']; subst.
  constructor; [|by eapply IH]. intros d Hd. unfold compose in Hin. rewrite Hd in Hin.
  injection Hin as <-. split; [|by intros He; eapply generated_object].
  intros Hk. rewrite <-(untraced_clean o d Hd Hk). eapply generated_object; try done.
  rewrite strip_clean, <-Hd by done. apply Ho.
Qed.
End Generated.

(** ** Concrete runs *)

#[local] Existing Instance ascii_unicode.

Definition steady (sent_before : nat) (payload : bytes) : res () := Ok ().
Definition breaks_at (k sent_before : nat) (payload : bytes) : res () :=
  if sent_before =? k then raise OSError "unreachable" else Ok ().

Definition sample_objects : list pyval := [VInt 1; VDict [(txt "a", VStr "b")]; VNone].

(** The generator never leaves a socket behind: whatever the file, the objects, the
    arguments and the outcomes of the socket are, and whether the run returns or raises,
    either no socket was made and nothing was sent, or the socket was made first, closed
    last, and everything was sent and slept in between. *)
Theorem generator_releases `{Interpreter} `{Propagator} sendto opens v ctx lines n t r log :
  Generator.main sendto opens (Ok ()) v ctx lines n t [] = (r, log) ->
  (log = [] /\ is_ok r = false) \/
  exists es, quiet es /\ log = Opened :: es ++ [Closed].
Proof.
  unfold Generator.main, mbind, io_bind, io_res, with_client.
  destruct (Validate.get_validated_objects_from_file v lines) as [p|e]; [|intros [= <- <-]; by left].
  destruct opens as [[]|e]; [|intros [= <- <-]; by left].
  destruct (Generator.inject_trace_context ctx _) as [traced|e].
  2: { intros [= <- <-]. right. exists []. by split; [constructor|]. }
  destruct (send sendto traced n t ([] ++ [Opened])) as [r1 log1] eqn:Hs. intros [= <- <-]. right.
  destruct (send_quiet _ _ _ _ _ _ _ Hs) as (es & -> & Hes). by exists es.
Qed.

Lemma send_spec_witness :
  (exists log, send steady sample_objects 2 5 [] = (Ok (), log) /\
     res_mapM payload_of sample_objects = Ok (sent log)) /\
  (exists e log k, send (breaks_at 1) sample_objects 2 5 [] = (Raise e, log) /\
     res_mapM payload_of (take k sample_objects) = Ok (sent log)).
Proof.
  split.
  - eexists. split; [vm_compute; reflexivity|].
    refine (_ (send_spec steady sample_objects 2 5 (Ok ()) _ _)); [|vm_compute; reflexivity].
    intros (bs & pss & _ & _ & _ & _ & _ & Hs). exact Hs.
  - destruct (send (breaks_at 1) sample_objects 2 5 []) as [[[]|e] log] eqn:E;
      [vm_compute in E; discriminate E|].
    destruct (send_spec (breaks_at 1) sample_objects 2 5 (Raise e) log E) as [k Hk].
    exists e, log, k. split; [reflexivity|exact Hk].
Defined.

(** A schema that asks for an object. *)
Definition object_validator : Validate.Validator :=
  {| Validate.v_origin := "test-stream-json";
     Validate.v_iter_errors := fun v => match v with
       | VDict _ => []
       | _ => [{| Validate.se_path := []; Validate.se_message := "is not of type 'object'" |}]
       end |}.

Definition quoted_key : list N := [double_quote] ++ txt "tag" ++ [double_quote].
Definition source_lines : list text :=
  [ txt "{" ++ quoted_key ++ txt ": 7}"; txt "  "; txt "[1]"; txt "{broken" ].

Lemma generator_releases_witness :
  exists r log es, Generator.main (H0 := plain_propagator) steady (Ok ()) (Ok ()) object_validator None
                     source_lines 0 0 [] = (r, log) /\ is_ok r = false /\ log = Opened :: es ++ [Closed].
Proof.
  destruct (Generator.main (H0 := plain_propagator) steady (Ok ()) (Ok ()) object_validator None
              source_lines 0 0 []) as [r log] eqn:E.
  assert (is_ok r = false /\ log ≠ []) as [Hr Hlog].
  { change (is_ok (r, log).1 = false /\ (r, log).2 ≠ []). rewrite <- E. vm_compute. split; [reflexivity|discriminate]. }
  destruct (generator_releases (H := ascii_unicode) (H0 := plain_propagator) steady (Ok ()) object_validator
              None source_lines 0 0 r log E) as [[He _]|(es & _ & Hes)]; [destruct (Hlog He)|].
  exists r, log, es. split; [reflexivity|]. split; [exact Hr|exact Hes].
Defined.

Lemma generated_is_accepted_witness :
  exists log o p,
    Generator.main (H0 := plain_propagator) steady (Ok ()) (Ok ()) object_validator None source_lines 10 0 [] = (Ok (), log) /\
    sent log = [p] /\ Validate.vo_data o = VDict [(txt "tag", VInt 7)] /\
    accepted_by (H := ascii_unicode) object_validator o p.
Proof.
  destruct (Generator.main (H0 := plain_propagator) steady (Ok ()) (Ok ()) object_validator None source_lines 10 0 [])
    as [r log] eqn:E.
  assert (r = Ok ()) as ->.
  { change r with (r, log).1. rewrite <-E. vm_compute. reflexivity. }
  destruct (generated_is_accepted (H := ascii_unicode) (H0 := plain_propagator) steady (Ok ()) (Ok ())
              object_validator None source_lines 10 0 log) as (objs & errs & Ho & Hall).
  - apply plain_w3c.
  - constructor; [split; by apply valid_text_b|constructor].
  - repeat (constructor; [by apply valid_text_b|]). constructor.
  - exact E.
  - vm_compute in Ho. injection Ho as <- _.
    inversion Hall as [|? p ? ps Hop Hrest Eo Ep]; subst. inversion Hrest; subst.
    exists log, {| Validate.vo_origin := "test-stream-json"; Validate.vo_data := VDict [(txt "tag", VInt 7)] |}, p.
    split; [reflexivity|]. split; [by symmetry|]. split; [reflexivity|].
    apply (Hop _ eq_refl). repeat constructor; intros Hin; vm_compute in Hin;
      repeat (apply elem_of_cons in Hin as [Hin|Hin]; [discriminate Hin|]); by apply elem_of_nil in Hin.
Defined.
