(* ===== verification/Publisher.v ===== *)
(** * The RabbitMQ publisher: [core/broker/]

    A synchronous facade over an event loop in a background thread.  Every call
    submits one coroutine and waits for its future: while the loop runs, the caller
    gets the coroutine's outcome; once the loop was stopped, a submitted coroutine
    is never run and the caller waits for ever ([Blocked]).  The outcomes of the
    broker are inputs. *)

From S2P Require Export Codec.

Module Publisher.

(** What the publisher reads of [RabbitMQConfig]. *)
Record config := {
  pc_url : text; pc_exchange : text; pc_exchange_type : text; pc_routing_key : text;
}.

Record amqp_message := { am_body : bytes; am_headers : option (gmap text text) }.

Record publisher := {
  p_config : config;
  loop_running : bool;
  exchanged : list (text * amqp_message);   (* what the exchange took, with its routing key *)
  messages_total : nat;                     (* _PUBLISHER_MESSAGES_TOTAL *)
  publish_latencies : nat;                  (* observations of _PUBLISHER_LATENCY *)
}.

(** A call that waits for a future *)
Inductive call (A : Type) :=
  | Done (r : res A)
  | Blocked.
Arguments Done {A} r.
Arguments Blocked {A}.

(** ** [__init__] *)

(** The steps of [_connect], in order; [ExchangeTypeValue] is the enumeration's
    constructor on the configured text. *)
Inductive connect_step := ConnectRobust | OpenChannel | ExchangeTypeValue | DeclareExchange.

Definition connect_steps : list connect_step :=
  [ConnectRobust; OpenChannel; ExchangeTypeValue; DeclareExchange].

Definition connect (raises : connect_step -> option exn) : res () :=
  res_mapM (fun s => match raises s with Some e => Raise e | None => Ok () end) connect_steps ≫= (fun _ => Ok ()).

Definition init (cfg : config) (raises : connect_step -> option exn) : res publisher :=
  _ ← connect raises;
  Ok {| p_config := cfg; loop_running := true; exchanged := []; messages_total := 0;
        publish_latencies := 0 |}.

(** ** [publish] *)

(** [dict(headers) if headers else None] *)
Definition message_headers (headers : option (gmap text text)) : option (gmap text text) :=
  match headers with
  | Some h => if bool_decide (h = ∅) then None else Some h
  | None => None
  end.

(** [topic or self._config.routing_key] *)
Definition routing_key_of (p : publisher) (topic : text) : text :=
  match topic with [] => pc_routing_key (p_config p) | _ => topic end.

(** [_publish]; [ack] is the outcome of [self._exchange.publish]. *)
Definition publish_coroutine (topic : text) (message : bytes) (headers : option (gmap text text))
    (ack : res ()) (p : publisher) : res () * publisher :=
  match ack with
  | Raise e => (Raise e, p)
  | Ok _ =>
      (Ok (), {| p_config := p_config p; loop_running := loop_running p;
                 exchanged := exchanged p ++
                   [(routing_key_of p topic,
                     {| am_body := message; am_headers := message_headers headers |})];
                 messages_total := S (messages_total p);
                 publish_latencies := S (publish_latencies p) |})
  end.

Definition publish (topic : text) (message : bytes) (headers : option (gmap text text))
    (ack : res ()) (p : publisher) : call () * publisher :=
  if loop_running p then
    let '(r, p') := publish_coroutine topic message headers ack p in (Done r, p')
  else (Blocked, p).

(** ** The interface of a publisher: [core/broker/interface.py]

    What the receiver asks of the publisher it is given; the outcome of the exchange is
    an input, and the call may never return. *)
Class BrockerPublisher (P : Type) :=
  publish_to : text -> bytes -> option (gmap text text) -> res () -> P -> call () * P.

#[global] Instance RabbitMQPublisher : BrockerPublisher publisher := publish.

(** ** [close] *)

(** [closing] is the outcome of [_close_connection], [in_time] whether it comes
    within five seconds; only then is the loop stopped. *)
Definition close (closing : res ()) (in_time : bool) (p : publisher) : res () * publisher :=
  if loop_running p then
    if in_time then
      match closing with
      | Raise e => (Raise e, p)
      | Ok _ => (Ok (), {| p_config := p_config p; loop_running := false; exchanged := exchanged p;
                           messages_total := messages_total p;
                           publish_latencies := publish_latencies p |})
      end
    else (raise TimeoutError [], p)
  else (Ok (), p).

(** ** Sequences of calls *)

Inductive op :=
  | Publish (topic : text) (message : bytes) (headers : option (gmap text text)) (ack : res ())
  | Close (closing : res ()) (in_time : bool).

Definition step (o : op) (p : publisher) : call () * publisher :=
  match o with
  | Publish t m h ack => publish t m h ack p
  | Close c in_time => let '(r, p') := close c in_time p in (Done r, p')
  end.

(** The outcomes of the calls, up to one that blocks *)
Fixpoint run (ops : list op) (p : publisher) : list (call ()) * publisher :=
  match ops with
  | [] => ([], p)
  | o :: rest =>
      match step o p with
      | (Blocked, p') => ([Blocked], p')
      | (Done r, p') => let '(rs, p'') := run rest p' in (Done r :: rs, p'')
      end
  end.

End Publisher.
