(* ===== verification/PublisherFacts.v ===== *)
(** * The publisher's accounting, its routing and the calls that never return

    What the exchange took is what the successful calls handed over, the counters
    agree with it, and a call blocks exactly when it publishes after a close that
    stopped the loop. *)

From S2P Require Export Publisher.

Module PublisherFacts.
Import Publisher.

(** ** A reference: what a sequence of calls hands to the exchange *)

Definition stops_loop (o : op) : bool :=
  match o with Close (Ok _) true => true | _ => false end.

Definition is_publish (o : op) : bool := match o with Publish _ _ _ _ => true | _ => false end.

(** The calls that the running loop serves: those up to the first close that stops it. *)
Fixpoint served (ops : list op) : list op :=
  match ops with
  | [] => []
  | o :: rest => if stops_loop o then [] else o :: served rest
  end.

(** The calls after the one that stops the loop *)
Fixpoint orphaned (ops : list op) : list op :=
  match ops with
  | [] => []
  | o :: rest => if stops_loop o then rest else orphaned rest
  end.

(** What one served call puts on the exchange *)
Definition sends (cfg : config) (o : op) : list (text * amqp_message) :=
  match o with
  | Publish t m h (Ok _) =>
      [(match t with [] => pc_routing_key cfg | _ => t end,
        {| am_body := m; am_headers := message_headers h |})]
  | _ => []
  end.

(** The answer of a served call *)
Definition answer (o : op) : res () :=
  match o with
  | Publish _ _ _ ack => ack
  | Close closing true => closing
  | Close _ false => raise TimeoutError []
  end.

(** ** The invariant *)

Record consistent (cfg : config) (p : publisher) : Prop := {
  cs_config : p_config p = cfg;
  cs_total : messages_total p = length (exchanged p);
  cs_latency : publish_latencies p = length (exchanged p);
}.

Lemma init_consistent cfg raises p : init cfg raises = Ok p ->
  consistent cfg p /\ exchanged p = [] /\ loop_running p = true.
Proof. unfold init. intros Hi. inv_res. done. Qed.

Lemma step_served cfg o p :
  consistent cfg p -> loop_running p = true -> stops_loop o = false ->
  exists p', step o p = (Done (answer o), p') /\ consistent cfg p' /\
    exchanged p' = exchanged p ++ sends cfg o /\ loop_running p' = true.
Proof.
  intros [<- Ht Hl] Hr Ho. destruct o as [t m h [[]|e]|[[]|e] []]; try discriminate Ho; simpl;
    unfold publish, close; rewrite Hr; simpl; rewrite ?app_nil_r; eexists;
    (split; [reflexivity|]); (split; [constructor; simpl; try done|by split]);
    rewrite length_app; simpl; lia.
Qed.

Lemma step_stops cfg o p :
  consistent cfg p -> loop_running p = true -> stops_loop o = true ->
  exists p', step o p = (Done (Ok ()), p') /\ consistent cfg p' /\
    exchanged p' = exchanged p /\ loop_running p' = false.
Proof.
  intros [Hc Ht Hl] Hr Ho. destruct o as [t m h ack|[[]|e] []]; try discriminate Ho; simpl.
  unfold close. rewrite Hr. by eexists.
Qed.

Lemma step_stopped o p : loop_running p = false ->
  step o p = (if is_publish o then Blocked else Done (Ok ()), p).
Proof. intros Hr. destruct o; simpl; unfold publish, close; by rewrite Hr. Qed.

(** ** What a client may rely on

    A publisher in service answers each call with the outcome of the exchange, stays in
    service, and has handed over exactly the messages of the calls that succeeded. *)
Record contract (P : Type) `{BrockerPublisher P} (X : Type) := {
  in_service : P -> Prop;
  taken : P -> list X;
  entry : text -> bytes -> option (gmap text text) -> list X;
  in_service_serves t m h ack p : in_service p ->
    exists p', publish_to t m h ack p = (Done ack, p') /\ in_service p' /\
      taken p' = taken p ++ (if is_ok ack then entry t m h else []);
}.
Arguments in_service {P _ X}.
Arguments taken {P _ X}.
Arguments entry {P _ X}.
Arguments in_service_serves {P _ X}.

Program Definition rabbitmq (cfg : config) : contract publisher (text * amqp_message) := {|
  in_service := fun p => consistent cfg p /\ loop_running p = true;
  taken := exchanged;
  entry := fun t m h => sends cfg (Publish t m h (Ok ()));
|}.
Next Obligation.
  intros cfg t m h ack p [Hc Hr].
  destruct (step_served cfg (Publish t m h ack) p Hc Hr eq_refl) as (p' & Hs & Hc' & Hx & Hr').
  exists p'. split; [exact Hs|]. split; [done|]. rewrite Hx. by destruct ack.
Qed.

(** ** Runs *)

Fixpoint run_stopped (ops : list op) : list (call ()) :=
  match ops with
  | [] => []
  | o :: rest => if is_publish o then [Blocked] else Done (Ok ()) :: run_stopped rest
  end.

Lemma run_after_stop ops p : loop_running p = false -> run ops p = (run_stopped ops, p).
Proof.
  intros Hr. induction ops as [|o ops IH]; [done|]. simpl. rewrite step_stopped by done.
  destruct (is_publish o); [done|]. by rewrite IH.
Qed.

Lemma run_stopped_blocks ops : Blocked ∈ run_stopped ops <-> existsb is_publish ops = true.
Proof.
  induction ops as [|o ops IH]; simpl; [split; [by intros ?%elem_of_nil|done]|].
  destruct (is_publish o); simpl.
  - split; [done|]. intros _. apply list_elem_of_singleton. done.
  - rewrite elem_of_cons. rewrite <- IH. naive_solver.
Qed.

Definition stop_answers (ops : list op) : list (call ()) :=
  if existsb stops_loop ops then Done (Ok ()) :: run_stopped (orphaned ops) else [].

Lemma run_answers cfg ops p outs p' :
  consistent cfg p -> loop_running p = true -> run ops p = (outs, p') ->
  outs = ((fun o => Done (answer o)) <$> served ops) ++ stop_answers ops /\
  consistent cfg p' /\ exchanged p' = exchanged p ++ (served ops ≫= sends cfg).
Proof.
  unfold stop_answers.
  revert p outs p'. induction ops as [|o ops IH]; intros p outs p' Hc Hr; simpl.
  { intros [= <- <-]. by rewrite app_nil_r. }
  destruct (stops_loop o) eqn:Ho.
  - destruct (step_stops cfg o p Hc Hr Ho) as (p1 & -> & Hc1 & He1 & Hr1).
    rewrite run_after_stop by done. intros [= <- <-]. simpl. by rewrite app_nil_r.
  - destruct (step_served cfg o p Hc Hr Ho) as (p1 & -> & Hc1 & He1 & Hr1).
    destruct (run ops p1) as [rs p2] eqn:E. intros [= <- <-].
    destruct (IH _ _ _ Hc1 Hr1 E) as (-> & Hc2 & He2).
    split; [done|]. split; [done|]. by rewrite He2, He1, <- app_assoc.
Qed.

Lemma answers_done (ops : list op) : Blocked ∉ ((fun o => Done (answer o)) <$> ops).
Proof. intros (o & Ho & _)%list_elem_of_fmap. discriminate. Qed.

(** C26. The publisher's account of any sequence of calls: while its loop runs, every
    call answers with the outcome of its coroutine (a close that exceeds its five
    seconds with a timeout); the exchange holds, in order, exactly the messages of
    the successful calls, each under its topic or, when that is empty, the configured
    routing key; both metrics count those messages and nothing else; and some call of
    the sequence never returns exactly when a publish follows a close that stopped
    the loop. *)
Theorem publisher_accounts cfg raises p0 ops outs p :
  init cfg raises = Ok p0 -> run ops p0 = (outs, p) ->
  exchanged p = served ops ≫= sends cfg /\
  messages_total p = length (exchanged p) /\ publish_latencies p = length (exchanged p) /\
  take (length (served ops)) outs = (fun o => Done (answer o)) <$> served ops /\
  (Blocked ∈ outs <-> existsb is_publish (orphaned ops) = true).
Proof.
  intros Hi Hrun. destruct (init_consistent _ _ _ Hi) as (Hc & He & Hr).
  destruct (run_answers cfg ops p0 outs p Hc Hr Hrun) as (-> & [_ Ht Hl] & Hx).
  split; [by rewrite Hx, He|]. do 2 (split; [done|]). split.
  - rewrite take_app_length'; [done|]. by rewrite length_fmap.
  - rewrite elem_of_app. unfold stop_answers. destruct (existsb stops_loop ops) eqn:Es.
    + rewrite elem_of_cons, run_stopped_blocks.
      pose proof (answers_done (served ops)). naive_solver.
    + assert (orphaned ops = []) as ->.
      { clear -Es. induction ops as [|o ops IH]; [done|]. simpl in *.
        apply orb_false_iff in Es as [-> Es]. by apply IH. }
      pose proof (answers_done (served ops)). rewrite elem_of_nil. naive_solver.
Qed.

(** A publisher whose set-up fails raises the first exception of its steps, and no
    later step is reached. *)
Theorem init_outcome cfg raises :
  match init cfg raises with
  | Ok p => Forall (fun s => raises s = None) connect_steps
  | Raise e => exists before s after, connect_steps = before ++ s :: after /\
      Forall (fun s => raises s = None) before /\ raises s = Some e
  end.
Proof.
  unfold init, connect, connect_steps.
  destruct (raises ConnectRobust) eqn:E1; simpl; rewrite ?E1; simpl.
  { by exists [], ConnectRobust, [OpenChannel; ExchangeTypeValue; DeclareExchange]. }
  destruct (raises OpenChannel) eqn:E2; simpl; rewrite ?E2; simpl.
  { exists [ConnectRobust], OpenChannel, [ExchangeTypeValue; DeclareExchange]. by repeat constructor. }
  destruct (raises ExchangeTypeValue) eqn:E3; simpl; rewrite ?E3; simpl.
  { exists [ConnectRobust; OpenChannel], ExchangeTypeValue, [DeclareExchange]. by repeat constructor. }
  destruct (raises DeclareExchange) eqn:E4; simpl; rewrite ?E4; simpl.
  { exists [ConnectRobust; OpenChannel; ExchangeTypeValue], DeclareExchange, []. by repeat constructor. }
  by repeat constructor.
Qed.

(** ** A concrete run *)

Definition sample_config : config :=
  {| pc_url := "amqp://localhost/"; pc_exchange := "rtls"; pc_exchange_type := "topic";
     pc_routing_key := "rtls.events" |}.

Definition sample_ops : list op :=
  [ Publish "rtls.a" [Byte.x61] None (Ok ());
    Publish [] [Byte.x62] (Some {[ txt "k" := txt "v" ]}) (Ok ());
    Publish "rtls.a" [Byte.x63] None (raise Foreign "closed");
    Close (Ok ()) false; Close (Ok ()) true; Close (Ok ()) true;
    Publish "rtls.a" [Byte.x64] None (Ok ()) ].

Definition sample_run : option (list (call ()) * publisher) :=
  match init sample_config (fun _ => None) with
  | Ok p => Some (run sample_ops p)
  | Raise _ => None
  end.

Lemma publisher_accounts_witness :
  exists outs p, sample_run = Some (outs, p) /\ messages_total p = 2 /\
    (exchanged p).*1 = [txt "rtls.a"; txt "rtls.events"] /\ Blocked ∈ outs.
Proof.
  do 2 eexists. split; [vm_compute; reflexivity|].
  destruct (publisher_accounts sample_config (fun _ => None) _ sample_ops _ _ eq_refl
              ltac:(vm_compute; reflexivity)) as (Hx & Ht & _ & _ & Hb).
  split; [rewrite Ht; reflexivity|]. split; [reflexivity|]. apply Hb. reflexivity.
Defined.

End PublisherFacts.
