(* ===== verification/Receiver.v ===== *)
(** * Receiver start-up: [udp_receiver/main.py]

    The receiver's loop with the publisher that [start_udp] gives it, the metrics
    server and the order in which the resources are acquired and released. *)

From S2P Require Export UdpServer Publisher Config.
Import Tracing.

Module Receiver.

Section Environment.
Context `{Interpreter}.

(** [_metrics_enabled] *)
Definition metrics_enabled (env : gmap text text) : bool :=
  negb (existsb (text_eqb (lower (default (txt "true") (env !! txt "PROMETHEUS_METRICS_ENABLED"))))
          [txt "0"; txt "false"; txt "no"; txt "off"]).

(** [env or os.environ]: an empty mapping is false. *)
Definition resolved_env (env : option (gmap text text)) (environ : gmap text text) : gmap text text :=
  match env with
  | Some e => if bool_decide (e = ∅) then environ else e
  | None => environ
  end.

(** [_start_metrics_server]; [start_server] is [start_http_server]. *)
Definition start_metrics_server (env : option (gmap text text)) (environ : gmap text text)
    (start_server : Z -> text -> res ()) : res (option (text * Z)) :=
  let e := resolved_env env environ in
  if negb (metrics_enabled e) then Ok None
  else
    let host := default (txt "0.0.0.0") (e !! txt "PROMETHEUS_METRICS_HOST") in
    port ← py_int 10 (default (txt "9100") (e !! txt "PROMETHEUS_METRICS_PORT"));
    _ ← start_server port host;
    Ok (Some (host, port)).
End Environment.

(** ** The loop with its publisher *)

Section Serving.
Context `{Interpreter} `{Propagator} {P : Type} `{Publisher.BrockerPublisher P}.
Variable self : UdpServer.UdpServer.

Definition with_publish (env : UdpServer.environment) (r : res unit) : UdpServer.environment :=
  {| UdpServer.env_clock_normalize := UdpServer.env_clock_normalize env;
     UdpServer.env_clock_envelope := UdpServer.env_clock_envelope env;
     UdpServer.env_publish := r |}.

(** One turn of [serve_forever] whose [self.publisher.publish] is the publisher's;
    [env_publish] is the outcome of the exchange.  [None]: the call never returns. *)
Definition publishing_iteration (payload : bytes) (addr : UdpServer.address)
    (env : UdpServer.environment) (p : P) :
    option (list UdpServer.effect * res unit) * P :=
  let data := take (UdpServer.max_datagram_bytes self) payload in
  match UdpServer.prepare self env data addr with
  | Raise e => (Some (UdpServer.handle_processing_error self data e), p)
  | Ok pub =>
      match Publisher.publish_to (UdpServer.pub_topic pub) (UdpServer.pub_message pub)
              (Some (UdpServer.pub_headers pub)) (UdpServer.env_publish env) p with
      | (Publisher.Blocked, p') => (None, p')
      | (Publisher.Done r, p') =>
          (Some (UdpServer.iteration self payload addr (with_publish env r)), p')
      end
  end.

Fixpoint serve_publishing (inputs : list UdpServer.received) (p : P) :
    option (list UdpServer.effect * UdpServer.status) * P :=
  match inputs with
  | [] => (Some ([], UdpServer.Running), p)
  | UdpServer.SocketError :: _ => (Some ([], UdpServer.Stopped), p)
  | UdpServer.Datagram payload addr env :: rest =>
      match publishing_iteration payload addr env p with
      | (None, p') => (None, p')
      | (Some (es, Raise e), p') => (Some (es, UdpServer.Crashed e), p')
      | (Some (es, Ok _), p') =>
          match serve_publishing rest p' with
          | (None, p'') => (None, p'')
          | (Some (es', st), p'') => (Some (es ++ es', st), p'')
          end
      end
  end.
End Serving.

(** ** [start_udp] *)

(** The constructor [UdpServer(...)] with the arguments that [start_udp] gives and the
    defaults of the others; [LS1000Parser] has no state. *)
Definition make_server (topic : text) (validator : Validate.Validator) (origin version : text) :
    UdpServer.UdpServer :=
  {| UdpServer.topic := topic; UdpServer.max_datagram_bytes := Z.to_nat (64 * 1024);
     UdpServer.validator := Some validator; UdpServer.parser := true;
     UdpServer.json_normalizer := Some origin; UdpServer.envelope_version := version;
     UdpServer.envelope_registry := Envelope.create_default_envelope_registry;
     UdpServer.event_type := "position"; UdpServer.on_decode_error := None |}.

(** A configuration value that its loader has checked to be a [str] *)
Definition text_of (v : pyval) : text := match v with VStr s => s | _ => [] end.

Definition publisher_config (c : Config.RabbitMQConfig) : Publisher.config :=
  {| Publisher.pc_url := text_of (Config.rb_url c);
     Publisher.pc_exchange := text_of (Config.exchange c);
     Publisher.pc_exchange_type := text_of (Config.exchange_type c);
     Publisher.pc_routing_key := text_of (Config.routing_key c) |}.

Inductive event :=
  | MetricsStarted (at_ : option (text * Z))
  | TracingStarted (calls : list sdk_call)
  | PublisherConnected
  | SocketBound (ip port : pyval)
  | Served (es : list UdpServer.effect)
  | ServerClosed
  | PublisherClosed.

(** [Validator(schema_path, origin)]; [read] gives the text of a file, [draft202012] is
    [Draft202012Validator]. *)
Definition open_validator `{Interpreter} (read : Config.path -> res text)
    (draft202012 : pyval -> res (pyval -> list Validate.schema_error))
    (schema_path : Config.path) (origin : text) : res Validate.Validator :=
  file ← read schema_path;
  schema ← json_loads file;
  iter_errors ← draft202012 schema;
  Ok {| Validate.v_origin := origin; Validate.v_iter_errors := iter_errors |}.

(** What the surroundings of the process do: the metrics port, the broker, the file
    of the schema and the schema engine, the socket, the datagrams, and what interrupts
    the loop (a [KeyboardInterrupt]) after them, if anything does. *)
Record world := {
  w_start_server : Z -> text -> res ();
  w_connect : Publisher.connect_step -> option exn;
  w_read : Config.path -> res text;
  w_draft202012 : pyval -> res (pyval -> list Validate.schema_error);
  w_bind : pyval -> pyval -> res ();
  w_inputs : list UdpServer.received;
  w_interrupt : option exn;
  w_close_socket : res ();
  w_close_connection : res ();
  w_close_in_time : bool;
}.

Record process := {
  config_cache : option Config.AppConfig;
  publisher : option Publisher.publisher;
  events : list event;
}.

Inductive outcome :=
  | Serving                       (* waits for the next datagram *)
  | Hangs                         (* a call of the publisher never returns *)
  | Returned (r : res ()).

Definition emit (e : event) : io process () := fun s =>
  (Ok (), {| config_cache := config_cache s; publisher := publisher s; events := events s ++ [e] |}).

Definition with_publisher (p : Publisher.publisher) : io process () := fun s =>
  (Ok (), {| config_cache := config_cache s; publisher := Some p; events := events s |}).

Definition on_cache {A} (m : io (option Config.AppConfig) A) : io process A := fun s =>
  let '(r, c) := m (config_cache s) in
  (r, {| config_cache := c; publisher := publisher s; events := events s |}).

Section Starting.
Context `{Interpreter} `{Propagator}.
Variable project_root : Config.path.
Variable environ : gmap text text.
Variable read_yaml : Config.path -> res pyval.
Variable w : world.

Definition make_validator (schema_path : Config.path) (origin : text) : res Validate.Validator :=
  open_validator (w_read w) (w_draft202012 w) schema_path origin.

(** The end of [UdpServer.__init__]: the socket and its address *)
Definition open_socket (ip port : pyval) : io process () :=
  _ ← io_res (w_bind w ip port); emit (SocketBound ip port).

(** [UdpServer.close] *)
Definition close_server : io process () := _ ← io_res (w_close_socket w); emit ServerClosed.

(** [start_udp] up to its [try] *)
Definition set_up : io process (UdpServer.UdpServer * Publisher.publisher) :=
  config ← on_cache (Config.get_config project_root environ read_yaml);
  at_ ← io_res (start_metrics_server None environ (w_start_server w));
  _ ← emit (MetricsStarted at_);
  _ ← emit (TracingStarted (init_tracing "udp-receiver" (get_otlp_endpoint environ)));
  p ← io_res (Publisher.init (publisher_config (Config.rabbitmq config)) (w_connect w));
  _ ← with_publisher p;
  _ ← emit PublisherConnected;
  let origin := text_of (Config.vc_origin (Config.validation config)) in
  validator ← io_res (make_validator (Config.schema_path (Config.validation config)) origin);
  let ip := Config.us_ip (Config.udp_server config) in
  let port := Config.us_port (Config.udp_server config) in
  _ ← open_socket ip port;
  mret (make_server (text_of (Config.us_topic (Config.udp_server config))) validator origin
          (text_of (Config.envelope_version (Config.broker config))), p).

(** The [finally] block *)
Definition clean_up (p : Publisher.publisher) : io process () :=
  _ ← close_server;
  let '(r, p') := Publisher.close (w_close_connection w) (w_close_in_time w) p in
  _ ← with_publisher p';
  _ ← io_res r;
  emit PublisherClosed.

(** How the [try] ends: [None] while the loop waits. *)
Definition loop_end (st : UdpServer.status) : option (res ()) :=
  match st with
  | UdpServer.Running => Raise <$> w_interrupt w
  | UdpServer.Stopped => Some (Ok ())
  | UdpServer.Crashed e => Some (Raise e)
  end.

Definition start_udp (s : process) : outcome * process :=
  match set_up s with
  | (Raise e, s) => (Returned (Raise e), s)
  | (Ok (server, p), s) =>
      match serve_publishing server (w_inputs w) p with
      | (None, p) => (Hangs, (with_publisher p s).2)
      | (Some (es, st), p) =>
          let s := (emit (Served es) (with_publisher p s).2).2 in
          match loop_end st with
          | None => (Serving, s)
          | Some r =>
              match clean_up p s with
              | (Raise e, s) => (Returned (Raise e), s)
              | (Ok _, s) => (Returned r, s)
              end
          end
      end
  end.
End Starting.
End Receiver.
