(* ===== verification/ReceiverFacts.v ===== *)
(** * The started receiver: what reaches the exchange, and what is released

    The loop with its publisher refines the loop over outcomes; [start_udp] as a
    whole: its set-up, its loop and its clean-up on every exit. *)

From S2P Require Export PublisherFacts Receiver PipelineFacts ConfigFacts.
Import Tracing.

Module ReceiverFacts.
Import Receiver PublisherFacts.

(** What the exchange holds for one effect of the loop *)
Definition exchange_entry (cfg : Publisher.config) (ef : UdpServer.effect) :
    list (text * Publisher.amqp_message) :=
  match ef with
  | UdpServer.Published pub =>
      sends cfg (Publisher.Publish (UdpServer.pub_topic pub) (UdpServer.pub_message pub)
                   (Some (UdpServer.pub_headers pub)) (Ok ()))
  | _ => []
  end.

Lemma with_publish_same env : with_publish env (UdpServer.env_publish env) = env.
Proof. by destruct env. Qed.

(** ** The loop over any publisher that keeps its contract *)

Section Contract.
Context `{Interpreter} `{Propagator} {P X : Type} `{Publisher.BrockerPublisher P}.
Variable self : UdpServer.UdpServer.
Variable c : contract P X.

(** What the publisher has handed over for one effect of the loop *)
Definition entries (ef : UdpServer.effect) : list X :=
  match ef with
  | UdpServer.Published pub =>
      entry c (UdpServer.pub_topic pub) (UdpServer.pub_message pub) (Some (UdpServer.pub_headers pub))
  | _ => []
  end.

Lemma handle_no_entry data e :
  (UdpServer.handle_processing_error self data e).1 ≫= entries = [].
Proof. unfold UdpServer.handle_processing_error. by destruct (UdpServer.on_decode_error self). Qed.

Lemma publishing_iteration_refines payload addr env p :
  in_service c p ->
  exists p', publishing_iteration self payload addr env p =
      (Some (UdpServer.iteration self payload addr env), p') /\
    in_service c p' /\
    taken c p' = taken c p ++ ((UdpServer.iteration self payload addr env).1 ≫= entries).
Proof.
  intros Hc. unfold publishing_iteration, UdpServer.iteration.
  set (data := take _ payload).
  destruct (UdpServer.prepare self env data addr) as [pub|e] eqn:Ep.
  2: { exists p. by rewrite handle_no_entry, app_nil_r. }
  destruct (in_service_serves c (UdpServer.pub_topic pub) (UdpServer.pub_message pub)
              (Some (UdpServer.pub_headers pub)) (UdpServer.env_publish env) p Hc)
    as (p' & -> & Hc' & Hx).
  exists p'. rewrite with_publish_same. fold data. rewrite Ep. do 2 (split; [done|]).
  rewrite Hx. f_equal. destruct (UdpServer.env_publish env) as [[]|e].
  - cbn. by rewrite app_nil_r.
  - pose proof (handle_no_entry data e) as Hn.
    destruct (UdpServer.handle_processing_error self data e) as [es r].
    cbn [fst] in *. by rewrite bind_cons, Hn.
Qed.

Lemma serve_refines inputs p :
  in_service c p ->
  exists p', serve_publishing self inputs p = (Some (UdpServer.serve_forever self inputs), p') /\
    in_service c p' /\
    taken c p' = taken c p ++ ((UdpServer.serve_forever self inputs).1 ≫= entries).
Proof.
  revert p. induction inputs as [|[payload addr env|] inputs IH]; intros p Hc; simpl.
  1,3: exists p; by rewrite app_nil_r.
  destruct (publishing_iteration_refines payload addr env p Hc) as (p1 & -> & Hc1 & Hx1).
  destruct (UdpServer.iteration self payload addr env) as [es [u|e]]; [|by exists p1].
  destruct (IH p1 Hc1) as (p2 & -> & Hc2 & Hx2).
  destruct (UdpServer.serve_forever self inputs) as [es' st]. exists p2.
  do 2 (split; [done|]). rewrite Hx2, Hx1, <- app_assoc. simpl. by rewrite bind_app.
Qed.
End Contract.

Section Loop.
Context `{Interpreter} `{Propagator}.
Variable self : UdpServer.UdpServer.

(** The loop over RabbitMQ *)
Lemma serve_rabbitmq cfg inputs p :
  consistent cfg p -> Publisher.loop_running p = true ->
  exists p', serve_publishing self inputs p = (Some (UdpServer.serve_forever self inputs), p') /\
    consistent cfg p' /\ Publisher.loop_running p' = true /\
    Publisher.exchanged p' = Publisher.exchanged p ++
      ((UdpServer.serve_forever self inputs).1 ≫= exchange_entry cfg).
Proof.
  intros Hc Hr.
  destruct (serve_refines self (rabbitmq cfg) inputs p (conj Hc Hr)) as (p' & Hs & [Hc' Hr'] & Hx).
  by exists p'.
Qed.

(** Everything that is published was prepared from a datagram that was received. *)
Lemma published_prepared inputs pub :
  UdpServer.Published pub ∈ (UdpServer.serve_forever self inputs).1 ->
  exists payload addr env, UdpServer.Datagram payload addr env ∈ inputs /\
    UdpServer.prepare self env (take (UdpServer.max_datagram_bytes self) payload) addr = Ok pub.
Proof.
  assert (forall data e, UdpServer.Published pub ∉ (UdpServer.handle_processing_error self data e).1) as Hh.
  { intros data e. unfold UdpServer.handle_processing_error.
    destruct (UdpServer.on_decode_error self); simpl; set_solver. }
  assert (forall payload addr env, UdpServer.Published pub ∈ (UdpServer.iteration self payload addr env).1 ->
    UdpServer.prepare self env (take (UdpServer.max_datagram_bytes self) payload) addr = Ok pub) as Hi.
  { intros payload addr env. unfold UdpServer.iteration.
    destruct (UdpServer.prepare _ _ _ _) as [q|e] eqn:Ep; [|by intros ?%Hh].
    destruct (UdpServer.env_publish env) as [[]|e].
    - intros Hin%list_elem_of_singleton. by injection Hin as ->.
    - pose proof (Hh (take (UdpServer.max_datagram_bytes self) payload) e) as Hn.
      destruct (UdpServer.handle_processing_error _ _ e) as [es r]. simpl in *. set_solver. }
  induction inputs as [|[payload addr env|] inputs IH]; simpl; [by intros ?%elem_of_nil| |by intros ?%elem_of_nil].
  specialize (Hi payload addr env).
  destruct (UdpServer.iteration self payload addr env) as [es [u|e]]; simpl in Hi.
  - destruct (UdpServer.serve_forever self inputs) as [es' st]. simpl in *.
    intros [Hin|Hin]%elem_of_app.
    + exists payload, addr, env. split; [apply elem_of_cons; by left|by apply Hi].
    + destruct (IH Hin) as (payload' & addr' & env' & Hd & Hp). exists payload', addr', env'.
      split; [apply elem_of_cons; by right|done].
  - intros Hin. exists payload, addr, env. split; [apply elem_of_cons; by left|by apply Hi].
Qed.
End Loop.

(** ** [start_udp] *)

Section Starting.
Context `{Interpreter} `{Propagator}.
Variable project_root : Config.path.
Variable environ : gmap text text.
Variable read_yaml : Config.path -> res pyval.
Variable w : world.

Notation set_up := (set_up project_root environ read_yaml w).
Notation start_udp := (start_udp project_root environ read_yaml w).

(** What a set-up that succeeds has done, in order. *)
Inductive set_up_done (s : process) :
    UdpServer.UdpServer -> Publisher.publisher -> process -> Prop :=
  | Set_up_done c v m p s1 :
      (Config.get_config project_root environ read_yaml (config_cache s)).1 = Ok c ->
      start_metrics_server None environ (w_start_server w) = Ok m ->
      Publisher.init (publisher_config (Config.rabbitmq c)) (w_connect w) = Ok p ->
      make_validator w (Config.schema_path (Config.validation c))
        (text_of (Config.vc_origin (Config.validation c))) = Ok v ->
      publisher s1 = Some p ->
      events s1 = events s ++
        [ MetricsStarted m;
          TracingStarted (init_tracing "udp-receiver" (get_otlp_endpoint environ)); PublisherConnected;
          SocketBound (Config.us_ip (Config.udp_server c)) (Config.us_port (Config.udp_server c)) ] ->
      set_up_done s
        (make_server (text_of (Config.us_topic (Config.udp_server c))) v
           (text_of (Config.vc_origin (Config.validation c)))
           (text_of (Config.envelope_version (Config.broker c)))) p s1.

(** What a failed set-up leaves: no publisher of its own, or one that runs. *)
Inductive set_up_failed (s s1 : process) : Prop :=
  | Failed_before_connection :
      publisher s1 = publisher s -> PublisherConnected ∉ drop (length (events s)) (events s1) ->
      set_up_failed s s1
  | Failed_after_connection p before :
      publisher s1 = Some p -> Publisher.loop_running p = true -> Publisher.exchanged p = [] ->
      events s1 = events s ++ before ++ [PublisherConnected] -> set_up_failed s s1.

Lemma set_up_outcome s :
  match set_up s with
  | (Ok (server, p), s1) => set_up_done s server p s1
  | (Raise e, s1) => set_up_failed s s1
  end.
Proof.
  unfold Receiver.set_up, open_socket, on_cache. cbv [mbind io_bind io_res].
  destruct (Config.get_config _ _ _ (config_cache s)) as [[c|e] cache] eqn:Eg.
  2: { apply Failed_before_connection; [done|]. cbn [events]. rewrite drop_all. by intros ?%elem_of_nil. }
  destruct (start_metrics_server None environ (w_start_server w)) as [m|e] eqn:Em.
  2: { apply Failed_before_connection; [done|]. cbn [events]. rewrite drop_all. by intros ?%elem_of_nil. }
  cbn [emit config_cache publisher events].
  destruct (Publisher.init _ _) as [p|e] eqn:Ep.
  2: { apply Failed_before_connection; [done|]. cbn [events]. rewrite <- app_assoc, drop_app_length.
       set_solver. }
  destruct (init_consistent _ _ _ Ep) as (_ & Hx & Hr). cbn [with_publisher emit config_cache publisher events].
  assert (forall c : option Config.AppConfig, set_up_failed s
    {| config_cache := c; publisher := Some p;
       events := ((events s ++ [MetricsStarted m]) ++
         [TracingStarted (init_tracing "udp-receiver" (get_otlp_endpoint environ))]) ++ [PublisherConnected] |})
    as Hf.
  { intros c'. apply (Failed_after_connection _ _ p [MetricsStarted m;
      TracingStarted (init_tracing "udp-receiver" (get_otlp_endpoint environ))]); [done..|].
    cbn [events]. by rewrite <- !app_assoc. }
  destruct (make_validator _ _ _) as [v|e] eqn:Ev; [|apply Hf].
  destruct (w_bind w _ _) as [u|e] eqn:Eb; [|apply Hf].
  cbn [emit config_cache publisher events]. cbv [mret io_ret].
  apply (Set_up_done s c v m); try done; [by rewrite Eg|].
  cbn [events]. by rewrite <- !app_assoc.
Qed.

(** The outcome of [publisher.close()] on a running publisher *)
Definition closing : res () :=
  if w_close_in_time w then w_close_connection w else raise TimeoutError [].

Lemma close_running p : Publisher.loop_running p = true ->
  exists p', Publisher.close (w_close_connection w) (w_close_in_time w) p = (closing, p') /\
    Publisher.p_config p' = Publisher.p_config p /\ Publisher.exchanged p' = Publisher.exchanged p /\
    Publisher.messages_total p' = Publisher.messages_total p /\
    Publisher.loop_running p' = negb (is_ok closing).
Proof.
  intros Hr. unfold Publisher.close, closing. rewrite Hr.
  destruct (w_close_in_time w); [|by exists p].
  destruct (w_close_connection w) as [[]|e]; [by eexists|by exists p].
Qed.

(** How the process ends once its loop has ended with [r]: its outcome, the events
    after the loop, and whether the publisher still runs. *)
Definition shutdown (r : res ()) : outcome * list event * bool :=
  match w_close_socket w, closing with
  | Raise e, _ => (Returned (Raise e), [], true)
  | Ok _, Raise e => (Returned (Raise e), [ServerClosed], true)
  | Ok _, Ok _ => (Returned r, [ServerClosed; PublisherClosed], false)
  end.

Lemma clean_up_outcome p s r :
  publisher s = Some p -> Publisher.loop_running p = true ->
  let '(c, s') := clean_up w p s in
  let '(o, after, running) := shutdown r in
  o = match c with Ok _ => Returned r | Raise e => Returned (Raise e) end /\
  events s' = events s ++ after /\
  exists p', publisher s' = Some p' /\ Publisher.exchanged p' = Publisher.exchanged p /\
    Publisher.messages_total p' = Publisher.messages_total p /\ Publisher.loop_running p' = running.
Proof.
  intros Hp Hr. unfold clean_up, close_server, shutdown. cbv [mbind io_bind io_res].
  destruct (w_close_socket w) as [[]|e].
  2: { split; [done|]. rewrite app_nil_r. split; [done|]. by exists p. }
  destruct (close_running p Hr) as (p' & Hcl & _ & Hx & Hm & Hrun). cbn [emit].
  rewrite Hcl. cbn [with_publisher config_cache events publisher].
  destruct closing as [[]|e]; cbn [emit config_cache events publisher]; (split; [done|]);
    (split; [by rewrite <- ?app_assoc|]); by exists p'.
Qed.

(** C12. The receiver from its start to its end.  A set-up that fails ends the process
    with its exception, with no publisher or with one that is connected and was never
    closed.  After a set-up, the loop's effects are those of [serve_forever] with the
    outcomes of the exchange: no call of the publisher hangs, the exchange took the
    published messages and no other, in order, and the counter agrees.  When the loop
    ends, by the socket's error, by an exception or by an interrupt, the socket is
    closed, then the publisher, whose loop is stopped unless one of the two raised. *)
Theorem start_udp_outcome s :
  let '(o, s') := start_udp s in
  match set_up s with
  | (Raise e, s1) => o = Returned (Raise e) /\ s' = s1 /\ set_up_failed s s'
  | (Ok (server, p), s1) =>
      let '(es, st) := UdpServer.serve_forever server (w_inputs w) in
      let '(ending, after, running) :=
        match loop_end w st with None => (Serving, [], true) | Some r => shutdown r end in
      set_up_done s server p s1 /\ o = ending /\ events s' = events s1 ++ Served es :: after /\
    exists p', publisher s' = Some p' /\
    Publisher.exchanged p' = es ≫= exchange_entry (Publisher.p_config p) /\
    Publisher.messages_total p' = length (Publisher.exchanged p') /\
    Publisher.loop_running p' = running
  end.
Proof.
  unfold Receiver.start_udp. pose proof (set_up_outcome s) as Hs.
  destruct (set_up s) as [[[server p]|e] s1]; [|done].
  assert (exists cfg, consistent cfg p /\ Publisher.exchanged p = [] /\ Publisher.loop_running p = true)
    as (cfg & Hc & Hx & Hr) by (destruct Hs as [c v m p s1 _ _ Hi]; apply init_consistent in Hi; eauto).
  destruct (serve_rabbitmq server cfg (w_inputs w) p Hc Hr) as (p1 & -> & Hc1 & Hr1 & Hx1).
  rewrite Hx in Hx1. destruct (UdpServer.serve_forever server (w_inputs w)) as [es st].
  pose proof Hc as [-> _ _]. pose proof Hc1 as [_ Ht1 _].
  set (s2 := (emit (Served es) (with_publisher p1 s1).2).2).
  assert (publisher s2 = Some p1 /\ events s2 = events s1 ++ [Served es]) as [Hp2 He2] by done.
  destruct (loop_end w st) as [r|].
  2: { do 3 (split; [done|]). by exists p1. }
  pose proof (clean_up_outcome p1 s2 r Hp2 Hr1) as Hcl.
  destruct (clean_up w p1 s2) as [c s3]. destruct (shutdown r) as [[ending after] running].
  destruct Hcl as (-> & He3 & p3 & Hp3 & Hx3 & Ht3 & Hr3).
  destruct c as [[]|e]; (split; [done|]); (split; [done|]);
    (split; [by rewrite He3, He2, <- app_assoc|]); exists p3;
    (split; [done|]); (split; [by rewrite Hx3, Hx1|]); (split; [by rewrite Ht3, Hx3, Ht1|done]).
Qed.

(** ** What the exchange holds *)

(** The origin that the configuration gives is text without lone surrogates. *)
Definition origin_valid (s : process) : Prop :=
  forall c, (Config.get_config project_root environ read_yaml (config_cache s)).1 = Ok c ->
    valid_text (text_of (Config.vc_origin (Config.validation c))).

Lemma set_up_config_ok s server p s1 :
  origin_valid s -> set_up_done s server p s1 ->
  config_ok server /\ exists so, UdpServer.json_normalizer server = Some so.
Proof.
  intros Ho [c v m p' s1' Hc _ _ Hv _ _]. specialize (Ho c Hc). split; [|by eexists].
  split; [by apply valid_text_b|]. split; [|split; [|done]].
  - intros v' [= <-]. unfold make_validator, open_validator in Hv. inv_res. done.
  - by intros o [= <-].
Qed.

(** The settings that [start_udp] uses as texts are texts, when the configuration is
    loaded by this process: [text_of] never takes its other branch. *)
Lemma loaded_texts s c :
  config_cache s = None ->
  (Config.get_config project_root environ read_yaml (config_cache s)).1 = Ok c ->
  Forall (fun v => v = VStr (text_of v))
    [ Config.vc_origin (Config.validation c); Config.us_topic (Config.udp_server c);
      Config.envelope_version (Config.broker c); Config.rb_url (Config.rabbitmq c);
      Config.exchange (Config.rabbitmq c); Config.exchange_type (Config.rabbitmq c);
      Config.routing_key (Config.rabbitmq c) ].
Proof.
  intros -> Hc. unfold Config.get_config, Config.load_config in Hc.
  destruct (Config.load_raw_config read_yaml _) as [raw|e]; [|done]. cbn [mbind res_bind default] in Hc.
  destruct (Config.build_app_config project_root environ raw) as [c'|e] eqn:Eb; [|done].
  injection Hc as ->. pose proof (config_texts project_root environ raw c Eb) as Ht.
  repeat match goal with
  | Hx : Forall is_text (_ :: _) |- _ => apply Forall_cons in Hx as [[? Hv] Hx]; rewrite ?Hv; clear Hv
  end.
  by repeat constructor.
Qed.

Lemma sends_publish cfg t m h key msg :
  (key, msg) ∈ sends cfg (Publisher.Publish t m (Some h) (Ok ())) ->
  key = match t with [] => Publisher.pc_routing_key cfg | _ => t end /\
  msg = {| Publisher.am_body := m; Publisher.am_headers := Publisher.message_headers (Some h) |}.
Proof. intros Hin%list_elem_of_singleton. by injection Hin. Qed.

(** The publisher's exchange at the end: what the loop published, or nothing. *)
Lemma start_udp_exchanged s o s' p :
  publisher s = None -> start_udp s = (o, s') -> publisher s' = Some p ->
  Publisher.exchanged p = [] \/
  exists server p0 s1, set_up_done s server p0 s1 /\
    Publisher.exchanged p =
      (UdpServer.serve_forever server (w_inputs w)).1 ≫= exchange_entry (Publisher.p_config p0).
Proof.
  intros Hn. unfold Receiver.start_udp. pose proof (set_up_outcome s) as Hs.
  destruct (set_up s) as [[[server p0]|e] s1].
  2: { intros [= <- <-]. destruct Hs as [Hp _|q before Hp _ Hx _]; [congruence|].
       rewrite Hp. intros [= <-]. by left. }
  assert (consistent (Publisher.p_config p0) p0 /\ Publisher.exchanged p0 = [] /\
          Publisher.loop_running p0 = true) as (Hc & Hx & Hr).
  { destruct Hs as [c v m p0 s1 _ _ Hi]. apply init_consistent in Hi as (Hc & Hi).
    destruct Hc as [Hcfg ? ?]. by rewrite Hcfg. }
  destruct (serve_rabbitmq server _ (w_inputs w) p0 Hc Hr) as (p1 & -> & _ & Hr1 & Hx1).
  rewrite Hx, app_nil_l in Hx1.
  destruct (UdpServer.serve_forever server (w_inputs w)) as [es st] eqn:Es.
  set (s2 := (emit (Served es) (with_publisher p1 s1).2).2) in *. intros Hrun Hp.
  right. exists server, p0, s1. split; [done|]. rewrite Es. rewrite <- Hx1.
  destruct (loop_end w st) as [r|].
  2: { injection Hrun as <- <-. by injection Hp as <-. }
  pose proof (clean_up_outcome p1 s2 r eq_refl Hr1) as Hcl.
  destruct (clean_up w p1 s2) as [c s3], (shutdown r) as [[ending after] running].
  destruct Hcl as (_ & _ & p3 & Hp3 & Hx3 & _).
  assert (s' = s3) as -> by (destruct c; congruence). congruence.
Qed.

(** C13. What reaches the exchange is what the consumer can use: each message that the
    started receiver, set up from its configuration, puts on the exchange comes from a
    datagram that arrived, cut at 64 KiB, goes out under the configured topic or, when
    that is empty, the configured routing key, and is decoded by the consumer to the
    envelope of the event that the receiver read in the text of that datagram: the
    parser's, or the normalizer's of its JSON object less the trace fields when the
    parser has none, with that event's origin and the time of the receiver's clock. *)
Theorem exchanged_is_usable s o s' p key msg :
  origin_valid s -> publisher s = None -> start_udp s = (o, s') ->
  publisher s' = Some p -> (key, msg) ∈ Publisher.exchanged p ->
  exists server p0 s1 payload addr env decoded e or now cfg,
    set_up_done s server p0 s1 /\
    UdpServer.Datagram payload addr env ∈ w_inputs w /\
    utf8_decode (take (Z.to_nat 65536) payload) = Ok decoded /\
    event_of server (UdpServer.env_clock_normalize env) decoded e or /\
    JsonNormalizer.now_ms (UdpServer.env_clock_envelope env) = Ok now /\
    Consumer.decode (Publisher.am_body msg) =
      Ok (Consumer.Usable (event_envelope e "position" or now) (asdict e)) /\
    key = match UdpServer.topic server with [] => Publisher.pc_routing_key cfg | t => t end /\
    exists c, (Config.get_config project_root environ read_yaml (config_cache s)).1 = Ok c /\
      cfg = publisher_config (Config.rabbitmq c) /\
      UdpServer.topic server = text_of (Config.us_topic (Config.udp_server c)).
Proof.
  intros Hov Hnone Hrun Hp Hin.
  destruct (start_udp_exchanged s o s' p Hnone Hrun Hp) as [Hx|(server & p0 & s1 & Hdone & Hx)];
    rewrite Hx in Hin; [by apply elem_of_nil in Hin|].
  destruct (set_up_config_ok _ _ _ _ Hov Hdone) as [Hok [so Hso]].
  apply list_elem_of_bind in Hin as (ef & Hin & Hef).
  destruct ef as [pub|pub e|data e]; [|by apply elem_of_nil in Hin..].
  apply sends_publish in Hin as [-> ->].
  destruct (published_prepared server (w_inputs w) pub Hef) as (payload & addr & env & Hd & Hprep).
  destruct (published_usable server env _ addr pub so Hok Hso Hprep) as
    (decoded & e & or & now & Hdec & Hev & Hnow & Huse).
  pose proof (prepare_spec server env _ addr pub Hok Hprep) as
    (? & ? & ? & ? & ? & _ & _ & _ & _ & _ & _ & _ & _ & _ & Htop & _).
  pose proof Hdone as Hset. destruct Hdone as [c v m p0 s1 Hc _ Hi _ _ _]. rewrite Htop.
  apply init_consistent in Hi as ([Hcfg _ _] & _). rewrite Hcfg.
  do 11 eexists. split; [exact Hset|]. split; [exact Hd|]. split; [exact Hdec|].
  split; [exact Hev|]. split; [exact Hnow|]. split; [exact Huse|]. split; [|by exists c]. destruct (UdpServer.topic _); [|done]. by f_equal.
Qed.
End Starting.

(** ** A concrete run: one usable datagram, one that is not, then the socket closes *)

#[local] Existing Instance ascii_unicode.

Definition sample_world : world :=
  {| w_start_server := fun _ _ => raise OSError "address in use"; w_connect := fun _ => None;
     w_read := fun _ => Ok (txt "{}"); w_draft202012 := fun _ => Ok (fun _ => []);
     w_bind := fun _ _ => Ok ();
     w_inputs := [ UdpServer.Datagram bad_datagram sample_addr sample_env;
                   UdpServer.Datagram display_datagram sample_addr sample_env; UdpServer.SocketError ];
     w_interrupt := None; w_close_socket := Ok (); w_close_connection := Ok (); w_close_in_time := true |}.

Definition sample_environ : gmap text text := {[ txt "PROMETHEUS_METRICS_ENABLED" := txt "No" ]}.
Definition idle_process : process := {| config_cache := None; publisher := None; events := [] |}.

Definition sample_start : outcome * process :=
  start_udp (H := ascii_unicode) (H0 := plain_propagator) sample_root sample_environ
    (fun _ => Ok (VDict sample_settings)) sample_world idle_process.

(** The messages on the exchange after a run, with their keys. *)
Definition exchange_of (s : process) : list (text * Publisher.amqp_message) :=
  match publisher s with Some p => Publisher.exchanged p | None => [] end.

Lemma sample_start_ends :
  sample_start.1 = Returned (Ok ()) /\ (exchange_of sample_start.2).*1 = [txt "rtls.events"].
Proof. vm_compute. split; reflexivity. Qed.

Lemma exchanged_is_usable_witness :
  exists key msg envelope payload, (key, msg) ∈ exchange_of sample_start.2 /\
    Consumer.decode (Publisher.am_body msg) = Ok (Consumer.Usable envelope payload).
Proof.
  destruct sample_start as [o s'] eqn:E. pose proof sample_start_ends as [_ Hk]. rewrite E in Hk.
  cbn [snd] in *. unfold exchange_of in *. destruct (publisher s') as [p|] eqn:Ep; [|discriminate Hk].
  destruct (Publisher.exchanged p) as [|[key msg] l] eqn:Ex; [discriminate Hk|].
  destruct (exchanged_is_usable (H := ascii_unicode) (H0 := plain_propagator) sample_root sample_environ
              (fun _ => Ok (VDict sample_settings)) sample_world idle_process o s' p key msg)
    as (server & p0 & s1 & pl & addr & env & decoded & e & or & now & cfg & _ & _ & _ & _ & _ & Hd & _).
  - intros c Hc. vm_compute in Hc. injection Hc as <-. apply valid_text_b. vm_compute. reflexivity.
  - reflexivity.
  - exact E.
  - exact Ep.
  - rewrite Ex. apply elem_of_cons. left. reflexivity.
  - exists key, msg, (event_envelope e "position" or now), (asdict e).
    split; [apply elem_of_cons; left; reflexivity|exact Hd].
Defined.

End ReceiverFacts.
