(* ===== verification/System.v ===== *)
(** * The system: receivers, the broker's queue and the backend's consumer

    The composition of [UdpServer] and [Consumer] around the queue that both talk to.
    The queue keeps every message that it took until it is acknowledged, delivers in
    any order, and delivers again a message whose acknowledgement did not reach it;
    the backend may be restarted at any time (its tables stay).  The ghost field
    [accepted] holds every message that the queue ever took.

    A handler's effect on the tables is one step: [Repository] commits it as a
    whole.  [Live] interleaves a handler's commit with its broadcast. *)

From S2P Require Export PipelineFacts.
Import Tracing UdpServer Consumer.

Module System.

(** A publication as the consumer receives it: the headers come back as a mapping. *)
Definition message_of (p : publication) : message :=
  {| msg_body := pub_message p;
     msg_headers := Some ((fun kv => (kv.1, VStr kv.2)) <$> map_to_list (pub_headers p)) |}.

Section Composition.
Context `{Interpreter} `{Propagator} `{Driver} `{Process}.
Variable self : UdpServer.UdpServer.

Record system := {
  queue : list message;
  backend : state;
  accepted : list message;
}.

Definition init (b : state) : system := {| queue := []; backend := b; accepted := [] |}.

(** One of the messages is taken out of the queue. *)
Definition takes (m : message) (q rest : list message) : Prop := q ≡ₚ m :: rest.

Inductive step : system -> system -> Prop :=
  (* a receiver publishes; also when its publish fails after the broker took it *)
  | step_publish s env data addr p :
      prepare self env data addr = Ok p ->
      step s {| queue := queue s ++ [message_of p]; backend := backend s;
                accepted := accepted s ++ [message_of p] |}
  | step_deliver s m rest d b :
      takes m (queue s) rest -> app_on_message m (backend s) = (d, b) ->
      step s {| queue := match d with Acked => rest | Requeued => rest ++ [m] end;
                backend := b; accepted := accepted s |}
  (* the handler ran, but its settlement never reached the broker *)
  | step_deliver_unsettled s m rest d b :
      takes m (queue s) rest -> app_on_message m (backend s) = (d, b) ->
      step s {| queue := queue s; backend := b; accepted := accepted s |}
  (* the backend is another process with the same tables *)
  | step_restart s b :
      tables b = tables (backend s) ->
      step s {| queue := queue s; backend := b; accepted := accepted s |}.

Inductive reachable (s0 : system) : system -> Prop :=
  | reach_refl : reachable s0 s0
  | reach_step s s' : reachable s0 s -> step s s' -> reachable s0 s'.

(** What a message says: the key of the event that it carries. *)
Definition says (m : message) (t : text) (z : Z) : Prop :=
  exists e o now, decode (msg_body m) = Ok (Usable (event_envelope e (event_type self) o now) (asdict e)) /\
    tag_id e = t /\ val_of_pyint (ts_utc_ms e) = VInt z.

(** The row that a message stands for. *)
Definition row_for (m : message) (r : row) : Prop :=
  exists envelope payload params, decode (msg_body m) = Ok (Usable envelope payload) /\
    Repository.extract_params envelope = Ok params /\ row_of params = Ok r.

(** The queue is worked off by one delivery of each message after the other. *)
Fixpoint deliver_all (q : list message) (s : state) : list message * state :=
  match q with
  | [] => ([], s)
  | m :: rest =>
      let '(d, s') := app_on_message m s in
      let '(kept, s'') := deliver_all rest s' in
      (match d with Acked => kept | Requeued => m :: kept end, s'')
  end.
End Composition.
End System.
