(* ===== verification/SystemFacts.v ===== *)
(** * The system: nothing accepted is lost, nothing is invented

    Whatever the order of deliveries, redeliveries, lost acknowledgements and
    restarts: the tables are those of a sequence of rows of accepted messages, each
    accepted message is still queued or has its row, and once the queue is worked off
    the current table holds the newest event of each tag. *)

From S2P Require Export System.
Import Tracing UdpServer Consumer.

Module SystemFacts.
Import System.

Section Composition.
Context `{Interpreter} `{Propagator} `{Driver} `{Process}.
Variable self : UdpServer.UdpServer.
Variable so : text.
Hypothesis Hconfig : config_ok self.
Hypothesis Hnormalizer : json_normalizer self = Some so.

(** [m] is what the receiver made of a datagram. *)
Definition from_datagram (m : message) : Prop :=
  exists env data addr p, prepare self env data addr = Ok p /\ m = message_of p.

Lemma from_datagram_usable m : from_datagram m ->
  exists e o now, decode (msg_body m) = Ok (Usable (event_envelope e (event_type self) o now) (asdict e)).
Proof using Hconfig Hnormalizer.
  intros (env & data & addr & p & Hp & ->).
  destruct (published_usable self env data addr p so Hconfig Hnormalizer Hp)
    as (_ & e & o & now & _ & _ & _ & Hd). by exists e, o, now.
Qed.

Lemma stored_row_for m envelope payload db db' :
  decode (msg_body m) = Ok (Usable envelope payload) -> stored envelope db db' ->
  exists r, row_for m r /\ db' = apply_row db r.
Proof. intros Hd (params & r & Hx & Hr & ->). exists r. split; [|done]. by exists envelope, payload, params. Qed.

(** What one delivery of an accepted message does to the tables. *)
Lemma delivered m s d b :
  from_datagram m -> app_on_message m s = (d, b) ->
  (exists r, row_for m r /\ tables b = apply_row (tables s) r) \/
  (d = Requeued /\ tables b = tables s).
Proof using Hconfig Hnormalizer.
  intros Hm Hd. destruct (from_datagram_usable m Hm) as (e & o & now & Hu).
  pose proof (app_usable _ _ m s Hu) as Ho. rewrite Hd in Ho. cbn [fst snd] in Ho.
  inversion Ho as [s1 Hst _ _|s1 Hst _ _|]; subst.
  - left. by eapply stored_row_for.
  - destruct Hst as [Hst|Hst]; [by right|left; by eapply stored_row_for].
  - by right.
Qed.

(** The tables are accounted for by the accepted messages that left the queue. *)
Record accounted (rs : list row) (s : system) : Prop := {
  ac_tables : tables (backend s) = ingest rs empty_database;
  ac_rows : Forall (fun r => Exists (fun m => row_for m r) (accepted s)) rs;
  ac_messages : Forall (fun m => m ∈ queue s \/ Exists (row_for m) rs) (accepted s);
  ac_queue : Forall (fun m => m ∈ accepted s) (queue s);
  ac_source : Forall from_datagram (accepted s);
}.

Lemma ingest_snoc rs r db : ingest (rs ++ [r]) db = apply_row (ingest rs db) r.
Proof. unfold ingest. by rewrite foldl_app. Qed.

Lemma init_accounted b : tables b = empty_database -> accounted [] (init b).
Proof. intros Hb. by constructor; simpl. Qed.

Lemma accounted_publish rs s m :
  from_datagram m -> accounted rs s ->
  accounted rs {| queue := queue s ++ [m]; backend := backend s; accepted := accepted s ++ [m] |}.
Proof.
  intros Hm [Ht Hr Hmsg Hq Hs]. constructor; simpl.
  - done.
  - eapply Forall_impl; [exact Hr|]. intros r. rewrite Exists_app. by left.
  - apply Forall_app. split; [|repeat constructor; set_solver].
    eapply Forall_impl; [exact Hmsg|]. intros m' [Hin|Hin]; [left; set_solver|by right].
  - apply Forall_app. split; [|repeat constructor; set_solver].
    eapply Forall_impl; [exact Hq|]. set_solver.
  - apply Forall_app. split; [done|by repeat constructor].
Qed.

(** A delivery that leaves the queue [q]: the message may be gone only when stored. *)
Lemma accounted_deliver rs s m rest d b q :
  accounted rs s -> takes m (queue s) rest -> app_on_message m (backend s) = (d, b) ->
  (d = Acked /\ q ≡ₚ rest \/ q ≡ₚ queue s) ->
  exists rs', accounted rs' {| queue := q; backend := b; accepted := accepted s |}.
Proof using Hconfig Hnormalizer.
  intros [Ht Hr Hmsg Hq Hs] Htk Hd Hkeep. unfold takes in Htk.
  assert (m ∈ accepted s) as Hm by (rewrite Forall_forall in Hq; apply Hq; rewrite Htk; set_solver).
  assert (forall m', m' ∈ q -> m' ∈ queue s) as Hsub
    by (intros m'; destruct Hkeep as [[_ ->]| ->]; rewrite ?Htk; set_solver).
  assert (Forall (fun m' => m' ∈ accepted s) q) as Hq'.
  { rewrite Forall_forall in *. intros m' Hin. by apply Hq, Hsub. }
  assert (forall m', m' ∈ queue s -> m' ∈ q \/ (m' = m /\ d = Acked)) as Hback.
  { intros m'. destruct Hkeep as [[-> ->]| ->]; [|by left]. rewrite Htk. set_solver. }
  destruct (delivered m (backend s) d b) as [(r & Hrow & Hb)|[-> Hb]];
    [rewrite Forall_forall in Hs; by apply Hs|done|exists (rs ++ [r])|exists rs].
  - constructor; simpl; [by rewrite ingest_snoc, Hb, Ht| | |done|done].
    + apply Forall_app. split; [done|]. constructor; [|constructor].
      apply Exists_exists. by exists m.
    + eapply Forall_impl; [exact Hmsg|]. intros m' [Hin|Hin].
      * destruct (Hback m' Hin) as [?|[-> _]]; [by left|]. right. apply Exists_app. right. by constructor.
      * right. apply Exists_app. by left.
  - constructor; simpl; [by rewrite Hb| done | |done|done].
    eapply Forall_impl; [exact Hmsg|]. intros m' [Hin|Hin]; [|by right].
    destruct (Hback m' Hin) as [?|[_ ?]]; [by left|done].
Qed.

Lemma step_accounted rs s s' :
  accounted rs s -> step self s s' -> exists rs', accounted rs' s'.
Proof using Hconfig Hnormalizer.
  intros Hac Hst. destruct Hst as [s env data addr p Hp|s m rest d b Htk Hd|s m rest d b Htk Hd|s b Hb].
  - exists rs. apply accounted_publish; [by exists env, data, addr, p|done].
  - eapply accounted_deliver; [done..|]. destruct d; [by left|right].
    unfold takes in Htk. rewrite Htk. symmetry. apply Permutation_cons_append.
  - eapply accounted_deliver; [done..|by right].
  - exists rs. destruct Hac. constructor; simpl; congruence.
Qed.

Lemma reachable_accounted b s :
  tables b = empty_database -> reachable self (init b) s -> exists rs, accounted rs s.
Proof using Hconfig Hnormalizer.
  intros Hb Hr. induction Hr as [|s s' Hr [rs Hac] Hst].
  - exists []. by apply init_accounted.
  - by eapply step_accounted.
Qed.

Lemma reachable_trans s1 s2 s3 : reachable self s1 s2 -> reachable self s2 s3 -> reachable self s1 s3.
Proof. intros H12 H23. induction H23; [done|]. by eapply reach_step. Qed.

(** Nothing that the broker accepted is lost and nothing is invented, in every
    reachable state of the system, whatever was redelivered, reordered or restarted:
    the tables are those of a sequence of rows, each of them the row of an accepted
    message; each accepted message still waits in the queue or has its row among
    them; and each accepted message is what the receiver made of a datagram. *)
Theorem nothing_lost_nothing_invented b s :
  tables b = empty_database -> reachable self (init b) s ->
  exists rs, tables (backend s) = ingest rs empty_database /\
    Forall (fun r => Exists (fun m => row_for m r) (accepted s)) rs /\
    Forall (fun m => m ∈ queue s \/ Exists (row_for m) rs) (accepted s) /\
    Forall from_datagram (accepted s).
Proof using Hconfig Hnormalizer.
  intros Hb Hr. destruct (reachable_accounted b s Hb Hr) as [rs [? ? ? _ ?]]. by exists rs.
Qed.

(** ** Working off the queue *)

Lemma deliver_all_reachable q k s kept b :
  queue s = q ++ k -> deliver_all q (backend s) = (kept, b) ->
  reachable self s {| queue := k ++ kept; backend := b; accepted := accepted s |}.
Proof.
  revert k s kept b. induction q as [|m q IH]; intros k s kept b Hq; simpl.
  { intros [= <- <-]. rewrite app_nil_r. simpl in Hq. rewrite <- Hq. destruct s. apply reach_refl. }
  destruct (app_on_message m (backend s)) as [d b1] eqn:Ed.
  destruct (deliver_all q b1) as [kept' b2] eqn:Er. intros [= <- <-].
  assert (takes m (queue s) (q ++ k)) as Htk by (unfold takes; by rewrite Hq).
  eapply reachable_trans; [eapply reach_step; [apply reach_refl|by eapply step_deliver]|].
  destruct d.
  - by apply (IH k {| queue := q ++ k; backend := b1; accepted := accepted s |}).
  - replace (k ++ m :: kept') with ((k ++ [m]) ++ kept') by (by rewrite <- app_assoc).
    apply (IH (k ++ [m]) {| queue := (q ++ k) ++ [m]; backend := b1; accepted := accepted s |}); simpl;
      [by rewrite <- app_assoc|done].
Qed.

Lemma row_for_says m r t z : row_for m r -> says self m t z -> r_tag r = t /\ r_ts r = z.
Proof.
  intros (envelope & payload & params & Hd & Hx & Hr) (e & o & now & Hd' & Ht & Hz).
  rewrite Hd in Hd'. injection Hd' as -> ->.
  destruct (event_extract e (event_type self) o now) as (w & _ & Hx').
  rewrite Hx in Hx'. injection Hx' as ->.
  apply (row_of_keys _ _ _ _ Hr); simpl; [by rewrite <- Ht|].
  change (dget "ts_utc_ms" (event_params e (event_type self) o w now)) with (Some (val_of_pyint (ts_utc_ms e))).
  by rewrite Hz.
Qed.

(** C3. After any history, when one delivery of each waiting message is acknowledged,
    the current table is right: under each tag it holds the row of an accepted event of
    that tag that is at least as new as every other accepted event of the tag, and it
    holds none for a tag of which no event was accepted.  (The history of events, which
    keeps duplicates, holds the row of every accepted message.) *)
Theorem worked_off_queue_is_current b s b' tag :
  tables b = empty_database -> reachable self (init b) s ->
  deliver_all (queue s) (backend s) = ([], b') ->
  Forall (fun m => Exists (row_for m) (position_events (tables b'))) (accepted s) /\
  match current_positions (tables b') !! tag with
  | Some r => r_tag r = tag /\ Exists (fun m => row_for m r) (accepted s) /\
      Forall (fun m => forall z, says self m tag z -> (z <= r_ts r)%Z) (accepted s)
  | None => Forall (fun m => forall z, ~ says self m tag z) (accepted s)
  end.
Proof using Hconfig Hnormalizer.
  intros Hb Hr Hall. pose proof (deliver_all_reachable (queue s) [] s [] b') as Hd.
  rewrite app_nil_r in Hd. specialize (Hd eq_refl Hall).
  destruct (reachable_accounted b _ Hb (reachable_trans _ _ _ Hr Hd)) as (rs & [Ht Hrows Hmsg _ _]).
  simpl in *. rewrite Ht, ingest_events, ingest_current. cbn [position_events current_positions empty_database app].
  assert (Forall (fun m => Exists (row_for m) rs) (accepted s)) as Hmsg'.
  { eapply Forall_impl; [exact Hmsg|]. by intros m [?%elem_of_nil|]. }
  split; [done|]. pose proof (upserts_latest rs tag) as Hl.
  rewrite (Forall_forall _ rs) in Hrows. rewrite Forall_forall in Hmsg'.
  destruct (upserts rs ∅ !! tag) as [r|].
  - destruct (latest_elem _ _ _ Hl) as [Hin Htag]. split; [done|]. split; [by apply Hrows|].
    apply Forall_forall. intros m Hm z Hz. specialize (Hmsg' m Hm). apply Exists_exists in Hmsg' as (r' & Hr' & Hrow).
    destruct (row_for_says m r' tag z Hrow Hz) as [Ht' <-]. by eapply latest_max.
  - apply Forall_forall. intros m Hm z Hz. specialize (Hmsg' m Hm). apply Exists_exists in Hmsg' as (r' & Hr' & Hrow).
    destruct (row_for_says m r' tag z Hrow Hz) as [Ht' _]. rewrite Forall_forall in Hl. by apply (Hl r').
Qed.
End Composition.

(** ** A concrete history: two events of a tag, the newer first; the first delivery is
    not settled, then the backend is restarted *)

#[local] Existing Instance ascii_unicode.

Definition older_datagram : bytes := ascii_bytes "display:9,7,1,1600000000000,2,1.5,-2,0.25".

Definition prepared (data : bytes) : res publication :=
  prepare (H := ascii_unicode) (H0 := plain_propagator) (sample_server "1.0") sample_env data sample_addr.

Definition fresh_backend : state (H1 := mem_columns) (H2 := mem_driver) :=
  {| st_session := (empty_database, empty_database); st_broadcast := one_subscriber;
     st_metrics := no_metrics |}.

Definition handle (m : message) (s : state (H1 := mem_columns) (H2 := mem_driver)) : disposition * state :=
  app_on_message (H := ascii_unicode) (H0 := plain_propagator) (H3 := aio_pika_process) m s.

Definition restarted (s : state (H1 := mem_columns) (H2 := mem_driver)) : state :=
  {| st_session := (tables s, tables s); st_broadcast := st_broadcast fresh_backend; st_metrics := no_metrics |}.

Definition worked_off (q : list message) (s : state) : list message * state :=
  deliver_all (H := ascii_unicode) (H0 := plain_propagator) (H3 := aio_pika_process) q s.

Definition history_run (p1 p2 : publication) : list message * state :=
  worked_off [message_of p1; message_of p2] (restarted (handle (message_of p1) fresh_backend).2).

Lemma history_run_ends :
  (p1 ← prepared display_datagram; p2 ← prepared older_datagram;
   let '(kept, b) := history_run p1 p2 in
   Ok (length kept, length (position_events (tables b)),
       r_ts <$> (current_positions (tables b) !! txt "7"))) = Ok (0, 3, Some 1700000000000%Z).
Proof. vm_compute. reflexivity. Qed.

Lemma history_reachable p1 p2 :
  prepared display_datagram = Ok p1 -> prepared older_datagram = Ok p2 ->
  reachable (H := ascii_unicode) (H0 := plain_propagator) (H3 := aio_pika_process) (sample_server "1.0")
    (init fresh_backend)
    {| queue := [message_of p1; message_of p2];
       backend := restarted (handle (message_of p1) fresh_backend).2;
       accepted := [message_of p1; message_of p2] |}.
Proof.
  intros H1 H2. set (b := (handle (message_of p1) fresh_backend).2).
  pose proof (reach_refl (H := ascii_unicode) (H0 := plain_propagator) (H3 := aio_pika_process)
                (sample_server "1.0") (init fresh_backend)) as R0.
  pose proof (reach_step _ _ _ _ R0 (step_publish _ _ _ _ _ _ H1)) as R1.
  pose proof (reach_step _ _ _ _ R1 (step_publish _ _ _ _ _ _ H2)) as R2.
  cbn [queue backend accepted init app] in R1, R2.
  refine (reach_step _ _ _ _ (reach_step _ _ _ _ R2 _) _).
  - refine (step_deliver_unsettled _ _ (message_of p1) [message_of p2] (handle (message_of p1) fresh_backend).1 b _ _).
    + unfold takes. reflexivity.
    + cbn [backend]. unfold b, handle. apply surjective_pairing.
  - refine (step_restart _ _ (restarted b) _). reflexivity.
Qed.

Lemma worked_off_queue_is_current_witness :
  exists p1 p2 b r, prepared display_datagram = Ok p1 /\ prepared older_datagram = Ok p2 /\
    history_run p1 p2 = ([], b) /\ current_positions (tables b) !! txt "7" = Some r /\
    Exists (fun m => row_for m r) [message_of p1; message_of p2] /\
    Forall (fun m => forall z, says (sample_server "1.0") m (txt "7") z -> (z <= r_ts r)%Z)
      [message_of p1; message_of p2].
Proof.
  pose proof history_run_ends as He.
  destruct (prepared display_datagram) as [p1|?] eqn:E1; [|discriminate He].
  destruct (prepared older_datagram) as [p2|?] eqn:E2; [|discriminate He].
  cbn [mbind res_bind] in He. destruct (history_run p1 p2) as [kept b] eqn:Er.
  destruct kept as [|? ?]; [|discriminate He]. exists p1, p2, b.
  destruct (worked_off_queue_is_current (H := ascii_unicode) (H0 := plain_propagator)
              (H3 := aio_pika_process) (sample_server "1.0") "stream" (sample_config_ok _) eq_refl
              fresh_backend _ b "7" eq_refl (history_reachable p1 p2 E1 E2) Er) as [_ Hc].
  destruct (current_positions (tables b) !! txt "7") as [r|] eqn:Ec; [|discriminate He].
  exists r. destruct Hc as (_ & Hx & Hm). split; [reflexivity|]. split; [reflexivity|].
  split; [exact Er|]. split; [reflexivity|]. split; [exact Hx|exact Hm].
Defined.

Lemma nothing_lost_nothing_invented_witness :
  exists p1 p2 rs, prepared display_datagram = Ok p1 /\ prepared older_datagram = Ok p2 /\
    tables (restarted (handle (message_of p1) fresh_backend).2) = ingest rs empty_database /\
    Forall (fun r => Exists (fun m => row_for m r) [message_of p1; message_of p2]) rs.
Proof.
  pose proof history_run_ends as He.
  destruct (prepared display_datagram) as [p1|?] eqn:E1; [|discriminate He].
  destruct (prepared older_datagram) as [p2|?] eqn:E2; [|discriminate He].
  destruct (nothing_lost_nothing_invented (H := ascii_unicode) (H0 := plain_propagator)
              (H3 := aio_pika_process) (sample_server "1.0") "stream" (sample_config_ok _) eq_refl
              fresh_backend _ eq_refl (history_reachable p1 p2 E1 E2)) as (rs & Ht & Hr & _ & _).
  exists p1, p2, rs. split; [reflexivity|]. split; [reflexivity|]. split; [exact Ht|exact Hr].
Defined.

End SystemFacts.
