(* ===== verification/StorageFacts.v ===== *)
(** * Storage: what the columns refuse

    Which events of the receiver the tables cannot hold, what becomes of their messages,
    and what the history endpoint can answer of those that are stored. *)

From Stdlib Require Import Btauto.
From S2P Require Export SystemFacts ApiFacts.
Import Repository Tracing UdpServer Consumer Migrations.

Module StorageFacts.
Import SystemFacts.

(** ** Events that fit *)

(** No NUL, and no half of a surrogate pair *)
Definition plain_text (s : text) : bool := negb (existsb unstorable_char s).

(** An integer field; a JSON [true] is an [int] to Python but not to PostgreSQL. *)
Definition int_fits (in_range : Z -> bool) (i : pyint) : bool :=
  match i with
  | IInt z => in_range z
  | IBool _ => false
  end.

Definition opt_fits {A} (f : A -> bool) (o : option A) : bool :=
  match o with
  | Some a => f a
  | None => true
  end.

(** The event's timestamp fits [BIGINT], its layer [INTEGER], and its texts are
    [plain_text]s. *)
Definition storable (e : NormalizedEvent) (event_type o : text) (now : Z) : bool :=
  in_int8 now && int_fits in_int8 (ts_utc_ms e) && opt_fits (int_fits in_int4) (layer e)
  && forallb plain_text [event_type; o; tag_id e; source_type e; raw_message e]
  && opt_fits plain_text (Event.status e) && opt_fits plain_text (area e).

(** The parameters are in the order of the columns. *)
Lemma refused_by_column e event_type o w now :
  refused position_events_columns (event_params e event_type o w now) =
  existsb (fun cv => refuses cv.1 cv.2)
    (zip (tail position_events_columns) (event_params e event_type o w now).*2).
Proof. reflexivity. Qed.

Lemma refuses_int8 name i : refuses (required name BigInt) (val_of_pyint i) = negb (int_fits in_int8 i).
Proof. by destruct i. Qed.

Lemma refuses_int4 name o :
  refuses (optional name Integer) (opt_val val_of_pyint o) = negb (opt_fits (int_fits in_int4) o).
Proof. by destruct o as [[]|]. Qed.

Lemma refuses_text name s : refuses (required name Text) (VStr s) = negb (plain_text s).
Proof. unfold plain_text. by rewrite negb_involutive. Qed.

Lemma refuses_opt_text name o :
  refuses (optional name Text) (opt_val VStr o) = negb (opt_fits plain_text o).
Proof. destruct o as [s|]; [|done]. unfold opt_fits, plain_text. by rewrite negb_involutive. Qed.

Lemma refuses_double name o : refuses (optional name DoublePrecision) (opt_val VFloat o) = false.
Proof. by destruct o. Qed.

Lemma storable_refused e event_type o w now :
  refused position_events_columns (event_params e event_type o w now) = negb (storable e event_type o now).
Proof.
  rewrite refused_by_column. unfold position_events_columns, event_params, storable.
  cbn [tail fmap list_fmap zip zip_with existsb fst snd forallb].
  rewrite !refuses_text, !refuses_int8, !refuses_opt_text, !refuses_int4, !refuses_double.
  change (refuses (required "normalized" Boolean) (VBool true)) with false.
  change (refuses warnings_column (VStr w)) with false.
  change (refuses (required "ingested_at_ms" BigInt) (VInt now)) with (negb (in_int8 now)).
  change (plain_text (txt "1.0")) with true.
  btauto.
Qed.

(** ** What becomes of the others *)

Section Unstorable.
Context `{Interpreter} `{Propagator} `{Driver} `{Process}.

(** What is not storable is in no row. *)
Lemma unstorable_not_stored e event_type o now db db' :
  storable e event_type o now = false -> ~ stored (event_envelope e event_type o now) db db'.
Proof.
  intros Hs (params & r & Hx & Hr & _). destruct (event_extract e event_type o now) as (w & _ & Hx').
  rewrite Hx in Hx'. injection Hx' as ->.
  pose proof (row_of_refused (event_params e event_type o w now)) as Hrow.
  rewrite storable_refused, Hs, Hr in Hrow. by specialize (Hrow eq_refl).
Qed.

Lemma unstorable_delivery m s e event_type o now :
  decode (msg_body m) = Ok (Usable (event_envelope e event_type o now) (asdict e)) ->
  storable e event_type o now = false ->
  exists s', app_on_message m s = (Requeued, s') /\ tables s' = tables s /\
    st_broadcast s' = st_broadcast s.
Proof.
  intros Hd Hs. pose proof (app_usable _ _ m s Hd) as Ho.
  destruct (app_on_message m s) as [d s']. cbn [fst snd] in Ho.
  pose proof (unstorable_not_stored e event_type o now (tables s) (tables s') Hs) as Hn.
  exists s'. destruct Ho as [s' Hst _ _|s' Hst Hb _|]; [done| |done].
  destruct Hst as [Hst|Hst]; [by rewrite Hst|done].
Qed.

(** C9. An event that a column refuses is never settled: however often its message is
    delivered, it is requeued each time, nothing is stored and nothing is broadcast, so
    that the broker delivers it again at once. *)
Theorem unstorable_never_settles m s e event_type o now n :
  decode (msg_body m) = Ok (Usable (event_envelope e event_type o now) (asdict e)) ->
  storable e event_type o now = false ->
  exists s', redeliver app_on_message n m s = (Requeued, s') /\ tables s' = tables s /\
    st_broadcast s' = st_broadcast s.
Proof.
  intros Hd Hs. revert s. induction n as [|n IH]; intros s; [by exists s|]. cbn [redeliver].
  destruct (unstorable_delivery m s e event_type o now Hd Hs) as (s1 & -> & Ht & Hb).
  destruct (IH s1) as (s2 & -> & Ht2 & Hb2). exists s2. split; [done|]. split; congruence.
Qed.
End Unstorable.

(** ** What is stored can be answered *)

(** The columns that a [SELECT] returns hold values of their types. *)
Definition typed_row `{Columns} (r : row) : Prop :=
  plain_text (r_tag r) = true /\ in_int8 (r_ts r) = true /\
  Forall (fun c => stores c (dget_none (col_name c) (r_cols r)) = true)
    (List.filter selected_column position_events_columns).

Lemma plain_text_writable s : plain_text s = true -> is_ok (utf8_encode s) = true.
Proof.
  unfold plain_text. induction s as [|c s IH]; [done|]. cbn [existsb].
  rewrite negb_orb, andb_true_iff. intros [Hc Hs]. unfold unstorable_char in Hc.
  rewrite negb_orb, !andb_true_iff, !negb_true_iff in Hc. destruct Hc as [_ Hc].
  cbn [utf8_encode]. rewrite Hc. specialize (IH Hs). by destruct (utf8_encode s).
Qed.

Lemma int4_int8 z : in_int4 z = true -> in_int8 z = true.
Proof. unfold in_int4, in_int8. lia. Qed.

Section Typed.
Context `{Interpreter} `{Propagator} `{Driver} `{Process} `{Api.Framework}.
Variable self : UdpServer.UdpServer.
Variable so : text.
Hypothesis Hconfig : config_ok self.
Hypothesis Hnormalizer : json_normalizer self = Some so.

(** Every value that the column gives back is one that the field takes. *)
Definition compatible (c : column) (f : Api.field) : bool :=
  match col_type c, Api.f_type f with
  | Text, Api.FStr | (Integer | BigInt), Api.FInt | DoublePrecision, Api.FFloat => true
  | _, _ => false
  end && implb (col_nullable c) (Api.f_optional f).

Lemma stores_accepts c f v :
  compatible c f = true -> stores c v = true ->
  Api.field_accepts f v && Api.writable v = true.
Proof.
  destruct c as [cn ty cnull cd cp], f as [fn fty fopt]. unfold compatible, stores, Api.field_accepts. cbn.
  destruct ty, fty; try done; destruct v, cnull, fopt; try done; cbn; intros _;
    first [exact (plain_text_writable _) | exact (int4_int8 _) | done].
Qed.

(** The model's fields of a row that a query returns *)
Definition position_of (r : row) : pydict := zip_dict HISTORY_COLUMNS (project r).

Lemma typed_row_accepted r :
  typed_row r -> Api.position_accepted (position_of r) && Api.position_writable (position_of r) = true.
Proof.
  intros (Htag & Hts & Ht). set (cols := List.filter selected_column position_events_columns) in Ht.
  assert (cols = [required "origin" Text; required "source_type" Text; optional "status" Text;
    optional "layer" Integer; optional "area" Text; optional "x" DoublePrecision; optional "y" DoublePrecision;
    optional "z" DoublePrecision; optional "lng" DoublePrecision; optional "lat" DoublePrecision]) as E
    by (vm_compute; reflexivity).
  rewrite E, !Forall_cons in Ht. destruct Ht as (Ho & Hs & Hst & Hl & Ha & Hx & Hy & Hz & Hlg & Hlt & _).
  set (g := fun k => dget_none k (r_cols r)).
  set (fvs := zip Api.PositionOut_fields
      [VStr (r_tag r); VInt (r_ts r); g "source_type"; g "origin"; g "status"; g "layer"; g "area";
       g "x"; g "y"; g "z"; g "lng"; g "lat"]).
  assert (Forall (fun fv => Api.field_accepts fv.1 fv.2 && Api.writable fv.2 = true) fvs) as Hall.
  { repeat constructor;
      first [ by apply plain_text_writable | exact Hts
            | eapply stores_accepts; [|eassumption]; reflexivity ]. }
  change (forallb (fun fv => Api.field_accepts fv.1 fv.2) fvs && forallb (fun fv => Api.writable fv.2) fvs = true).
  clear -Hall. induction Hall as [|fv fvs Hfv _ IH]; [done|]. cbn [forallb].
  destruct (andb_prop _ _ Hfv) as [-> ->], (andb_prop _ _ IH) as [-> ->]. done.
Qed.

(** The coordinates of a row are numbers. *)
Definition finite_row (r : row) : Prop := Api.position_finite (position_of r) = true.

(** Every row of the history is one of an accepted message. *)
Definition typed_events (db : database) : Prop := Forall typed_row (position_events db).

(** The row of an accepted message holds what the columns took. *)
Lemma accepted_row_typed m r : from_datagram self m -> System.row_for m r -> typed_row r.
Proof using Hconfig Hnormalizer.
  intros Hm (en & pl & params & Hdec & Hx & Hrow).
  destruct (from_datagram_usable self so Hconfig Hnormalizer m Hm) as (e & o & now & Hu).
  rewrite Hu in Hdec. injection Hdec as <- _.
  destruct (event_extract e (event_type self) o now) as (w & _ & Hx'). rewrite Hx' in Hx.
  injection Hx as <-.
  assert (storable e (event_type self) o now = true) as Hst.
  { destruct (storable e (event_type self) o now) eqn:E; [done|].
    pose proof (row_of_refused (event_params e (event_type self) o w now)) as Hr.
    rewrite storable_refused, E, Hrow in Hr. by specialize (Hr eq_refl). }
  unfold storable in Hst. cbn [forallb] in Hst. rewrite !andb_true_iff in Hst.
  destruct (ts_utc_ms e) as [z|?] eqn:Ets; cbn [int_fits] in Hst; [|naive_solver].
  destruct (row_of_keys _ r (tag_id e) z Hrow eq_refl) as [Htag Hts].
  { unfold event_params. by rewrite Ets. }
  unfold typed_row. rewrite Htag, Hts. split; [apply Hst|]. split; [apply Hst|].
  apply Forall_forall. intros c Hc. by eapply row_of_stores.
Qed.

Lemma reachable_typed b s :
  tables b = empty_database -> System.reachable self (System.init b) s ->
  typed_events (tables (System.backend s)).
Proof using Hconfig Hnormalizer.
  intros Hb Hr. destruct (reachable_accounted self so Hconfig Hnormalizer b s Hb Hr)
    as (rs & [Ht Hrows _ _ Hsource]).
  unfold typed_events. rewrite Ht, ingest_events. cbn [position_events empty_database app].
  eapply Forall_impl; [exact Hrows|]. intros r (m & Hm & Hrow)%Exists_exists.
  rewrite Forall_forall in Hsource. by eapply accepted_row_typed; [apply Hsource|].
Qed.

(** The models of a page of such rows, and their response *)
Lemma page_items page :
  Forall typed_row page -> exists items, res_mapM Api.PositionOut (position_of <$> page) = Ok items.
Proof.
  induction 1 as [|r page Hr _ [items IH]]; [by exists []|]. rewrite fmap_cons. cbn [res_mapM].
  destruct (andb_prop _ _ (typed_row_accepted r Hr)) as [Ha _].
  apply Api.PositionOut_accepts in Ha. destruct (Api.PositionOut _) as [item|e]; [|done].
  cbn [mbind res_bind]. rewrite IH. by eexists.
Qed.

Lemma page_rendered page items z :
  Forall typed_row page -> res_mapM Api.PositionOut (position_of <$> page) = Ok items ->
  in_int8 z = true -> is_ok (Api.render items (VInt z)) = true <-> Forall finite_row page.
Proof.
  intros Hp Hi Hz. apply res_mapM_Ok in Hi.
  assert (forallb Api.position_accepted (position_of <$> page) = true /\
          forallb Api.position_writable (position_of <$> page) = true) as [Ha Hw].
  { clear -Hp. induction Hp as [|r page Hr _ [IHa IHw]]; [done|]. rewrite fmap_cons. cbn [forallb].
    destruct (andb_prop _ _ (typed_row_accepted r Hr)) as [-> ->]. by rewrite IHa, IHw. }
  rewrite (Api.render_strict _ _ _ Hi Ha Hw Hz). unfold finite_row. clear.
  induction page as [|r page IH]; [by split|]. rewrite fmap_cons, Forall_cons. cbn [forallb].
  by rewrite andb_true_iff, IH.
Qed.

(** C10. The history endpoint on its own data: in every reachable state of the system,
    when the two queries of a request with bounds that the endpoint admits return, the
    handler builds its model, which never fails since every stored row came through the
    columns of the tables; and, as long as the tag has fewer than 2^63 events, the
    response is sent exactly when every coordinate of the page is a number: one stored
    NaN or infinity, which the parsers and the columns take, makes the strict JSON of
    the response raise, so that the request ends with status 500. *)
Theorem history_never_invalid b s tag from_ts to_ts limit offset p s' :
  tables b = empty_database -> System.reachable self (System.init b) s ->
  (0 <= limit)%Z -> (0 <= offset)%Z ->
  with_connection
    (rows ← get_position_history tag from_ts to_ts limit offset;
     total ← count_position_history tag from_ts to_ts;
     mret (rows, total)) (st_session (System.backend s)) = (Ok p, s') ->
  exists resp page,
    Api.position_history tag from_ts to_ts limit offset (st_session (System.backend s)) = (Ok resp, s') /\
    history_page (tables (System.backend s)) tag from_ts to_ts limit offset page /\
    ((Z.of_nat (length (history_matches tag from_ts to_ts (tables (System.backend s)))) < 2 ^ 63)%Z ->
     is_ok (Api.respond resp) = true <-> Forall finite_row page).
Proof using Hconfig Hnormalizer.
  intros Hb Hr Hl Ho Ew. pose proof (reachable_typed b s Hb Hr) as Hty.
  unfold Api.position_history, mbind at 1, io_bind at 1. rewrite Ew.
  apply (with_connection_reads _ (fun db p => exists page,
    history_page db tag from_ts to_ts limit offset page /\
    p.1 = position_of <$> page /\
    p.2 = VInt (Z.of_nat (length (history_matches tag from_ts to_ts db))))) in Ew
    as (_ & page & Hpage & Hp & Htot).
  - assert (Forall typed_row page) as Hpt.
    { destruct Hpage as (l & Hperm & _ & ->). apply Forall_forall. intros r Hin.
      unfold typed_events in Hty. rewrite Forall_forall in Hty. apply Hty.
      assert (r ∈ l) as Hrl.
      { rewrite <- (take_drop (Z.to_nat offset) l), <- (take_drop (Z.to_nat limit) (drop _ l)).
        rewrite !elem_of_app. tauto. }
      rewrite Hperm in Hrl. unfold history_matches in Hrl.
      by apply list_elem_of_In, filter_In in Hrl as [?%list_elem_of_In _]. }
    destruct (page_items page Hpt) as [items Hi]. unfold mbind, io_bind, io_res. rewrite Hp, Hi.
    eexists _, page. split; [done|]. split; [done|]. intros Hn.
    unfold Api.respond. cbn [Api.items Api.total]. rewrite Htot.
    apply page_rendered; [done..|]. unfold in_int8, tables in *. lia.
  - clear Ew. intros s2 r s3 Hbody. destruct r as [q|]; [|done]. repeat io_step.
    destruct (history_page_spec _ _ _ _ _ _ _ _ Hl Ho E) as (Hc1 & Hv1 & page & Hpg & ->).
    destruct (count_spec _ _ _ _ _ _ E0) as (Hc2 & Hv2 & ->). rewrite Hv1 in *.
    split; [done|]. split; [congruence|]. by exists page.
Qed.
End Typed.

(** ** A concrete datagram: a timestamp of twenty digits *)

#[local] Existing Instance ascii_unicode.

Definition huge_datagram : bytes := ascii_bytes "display:9,7,1,99999999999999999999,2,1.5,-2,0.25".

(** The parameters of the message made of a datagram, and whether a column refuses them *)
Definition refused_datagram (data : bytes) : res bool :=
  p ← prepared data; d ← decode (pub_message p);
  match d with
  | Usable envelope _ => params ← extract_params envelope; Ok (refused position_events_columns params)
  | _ => Ok false
  end.

Lemma ok_inj {A} (a b : A) : Ok a = Ok b -> a = b.
Proof. congruence. Qed.

Lemma huge_refused : refused_datagram huge_datagram = Ok true.
Proof. vm_compute. reflexivity. Qed.

Lemma display_fits : refused_datagram display_datagram = Ok false.
Proof. vm_compute. reflexivity. Qed.

Lemma unstorable_never_settles_witness :
  exists p s', prepared huge_datagram = Ok p /\
    redeliver handle 100 (System.message_of p) fresh_backend = (Requeued, s') /\
    tables s' = empty_database.
Proof.
  pose proof huge_refused as Hr. unfold refused_datagram in Hr.
  destruct (prepared huge_datagram) as [p|?] eqn:Ep; [|discriminate Hr]. cbn [mbind res_bind] in Hr.
  destruct (from_datagram_usable (H := ascii_unicode) (H0 := plain_propagator) (sample_server "1.0")
              "stream" (sample_config_ok _) eq_refl (System.message_of p)) as (e & o & now & Hd).
  { exists sample_env, huge_datagram, sample_addr, p. split; [exact Ep|reflexivity]. }
  pose proof Hd as Hd'. cbn [System.message_of msg_body] in Hd'. rewrite Hd' in Hr. cbn [mbind res_bind] in Hr.
  destruct (event_extract e (event_type (sample_server "1.0")) o now) as (w & _ & Hx). rewrite Hx in Hr.
  assert (storable e (event_type (sample_server "1.0")) o now = false) as Hs.
  { apply negb_true_iff. transitivity (refused position_events_columns (event_params e (event_type (sample_server "1.0")) o w now));
      [symmetry; apply storable_refused|exact (ok_inj _ _ Hr)]. }
  destruct (unstorable_never_settles (H := ascii_unicode) (H0 := plain_propagator) (H3 := aio_pika_process)
              (System.message_of p) fresh_backend e _ o now 100 Hd Hs) as (s' & Hred & Ht & _).
  exists p, s'. split; [reflexivity|]. split; [exact Hred|exact Ht].
Defined.
(** The history endpoint after the run of [SystemFacts] *)
Definition history_rows (tag : text) (s : state (H1 := mem_columns) (H2 := mem_driver)) :=
  with_connection
    (rows ← get_position_history tag None None 100 0;
     total ← count_position_history tag None None;
     mret (rows, total)) (st_session s).

Lemma history_rows_ok :
  (p1 ← prepared display_datagram; p2 ← prepared older_datagram;
   q ← (history_rows "7" (restarted (handle (System.message_of p1) fresh_backend).2)).1;
   Ok (length q.1)) = Ok 1.
Proof. vm_compute. reflexivity. Qed.

Lemma history_never_invalid_witness :
  exists p1 q resp page s', prepared display_datagram = Ok p1 /\ length q.1 = 1 /\
    history_rows "7" (restarted (handle (System.message_of p1) fresh_backend).2) = (Ok q, s') /\
    Api.position_history (H1 := plain_framework) "7" None None 100 0
      (st_session (restarted (handle (System.message_of p1) fresh_backend).2)) = (Ok resp, s') /\
    history_page (tables (restarted (handle (System.message_of p1) fresh_backend).2)) "7" None None 100 0 page.
Proof.
  pose proof history_rows_ok as Hok.
  destruct (prepared display_datagram) as [p1|?] eqn:E1; [|discriminate Hok].
  destruct (prepared older_datagram) as [p2|?] eqn:E2; [|discriminate Hok].
  cbn [mbind res_bind] in Hok.
  destruct (history_rows "7" (restarted (handle (System.message_of p1) fresh_backend).2)) as [[q|?] s'] eqn:Eq;
    [|discriminate Hok].
  cbn [fst mbind res_bind] in Hok.
  destruct (history_never_invalid (H := ascii_unicode) (H0 := plain_propagator) (H3 := aio_pika_process)
              (H4 := plain_framework) (sample_server "1.0") "stream" (sample_config_ok _) eq_refl
              fresh_backend _ "7" None None 100 0 q s' eq_refl (history_reachable p1 p2 E1 E2)
              ltac:(lia) ltac:(lia) Eq) as (resp & page & Hresp & Hpage & _).
  exists p1, q, resp, page, s'. split; [reflexivity|]. split; [exact (ok_inj _ _ Hok)|].
  split; [exact Eq|]. split; [exact Hresp|exact Hpage].
Defined.

(** ** A coordinate that is not a number: the message is acknowledged, the handler of the
    history builds its model, and the response fails. *)

Definition nan_datagram : bytes := ascii_bytes "display:9,7,1,1700000000000,2,nan,-2,0.25".

Lemma nan_coordinate_fails :
  (p ← prepared nan_datagram;
   let '(d, backend) := handle (System.message_of p) fresh_backend in
   resp ← (Api.position_history (H1 := plain_framework) "7" None None 100 0 (st_session backend)).1;
   Ok (d, length (Api.items (H1 := plain_framework) resp), is_ok (Api.respond (H1 := plain_framework) resp)))
  = Ok (Acked, 1, false).
Proof. vm_compute. reflexivity. Qed.

End StorageFacts.
