(* ===== verification/LiveRefinement.v ===== *)
(** * The consumer's handler refines the steps of the live pipeline

    [Live] interleaves commits and broadcasts as steps of their own.  Here the handler
    [Consumer.app_on_message] is shown to take exactly those steps: a message that it
    acknowledges is one commit followed by one broadcast, a message that it requeues is
    no step, or a commit whose broadcast is still owed. *)

From S2P Require Export LiveFacts SystemFacts.
Import Tracing UdpServer Consumer.

Module LiveRefinement.

Section Refinement.
Context `{Interpreter} `{Propagator} `{Driver} `{Process}.
Variable self : UdpServer.UdpServer.

(** The live pipeline's view of the backend's state *)
Definition viewed (s : state) (l : Live.live) : Prop :=
  Live.current l = current_positions (tables s) /\
  Ws.sv_broadcast (Live.server l) = st_broadcast s.

(** [l'] is [l] but for the table, the broadcast and what is owed to it. *)
Definition same_session (l l' : Live.live) : Prop :=
  Live.ws_session l' = Live.ws_session l /\ Live.snap_read l' = Live.snap_read l /\
  Ws.sv_active (Live.server l') = Ws.sv_active (Live.server l).

Lemma envelope_key_event e et o now z : val_of_pyint (ts_utc_ms e) = VInt z ->
  Live.envelope_key (event_envelope e et o now) = Some (tag_id e, z).
Proof.
  intros Hz. transitivity (match val_of_pyint (ts_utc_ms e) with
                           | VInt z => Some (tag_id e, z)
                           | _ => None
                           end); [reflexivity|by rewrite Hz].
Qed.

(** The commit of an event's row is a step. *)
Lemma commit_step l s e o now t z db' :
  viewed s l -> val_of_pyint (ts_utc_ms e) = VInt z -> tag_id e = t -> (0 <= z)%Z ->
  stored (event_envelope e (event_type self) o now) (tables s) db' ->
  exists l', Live.step l l' /\ Live.current l' = current_positions db' /\
    Live.server l' = Live.server l /\ same_session l l' /\
    Live.pending l' = Live.pending l ++ [event_envelope e (event_type self) o now].
Proof.
  intros [Hc _] Hz Ht H0z (params & r & Hx & Hr & ->).
  destruct (event_extract e (event_type self) o now) as (w & _ & Hx'). rewrite Hx in Hx'.
  injection Hx' as ->.
  destruct (row_of_keys _ r t z Hr) as [Hrt Hrz].
  { change (Some (VStr (tag_id e)) = Some (VStr t)). by rewrite Ht. }
  { change (Some (val_of_pyint (ts_utc_ms e)) = Some (VInt z)). by rewrite Hz. }
  eexists. split; [apply (Live.step_commit l (event_envelope e (event_type self) o now) r)|].
  - rewrite (envelope_key_event _ _ _ _ z Hz). by rewrite Ht, Hrt, Hrz.
  - lia.
  - simpl. by rewrite Hc.
Qed.

(** The handler implements the live pipeline: on a message that carries an event with
    an integer timestamp that is not negative, from any state that the pipeline
    views, an acknowledged message is one commit step followed by the broadcast step of
    the same envelope, and a requeued one is no step at all or one commit step whose
    broadcast stays pending; the session, its snapshot and the gauge are not touched. *)
Theorem handler_refines_live m s l t z :
  System.says self m t z -> (0 <= z)%Z -> viewed s l ->
  let '(d, s') := app_on_message m s in
  match d with
  | Acked => exists l1 l', Live.step l l1 /\ Live.step l1 l' /\ viewed s' l' /\ same_session l l' /\
      Live.pending l' = Live.pending l
  | Requeued => viewed s' l \/
      exists l1 e, Live.step l l1 /\ viewed s' l1 /\ same_session l l1 /\
        Live.pending l1 = Live.pending l ++ [e] /\ Live.envelope_key e = Some (t, z)
  end.
Proof.
  intros (e & o & now & Hd & Ht & Hz) H0z Hv.
  pose proof (app_usable _ _ m s Hd) as Ho. destruct (app_on_message m s) as [d s'].
  cbn [fst snd] in Ho. destruct Ho as [s' Hst Hb _|s' Hst Hb _|].
  - destruct (commit_step l s e o now t z _ Hv Hz Ht H0z Hst) as (l1 & Hl1 & Hc1 & Hs1 & Hse1 & Hp1).
    exists l1. eexists. split; [exact Hl1|].
    split; [apply (Live.step_broadcast l1 (event_envelope e (event_type self) o now) (Live.pending l));
              rewrite Hp1; [set_solver|split; set_solver]|].
    destruct Hse1 as (Hw & Hsn & Ha), Hv as [_ Hvb].
    split; [split; simpl; [exact Hc1|by rewrite Hs1, Hvb, Hb]|].
    split; [split; [exact Hw|]; split; [exact Hsn|exact Ha]|done].
  - destruct Hst as [Hst|Hst]; [left; destruct Hv as [Hvc Hvb]; split; congruence|right].
    destruct (commit_step l s e o now t z _ Hv Hz Ht H0z Hst) as (l1 & Hl1 & Hc1 & Hs1 & Hse1 & Hp1).
    exists l1, (event_envelope e (event_type self) o now). split; [exact Hl1|]. destruct Hv as [_ Hvb].
    split; [split; [exact Hc1|congruence]|]. split; [exact Hse1|]. split; [exact Hp1|].
    rewrite (envelope_key_event _ _ _ _ z Hz). by rewrite Ht.
  - by left.
Qed.
End Refinement.

(** ** A concrete handler run *)

#[local] Existing Instance ascii_unicode.

Import SystemFacts.

Definition key_of (d : decoded) : option (pyval * pyval) :=
  match d with
  | Usable _ payload =>
      match dget "tag_id" payload, dget "ts_utc_ms" payload with
      | Some t, Some z => Some (t, z)
      | _, _ => None
      end
  | _ => None
  end.

Lemma sample_key :
  (p ← prepared display_datagram; d ← decode (pub_message p); Ok (key_of d)) =
  Ok (Some (VStr "7", VInt 1700000000000)).
Proof. vm_compute. reflexivity. Qed.

Lemma sample_says p : prepared display_datagram = Ok p ->
  System.says (sample_server "1.0") (System.message_of p) "7" 1700000000000.
Proof.
  intros Hp. pose proof sample_key as Hk. rewrite Hp in Hk. cbn [mbind res_bind] in Hk.
  destruct (from_datagram_usable (H := ascii_unicode) (H0 := plain_propagator) (sample_server "1.0")
              "stream" (sample_config_ok _) eq_refl (System.message_of p)) as (e & o & now & Hd).
  { exists sample_env, display_datagram, sample_addr, p. split; [exact Hp|reflexivity]. }
  exists e, o, now. split; [exact Hd|]. cbn [System.message_of msg_body] in Hd.
  rewrite Hd in Hk. cbn [mbind res_bind] in Hk.
  change (Ok (Some (VStr (tag_id e), val_of_pyint (ts_utc_ms e))) =
          Ok (Some (VStr "7", VInt 1700000000000))) in Hk.
  injection Hk as Ht Hz. split; [exact Ht|exact Hz].
Qed.

Definition sample_live : Live.live :=
  {| Live.current := ∅; Live.pending := [];
     Live.server := {| Ws.sv_broadcast := one_subscriber; Ws.sv_active := 0 |};
     Live.ws_session := None; Live.snap_read := None; Live.dropped := false |}.

Lemma handler_acks :
  (p ← prepared display_datagram; Ok (handle (System.message_of p) fresh_backend).1) = Ok Acked.
Proof. vm_compute. reflexivity. Qed.

Lemma handler_refines_live_witness :
  exists p s' l1 l', prepared display_datagram = Ok p /\
    handle (System.message_of p) fresh_backend = (Acked, s') /\
    Live.step sample_live l1 /\ Live.step l1 l' /\ viewed s' l'.
Proof.
  pose proof handler_acks as Ha. destruct (prepared display_datagram) as [p|?] eqn:Ep; [|discriminate Ha].
  pose proof (handler_refines_live (H := ascii_unicode) (H0 := plain_propagator) (H3 := aio_pika_process)
                (sample_server "1.0") (System.message_of p) fresh_backend sample_live "7" 1700000000000
                (sample_says p Ep) ltac:(lia) (conj eq_refl eq_refl)) as Hr.
  fold (handle (System.message_of p) fresh_backend) in Hr. cbn [mbind res_bind] in Ha.
  destruct (handle (System.message_of p) fresh_backend) as [d s'] eqn:Eh. injection Ha as ->.
  destruct Hr as (l1 & l' & Hl1 & Hl' & Hv & _). exists p, s', l1, l'.
  split; [reflexivity|]. split; [exact Eh|]. split; [exact Hl1|]. split; [exact Hl'|exact Hv].
Defined.

End LiveRefinement.
