(* ===== verification/Logging.v ===== *)
(** * Logging configuration: [core/logging_config.py]

    The filter that puts the current span's identifiers on a record, and the set-up of
    the root logger, whose state is threaded explicitly. *)

From S2P Require Export TextFacts.

Module Logging.

(** ** [format(n, "0{width}x")] *)

Definition hex_char (d : N) : N := if (d <? 10)%N then (d + 48)%N else (d + 87)%N.

(** The hexadecimal digits of [n]; the fuel is its bit length plus one. *)
Fixpoint hex_fuel (fuel : nat) (n : N) (acc : list N) : list N :=
  match fuel with
  | O => acc
  | S f => if (n <? 16)%N then n :: acc else hex_fuel f (n / 16) (n mod 16 :: acc)%N
  end.
Definition hex_digits (n : N) : list N := hex_fuel (S (N.to_nat (N.size n))) n [].

Definition zero_pad {A} (zero : A) (width : nat) (l : list A) : list A :=
  replicate (width - length l) zero ++ l.

Definition format_x (width : nat) (n : N) : text := zero_pad (ch "0") width (hex_char <$> hex_digits n).

(** ** [_TraceInjectFilter.filter] *)

Record span_context := { trace_id : N; span_id : N }.

(** The attributes that the filter sets on a record; it always returns [True]. *)
Record record_ids := { rec_trace_id : text; rec_span_id : text }.

Definition trace_inject_filter (ctx : option span_context) : record_ids * bool :=
  (match ctx with
   | Some c =>
       if (trace_id c =? 0)%N then
         {| rec_trace_id := replicate 32 (ch "0"); rec_span_id := replicate 16 (ch "0") |}
       else {| rec_trace_id := format_x 32 (trace_id c); rec_span_id := format_x 16 (span_id c) |}
   | None => {| rec_trace_id := replicate 32 (ch "0"); rec_span_id := replicate 16 (ch "0") |}
   end, true).

(** ** [setup_logging] *)

Inductive formatter :=
  | JsonFormatter (fmt : text) (rename_fields : list (text * text))
  | Formatter (fmt datefmt : text).

Inductive filter := TraceInjectFilter.

Inductive handler :=
  | StreamHandler (level : Z) (format : formatter) (filters : list filter)
  | OtherHandler.                   (* one that this module did not install *)

Record logger := { lg_level : Z; lg_handlers : list handler }.

Definition json_formatter : formatter :=
  JsonFormatter (txt "%(asctime)s %(levelname)s %(name)s %(message)s " ++ txt "%(trace_id)s %(span_id)s")
    [(txt "asctime", txt "timestamp"); (txt "levelname", txt "level")].

Definition text_formatter : formatter :=
  Formatter "%(asctime)s | %(levelname)-8s | %(name)s | %(message)s" "%Y-%m-%d %H:%M:%S".

Section Setup.
Context `{Interpreter}.
Variable environ : gmap text text.

Definition use_json (json_format : option bool) : bool :=
  match json_format with
  | Some b => b
  | None => text_eqb (lower (default [] (environ !! txt "LOG_FORMAT"))) "json"
  end.

Definition setup_logging (level : Z) (json_format : option bool) (root : logger) : logger :=
  match lg_handlers root with
  | _ :: _ => {| lg_level := level; lg_handlers := lg_handlers root |}
  | [] =>
      {| lg_level := level;
         lg_handlers := [StreamHandler level (if use_json json_format then json_formatter else text_formatter)
                           [TraceInjectFilter]] |}
  end.

(** The calls of a process, one after the other *)
Definition setup_all (calls : list (Z * option bool)) (root : logger) : logger :=
  foldl (fun r c => setup_logging c.1 c.2 r) root calls.
End Setup.

End Logging.
