(* ===== verification/LoggingFacts.v ===== *)
(** * Logging: theorems

    The identifiers on a record have the fixed width of the W3C format and read back
    as the span's; the root logger gets one handler however often it is set up. *)

From S2P Require Export Logging.

Module LoggingFacts.
Import Logging.

(** ** Hexadecimal text *)

Definition is_hex (d : N) : Prop := (d < 16)%N.

Lemma hex_fuel_value fuel n acc : (n < 2 ^ N.of_nat fuel)%N ->
  digits_value 16 0 (hex_fuel fuel n acc) = digits_value 16 n acc.
Proof.
  revert n acc. induction fuel as [|f IH]; intros n acc Hn; simpl hex_fuel.
  - assert (n = 0)%N as -> by (simpl in Hn; lia). done.
  - rewrite Nat2N.inj_succ, N.pow_succ_r' in Hn.
    destruct (N.ltb_spec n 16); [unfold digits_value; simpl; f_equal; lia|].
    rewrite IH by (apply N.Div0.div_lt_upper_bound; lia).
    unfold digits_value; simpl. f_equal. pose proof (N.Div0.div_mod n 16). lia.
Qed.

Lemma hex_fuel_hex fuel n acc :
  (n < 2 ^ N.of_nat fuel)%N -> Forall is_hex acc -> Forall is_hex (hex_fuel fuel n acc).
Proof.
  revert n acc. induction fuel as [|f IH]; intros n acc Hn Hacc; [done|]; simpl.
  rewrite Nat2N.inj_succ, N.pow_succ_r' in Hn.
  destruct (N.ltb_spec n 16); [by constructor|].
  apply IH; [apply N.Div0.div_lt_upper_bound; lia|].
  constructor; [|done]. by apply N.mod_lt.
Qed.

Lemma hex_fuel_length fuel n acc k :
  (n < 16 ^ N.of_nat (S k))%N -> length (hex_fuel fuel n acc) <= S k + length acc.
Proof.
  revert n acc k. induction fuel as [|f IH]; intros n acc k Hn; [simpl; lia|]. simpl hex_fuel.
  destruct (N.ltb_spec n 16); [simpl; lia|]. destruct k as [|k]; [simpl in Hn; lia|].
  rewrite Nat2N.inj_succ, N.pow_succ_r' in Hn.
  specialize (IH (n / 16)%N (n mod 16 :: acc)%N k
                (N.Div0.div_lt_upper_bound n 16 (16 ^ N.of_nat (S k)) Hn)). simpl in *. lia.
Qed.

Lemma hex_digits_value n : digits_value 16 0 (hex_digits n) = n.
Proof. apply hex_fuel_value, N_digits_fuel_ok. Qed.

Lemma hex_digits_hex n : Forall is_hex (hex_digits n).
Proof. apply hex_fuel_hex; [apply N_digits_fuel_ok|constructor]. Qed.

Lemma hex_digits_cons n : hex_digits n ≠ [].
Proof.
  assert (forall fuel n acc, hex_fuel (S fuel) n acc ≠ []) as Hf; [|apply Hf].
  clear. induction fuel as [|f IH]; intros n acc.
  - simpl. by destruct (n <? 16)%N.
  - change (hex_fuel (S (S f)) n acc)
      with (if (n <? 16)%N then n :: acc else hex_fuel (S f) (n / 16) (n mod 16 :: acc)%N).
    destruct (n <? 16)%N; [done|apply IH].
Qed.

(** The padded digits: their value, their range, their number. *)
Definition padded (width : nat) (n : N) : list N := zero_pad 0%N width (hex_digits n).

Lemma format_x_padded width n : format_x width n = hex_char <$> padded width n.
Proof.
  unfold format_x, padded, zero_pad. rewrite fmap_app, fmap_replicate, length_fmap. done.
Qed.

Lemma padded_value width n : digits_value 16 0 (padded width n) = n.
Proof.
  unfold padded, zero_pad. rewrite <- (hex_digits_value n) at 3.
  generalize (hex_digits n) at 2 3. intros l.
  induction (width - length (hex_digits n)) as [|k IH]; [done|]. exact IH.
Qed.

Lemma padded_hex width n : Forall is_hex (padded width n).
Proof.
  apply Forall_app. split; [|apply hex_digits_hex]. apply Forall_replicate. unfold is_hex. lia.
Qed.

Lemma padded_cons width n : padded width n ≠ [].
Proof. intros [_ Hn]%app_eq_nil. by apply hex_digits_cons in Hn. Qed.

Lemma padded_length k n : (n < 16 ^ N.of_nat (S k))%N -> length (padded (S k) n) = S k.
Proof.
  intros Hn. pose proof (hex_fuel_length (S (N.to_nat (N.size n))) n [] k Hn) as Hl.
  unfold padded, zero_pad. rewrite length_app, length_replicate. unfold hex_digits in *.
  cbn [length] in Hl. lia.
Qed.

(** ** Reading it back *)

Lemma hex_char_cases d : is_hex d -> (48 <= hex_char d <= 57 \/ 97 <= hex_char d <= 102)%N.
Proof. unfold is_hex, hex_char. intros Hd. destruct (N.ltb_spec d 10); lia. Qed.

Lemma digit_of_hex_char d : is_hex d -> digit_of 16 (hex_char d) = Some d.
Proof.
  intros Hd. unfold is_hex, digit_of, hex_char in *. destruct (N.ltb_spec d 10).
  - assert (in_range 48 57 (d + 48) = true) as -> by char_solve.
    assert (d + 48 - 48 = d)%N as -> by lia. assert (d <? 16 = true)%N as -> by lia. done.
  - assert (in_range 48 57 (d + 87) = false) as -> by char_solve.
    assert (in_range 97 102 (d + 87) = true) as -> by char_solve.
    assert (d + 87 - 97 + 10 = d)%N as -> by lia. assert (d <? 16 = true)%N as -> by lia. done.
Qed.

Lemma scan_hex ds prev : Forall is_hex ds -> ds ≠ [] \/ prev = false ->
  scan_digits 16 prev (hex_char <$> ds) = Some (ds, []).
Proof.
  intros Hd. revert prev. induction Hd as [|d ds Hd Hds IH]; intros prev Hp.
  - by destruct Hp as [?| ->].
  - rewrite fmap_cons. cbn [scan_digits].
    assert (hex_char d =? ch "_" = false)%N as -> by (pose proof (hex_char_cases d Hd); eval_ch; lia).
    rewrite digit_of_hex_char by done. by rewrite IH by auto.
Qed.

Lemma is_ascii_hex ds : Forall is_hex ds -> is_ascii (hex_char <$> ds) = true.
Proof.
  intros Hd. induction Hd as [|d ds Hd Hds IH]; [done|].
  rewrite fmap_cons. unfold is_ascii in *. cbn [forallb]. rewrite IH, andb_true_r.
  pose proof (hex_char_cases d Hd). lia.
Qed.

Lemma hex_no_prefix ds : Forall is_hex ds -> drop_hex_prefix (hex_char <$> ds) = hex_char <$> ds.
Proof.
  intros Hd. destruct Hd as [|a ds' Ha Hd]; [done|]. destruct Hd as [|b ds Hb Hds]; [done|]. rewrite !fmap_cons. simpl.
  pose proof (hex_char_cases b Hb). eval_ch.
  assert ((hex_char b =? 120) || (hex_char b =? 88) = false)%N as -> by lia.
  by rewrite andb_false_r.
Qed.

Lemma py_int_hex ds : Forall is_hex ds -> ds ≠ [] ->
  py_int 16 (hex_char <$> ds) = Ok (Z.of_N (digits_value 16 0 ds)).
Proof.
  intros Hd Hn. unfold py_int. rewrite ascii_numeral_ascii by by apply is_ascii_hex.
  pose proof (hex_no_prefix ds Hd) as Hp. pose proof (scan_hex ds true Hd (or_introl Hn)) as Hs.
  destruct Hd as [|d ds Hd Hds]; [done|]. rewrite fmap_cons in *. simpl drop_while.
  pose proof (hex_char_cases d Hd) as Hc.
  assert (is_c_space (hex_char d) = false) as -> by (unfold is_c_space; char_solve).
  rewrite take_sign_none by (eval_ch; lia). cbn [N.eqb Pos.eqb andb].
  by rewrite Hp, Hs.
Qed.

(** A text of lower-case hexadecimal digits *)
Definition hex_text (s : text) : Prop := Forall (fun c => (48 <= c <= 57 \/ 97 <= c <= 102)%N) s.

Lemma format_x_spec k n : (n < 16 ^ N.of_nat (S k))%N ->
  length (format_x (S k) n) = S k /\ hex_text (format_x (S k) n) /\
  py_int 16 (format_x (S k) n) = Ok (Z.of_N n).
Proof.
  intros Hn. rewrite format_x_padded, length_fmap. split; [by apply padded_length|]. split.
  - apply Forall_fmap. eapply Forall_impl; [apply padded_hex|]. apply hex_char_cases.
  - by rewrite py_int_hex, padded_value by (apply padded_hex || apply padded_cons).
Qed.

Lemma format_x_zero k : format_x (S k) 0 = replicate (S k) (ch "0").
Proof.
  unfold format_x, zero_pad. change (hex_char <$> hex_digits 0) with [ch "0"].
  cbn [length]. rewrite Nat.sub_succ, Nat.sub_0_r.
  change [ch "0"] with (replicate 1 (ch "0")). rewrite <- replicate_add. f_equal. lia.
Qed.

(** C38. The identifiers that the filter puts on a record: always 32 and 16 lower-case
    hexadecimal digits, whatever the span's 128-bit and 64-bit identifiers are, zeros
    included; with a valid trace identifier they read back as the span's, without one
    they read back as zero; and no record is ever dropped. *)
Theorem trace_ids_roundtrip ctx ids keep :
  (forall c, ctx = Some c -> (trace_id c < 2 ^ 128)%N /\ (span_id c < 2 ^ 64)%N) ->
  trace_inject_filter ctx = (ids, keep) ->
  keep = true /\
  length (rec_trace_id ids) = 32 /\ hex_text (rec_trace_id ids) /\
  length (rec_span_id ids) = 16 /\ hex_text (rec_span_id ids) /\
  match ctx with
  | Some c => py_int 16 (rec_trace_id ids) = Ok (Z.of_N (trace_id c)) /\
      py_int 16 (rec_span_id ids) = Ok (if (trace_id c =? 0)%N then 0%Z else Z.of_N (span_id c))
  | None => py_int 16 (rec_trace_id ids) = Ok 0%Z /\ py_int 16 (rec_span_id ids) = Ok 0%Z
  end.
Proof.
  intros Hb [= <- <-]. split; [done|].
  destruct (format_x_spec 31 0) as (Ht0 & Hx0 & Hi0); [lia|].
  destruct (format_x_spec 15 0) as (Ht1 & Hx1 & Hi1); [lia|].
  rewrite format_x_zero in *. destruct ctx as [c|].
  - destruct (Hb c eq_refl) as [H1 H2].
    destruct (format_x_spec 31 (trace_id c)) as (? & ? & ?); [exact H1|].
    destruct (format_x_spec 15 (span_id c)) as (? & ? & ?); [exact H2|].
    destruct (N.eqb_spec (trace_id c) 0) as [->|]; cbn [rec_trace_id rec_span_id]; auto 10.
  - cbn [rec_trace_id rec_span_id]. auto 10.
Qed.

(** ** The set-up *)

(** However often and with whatever arguments a process sets logging up, the root
    logger has the one handler of the first call, with the filter on it, and the level
    of the last call; handlers that were there before are kept and none is added. *)
Theorem setup_logging_once `{Interpreter} environ level json calls root :
  setup_all environ ((level, json) :: calls) root =
  {| lg_level := match last calls with Some c => c.1 | None => level end;
     lg_handlers := match lg_handlers root with
                    | [] => [StreamHandler level
                               (if use_json environ json then json_formatter else text_formatter)
                               [TraceInjectFilter]]
                    | hs => hs
                    end |}.
Proof.
  unfold setup_all. simpl. set (r := setup_logging environ level json root).
  assert (lg_handlers r ≠ []) as Hne by (unfold r, setup_logging; by destruct (lg_handlers root)).
  transitivity {| lg_level := match last calls with Some c => c.1 | None => lg_level r end;
                  lg_handlers := lg_handlers r |}.
  2: { unfold r, setup_logging. by destruct (lg_handlers root). }
  clearbody r. revert r Hne. induction calls as [|[l j] calls IH]; intros r Hne; [by destruct r|].
  simpl foldl. assert (setup_logging environ l j r = {| lg_level := l; lg_handlers := lg_handlers r |}) as ->.
  { unfold setup_logging. by destruct (lg_handlers r). }
  rewrite IH by done. cbn [lg_level lg_handlers]. destruct calls as [|c calls]; [done|].
  rewrite last_cons_cons. destruct (last (c :: calls)) eqn:El; [done|by apply last_None in El].
Qed.

(** ** A concrete span *)

Definition sample_span : span_context := {| trace_id := 0x4bf92f3577b34da6a3ce929d0e0e4736; span_id := 0xf067aa0ba902b7 |}.

Lemma trace_ids_roundtrip_witness :
  rec_span_id (trace_inject_filter (Some sample_span)).1 = txt "00f067aa0ba902b7" /\
  py_int 16 (rec_trace_id (trace_inject_filter (Some sample_span)).1) =
    Ok 0x4bf92f3577b34da6a3ce929d0e0e4736%Z.
Proof.
  split; [vm_compute; reflexivity|].
  destruct (trace_ids_roundtrip (Some sample_span) (trace_inject_filter (Some sample_span)).1 true)
    as (_ & _ & _ & _ & _ & Hi & _).
  - intros c [= <-]. split; vm_compute; reflexivity.
  - vm_compute. reflexivity.
  - exact Hi.
Defined.

End LoggingFacts.
