(* ===== verification/Startup.v ===== *)
(** * Start-up and shutdown of the processes: [backend/app.py] ([create_app] and
    [_lifespan]), [backend/db.py] ([create_pool]), [stream_generator/main.py] ([init])

    The pieces that the other files model are put together here: the configuration,
    tracing, logging, the pool, the broadcast and the consumer task. *)

From S2P Require Export App Api Config Tracing Broadcast Logging Client Receiver.

Module Startup.

(** ** [create_pool] *)

Definition MIN_POOL_SIZE : Z := 4.
Definition MAX_POOL_SIZE : Z := 20.
Definition POOL_TIMEOUT : pyfloat := float_of_decimal false 10 0.

(** The arguments of [ConnectionPool] *)
Record pool_options := {
  po_conninfo : pyval; po_min_size : Z; po_max_size : Z; po_timeout : pyfloat;
}.

Definition create_pool (config : Config.BackendConfig) : pool_options :=
  {| po_conninfo := Config.bc_dsn config; po_min_size := MIN_POOL_SIZE;
     po_max_size := MAX_POOL_SIZE; po_timeout := POOL_TIMEOUT |}.

(** ** [create_app] *)

Inductive route_kind := Get | WebSocket.
Record route := { rt_kind : route_kind; rt_path : text; rt_endpoint : text }.

Definition health_router : list route := [{| rt_kind := Get; rt_path := "/health"; rt_endpoint := "health_check" |}].
Definition metrics_router : list route :=
  [{| rt_kind := Get; rt_path := "/metrics"; rt_endpoint := "metrics" |}].
Definition positions_router : list route :=
  [{| rt_kind := Get; rt_path := "/positions/history"; rt_endpoint := "position_history" |}].
Definition ws_router : list route :=
  [{| rt_kind := WebSocket; rt_path := "/ws/positions"; rt_endpoint := "positions_ws" |}].

Definition include_router (prefix : text) (router routes : list route) : list route :=
  routes ++ ((fun r => {| rt_kind := rt_kind r; rt_path := prefix ++ rt_path r;
                          rt_endpoint := rt_endpoint r |}) <$> router).

Record cors := { allow_origins : list text; allow_credentials : bool; allow_methods : list text;
                 allow_headers : list text }.

Record application := {
  ap_config : Config.BackendConfig;
  ap_cors : cors;
  ap_routes : list route;
  ap_instrumented : bool;
  ap_requests : Api.http_metrics;       (* what the middleware counts *)
}.

Section Application.
Context `{Interpreter}.
Variable project_root : Config.path.
Variable environ : gmap text text.
Variable read_yaml : Config.path -> res pyval.

(** [config or load_backend_config()]: an instance of a dataclass is true. *)
Definition resolve_config (config : option Config.BackendConfig) :
    io (option Config.AppConfig) Config.BackendConfig :=
  match config with
  | Some c => mret c
  | None => Config.load_backend_config project_root environ read_yaml None
  end.

Definition create_app (config : option Config.BackendConfig) :
    io (option Config.AppConfig) application :=
  resolved_config ← resolve_config config;
  mret {| ap_config := resolved_config;
          ap_cors := {| allow_origins := [txt "http://localhost:5173"]; allow_credentials := true;
                        allow_methods := [txt "*"]; allow_headers := [txt "*"] |};
          ap_routes :=
            include_router "/api/v1" ws_router
              (include_router "/api/v1" positions_router
                (include_router [] metrics_router (include_router [] health_router [])));
          ap_instrumented := true; ap_requests := Api.no_requests |}.

(** ** [init] and [main] of the stream generator *)

Definition generator_init (root : Logging.logger) (cache : option Config.AppConfig) :
    Logging.logger * (res (list Tracing.sdk_call) * option Config.AppConfig) :=
  (Logging.setup_logging environ 20 None root,
   (_ ← Config.load_config project_root environ read_yaml None false;
    mret (Tracing.init_tracing "stream-generator" (Tracing.get_otlp_endpoint environ))) cache).

Context `{Tracing.Propagator}.

(** The options of [main]; [typer] makes them of the command line. *)
Record generator_options := {
  go_source : Config.path;
  go_ip : text;
  go_port : Z;
  go_batch_size : Z;
  go_time_between_batches : option Z;       (* 1 unless it is given *)
}.

(** What [main] meets: the files, the schema engine, the socket to an address, and the
    span that [start_as_current_span] makes current. *)
Record generator_world := {
  gw_read : Config.path -> res text;
  gw_draft202012 : pyval -> res (pyval -> list Validate.schema_error);
  gw_lines : Config.path -> res (list text);
  gw_open_socket : res ();
  gw_close_socket : res ();
  gw_sendto : text -> Z -> nat -> bytes -> res ();
  gw_span : option Tracing.span_context;
}.

Definition generator_main (w : generator_world) (o : generator_options)
    (cache : option Config.AppConfig) : (res () * list Client.effect) * option Config.AppConfig :=
  let '(r, cache) := Config.get_config project_root environ read_yaml cache in
  match (config ← r;
         v ← Receiver.open_validator (gw_read w) (gw_draft202012 w)
               (Config.schema_path (Config.validation config))
               (Receiver.text_of (Config.vc_origin (Config.validation config)));
         lines ← gw_lines w (go_source o);
         Ok (v, lines)) with
  | Raise e => ((Raise e, []), cache)
  | Ok (v, lines) =>
      (Generator.main (gw_sendto w (go_ip o) (go_port o)) (gw_open_socket w) (gw_close_socket w)
         v (gw_span w) lines (go_batch_size o) (default 1%Z (go_time_between_batches o)) [], cache)
  end.
End Application.

(** ** [_lifespan] *)

(** What the application's state holds between start-up and shutdown *)
Record app_state := {
  as_config : Config.BackendConfig;
  as_pool : pool_options;
  as_broadcast : Broadcast.state;
  as_tracing : list Tracing.sdk_call;
}.

(** The half before [yield]; [open_pool] is [ConnectionPool], the queue size is the
    default of [Broadcast]. *)
Definition lifespan_startup (environ : gmap text text) (open_pool : pool_options -> res ())
    (config : Config.BackendConfig) : res app_state :=
  let tracing := Tracing.init_tracing "backend" (Tracing.get_otlp_endpoint environ) in
  _ ← open_pool (create_pool config);
  Ok {| as_config := config; as_pool := create_pool config; as_broadcast := Broadcast.init Broadcast.default_maxsize;
        as_tracing := tracing |}.

Inductive lifespan_end :=
  | NotStarted (e : exn)                       (* no task, no pool *)
  | Pending (s : App.consumer)                 (* the consumer task has not ended *)
  | ShutDown (raised : option exn) (s : App.consumer).

(** The whole of it, over the turns that the consumer task makes until the shutdown
    awaits its end. *)
Definition lifespan (environ : gmap text text) (open_pool : pool_options -> res ())
    (config : Config.BackendConfig) (turns : list App.attempt) : lifespan_end :=
  match lifespan_startup environ open_pool config with
  | Raise e => NotStarted e
  | Ok _ =>
      match App.run_consumer turns App.fresh with
      | (App.Running, s) => Pending s
      | (st, s) => let '(raised, s) := App.shutdown st s in ShutDown raised s
      end
  end.

(** ** The other entry points *)

(** A process that was started: its logging, its configuration cache, and how it ended *)
Record started (A : Type) := {
  sd_logger : Logging.logger;
  sd_cache : option Config.AppConfig;
  sd_result : res A;
}.
Arguments Build_started {A}.
Arguments sd_result {A}.
Arguments sd_logger {A}.
Arguments sd_cache {A}.

Section EntryPoints.
Context `{Interpreter}.
Variable project_root : Config.path.
Variable environ : gmap text text.
Variable read_yaml : Config.path -> res pyval.

(** [logging.basicConfig(level=..., format=...)]: a logger with handlers stays as it is. *)
Definition basic_config (level : Z) (format : text) (root : Logging.logger) : Logging.logger :=
  match Logging.lg_handlers root with
  | _ :: _ => root
  | [] => {| Logging.lg_level := level;
             Logging.lg_handlers := [Logging.StreamHandler 0 (Logging.Formatter format []) []] |}
  end.

(** [main] of the standalone consumer: logging, the configuration and the pool, then
    [App.main] over what the broker and the event loop do. *)
Definition consumer_main (open_pool : pool_options -> res ()) (a : App.attempt)
    (received : list App.signal) (root : Logging.logger) (cache : option Config.AppConfig) :
    started (option (option exn) * App.consumer) :=
  let '(r, cache) :=
    (config ← Config.load_backend_config project_root environ read_yaml None;
     _ ← io_res (open_pool (create_pool config));
     mret (App.main a received App.fresh)) cache in
  {| sd_logger := basic_config 20 "%(asctime)s - %(name)s - %(levelname)s - %(message)s" root;
     sd_cache := cache; sd_result := r |}.

(** [main] of the backend, after the import of [backend.app] has made the application:
    what [uvicorn.run] is called with *)
Definition backend_main (root : Logging.logger) (cache : option Config.AppConfig) :
    started (application * (pyval * Z)) :=
  match create_app project_root environ read_yaml None cache with
  | (Raise e, cache) => {| sd_logger := root; sd_cache := cache; sd_result := Raise e |}
  | (Ok app, cache) =>
      let root := Logging.setup_logging environ 20 None root in
      let '(r, cache) := Config.load_backend_config project_root environ read_yaml None cache in
      {| sd_logger := root; sd_cache := cache;
         sd_result := config ← r; Ok (app, (Config.bc_host config, Config.bc_port config)) |}
  end.
End EntryPoints.

End Startup.
