(* ===== verification/StartupFacts.v ===== *)
(** * Start-up and shutdown: theorems

    The shutdown ends: however the consumer task goes on, the turn in which the stop
    event is set is its last, and then the pool is closed. *)

From S2P Require Export Startup AppFacts ConfigFacts.

Module StartupFacts.
Import Startup.

Lemma run_app a b s :
  App.run_consumer (a ++ b) s =
  match App.run_consumer a s with
  | (App.Running, s') => App.run_consumer b s'
  | r => r
  end.
Proof.
  revert s. induction a as [|x a IH]; intros s; [done|]. simpl.
  destruct (App.turn x s) as [[] s']; [apply IH|done..].
Qed.

(** The stop event is set at the head of the turn, or while it waits to retry. *)
Definition stopped (a : App.attempt) : bool := App.at_stop a || App.at_delay a.

Lemma turn_stopped a s : stopped a = true -> (App.turn a s).1 ≠ App.Running.
Proof.
  unfold stopped, App.turn. destruct (App.at_stop a); [done|]. simpl. intros ->.
  destruct (App.try_consume a s) as [failed s1]. destruct (App.release a s1) as [[e|] s2]; [done|].
  by destruct failed.
Qed.

(** The first [m] turns of a schedule *)
Definition turns_of (f : nat -> App.attempt) (m : nat) : list App.attempt := f <$> seq 0 m.

Lemma turns_of_S f m : turns_of f (S m) = turns_of f m ++ [f m].
Proof. unfold turns_of. by rewrite seq_S, fmap_app. Qed.

(** A task that is not running any more ended at some turn, and stays as it was. *)
Lemma first_end f s n : (App.run_consumer (turns_of f n) s).1 ≠ App.Running ->
  exists k st s', k < n /\ st ≠ App.Running /\
    (forall m, m <= k -> (App.run_consumer (turns_of f m) s).1 = App.Running) /\
    (forall m, k < m -> App.run_consumer (turns_of f m) s = (st, s')).
Proof.
  induction n as [|n IH]; [done|]. intros Hn.
  destruct (App.run_consumer (turns_of f n) s) as [st s'] eqn:E.
  assert (st = App.Running \/ st ≠ App.Running) as [->|Hst] by (destruct st; [by left|by right..]).
  2: { destruct IH as (k & st' & s'' & Hk & H'); [done|]. exists k, st', s''. split; [lia|done]. }
  destruct (App.run_consumer (turns_of f (S n)) s) as [st1 s1] eqn:E1.
  exists n, st1, s1. split; [lia|]. split; [done|]. split.
  - intros m Hm. destruct (App.run_consumer (turns_of f m) s) as [stm sm] eqn:Em.
    unfold turns_of in E. replace n with (m + (n - m)) in E by lia.
    rewrite seq_app, fmap_app, run_app in E. fold (turns_of f m) in E. rewrite Em in E.
    by destruct stm.
  - intros m Hm. unfold turns_of. replace m with (S n + (m - S n)) by lia.
    rewrite seq_app, fmap_app, run_app. fold (turns_of f (S n)). rewrite E1. by destruct st1.
Qed.

(** C24. The shutdown of the application terminates: when closing a connection does not
    raise and the stop event is set during some turn of the consumer task, the task
    makes that turn its last or has ended in an earlier one; until then the shutdown
    waits, and from then on it has completed without an exception, with no connection
    to the broker left open and the closing of the pool as its last act. *)
Theorem lifespan_terminates environ open_pool config f n :
  open_pool (create_pool config) = Ok () ->
  (forall i, App.at_close (f i) = None) -> stopped (f n) = true ->
  exists k s, k <= n /\
    (forall m, m <= k -> exists s', lifespan environ open_pool config (turns_of f m) = Pending s') /\
    (forall m, k < m -> lifespan environ open_pool config (turns_of f m) = ShutDown None s) /\
    App.open_connections s = [] /\ last (App.log s) = Some App.ClosePool.
Proof.
  intros Hp Hc Hs.
  destruct (first_end f App.fresh (S n)) as (k & st & s & Hk & Hst & Hbefore & Hafter).
  { rewrite turns_of_S, run_app. destruct (App.run_consumer (turns_of f n) App.fresh) as [[] s']; [|done..].
    simpl. pose proof (turn_stopped (f n) s' Hs) as Ht.
    destruct (App.turn (f n) s') as [[] s'']; [|done..]. by destruct Ht. }
  assert (Forall (fun a => App.at_close a = None) (turns_of f (S k))) as Hf.
  { apply Forall_fmap, Forall_true. intros i. apply Hc. }
  destruct (run_idle _ _ _ _ fresh_idle Hf (Hafter (S k) ltac:(lia))) as [[Ho _] [->| ->]]; [done|].
  exists k, (App.emit [App.ClosePool] s). split; [lia|].
  unfold lifespan, lifespan_startup. rewrite Hp. cbn [mbind res_bind]. split; [|split; [|split]].
  - intros m Hm. specialize (Hbefore m Hm).
    destruct (App.run_consumer (turns_of f m) App.fresh) as [stm sm]. simpl in Hbefore. subst. by exists sm.
  - intros m Hm. by rewrite (Hafter m Hm).
  - done.
  - simpl. by rewrite last_snoc.
Qed.

(** No route of the application shadows another. *)
Theorem routes_distinct project_root environ read_yaml config cache `{Interpreter} app cache' :
  create_app project_root environ read_yaml config cache = (Ok app, cache') ->
  NoDup (rt_path <$> ap_routes app) /\
  (rt_path <$> ap_routes app) =
    [txt "/health"; txt "/metrics"; txt "/api/v1/positions/history"; txt "/api/v1/ws/positions"] /\
  match config with Some c => ap_config app = c /\ cache' = cache | None => True end.
Proof.
  unfold create_app, resolve_config. cbv [mbind io_bind mret io_ret]. intros Ha.
  assert (exists c cache1, (match config with
            | Some c => (Ok c, cache)
            | None => Config.load_backend_config project_root environ read_yaml None cache
            end) = (Ok c, cache1) /\ ap_config app = c /\ cache' = cache1 /\
          ap_routes app = include_router "/api/v1" ws_router (include_router "/api/v1" positions_router
                (include_router [] metrics_router (include_router [] health_router [])))) as
    (c & cache1 & Hc & Hcfg & -> & ->).
  { destruct config as [c|].
    - injection Ha as <- <-. by exists c, cache.
    - destruct (Config.load_backend_config _ _ _ _ _) as [[c|e] cache1]; [|done].
      injection Ha as <- <-. by exists c, cache1. }
  split; [|split; [reflexivity|]].
  - refine (bool_decide_eq_true_1 (NoDup (A := text) _) _). vm_compute. reflexivity.
  - destruct config as [c'|]; [|done]. by injection Hc as -> ->.
Qed.

(** ** A concrete shutdown: the broker is unreachable until the stop event *)

Definition sample_backend_config : Config.BackendConfig :=
  {| Config.bc_host := VStr "127.0.0.1"; Config.bc_port := 8000; Config.bc_dsn := VStr "postgresql://db/";
     Config.bc_rabbitmq := {| Config.rb_url := VStr "amqp://mq/"; Config.exchange := VStr "rtls";
                              Config.exchange_type := VStr "topic"; Config.rb_queue := VStr "q";
                              Config.routing_key := VStr "q" |} |}.

Definition stopping : App.attempt :=
  {| App.at_stop := false; App.at_connect := Some (Exn OSError "refused"); App.at_setup := fun _ => None;
     App.at_delay := true; App.at_lost := false; App.at_close := None |}.

Definition sample_turns (i : nat) : App.attempt := if i =? 2 then stopping else unreachable.

Lemma lifespan_terminates_witness :
  exists k s, k <= 2 /\
    lifespan ∅ (fun _ => Ok ()) sample_backend_config (turns_of sample_turns 3) = ShutDown None s /\
    App.log s = [App.Connecting; App.Connecting; App.Connecting; App.ClosePool].
Proof.
  destruct (lifespan_terminates ∅ (fun _ => Ok ()) sample_backend_config sample_turns 2)
    as (k & s & Hk & _ & Ha & _).
  - reflexivity.
  - intros i. unfold sample_turns. destruct (i =? 2); reflexivity.
  - reflexivity.
  - exists k, s. split; [exact Hk|]. specialize (Ha 3 ltac:(lia)).
    split; [exact Ha|]. vm_compute in Ha. injection Ha as <-. reflexivity.
Defined.

(** ** The other entry points *)

Lemma setup_log raises id actions s :
  App.log (App.run_setup raises id actions s).2 = App.log s ++ (App.Did id <$> performed raises actions) /\
  App.open_connections (App.run_setup raises id actions s).2 = App.open_connections s.
Proof. destruct (run_setup_spec raises id actions s) as [-> _]. done. Qed.

Lemma did_no_pool id (l : list App.action) : App.ClosePool ∉ (App.Did id <$> l).
Proof. rewrite list_elem_of_fmap. by intros (a & Ha & _). Qed.

(** The standalone [main]: the pool is closed on the one path that raises nothing, and
    only a process that waits leaves its connection open. *)
Lemma main_pool a received raised s :
  App.main a received App.fresh = (raised, s) ->
  (App.ClosePool ∈ App.log s <-> raised = Some None) /\
  (raised ≠ None -> App.at_close a = None -> App.open_connections s = []) /\
  (raised = None -> App.stop_event received = false).
Proof.
  unfold App.main. cbn [App.emit App.fresh App.log App.connect App.created App.open_connections app].
  destruct (App.at_connect a) as [e|].
  { intros [= <- <-]. cbn. split; [|done]. split; [|done]. set_solver. }
  match goal with |- context [App.run_setup ?f ?i ?l ?s0] =>
    pose proof (setup_log f i l s0) as [Hl Ho]; destruct (App.run_setup f i l s0) as [failed s1] end.
  cbn [snd App.log App.open_connections app] in Hl, Ho. pose proof (did_no_pool 0 (performed (App.at_setup a) App.setup)) as Hn.
  destruct (App.stop_event received), failed as [e|]; unfold App.leave;
    destruct (App.at_close a) as [e'|]; intros [= <- <-];
    cbn [App.emit App.drop_connection App.log App.open_connections]; rewrite Hl, ?Ho;
    (split; [|done]); split; try done; set_solver.
Qed.

(** The standalone consumer releases its database pool on the normal path only: when it
    reaches the broker at all, the pool is closed exactly when nothing raised, while the
    connection to the broker is closed on every path on which closing it does not raise;
    and it ends at the first of the two signals that the loop handles. *)
Theorem consumer_main_resources `{Interpreter} project_root environ read_yaml open_pool a received root cache
    raised s :
  sd_result (consumer_main project_root environ read_yaml open_pool a received root cache) = Ok (raised, s) ->
  (App.ClosePool ∈ App.log s <-> raised = Some None) /\
  (raised ≠ None -> App.at_close a = None -> App.open_connections s = []) /\
  (raised = None -> received = []).
Proof.
  unfold consumer_main, mbind, io_bind, io_res, mret, io_ret.
  destruct (Config.load_backend_config _ _ _ _ cache) as [[c|e] cache']; [|done].
  destruct (open_pool (create_pool c)) as [[]|e]; [|done]. cbn [sd_result]. intros [= Hm].
  destruct (main_pool _ _ _ _ Hm) as (Hp & Ho & Hw). do 2 (split; [done|]).
  intros Hr. specialize (Hw Hr). by destruct received as [|[] ?].
Qed.

(** The generator's [main] after [init]: the configuration that [init] loaded is used, the
    file of settings is not read again, and nothing is sent unless the schema and the
    source could be read. *)
Theorem generator_main_spec `{Interpreter} `{Tracing.Propagator} project_root environ read_yaml root cache
    calls cache1 w o :
  (generator_init project_root environ read_yaml root cache).2 = (Ok calls, cache1) ->
  exists config, cache1 = Some config /\
    let '(r, log, cache2) := generator_main project_root environ read_yaml w o cache1 in
    cache2 = cache1 /\
    (log ≠ [] -> exists v lines,
       Receiver.open_validator (gw_read w) (gw_draft202012 w) (Config.schema_path (Config.validation config))
         (Receiver.text_of (Config.vc_origin (Config.validation config))) = Ok v /\
       gw_lines w (go_source o) = Ok lines /\
       (r, log) = Generator.main (gw_sendto w (go_ip o) (go_port o)) (gw_open_socket w) (gw_close_socket w)
         v (gw_span w) lines (go_batch_size o) (default 1%Z (go_time_between_batches o)) []).
Proof.
  unfold generator_init. cbn [snd]. unfold mbind at 1, io_bind at 1.
  destruct (Config.load_config project_root environ read_yaml None false cache) as [[config|e] c1] eqn:El; [|done].
  unfold mret, io_ret. intros [= <- <-]. exists config.
  destruct (load_spec project_root environ read_yaml None false cache (Ok config) c1 El) as [-> _].
  split; [done|]. unfold generator_main, Config.get_config. cbn [mbind res_bind].
  destruct (Receiver.open_validator _ _ _ _) as [v|e] eqn:Ev; [|by cbn].
  destruct (gw_lines w (go_source o)) as [lines|e] eqn:Eg; [|by cbn]. cbn [mbind res_bind].
  destruct (Generator.main _ _ _ _ _ _ _ _ _) as [r log] eqn:Em. split; [done|]. intros _.
  by exists v, lines.
Qed.

(** The backend is served where its application is configured to be: when [main] gets to
    [uvicorn.run], the host and the port are those of the configuration that the imported
    application holds, and the file was not read a second time. *)
Theorem backend_main_consistent `{Interpreter} project_root environ read_yaml root cache app host port :
  sd_result (backend_main project_root environ read_yaml root cache) = Ok (app, (host, port)) ->
  host = Config.bc_host (ap_config app) /\ port = Config.bc_port (ap_config app) /\
  sd_cache (backend_main project_root environ read_yaml root cache) =
    (create_app project_root environ read_yaml None cache).2.
Proof.
  unfold backend_main. destruct (create_app project_root environ read_yaml None cache) as [[a|e] c1] eqn:Ea; [|done].
  unfold create_app, resolve_config, mbind, io_bind, mret, io_ret in Ea.
  destruct (Config.load_backend_config project_root environ read_yaml None cache) as [[bc|e] c2] eqn:E1; [|done].
  injection Ea as <- <-.
  assert (Config.load_backend_config project_root environ read_yaml None c2 = (Ok bc, c2)) as ->.
  { unfold Config.load_backend_config, mbind, io_bind, io_res, mret, io_ret in *.
    destruct (Config.load_config project_root environ read_yaml None false cache) as [[ac|e] c3] eqn:El; [|done].
    destruct (Config.api_port_of _) as [prt|e] eqn:Ep; [|done]. injection E1 as <- <-.
    pose proof (load_spec project_root environ read_yaml None false cache (Ok ac) c3 El) as Hs.
    destruct Hs as [-> _]. cbn. by rewrite Ep. }
  cbn. by intros [= <- <- <-].
Qed.

Definition sample_root_logger : Logging.logger := {| Logging.lg_level := 30; Logging.lg_handlers := [] |}.

(** The channel cannot be opened. *)
Definition sample_attempt : App.attempt :=
  {| App.at_stop := false; App.at_connect := None;
     App.at_setup := fun x => match x with App.OpenChannel => Some (Exn Foreign []) | _ => None end;
     App.at_delay := false; App.at_lost := false; App.at_close := None |}.

Lemma consumer_main_resources_witness :
  exists e s, sd_result (consumer_main (H := ascii_unicode) sample_root sample_variables
                           (fun _ => Ok (VDict sample_settings)) (fun _ => Ok ()) sample_attempt [] sample_root_logger None)
              = Ok (Some (Some e), s) /\
    App.open_connections s = [] /\ App.ClosePool ∉ App.log s.
Proof.
  destruct (sd_result (consumer_main (H := ascii_unicode) sample_root sample_variables
              (fun _ => Ok (VDict sample_settings)) (fun _ => Ok ()) sample_attempt [] sample_root_logger None))
    as [[raised s]|x] eqn:E; [|vm_compute in E; discriminate E].
  destruct (consumer_main_resources (H := ascii_unicode) sample_root sample_variables
              (fun _ => Ok (VDict sample_settings)) (fun _ => Ok ()) sample_attempt [] sample_root_logger None raised s E)
    as (Hp & Ho & _).
  assert (raised = Some (Some (Exn Foreign []))) as -> by (vm_compute in E; injection E as <- _; reflexivity).
  exists (Exn Foreign []), s. split; [reflexivity|]. split; [apply Ho; [discriminate|reflexivity]|].
  intros Hin. apply Hp in Hin. discriminate Hin.
Defined.

Lemma backend_main_consistent_witness :
  exists app host port, sd_result (backend_main (H := ascii_unicode) sample_root sample_variables
                                     (fun _ => Ok (VDict sample_settings)) sample_root_logger None)
                        = Ok (app, (host, port)) /\ host = VStr "0.0.0.0" /\ port = Config.bc_port (ap_config app).
Proof.
  destruct (sd_result (backend_main (H := ascii_unicode) sample_root sample_variables
              (fun _ => Ok (VDict sample_settings)) sample_root_logger None)) as [[app [host port]]|x] eqn:E;
    [|vm_compute in E; discriminate E].
  destruct (backend_main_consistent (H := ascii_unicode) sample_root sample_variables
              (fun _ => Ok (VDict sample_settings)) sample_root_logger None app host port E) as (Hh & Hp & _).
  exists app, host, port. split; [reflexivity|]. split; [|exact Hp].
  vm_compute in E. injection E as _ <- _. reflexivity.
Defined.

End StartupFacts.
