(* ===== verification/World.v ===== *)
(** * The whole system at the grain of its awaits

    Receivers, the broker's queue, handlers that run at the same time, and any number
    of WebSocket sessions of one backend.  [System] delivers a message in one step;
    here a handler of [backend/app.py] is what it is to the event loop: it starts, its
    database write runs in an executor's thread, and it is resumed with the outcome.
    Between any two of its parts other handlers and sessions run, messages are
    delivered again, and the process may be restarted. *)

From S2P Require Export System Ws.
Import Tracing UdpServer Consumer.

Module World.

(** ** A handler between its suspension points *)

Inductive progress :=
  | Delivered                                       (* the callback is called *)
  | Wrote (envelope : pydict) (r : res ()).         (* the executor has the outcome *)

Inductive part_end :=
  | Settles (d : disposition)
  | Awaits (envelope : pydict) (r : res ()).

Section Handlers.
Context `{Interpreter} `{Propagator} `{Driver} `{Process}.

(** From the start of the callback to the end of [_write_to_db] in its thread *)
Definition start_handler (m : message) (s : state) : part_end * state :=
  match decode (msg_body m) with
  | Raise e => (Settles (settle true (Some e)), s)
  | Ok Malformed => (Settles (settle true None), (with_metrics (inc_failed "malformed_json") s).2)
  | Ok MissingTag => (Settles (settle true None), (with_metrics (inc_failed "missing_tag_id") s).2)
  | Ok (Usable envelope _) =>
      match extract_from_headers (msg_headers m) with
      | Raise e => (Settles (settle true (Some e)), s)
      | Ok _ => let '(r, s') := on_session (write_to_db envelope) s in (Awaits envelope r, s')
      end
  end.

(** From the resumption with the thread's outcome to the end of the block *)
Definition resume_handler (envelope : pydict) (r : res ()) (s : state) : disposition * state :=
  process
    (_ ← on_exception (_ ← io_res r; with_metrics observe_latency)
           (with_metrics (inc_failed "db_error"));
     _ ← with_broadcast (Broadcast.publish envelope);
     with_metrics inc_processed) s.

(** ** The state *)

(** A delivery whose handler has not ended; [d_open] while the channel that delivered it
    is open. *)
Record delivery := {
  d_message : message;
  d_progress : progress;
  d_open : bool;
}.

(** A session with what its executor has read; [w_dropped] records that its queue was
    full at a broadcast. *)
Record session_state := {
  w_client : Ws.client;
  w_snapshot : option (res (list pydict));
  w_dropped : bool;
}.

Record world := {
  queue : list message;                         (* ready in the broker *)
  inflight : list delivery;                     (* handlers that run *)
  backend : state;
  gauge : Z;                                    (* WS_ACTIVE_CONNECTIONS *)
  sessions : gmap nat session_state;
  accepted : list message;                      (* ghost: all that the broker took *)
}.

(** [set_qos(prefetch_count=10)] *)
Definition prefetch_count : nat := 10.

Definition server_of (w : world) : Ws.server :=
  {| Ws.sv_broadcast := st_broadcast (backend w); Ws.sv_active := gauge w |}.

Definition set_server (b : state) (sv : Ws.server) : state :=
  {| st_session := st_session b; st_broadcast := Ws.sv_broadcast sv; st_metrics := st_metrics b |}.

(** The broker's queue after a settlement: a message whose acknowledgement reached the
    broker is gone, any other is ready again, and a channel that is closed has no
    deliveries to settle. *)
Definition settled (x : delivery) (d : disposition) (lost : bool) (q : list message) : list message :=
  if d_open x then
    match d, lost with
    | Acked, false => q
    | _, _ => q ++ [d_message x]
    end
  else q.

(** What the broker has delivered on the open channel and has no settlement for. *)
Definition unsettled (l : list delivery) : list message := d_message <$> filter d_open l.

Definition fresh_delivery (m : message) : delivery :=
  {| d_message := m; d_progress := Delivered; d_open := true |}.

Definition written (x : delivery) (envelope : pydict) (r : res ()) : delivery :=
  {| d_message := d_message x; d_progress := Wrote envelope r; d_open := d_open x |}.

Definition orphaned (x : delivery) : delivery :=
  {| d_message := d_message x; d_progress := d_progress x; d_open := false |}.

(** The queue of a session is full. *)
Definition overflows (b : Broadcast.state) (c : Ws.client) : bool :=
  match Broadcast.queues b !! Ws.c_queue c with
  | Some q => Broadcast.full q
  | None => false
  end.

(** A broadcast drops its envelope for the sessions whose queues are full. *)
Definition note_drops (b : Broadcast.state) (x : session_state) : session_state :=
  {| w_client := w_client x; w_snapshot := w_snapshot x;
     w_dropped := w_dropped x || overflows b (w_client x) |}.

(** The sessions after a handler was resumed with [r]. *)
Definition after_broadcast (r : res ()) (w : world) : gmap nat session_state :=
  match r with
  | Ok _ => note_drops (st_broadcast (backend w)) <$> sessions w
  | Raise _ => sessions w
  end.

Definition opened (c : Ws.client) : session_state :=
  {| w_client := c; w_snapshot := None; w_dropped := false |}.

Definition with_client (c : Ws.client) (x : session_state) : session_state :=
  {| w_client := c; w_snapshot := w_snapshot x; w_dropped := w_dropped x |}.

Definition with_snapshot (r : res (list pydict)) (x : session_state) : session_state :=
  {| w_client := w_client x; w_snapshot := Some r; w_dropped := w_dropped x |}.

(** The world after session [i] was resumed by [ev]. *)
Definition session_resumed (i : nat) (x : session_state) (ev : Ws.event) (w : world) : world :=
  let '(c, sv) := Ws.resume ev (w_client x) (server_of w) in
  {| queue := queue w; inflight := inflight w; backend := set_server (backend w) sv;
     gauge := Ws.sv_active sv; sessions := <[i := with_client c x]> (sessions w);
     accepted := accepted w |}.

(** A backend that starts on given tables. *)
Definition blank (b : state) (maxsize : Z) : Prop :=
  st_broadcast b = Broadcast.init maxsize /\ st_metrics b = no_metrics.

Definition init (b : state) : world :=
  {| queue := []; inflight := []; backend := b; gauge := 0; sessions := ∅; accepted := [] |}.

Variable self : UdpServer.UdpServer.

Inductive step : relation world :=
  | step_publish w env data addr p :
      prepare self env data addr = Ok p ->
      step w {| queue := queue w ++ [System.message_of p]; inflight := inflight w;
                backend := backend w; gauge := gauge w; sessions := sessions w;
                accepted := accepted w ++ [System.message_of p] |}
  | step_deliver w m rest :
      queue w ≡ₚ m :: rest -> length (unsettled (inflight w)) < prefetch_count ->
      step w {| queue := rest; inflight := inflight w ++ [fresh_delivery m]; backend := backend w;
                gauge := gauge w; sessions := sessions w; accepted := accepted w |}
  (* the connection was lost: what the broker has no settlement for is ready again,
     while the handlers run on *)
  | step_reconnect w :
      step w {| queue := queue w ++ unsettled (inflight w); inflight := orphaned <$> inflight w;
                backend := backend w; gauge := gauge w; sessions := sessions w;
                accepted := accepted w |}
  | step_start_ends w x rest d b lost :
      inflight w ≡ₚ x :: rest -> d_progress x = Delivered ->
      start_handler (d_message x) (backend w) = (Settles d, b) ->
      step w {| queue := settled x d lost (queue w); inflight := rest; backend := b;
                gauge := gauge w; sessions := sessions w; accepted := accepted w |}
  | step_write w x rest e r b :
      inflight w ≡ₚ x :: rest -> d_progress x = Delivered ->
      start_handler (d_message x) (backend w) = (Awaits e r, b) ->
      step w {| queue := queue w; inflight := rest ++ [written x e r]; backend := b;
                gauge := gauge w; sessions := sessions w; accepted := accepted w |}
  | step_resume w x rest e r d b lost :
      inflight w ≡ₚ x :: rest -> d_progress x = Wrote e r ->
      resume_handler e r (backend w) = (d, b) ->
      step w {| queue := settled x d lost (queue w); inflight := rest; backend := b;
                gauge := gauge w; sessions := after_broadcast r w; accepted := accepted w |}
  | step_restart w b maxsize :
      tables b = tables (backend w) -> blank b maxsize ->
      step w {| queue := queue w ++ unsettled (inflight w); inflight := []; backend := b;
                gauge := 0; sessions := ∅; accepted := accepted w |}
  | step_open w i :
      sessions w !! i = None ->
      step w {| queue := queue w; inflight := inflight w;
                backend := set_server (backend w) (Ws.open (server_of w)).2;
                gauge := Ws.sv_active (Ws.open (server_of w)).2;
                sessions := <[i := opened (Ws.open (server_of w)).1]> (sessions w);
                accepted := accepted w |}
  | step_read w i x r s :
      sessions w !! i = Some x -> w_snapshot x = None -> Ws.c_phase (w_client x) = Ws.Subscribed ->
      Ws.snapshot (st_session (backend w)) = (r, s) ->
      step w {| queue := queue w; inflight := inflight w;
                backend := {| st_session := s; st_broadcast := st_broadcast (backend w);
                              st_metrics := st_metrics (backend w) |};
                gauge := gauge w; sessions := <[i := with_snapshot r x]> (sessions w);
                accepted := accepted w |}
  | step_snapshot w i x r send :
      sessions w !! i = Some x -> w_snapshot x = Some r ->
      Ws.c_phase (w_client x) = Ws.Subscribed ->
      step w (session_resumed i x (Ws.SnapshotReady r send) w)
  | step_receive w i x send :
      sessions w !! i = Some x ->
      step w (session_resumed i x (Ws.QueueReady send) w)
  | step_cancel w i x e :
      sessions w !! i = Some x ->
      step w (session_resumed i x (Ws.Cancelled e) w).

Definition reachable : relation world := rtc step.
End Handlers.
End World.
