(* ===== verification/WorldFacts.v ===== *)
(** * The whole system: handlers in parts, the prefetch limit, and no event lost

    A handler that nothing interrupts is [Consumer.app_on_message]; what its parts do
    to the tables; the accounting of accepted messages over every interleaving. *)

From S2P Require Export World LiveRefinement.
Import Tracing UdpServer Consumer.

Module WorldFacts.
Import World SystemFacts.

Section Parts.
Context `{Interpreter} `{Propagator} `{Driver} `{Process}.

(** The parts of a handler are the handler: started and resumed with nothing in
    between, they settle the message as [_on_message] does and leave the same session,
    broadcast and counters, whatever the message, the headers and the database do. *)
Lemma handler_in_parts m s :
  app_on_message m s =
  match start_handler m s with
  | (Settles d, s') => (d, s')
  | (Awaits e r, s') => resume_handler e r s'
  end.
Proof.
  unfold app_on_message, start_handler, resume_handler, process, app_body.
  destruct (decode (msg_body m)) as [[| |envelope payload]|e]; try done.
  unfold mbind, io_bind, io_res. destruct (extract_from_headers (msg_headers m)); [|done].
  unfold on_exception. destruct (on_session (write_to_db envelope) s) as [[[]|e] s']; done.
Qed.

(** ** What the parts do *)

Lemma start_settles m s d b :
  start_handler m s = (Settles d, b) ->
  tables b = tables s /\ st_broadcast b = st_broadcast s /\
  forall e p, decode (msg_body m) = Ok (Usable e p) -> d = Requeued.
Proof.
  unfold start_handler. destruct (decode (msg_body m)) as [[| |envelope payload]|e] eqn:Ed.
  - by intros [= <- <-].
  - by intros [= <- <-].
  - destruct (extract_from_headers _); [by destruct (on_session _ _)|].
    intros [= <- <-]. rewrite settle_raise. done.
  - intros [= <- <-]. done.
Qed.

Lemma start_awaits m s e r b :
  start_handler m s = (Awaits e r, b) ->
  (exists p, decode (msg_body m) = Ok (Usable e p)) /\ st_broadcast b = st_broadcast s /\
  match r with
  | Ok _ => stored e (tables s) (tables b)
  | Raise _ => tables b = tables s \/ stored e (tables s) (tables b)
  end.
Proof.
  unfold start_handler. destruct (decode (msg_body m)) as [[| |envelope payload]|x]; try done.
  destruct (extract_from_headers _); [|done]. unfold on_session.
  destruct (write_to_db envelope (st_session s)) as [r' s'] eqn:E. intros [= <- <- <-].
  pose proof (write_to_db_spec _ _ _ _ E) as Hw. split; [by exists payload|]. split; [done|].
  by destruct r'.
Qed.

Lemma resume_spec e r s d b :
  resume_handler e r s = (d, b) ->
  tables b = tables s /\
  match r with
  | Ok _ => d = Acked /\ st_broadcast b = Broadcast.publish e (st_broadcast s)
  | Raise _ => d = Requeued /\ st_broadcast b = st_broadcast s
  end.
Proof.
  unfold resume_handler, process, on_exception, mbind, io_bind, io_res.
  destruct r as [[]|x]; cbn; intros [= <- <-]; rewrite ?settle_ok, ?settle_raise; done.
Qed.

(** ** The snapshot *)

Lemma runs_select_all p db db' rows :
  runs select_all_current_positions_sql p db db' rows ->
  db' = db /\ exists l, l ≡ₚ (map_to_list (current_positions db)).*2 /\ rows = project <$> l.
Proof.
  intros Hr. remember select_all_current_positions_sql as q eqn:Hq.
  destruct Hr; try query_absurd. split; [done|]. by eexists.
Qed.

Lemma snapshot_spec s r s' :
  Ws.snapshot s = (r, s') ->
  committed s' = committed s /\
  forall rows, r = Ok rows ->
    exists l, l ≡ₚ (map_to_list (current_positions (committed s))).*2 /\ rows = Live.row_dict <$> l.
Proof.
  unfold Ws.snapshot, Repository.with_connection.
  destruct (acquire s) as [[[]|e] s1] eqn:Ea; destruct (acquire_idle _ _ _ Ea) as [Hc Hi];
    [|by intros [= <- <-]].
  specialize (Hi eq_refl). unfold Repository.get_all_current_positions.
  rewrite load_select_all. unfold mbind, io_bind, io_res.
  destruct (execute select_all_current_positions_sql [] s1) as [[rows|e] s2] eqn:Ex.
  2: { intros [= <- <-]. rewrite exit_raise_rolls_back. split; [|done].
       by rewrite (execute_raise _ _ _ _ _ Ex). }
  destruct (execute_ok _ _ _ _ _ Ex) as [Hc2 Hr2].
  destruct (tag_le_sorts (map_to_list (current_positions (visible s1))).*2) as (l0 & Hp0 & Hs0).
  destruct (runs_select_all [] (visible s1) (visible s2) rows) as [Hv (l & Hl & ->)].
  { apply Hr2. do 2 eexists. by apply run_select_all. }
  unfold mret, io_ret. destruct (exit_ok s2) as [r3 s3] eqn:Eo.
  assert (committed s3 = committed s) as Hc3.
  { destruct (exit_ok_commits _ _ _ Eo) as [->|[-> _]]; congruence. }
  assert (Repository.zip_dict CURRENT_POS_COLUMNS <$> (project <$> l) = Live.row_dict <$> l) as Hz
    by (by rewrite <- list_fmap_compose).
  destruct r3 as [u|e]; intros [= <- <-].
  - split; [exact Hc3|]. intros rows' [= <-]. exists l. split; [|done]. by rewrite Hl, Hi, Hc.
  - split; [exact Hc3|done].
Qed.
End Parts.

(** ** The prefetch limit *)

Section Composition.
Context `{Interpreter} `{Propagator} `{Driver} `{Process}.
Variable self : UdpServer.UdpServer.

Lemma session_resumed_shared i x ev w :
  let w' := session_resumed i x ev w in
  queue w' = queue w /\ inflight w' = inflight w /\ accepted w' = accepted w /\
  tables (backend w') = tables (backend w).
Proof. unfold session_resumed. by destruct (Ws.resume ev (w_client x) (server_of w)). Qed.

Lemma reachable_ind (P : world -> Prop) w0 :
  P w0 -> (forall w w', reachable self w0 w -> P w -> step self w w' -> P w') ->
  forall w, reachable self w0 w -> P w.
Proof. intros Hinit Hs. apply (rtc_ind_r P); eauto. Qed.

(** ** The broker's side *)

Lemma unsettled_app l1 l2 : unsettled (l1 ++ l2) = unsettled l1 ++ unsettled l2.
Proof. unfold unsettled. by rewrite filter_app, fmap_app. Qed.

Lemma unsettled_orphaned l : unsettled (orphaned <$> l) = [].
Proof. induction l as [|x l IH]; [done|]. exact IH. Qed.

#[global] Instance unsettled_proper : Proper ((≡ₚ) ==> (≡ₚ)) unsettled.
Proof. intros l l' Hl. unfold unsettled. by rewrite Hl. Qed.

Lemma unsettled_cons x l :
  unsettled (x :: l) = (if d_open x then [d_message x] else []) ++ unsettled l.
Proof. unfold unsettled. rewrite filter_cons. by destruct (d_open x). Qed.

(** The prefetch limit: however deliveries, lost connections and restarts follow each
    other, the broker never has more than ten deliveries on the consumer's channel that
    are not settled. *)
Theorem prefetch_respected b w :
  reachable self (init b) w -> length (unsettled (inflight w)) <= prefetch_count.
Proof.
  revert w. apply reachable_ind; [simpl; lia|]. intros w w' _ IH Hst.
  destruct Hst; simpl; try done;
    try (match goal with |- context [session_resumed ?i ?x ?ev ?w] =>
           by destruct (session_resumed_shared i x ev w) as (_ & -> & _) end);
    try (match goal with Hp : inflight _ ≡ₚ _ |- _ =>
           apply unsettled_proper, Permutation_length in Hp; rewrite unsettled_cons, length_app in Hp end).
  - rewrite unsettled_app, length_app. simpl. lia.
  - rewrite unsettled_orphaned. simpl. lia.
  - lia.
  - rewrite unsettled_app, length_app, unsettled_cons, !length_app. simpl. lia.
  - lia.
  - lia.
Qed.
End Composition.

(** ** Accounting *)

Section Accounting.
Context `{Interpreter} `{Propagator} `{Driver} `{Process}.
Variable self : UdpServer.UdpServer.
(** What the broker still answers for *)
Definition at_broker (w : world) : list message := queue w ++ unsettled (inflight w).

(** What may still reach a handler or is in one *)
Definition waiting (w : world) : list message := queue w ++ (d_message <$> inflight w).

Definition has_row (rs : list row) (m : message) : Prop := Exists (System.row_for m) rs.

(** A handler that has written is one of a usable message, whose row is there. *)
Definition handler_ok (rs : list row) (x : delivery) : Prop :=
  match d_progress x with
  | Delivered => True
  | Wrote e r => (exists p, decode (msg_body (d_message x)) = Ok (Usable e p)) /\
                 (r = Ok () -> has_row rs (d_message x))
  end.

Record ledger (rs : list row) (w : world) : Prop := {
  lg_tables : tables (backend w) = ingest rs empty_database;
  lg_rows : Forall (fun r => Exists (fun m => System.row_for m r) (accepted w)) rs;
  lg_messages : Forall (fun m => m ∈ at_broker w \/ has_row rs m) (accepted w);
  lg_waiting : Forall (fun m => m ∈ accepted w) (waiting w);
  lg_handlers : Forall (handler_ok rs) (inflight w);
  lg_source : Forall (from_datagram self) (accepted w);
}.

Lemma has_row_incl rs rs' m : rs ⊆ rs' -> has_row rs m -> has_row rs' m.
Proof. unfold has_row. rewrite !Exists_exists. intros Hs (r & Hr & Hm). exists r. auto. Qed.

Lemma handler_ok_incl rs rs' x : rs ⊆ rs' -> handler_ok rs x -> handler_ok rs' x.
Proof.
  intros Hs. unfold handler_ok. destruct (d_progress x); [done|]. intros [Hd Hr].
  split; [done|]. intros Hok. by eapply has_row_incl; [|apply Hr].
Qed.

Lemma unsettled_message l m : m ∈ unsettled l -> m ∈ d_message <$> l.
Proof.
  unfold unsettled. rewrite !list_elem_of_fmap. intros (x & -> & Hx). exists x.
  split; [done|]. by apply list_elem_of_filter in Hx as [_ ?].
Qed.

(** A step that the broker's acceptance is not part of keeps the ledger, when it only
    adds rows of accepted messages and lets go only of stored messages. *)
Lemma ledger_next rs rs' w w' :
  ledger rs w -> accepted w' = accepted w -> rs ⊆ rs' ->
  tables (backend w') = ingest rs' empty_database ->
  (forall r, r ∈ rs' -> r ∈ rs \/ Exists (fun m => System.row_for m r) (accepted w)) ->
  (forall m, m ∈ waiting w' -> m ∈ waiting w) ->
  (forall m, m ∈ at_broker w -> m ∈ at_broker w' \/ has_row rs' m) ->
  (forall x, x ∈ inflight w' -> handler_ok rs' x \/
     exists y, y ∈ inflight w /\ d_message y = d_message x /\ d_progress y = d_progress x) ->
  ledger rs' w'.
Proof.
  intros [Ht Hr Hm Hw Hh Hs] Ha Hincl Ht' Hrows Hwait Hbroker Hhand.
  rewrite Forall_forall in Hr. rewrite Forall_forall in Hm, Hw. rewrite Forall_forall in Hh.
  constructor; rewrite ?Ha; [done| | | | |done];
    apply Forall_forall.
  - intros r Hin. destruct (Hrows r Hin); auto.
  - intros m Hin. destruct (Hm m Hin) as [Hb|Hb]; [by apply Hbroker|right].
    by eapply has_row_incl.
  - auto.
  - intros x Hin. destruct (Hhand x Hin) as [?|(y & Hy & Hdm & Hdp)]; [done|].
    pose proof (handler_ok_incl rs rs' y Hincl (Hh y Hy)) as Hok. unfold handler_ok in *.
    by rewrite Hdm, Hdp in Hok.
Qed.

Lemma ledger_init b : tables b = empty_database -> ledger [] (init b).
Proof. intros Hb. by constructor; simpl. Qed.

Lemma ledger_quiet rs w w' :
  ledger rs w -> queue w' = queue w -> inflight w' = inflight w -> accepted w' = accepted w ->
  tables (backend w') = tables (backend w) -> ledger rs w'.
Proof.
  intros Hl Hq Hi Ha Ht. apply (ledger_next rs rs w); [done..| | | | |];
    unfold waiting, at_broker; rewrite ?Hq, ?Hi, ?Ht; eauto. apply Hl.
Qed.

Lemma ledger_publish rs w m :
  from_datagram self m -> ledger rs w ->
  ledger rs {| queue := queue w ++ [m]; inflight := inflight w; backend := backend w;
               gauge := gauge w; sessions := sessions w; accepted := accepted w ++ [m] |}.
Proof.
  intros Hm [Ht Hr Hmsg Hw Hh Hs]. rewrite Forall_forall in Hr. rewrite Forall_forall in Hmsg, Hw.
  constructor; simpl; [done| | | |done|apply Forall_app; split; [done|by repeat constructor]];
    apply Forall_forall; unfold at_broker, waiting in *; cbn [queue inflight accepted] in *.
  - intros r Hin. apply Exists_app. left. auto.
  - intros m' [Hin| ->%list_elem_of_singleton]%elem_of_app; [|left; set_solver].
    destruct (Hmsg m' Hin) as [Hb|Hb]; [left; set_solver|by right].
  - intros m' Hin. specialize (Hw m'). set_solver.
Qed.

Lemma settled_keeps x d lost q rest m :
  m ∈ q ++ unsettled (x :: rest) ->
  m ∈ settled x d lost q ++ unsettled rest \/ (m = d_message x /\ d = Acked).
Proof. rewrite unsettled_cons. unfold settled. destruct (d_open x), d, lost; set_solver. Qed.

Lemma settled_waits x d lost q rest m :
  m ∈ settled x d lost q ++ (d_message <$> rest) -> m ∈ q ++ (d_message <$> (x :: rest)).
Proof. rewrite fmap_cons. unfold settled. destruct (d_open x), d, lost; set_solver. Qed.

(** A handler ends: its message may be gone only when its row is stored. *)
Lemma ledger_ends rs w x d lost rest b ss :
  ledger rs w -> inflight w ≡ₚ x :: rest -> tables b = tables (backend w) ->
  (d = Acked -> has_row rs (d_message x)) ->
  ledger rs {| queue := settled x d lost (queue w); inflight := rest; backend := b;
               gauge := gauge w; sessions := ss; accepted := accepted w |}.
Proof.
  intros Hl Hp Hb Hd. apply (ledger_next rs rs w); [done..| | | | |];
    unfold waiting, at_broker; cbn [queue inflight accepted backend].
  - rewrite Hb. apply Hl.
  - auto.
  - intros m Hin%settled_waits. by rewrite Hp.
  - intros m. rewrite Hp. intros Hin%(settled_keeps x d lost (queue w) rest m).
    destruct Hin as [?|[-> ?]]; auto.
  - intros y Hy. right. exists y. rewrite Hp. set_solver.
Qed.

(** A handler's write is done: its row is there, or it raised. *)
Lemma ledger_write rs w x rest e r b :
  ledger rs w -> inflight w ≡ₚ x :: rest -> d_progress x = Delivered ->
  start_handler (d_message x) (backend w) = (Awaits e r, b) ->
  exists rs', ledger rs' {| queue := queue w; inflight := rest ++ [written x e r]; backend := b;
                gauge := gauge w; sessions := sessions w; accepted := accepted w |}.
Proof.
  intros Hl Hp Hx Hst. destruct (start_awaits _ _ _ _ _ Hst) as ([p Hd] & _ & Hr).
  assert (d_message x ∈ accepted w) as Hacc.
  { pose proof (lg_waiting _ _ Hl) as Hw. rewrite Forall_forall in Hw. apply Hw.
    unfold waiting. rewrite Hp. set_solver. }
  assert (exists rs', rs ⊆ rs' /\ tables b = ingest rs' empty_database /\
            (r = Ok () -> has_row rs' (d_message x)) /\
            forall r', r' ∈ rs' -> r' ∈ rs \/ System.row_for (d_message x) r')
    as (rs' & Hincl & Ht & Hok & Hrows).
  { assert (stored e (tables (backend w)) (tables b) \/ (tables b = tables (backend w) /\ r ≠ Ok ()))
      as [Hs|[Hs Hne]] by (destruct r as [[]|]; naive_solver).
    - destruct (stored_row_for _ _ _ _ _ Hd Hs) as (row & Hrow & Hb). exists (rs ++ [row]).
      split; [set_solver|]. split; [rewrite Hb, (lg_tables _ _ Hl); symmetry; apply ingest_snoc|].
      split; [|intros r'; rewrite elem_of_app, list_elem_of_singleton; naive_solver].
      intros _. apply Exists_app. right. by constructor.
    - exists rs. split; [done|]. split; [by rewrite Hs, (lg_tables _ _ Hl)|]. naive_solver. }
  exists rs'. apply (ledger_next rs rs' w); [done..| | | |];
    unfold waiting, at_broker; cbn [queue inflight accepted backend].
  - intros r' Hin. destruct (Hrows r' Hin); [by left|right]. apply Exists_exists. eauto.
  - intros m. rewrite Hp, fmap_app, fmap_cons. cbn [fmap list_fmap written d_message]. set_solver.
  - intros m. rewrite Hp, unsettled_app, !unsettled_cons. cbn [written d_open d_message].
    destruct (d_open x); set_solver.
  - intros y [Hy| ->%list_elem_of_singleton]%elem_of_app.
    + right. exists y. rewrite Hp. set_solver.
    + left. split; [by exists p|done].
Qed.

Lemma ledger_deliver rs w m rest :
  ledger rs w -> queue w ≡ₚ m :: rest ->
  ledger rs {| queue := rest; inflight := inflight w ++ [fresh_delivery m]; backend := backend w;
               gauge := gauge w; sessions := sessions w; accepted := accepted w |}.
Proof.
  intros Hl Hq. apply (ledger_next rs rs w); [done..|apply Hl|auto| | |];
    unfold waiting, at_broker; cbn [queue inflight accepted].
  - intros m'. rewrite Hq, fmap_app. cbn [fmap list_fmap fresh_delivery d_message]. set_solver.
  - intros m'. rewrite Hq, unsettled_app, unsettled_cons. cbn [fresh_delivery d_open d_message].
    set_solver.
  - intros y [Hy| ->%list_elem_of_singleton]%elem_of_app; [right; by exists y|by left].
Qed.

Lemma ledger_reconnect rs w :
  ledger rs w ->
  ledger rs {| queue := queue w ++ unsettled (inflight w); inflight := orphaned <$> inflight w;
               backend := backend w; gauge := gauge w; sessions := sessions w;
               accepted := accepted w |}.
Proof.
  intros Hl. apply (ledger_next rs rs w); [done..|apply Hl|auto| | |];
    unfold waiting, at_broker; cbn [queue inflight accepted].
  - intros m. rewrite <- list_fmap_compose.
    change ((d_message ∘ orphaned) <$> inflight w) with (d_message <$> inflight w).
    pose proof (unsettled_message (inflight w) m). set_solver.
  - set_solver.
  - intros y (x & -> & Hx)%list_elem_of_fmap. right. by exists x.
Qed.

Lemma ledger_restart rs w b :
  ledger rs w -> tables b = tables (backend w) ->
  ledger rs {| queue := queue w ++ unsettled (inflight w); inflight := []; backend := b;
               gauge := 0; sessions := ∅; accepted := accepted w |}.
Proof.
  intros Hl Hb. apply (ledger_next rs rs w); [done..| |auto| | |];
    unfold waiting, at_broker; cbn [queue inflight accepted backend].
  - rewrite Hb. apply Hl.
  - intros m. pose proof (unsettled_message (inflight w) m). set_solver.
  - set_solver.
  - intros y []%elem_of_nil.
Qed.

Lemma ledger_inflight rs w x rest :
  ledger rs w -> inflight w ≡ₚ x :: rest -> d_message x ∈ accepted w /\ handler_ok rs x.
Proof.
  intros Hl Hp. pose proof (lg_waiting _ _ Hl) as Hw. pose proof (lg_handlers _ _ Hl) as Hh.
  rewrite Forall_forall in Hw. rewrite Forall_forall in Hh. split.
  - apply Hw. unfold waiting. rewrite Hp. set_solver.
  - apply Hh. rewrite Hp. set_solver.
Qed.

(** ** What the receiver's messages guarantee *)

Variable so : text.
Hypothesis Hconfig : config_ok self.
Hypothesis Hnormalizer : json_normalizer self = Some so.

(** A handler that ends at its first part acknowledges nothing that was accepted. *)
Lemma accepted_starts_to_write rs w x rest d b :
  ledger rs w -> inflight w ≡ₚ x :: rest ->
  start_handler (d_message x) (backend w) = (Settles d, b) -> d = Requeued.
Proof using Hconfig Hnormalizer.
  intros Hl Hp Hs. destruct (ledger_inflight _ _ _ _ Hl Hp) as [Hacc _].
  pose proof (lg_source _ _ Hl) as Hsrc. rewrite Forall_forall in Hsrc.
  destruct (from_datagram_usable self so Hconfig Hnormalizer _ (Hsrc _ Hacc)) as (e & o & now & Hd).
  destruct (start_settles _ _ _ _ Hs) as (_ & _ & Hr). by eapply Hr.
Qed.

Lemma ledger_step rs w w' : ledger rs w -> step self w w' -> exists rs', ledger rs' w'.
Proof using Hconfig Hnormalizer.
  intros Hl Hst.
  destruct Hst as [w env data addr p Hp|w m rest Hq _|w|w x rest d b lost Hp Hx Hs|w x rest e r b Hp Hx Hs
    |w x rest e r d b lost Hp Hx Hs|w b n Hb _|w i Hi|w i x r s Hi Hn Hph Hs|w i x r send Hi Hr Hph
    |w i x send Hi|w i x e Hi];
    try (match goal with |- context [session_resumed ?i ?x ?ev ?w] =>
      destruct (session_resumed_shared i x ev w) as (? & ? & ? & ?); exists rs; by eapply ledger_quiet end).
  - exists rs. apply ledger_publish; [by exists env, data, addr, p|done].
  - exists rs. by apply (ledger_deliver rs w m rest).
  - exists rs. by apply ledger_reconnect.
  - exists rs. apply ledger_ends; [done..|by apply (start_settles _ _ _ _ Hs)|].
    by rewrite (accepted_starts_to_write _ _ _ _ _ _ Hl Hp Hs).
  - by eapply ledger_write.
  - exists rs. destruct (resume_spec _ _ _ _ _ Hs) as [Ht Hd]. apply ledger_ends; [done..|].
    destruct (ledger_inflight _ _ _ _ Hl Hp) as [_ Hok]. unfold handler_ok in Hok. rewrite Hx in Hok.
    destruct Hok as [_ Hok]. destruct r as [[]|e']; [auto|by destruct Hd as [-> _]].
  - exists rs. by apply ledger_restart.
  - exists rs. by eapply ledger_quiet.
  - exists rs. eapply ledger_quiet; [done..|]. by apply (snapshot_spec _ _ _ Hs).
Qed.

Lemma reachable_ledger b w :
  tables b = empty_database -> reachable self (init b) w -> exists rs, ledger rs w.
Proof using Hconfig Hnormalizer.
  intros Hb. revert w. apply reachable_ind; [exists []; by apply ledger_init|].
  intros w w' _ [rs Hl] Hst. by eapply ledger_step.
Qed.

(** C2. Nothing that the broker accepted is lost and nothing is invented while handlers
    run at the same time: in every reachable state the tables are those of a sequence of
    rows of accepted messages, and each accepted message is ready in the broker, or
    delivered and not settled on the open channel, or has its row in the tables; between
    a commit and its acknowledgement, and after a lost connection, both hold. *)
Theorem nothing_lost_in_parts b w :
  tables b = empty_database -> reachable self (init b) w ->
  exists rs, tables (backend w) = ingest rs empty_database /\
    Forall (fun r => Exists (fun m => System.row_for m r) (accepted w)) rs /\
    Forall (fun m => m ∈ queue w \/ m ∈ unsettled (inflight w) \/ Exists (System.row_for m) rs)
      (accepted w).
Proof using Hconfig Hnormalizer.
  intros Hb Hr. destruct (reachable_ledger b w Hb Hr) as [rs Hl]. exists rs. split; [apply Hl|].
  split; [apply Hl|]. eapply Forall_impl; [apply Hl|]. unfold at_broker, has_row.
  intros m. rewrite elem_of_app. tauto.
Qed.
End Accounting.
End WorldFacts.
