(* ===== verification/WorldSessions.v ===== *)
(** * The sessions of the whole system: what they hold together

    A session of [World] uses its own part of the server only; the subscriptions and the
    gauge are those of the sessions that have not finished, over every interleaving. *)

From S2P Require Export WorldFacts.
Import Tracing UdpServer Consumer.

(** ** A session needs its own part of the server only *)

Module SessionFacts.
Import Ws.

Lemma resume_agree ev c sv1 sv2 :
  sv_broadcast sv1 = sv_broadcast sv2 ->
  (resume ev c sv1).1 = (resume ev c sv2).1 /\
  sv_broadcast (resume ev c sv1).2 = sv_broadcast (resume ev c sv2).2.
Proof.
  intros Hb. unfold resume, on_snapshot, on_envelope, finish. rewrite Hb.
  repeat case_match; simplify_eq/=; rewrite ?Hb; done.
Qed.

Lemma open_agree sv1 sv2 :
  sv_broadcast sv1 = sv_broadcast sv2 ->
  (open sv1).1 = (open sv2).1 /\ sv_broadcast (open sv1).2 = sv_broadcast (open sv2).2.
Proof. intros Hb. unfold open. by rewrite Hb. Qed.

Lemma resume_queue ev c sv : c_queue (resume ev c sv).1 = c_queue c.
Proof.
  unfold resume, on_snapshot, on_envelope, finish. repeat case_match; by simplify_eq/=.
Qed.

(** Operations on the broadcast, one after the other. *)
Definition after_ops (ops : list Broadcast.op) (b : Broadcast.state) : Broadcast.state :=
  foldl (fun b o => (Broadcast.step o b).2) b ops.

Definition own_op (id : nat) (o : Broadcast.op) : Prop :=
  o = Broadcast.Get id \/ o = Broadcast.Unsubscribe id.

(** All that a session does to the broadcast is to take from its queue and to
    unsubscribe it. *)
Lemma resume_ops ev c sv :
  exists ops, Forall (own_op (c_queue c)) ops /\
    sv_broadcast (resume ev c sv).2 = after_ops ops (sv_broadcast sv).
Proof.
  set (un := [Broadcast.Unsubscribe (c_queue c)]). set (get := [Broadcast.Get (c_queue c)]).
  assert (Forall (own_op (c_queue c)) un /\ Forall (own_op (c_queue c)) get /\
          Forall (own_op (c_queue c)) (get ++ un)) as (Hun & Hget & Hboth)
    by (unfold own_op, un, get; cbn [app]; rewrite !Forall_cons, !Forall_nil; naive_solver).
  unfold resume, on_snapshot, on_envelope.
  destruct (c_phase c) as [|m|r]; [| |by exists []].
  - destruct ev as [snap send|send|e]; [|by exists []|by exists un].
    destruct snap as [rows|e]; [|by exists un]. destruct send; [|by exists un].
    destruct (snapshot_timestamps rows); [by exists []|by exists un].
  - destruct ev as [snap send|send|e]; [by exists []| |by exists un].
    destruct (Broadcast.queues (sv_broadcast sv) !! c_queue c) as [q|] eqn:Eq; [|by exists []].
    destruct (Broadcast.get_nowait q) as [[envelope q']|] eqn:Eg; [|by exists []].
    assert (Broadcast.set_queue (c_queue c) q' (sv_broadcast sv) = after_ops get (sv_broadcast sv)) as Hg
      by (simpl; by rewrite Eq, Eg).
    assert (forall e c' active, c_queue c' = c_queue c ->
      after_ops (get ++ un) (sv_broadcast sv) =
      sv_broadcast (finish e c' {| sv_broadcast := Broadcast.set_queue (c_queue c) q' (sv_broadcast sv);
                                   sv_active := active |}).2) as Hgu
      by (intros e c' active Hc'; unfold after_ops; rewrite foldl_app; fold (after_ops get (sv_broadcast sv));
          rewrite <- Hg; simpl; by rewrite Hc').
    destruct (is_stale envelope m) as [[]|e]; [by exists get| |].
    + destruct send; [by exists get|]. exists (get ++ un). split; [done|]. symmetry. by apply Hgu.
    + exists (get ++ un). split; [done|]. symmetry. by apply Hgu.
Qed.
End SessionFacts.

Module WorldSessions.
Import World WorldFacts SessionFacts.

(** ** The roster of a server *)

Definition active (cl : gmap nat Ws.client) : gmap nat Ws.client :=
  filter (fun kv => finished kv.2 = false) cl.

(** The subscribed queues are those of the sessions that have not finished, each session has
    its own, and the gauge counts them. *)
Record roster (cl : gmap nat Ws.client) (sv : Ws.server) : Prop := {
  ro_wf : wf (Ws.sv_broadcast sv);
  ro_has : forall i c, cl !! i = Some c -> is_Some (Broadcast.queues (Ws.sv_broadcast sv) !! Ws.c_queue c);
  ro_distinct : forall i j c c', cl !! i = Some c -> cl !! j = Some c' -> Ws.c_queue c = Ws.c_queue c' -> i = j;
  ro_subscribers : forall id, id ∈ Broadcast.subscribers (Ws.sv_broadcast sv) <->
    exists i c, active cl !! i = Some c /\ Ws.c_queue c = id;
  ro_gauge : Ws.sv_active sv = Z.of_nat (size (active cl));
}.

Lemma active_lookup cl i c : active cl !! i = Some c <-> cl !! i = Some c /\ finished c = false.
Proof. unfold active. rewrite map_lookup_filter_Some. done. Qed.

Lemma roster_init n : roster ∅ {| Ws.sv_broadcast := Broadcast.init n; Ws.sv_active := 0 |}.
Proof.
  constructor; cbn; [apply wf_init|by intros i c; rewrite lookup_empty|by intros i j c c'; rewrite lookup_empty| |done].
  intros id. split; [set_solver|]. intros (i & c & [Hc _]%active_lookup & _). by rewrite lookup_empty in Hc.
Qed.

Lemma roster_publish cl sv e :
  roster cl sv ->
  roster cl {| Ws.sv_broadcast := Broadcast.publish e (Ws.sv_broadcast sv); Ws.sv_active := Ws.sv_active sv |}.
Proof.
  intros [Hw Hh Hd Hs Hg].
  assert (forall id, Broadcast.subscribers (Broadcast.publish e (Ws.sv_broadcast sv)) =
                     Broadcast.subscribers (Ws.sv_broadcast sv)) as Hsub
    by (intros id; by destruct (publish_queue e (Ws.sv_broadcast sv) id) as (_ & -> & _)).
  constructor; cbn [Ws.sv_broadcast Ws.sv_active]; [by apply (wf_step (Broadcast.Publish e))| |done| |done].
  - intros i c Hc. destruct (publish_queue e (Ws.sv_broadcast sv) (Ws.c_queue c)) as (-> & _).
    destruct (Hh i c Hc) as [q ->]. case_decide; by eexists.
  - intros id. rewrite (Hsub id). apply Hs.
Qed.

Lemma roster_open cl sv i :
  cl !! i = None -> roster cl sv -> roster (<[i := (Ws.open sv).1]> cl) (Ws.open sv).2.
Proof.
  intros Hi [Hw Hh Hd Hs Hg]. unfold Ws.open, Broadcast.subscribe.
  set (id := fresh _). assert (id ∉ dom (Broadcast.queues (Ws.sv_broadcast sv))) as Hid by apply is_fresh.
  assert (forall j c, cl !! j = Some c -> Ws.c_queue c ≠ id) as Hne.
  { intros j c Hc E. apply Hid, elem_of_dom. rewrite <- E. by eapply Hh. }
  set (c0 := {| Ws.c_queue := id |}).
  assert (active (<[i := c0]> cl) = <[i := c0]> (active cl)) as Hact
    by (unfold active; by rewrite map_filter_insert_True).
  cbn [fst snd]. constructor; cbn [Ws.sv_broadcast Ws.sv_active].
  - exact (wf_step Broadcast.Subscribe _ Hw).
  - intros j c. cbn. destruct (decide (i = j)) as [<-|Hj].
    + rewrite !lookup_insert_eq. intros [= <-]. cbn. rewrite lookup_insert_eq. by eexists.
    + rewrite !lookup_insert_ne by done. intros Hc. rewrite lookup_insert_ne; [by eapply Hh|].
      intros E. by apply (Hne j c Hc).
  - intros j k c c'. destruct (decide (i = j)) as [<-|Hj], (decide (i = k)) as [<-|Hk];
      rewrite ?lookup_insert_eq, ?lookup_insert_ne by done; [done| | |apply Hd].
    + intros [= <-] Hc' E. by destruct (Hne k c' Hc').
    + intros Hc [= <-] E. by destruct (Hne j c Hc).
  - intros id'. cbn. rewrite Hact, elem_of_union, elem_of_singleton, Hs. split.
    + intros [->|(j & c & Hc & E)]; [exists i, c0; by rewrite lookup_insert_eq|].
      exists j, c. split; [|done]. rewrite lookup_insert_ne; [done|]. intros ->.
      apply active_lookup in Hc as [Hc _]. congruence.
    + intros (j & c & Hc & E). destruct (decide (i = j)) as [<-|Hj].
      * rewrite lookup_insert_eq in Hc. injection Hc as <-. left. by rewrite <- E.
      * rewrite lookup_insert_ne in Hc by done. right. by exists j, c.
  - rewrite Hact, map_size_insert_None; [lia|]. unfold active. apply map_lookup_filter_None. by left.
Qed.

(** ** A session among the others *)

Lemma active_insert rest i c :
  rest !! i = None ->
  active (<[i := c]> rest) = if finished c then active rest else <[i := c]> (active rest).
Proof.
  intros Hi. unfold active. destruct (finished c) eqn:Ef.
  - rewrite map_filter_insert_False by (cbn; by rewrite Ef). by rewrite delete_id.
  - by rewrite map_filter_insert_True.
Qed.

Lemma active_size rest i c :
  rest !! i = None ->
  Z.of_nat (size (active (<[i := c]> rest))) =
  (if finished c then Z.of_nat (size (active rest)) else Z.of_nat (size (active rest)) + 1)%Z.
Proof.
  intros Hi. rewrite active_insert by done. destruct (finished c); [done|].
  rewrite map_size_insert_None; [lia|]. unfold active. apply map_lookup_filter_None. by left.
Qed.

(** The queues of the sessions that have not finished *)
Definition queues_of (cl : gmap nat Ws.client) : gset nat := list_to_set (Ws.c_queue <$> (map_to_list (active cl)).*2).

Lemma elem_of_queues_of cl id :
  id ∈ queues_of cl <-> exists i c, active cl !! i = Some c /\ Ws.c_queue c = id.
Proof.
  unfold queues_of. rewrite elem_of_list_to_set, list_elem_of_fmap. split.
  - intros (c & -> & Hc). apply list_elem_of_fmap in Hc as ([i c'] & -> & Hic%elem_of_map_to_list).
    by exists i, c'.
  - intros (i & c & Hc & <-). exists c. split; [done|]. apply list_elem_of_fmap. exists (i, c).
    split; [done|]. by apply elem_of_map_to_list.
Qed.

Lemma queues_of_insert rest i c :
  rest !! i = None -> queues_of (<[i := c]> rest) =
  if finished c then queues_of rest else {[Ws.c_queue c]} ∪ queues_of rest.
Proof.
  intros Hi. unfold queues_of. rewrite active_insert by done. destruct (finished c); [done|].
  rewrite map_to_list_insert; [|unfold active; apply map_lookup_filter_None; by left].
  rewrite !fmap_cons. done.
Qed.

(** What the roster says of one session is that it holds its part beside the others. *)
Lemma roster_holds rest i c sv :
  rest !! i = None -> roster (<[i := c]> rest) sv ->
  holds (queues_of rest) (Z.of_nat (size (active rest))) c sv.
Proof.
  intros Hi [Hw Hh Hd Hs Hg]. split; [|split].
  - intros (j & d & [Hj _]%active_lookup & E)%elem_of_queues_of.
    assert (i ≠ j) as Hne by (intros ->; congruence).
    apply Hne. symmetry. apply (Hd j i d c); [by rewrite lookup_insert_ne|apply lookup_insert_eq|done].
  - rewrite <- (queues_of_insert rest i c Hi). apply set_eq. intros id. by rewrite Hs, elem_of_queues_of.
  - by rewrite Hg, active_size.
Qed.

Lemma holds_roster rest i c c' sv sv' :
  rest !! i = None -> roster (<[i := c]> rest) sv -> wf (Ws.sv_broadcast sv') ->
  Ws.c_queue c' = Ws.c_queue c ->
  (forall id, is_Some (Broadcast.queues (Ws.sv_broadcast sv) !! id) ->
              is_Some (Broadcast.queues (Ws.sv_broadcast sv') !! id)) ->
  holds (queues_of rest) (Z.of_nat (size (active rest))) c' sv' ->
  roster (<[i := c']> rest) sv'.
Proof.
  intros Hi [Hw Hh Hd Hs Hg] Hw' Hq Hk (Hn & Hsub & Ha). constructor; [done| | | |].
  - intros j d. destruct (decide (i = j)) as [<-|Hj].
    + rewrite lookup_insert_eq. intros [= <-]. rewrite Hq. apply Hk, (Hh i). apply lookup_insert_eq.
    + rewrite lookup_insert_ne by done. intros Hd'. apply Hk, (Hh j). by rewrite lookup_insert_ne.
  - intros j k d d'. specialize (Hd j k).
    destruct (decide (i = j)) as [<-|Hj], (decide (i = k)) as [<-|Hk'];
      rewrite ?lookup_insert_eq, ?lookup_insert_ne in * by done; [done| | |apply Hd].
    + intros [= <-] Hd' E. rewrite Hq in E. by apply (Hd c d').
    + intros Hd' [= <-] E. rewrite Hq in E. by apply (Hd d c).
  - intros id. by rewrite Hsub, <- (queues_of_insert rest i c' Hi), elem_of_queues_of.
  - by rewrite Ha, active_size.
Qed.

Lemma after_ops_has ops b id :
  is_Some (Broadcast.queues b !! id) -> is_Some (Broadcast.queues (after_ops ops b) !! id).
Proof.
  revert b. induction ops as [|o ops IH]; intros b Hb; [done|]. cbn. apply IH.
  destruct (Broadcast.step o b) as [x b'] eqn:E. by apply (step_items id o b x b' Hb E).
Qed.

Lemma roster_resume cl sv i c ev :
  cl !! i = Some c -> roster cl sv ->
  roster (<[i := (Ws.resume ev c sv).1]> cl) (Ws.resume ev c sv).2.
Proof.
  intros Hc Hr. rewrite <- (insert_delete_id cl i c Hc) in Hr.
  rewrite <- insert_delete_eq.
  assert (delete i cl !! i = None) as Hi by apply lookup_delete_eq.
  apply (holds_roster _ _ c _ sv); [done|done|by apply wf_resume, Hr|apply resume_queue| |].
  - intros id Hid. destruct (resume_ops ev c sv) as (ops & _ & ->). by apply after_ops_has.
  - by apply resume_holds, (roster_holds _ i).
Qed.

(** ** The roster of the world *)

Section Roster.
Context `{Interpreter} `{Propagator} `{Driver} `{Process}.
Variable self : UdpServer.UdpServer.

Definition clients (w : world) : gmap nat Ws.client := w_client <$> sessions w.

Lemma roster_step w w' :
  roster (clients w) (server_of w) -> step self w w' -> roster (clients w') (server_of w').
Proof.
  intros Hr Hst.
  destruct Hst as [w env data addr p Hp|w m rest Hq _|w|w x rest d b lost Hp Hx Hs|w x rest e r b Hp Hx Hs
    |w x rest e r d b lost Hp Hx Hs|w b n Hb [Hbl _]|w i Hi|w i x r s Hi Hn Hph Hs|w i x r send Hi Hr' Hph
    |w i x send Hi|w i x e Hi]; try done;
    try (match goal with |- context [session_resumed ?i ?x ?ev ?w] =>
      assert (clients w !! i = Some (w_client x)) as Hci by (unfold clients; by rewrite lookup_fmap, Hi);
      pose proof (roster_resume (clients w) (server_of w) i (w_client x) ev Hci Hr) as Hr2;
      unfold session_resumed; destruct (Ws.resume ev (w_client x) (server_of w)) as [c sv];
      unfold clients, server_of in *; cbn [sessions backend gauge set_server st_broadcast fst snd] in *;
      rewrite fmap_insert; by destruct sv end).
  - unfold server_of. cbn [backend gauge]. by rewrite (proj1 (proj2 (start_settles _ _ _ _ Hs))).
  - unfold server_of. cbn [backend gauge]. by rewrite (proj1 (proj2 (start_awaits _ _ _ _ _ Hs))).
  - destruct (resume_spec _ _ _ _ _ Hs) as [_ Hd]. unfold server_of, clients, after_broadcast.
    cbn [backend gauge sessions]. destruct r as [u|e']; destruct Hd as [_ ->]; [|done].
    rewrite <- map_fmap_compose.
    change (w_client ∘ note_drops (st_broadcast (backend w))) with w_client.
    by apply (roster_publish (clients w) (server_of w)).
  - unfold server_of, clients. cbn [backend gauge sessions]. rewrite fmap_empty, Hbl. apply roster_init.
  - pose proof (roster_open (clients w) (server_of w) i) as Ho. unfold clients in *.
    cbn [sessions]. rewrite fmap_insert, lookup_fmap, Hi in *. by apply Ho.
  - unfold server_of, clients in *. cbn [backend gauge sessions st_broadcast] in *.
    rewrite fmap_insert. cbn [with_snapshot w_client]. rewrite insert_id; [done|].
    by rewrite lookup_fmap, Hi.
Qed.

(** C15. The sessions' resources over any run of the whole system: the subscribed queues are
    exactly those of the sessions that have not finished, one for each, the gauge is the
    number of these sessions, and no queue holds more than its bound; whatever else runs,
    and however the sessions end. *)
Theorem sessions_accounted b n w :
  blank b n -> reachable self (init b) w ->
  (forall id, id ∈ Broadcast.subscribers (st_broadcast (backend w)) <->
     exists i x, sessions w !! i = Some x /\ finished (w_client x) = false /\ Ws.c_queue (w_client x) = id) /\
  (forall i j x y, sessions w !! i = Some x -> sessions w !! j = Some y ->
     Ws.c_queue (w_client x) = Ws.c_queue (w_client y) -> i = j) /\
  gauge w = Z.of_nat (size (filter (fun kv => finished (w_client kv.2) = false) (sessions w))) /\
  (forall id q, Broadcast.queues (st_broadcast (backend w)) !! id = Some q -> (0 < Broadcast.q_maxsize q)%Z ->
     (Z.of_nat (length (Broadcast.q_items q)) <= Broadcast.q_maxsize q)%Z).
Proof.
  intros [Hbl _] Hr.
  assert (roster (clients w) (server_of w)) as [Hw Hh Hd Hs Hg].
  { revert w Hr. apply reachable_ind; [|intros w w' _ IH Hst; by eapply roster_step].
    unfold clients, server_of, init. cbn. rewrite fmap_empty, Hbl. apply roster_init. }
  cbn [server_of Ws.sv_broadcast Ws.sv_active] in *.
  assert (forall i c, clients w !! i = Some c <-> exists x, sessions w !! i = Some x /\ c = w_client x) as Hcl.
  { intros i c. unfold clients. rewrite lookup_fmap, fmap_Some. done. }
  split; [|split; [|split]].
  - intros id. rewrite Hs. split.
    + intros (i & c & [(x & Hx & ->)%Hcl Hf]%active_lookup & E). by exists i, x.
    + intros (i & x & Hx & Hf & E). exists i, (w_client x). split; [|done]. apply active_lookup.
      split; [apply Hcl; by exists x|done].
  - intros i j x y Hx Hy. apply Hd; apply Hcl; eauto.
  - rewrite Hg. unfold active, clients. rewrite map_filter_fmap, map_size_fmap. done.
  - intros id q Hq. apply (proj2 Hw) in Hq as [_ Hok]. exact Hok.
Qed.
End Roster.
End WorldSessions.
