(* ===== verification/WorldLive.v ===== *)
(** * The whole system and the clients: every session is a live pipeline

    Each session of [World] is seen as the pipeline of [Live]: the commits and
    broadcasts of all handlers and what the other sessions do to the broadcast are steps
    of it.  With the ledger of [WorldFacts] this gives the guarantee from the datagram
    to the client. *)

From S2P Require Export WorldSessions.
Import Tracing UdpServer Consumer.

Module WorldLive.
Import World SystemFacts WorldFacts SessionFacts WorldSessions.

(** ** Runs of the pipeline *)

Lemma live_run l0 l l' : Live.reachable l0 l -> rtc Live.step l l' -> Live.reachable l0 l'.
Proof.
  intros Hr Hs. revert Hr. induction Hs as [|l1 l2 l3 Hst Hs IH]; [done|].
  intros Hr. apply IH. by eapply Live.reach_step.
Qed.

(** What other sessions do to the broadcast is a run. *)
Lemma other_run ops l :
  Forall (Live.foreign_op (Live.ws_session l)) ops ->
  rtc Live.step l
    {| Live.current := Live.current l; Live.pending := Live.pending l;
       Live.server := Live.set_broadcast (after_ops ops (Ws.sv_broadcast (Live.server l))) (Live.server l);
       Live.ws_session := Live.ws_session l; Live.snap_read := Live.snap_read l;
       Live.dropped := Live.dropped l |}.
Proof.
  revert l. induction ops as [|o ops IH]; intros l Hops.
  { destruct l as [? ? [? ?] ? ? ?]. by apply rtc_refl. }
  apply Forall_cons in Hops as [Ho Hops].
  eapply rtc_l; [by apply (Live.step_other l o)|]. by apply IH.
Qed.

(** The members of a list that [P] holds of, or that are [e]. *)
Lemma keep_needed (P : pydict -> Prop) e (l : list pydict) :
  (forall e', e' ∈ l -> P e' \/ e' = e) ->
  exists rest : list pydict, (forall e', e' ∈ rest -> e' ∈ l /\ P e') /\ (forall e', e' ∈ l -> e' = e \/ e' ∈ rest).
Proof.
  induction l as [|x l IH]; intros Hl.
  { exists []. split; [by intros e' ?%elem_of_nil|by right]. }
  destruct IH as (rest & Hsub & Hkeep); [intros e' Hin; apply Hl; set_solver|].
  destruct (Hl x) as [Hx| ->]; [set_solver| |].
  - exists (x :: rest). split; intros e'; rewrite !elem_of_cons; intros [->|Hin]; naive_solver.
  - exists rest. split; intros e'; rewrite ?elem_of_cons; naive_solver.
Qed.

Section Simulation.
Context `{Interpreter} `{Propagator} `{Driver} `{Process}.
Variable self : UdpServer.UdpServer.
(** ** The view of a session *)

(** The rows that the session's executor has read. *)
Definition read_rows (x : session_state) : option (list pydict) :=
  match w_snapshot x with
  | Some (Ok rows) => Some rows
  | _ => None
  end.

(** A handler that has written [e] and will broadcast it *)
Definition owes (e : pydict) (x : delivery) : Prop := d_progress x = Wrote e (Ok ()).

(** The message has the envelope [e]. *)
Definition carries (e : pydict) (m : message) : Prop :=
  exists p, decode (msg_body m) = Ok (Usable e p).

(** A broadcast of [e] is still to come. *)
Definition expected (w : world) (e : pydict) : Prop :=
  Exists (carries e) (at_broker w) \/ Exists (owes e) (inflight w).

(** What the pipeline [l] shares with every session, and what with session [x]. *)
Record sees (w : world) (l : Live.live) : Prop := {
  see_current : Live.current l = current_positions (tables (backend w));
  see_broadcast : Ws.sv_broadcast (Live.server l) = st_broadcast (backend w);
  see_pending : forall e, e ∈ Live.pending l -> expected w e;
  see_owed : forall e, Exists (owes e) (inflight w) -> e ∈ Live.pending l;
}.

Definition session_view (x : option session_state) (l : Live.live) : Prop :=
  Live.ws_session l = w_client <$> x /\ Live.snap_read l = x ≫= read_rows /\
  (forall x', x = Some x' -> Live.dropped l = w_dropped x').

Definition views (w : world) (i : nat) (l : Live.live) : Prop :=
  sees w l /\ session_view (sessions w !! i) l.

(** The state is that of a pipeline that started on some tables. *)
Definition explained (w : world) (i : nat) : Prop :=
  exists db n l, Live.keyed db /\ Live.epoch db /\ Live.reachable (Live.init db n) l /\ views w i l.

Lemma explained_next w w' i :
  (forall l, inv l -> views w i l -> exists l', rtc Live.step l l' /\ views w' i l') ->
  explained w i -> explained w' i.
Proof.
  intros Hn (db & n & l & Hk & He & Hr & Hv).
  destruct (Hn l (inv_reachable db n l Hk He Hr) Hv) as (l' & Hs & Hv').
  exists db, n, l'. do 2 (split; [done|]). split; [by eapply live_run|done].
Qed.

Lemma explained_inv w i : explained w i -> exists l, inv l /\ views w i l.
Proof. intros (db & n & l & Hk & He & Hr & Hv). exists l. split; [by eapply inv_reachable|done]. Qed.

(** A pipeline from the start on *)
Lemma explained_fresh w db n i :
  Live.keyed db -> Live.epoch db -> current_positions (tables (backend w)) = db ->
  st_broadcast (backend w) = Broadcast.init n -> inflight w = [] -> sessions w !! i = None ->
  explained w i.
Proof.
  intros Hk He Hc Hb Hi Hs. exists db, n, (Live.init db n). do 2 (split; [done|]).
  split; [apply Live.reach_refl|]. split; [constructor; simpl; rewrite ?Hi; try done|].
  - by intros e ?%elem_of_nil.
  - by intros e ?%Exists_nil.
  - rewrite Hs. done.
Qed.

(** Steps that change the broker's side only *)
Lemma sees_broker w w' l :
  tables (backend w') = tables (backend w) -> st_broadcast (backend w') = st_broadcast (backend w) ->
  (forall m, m ∈ at_broker w -> m ∈ at_broker w') ->
  (forall e, Exists (owes e) (inflight w') <-> Exists (owes e) (inflight w)) ->
  sees w l -> sees w' l.
Proof.
  intros Ht Hb Hm Ho [Hc Hbr Hp Hw]. constructor; rewrite ?Ht, ?Hb; try done.
  - intros e He. destruct (Hp e He) as [Hx|Hx]; [left|right; by apply Ho].
    apply Exists_exists in Hx as (m & Hin & Hca). apply Exists_exists. eauto.
  - intros e He. by apply Hw, Ho.
Qed.

Lemma explained_broker w w' i :
  tables (backend w') = tables (backend w) -> st_broadcast (backend w') = st_broadcast (backend w) ->
  (forall m, m ∈ at_broker w -> m ∈ at_broker w') ->
  (forall e, Exists (owes e) (inflight w') <-> Exists (owes e) (inflight w)) ->
  sessions w' = sessions w -> explained w i -> explained w' i.
Proof.
  intros Ht Hb Hm Ho Hs. apply explained_next. intros l _ [Hv Hx]. exists l. split; [apply rtc_refl|].
  split; [by eapply sees_broker|by rewrite Hs].
Qed.

Lemma owes_proper w x rest e :
  inflight w ≡ₚ x :: rest -> Exists (owes e) (inflight w) <-> owes e x \/ Exists (owes e) rest.
Proof. intros Hp. rewrite Hp. apply Exists_cons. Qed.

(** A handler ends and its message stays with the broker. *)
Lemma explained_requeued w x rest b lost g i :
  inflight w ≡ₚ x :: rest -> (forall e, ~ owes e x) ->
  tables b = tables (backend w) -> st_broadcast b = st_broadcast (backend w) ->
  explained w i ->
  explained {| queue := settled x Requeued lost (queue w); inflight := rest; backend := b;
               gauge := g; sessions := sessions w; accepted := accepted w |} i.
Proof.
  intros Hp Hx Ht Hb. apply explained_broker; [done..| | |done]; unfold at_broker; cbn [queue inflight].
  - intros m. rewrite Hp. intros [?|[_ ?]]%(settled_keeps x Requeued lost (queue w) rest m); done.
  - intros e. rewrite (owes_proper w x rest e Hp). specialize (Hx e). tauto.
Qed.

(** ** Commits *)

Lemma stored_key e o now t z db db' :
  tag_id e = t -> val_of_pyint (ts_utc_ms e) = VInt z ->
  stored (event_envelope e (event_type self) o now) db db' ->
  Live.envelope_key (event_envelope e (event_type self) o now) = Some (t, z) /\
  exists r, r_tag r = t /\ r_ts r = z /\
    current_positions db' = upsert_row r (current_positions db).
Proof.
  intros Ht Hz (params & r & Hx & Hr & ->).
  destruct (event_extract e (event_type self) o now) as (w & _ & Hx'). rewrite Hx in Hx'.
  injection Hx' as ->. split; [by rewrite (LiveRefinement.envelope_key_event _ _ _ _ z Hz), Ht|].
  destruct (row_of_keys _ r t z Hr) as [Hrt Hrz].
  { change (Some (VStr (tag_id e)) = Some (VStr t)). by rewrite Ht. }
  { change (Some (val_of_pyint (ts_utc_ms e)) = Some (VInt z)). by rewrite Hz. }
  by exists r.
Qed.

(** The row of a message bounds the current row of its tag. *)
Lemma has_row_current rs w m t z :
  ledger self rs w -> has_row rs m -> System.says self m t z ->
  exists r, current_positions (tables (backend w)) !! t = Some r /\ (z <= r_ts r)%Z /\ r ∈ rs.
Proof.
  intros Hl Hrow Hz. apply Exists_exists in Hrow as (r' & Hr' & Hm).
  destruct (row_for_says self m r' t z Hm Hz) as [Ht Hts].
  rewrite (lg_tables _ _ _ Hl), ingest_current. cbn [current_positions empty_database].
  pose proof (upserts_latest rs t) as Hlat. destruct (upserts rs ∅ !! t) as [r|].
  - exists r. split; [done|]. split; [rewrite <- Hts; by eapply latest_max|].
    by apply (latest_elem _ _ _ Hlat).
  - rewrite Forall_forall in Hlat. by destruct (Hlat r' Hr').
Qed.
(** A message with a timestamp that is not negative *)
Definition timestamped (m : message) : Prop := exists t z, System.says self m t z /\ (0 <= z)%Z.

(** A handler's write is no step of the pipeline, or a commit. *)
Lemma write_run rs w x rest e r b l :
  ledger self rs w -> timestamped (d_message x) ->
  inflight w ≡ₚ x :: rest -> d_progress x = Delivered ->
  start_handler (d_message x) (backend w) = (Awaits e r, b) -> sees w l -> inv l ->
  exists l', rtc Live.step l l' /\
    sees {| queue := queue w; inflight := rest ++ [written x e r]; backend := b;
            gauge := gauge w; sessions := sessions w; accepted := accepted w |} l' /\
    Live.ws_session l' = Live.ws_session l /\ Live.snap_read l' = Live.snap_read l /\
    Live.dropped l' = Live.dropped l.
Proof.
  intros Hl (t & z & Hsays & H0z) Hp Hx Hs [Hc Hb Hpe Ho] Hi.
  set (w' := {| queue := _ |}).
  destruct (start_awaits _ _ _ _ _ Hs) as ([p Hd] & Hbr & Hr).
  destruct Hsays as (ev & o & now & Hd' & Ht & Hz). pose proof Hd as Hde.
  rewrite Hd' in Hd. injection Hd as He _.
  assert (forall m, m ∈ at_broker w -> m ∈ at_broker w') as Hkeep.
  { intros m. unfold at_broker, w'. cbn [queue inflight]. rewrite Hp, unsettled_app, !unsettled_cons.
    cbn [written d_open d_message]. destruct (d_open x); set_solver. }
  assert (forall e', Exists (owes e') (inflight w') <->
            Exists (owes e') (inflight w) \/ (e' = e /\ r = Ok ())) as Howe.
  { intros e'. unfold w'. cbn [inflight]. rewrite (owes_proper w x rest e' Hp), Exists_app, Exists_cons,
      Exists_nil. unfold owes at 2 3. rewrite Hx. cbn [written d_progress]. naive_solver. }
  assert (forall e', expected w e' -> expected w' e') as Hexp.
  { intros e' [Hm|Hm]; [left|right; apply Howe; by left].
    apply Exists_exists in Hm as (m & Hin & Hca). apply Exists_exists. eauto. }
  assert ((tables b = tables (backend w) /\ r ≠ Ok ()) \/
          (stored e (tables (backend w)) (tables b) /\ (r = Ok () \/ exists x', r = Raise x'))) as [[Hs' Hne]|[Hs' Hcase]]
    by (destruct r as [[]|]; naive_solver).
  - exists l. split; [apply rtc_refl|]. split; [|done]. constructor;
      [by change (backend w') with b; rewrite Hs'|by change (backend w') with b; rewrite Hbr|auto|].
    intros e' [Hw|[_ ?]]%Howe; [by apply Ho|done].
  - rewrite <- He in Hs'. destruct (stored_key ev o now t z _ _ Ht Hz Hs') as (Hkey & row & Hrt & Hrz & Hcur).
    rewrite He, <- Hrt, <- Hrz in Hkey.
    assert (expected w' e \/ (r ≠ Ok () /\ has_row rs (d_message x))) as [Hexp_e|[Hne Hrow]].
    { destruct Hcase as [->|[x' ->]]; [left; right; apply Howe; by right|].
      destruct (ledger_inflight self _ _ _ _ Hl Hp) as [Hacc _]. pose proof (lg_messages _ _ _ Hl) as Hm.
      rewrite Forall_forall in Hm. destruct (Hm _ Hacc) as [Hin|Hrow]; [left; left|by right].
      apply Exists_exists. exists (d_message x). split; [by apply Hkeep|by exists p]. }
    + eexists. split; [apply rtc_once, (Live.step_commit l e row); [done|lia]|]. split; [|done].
      constructor; cbn [Live.current Live.server Live.pending];
        [by change (backend w') with b; rewrite Hcur, Hc|by change (backend w') with b; rewrite Hbr| |].
      * intros e' [Hin| ->%list_elem_of_singleton]%elem_of_app; auto.
      * intros e' [Hw|[-> _]]%Howe; [|set_solver]. apply elem_of_app. left. by apply Ho.
    + destruct (has_row_current rs w (d_message x) (r_tag row) (r_ts row) Hl Hrow) as (old & Hold & Hle & _).
      { exists ev, o, now. by rewrite Hrt, Hrz. }
      eexists. split; [apply rtc_once, (Live.step_recommit l row old); [by rewrite Hc|lia]|]. split; [|done].
      constructor; cbn [Live.current Live.server Live.pending];
        [by change (backend w') with b; rewrite Hcur, Hc|by change (backend w') with b; rewrite Hbr|auto|].
      intros e' [Hw|[_ ?]]%Howe; [by apply Ho|done].
Qed.

(** The broadcast that follows a handler's write is a step. *)
Lemma broadcast_run w x rest e b d lost ss l :
  inflight w ≡ₚ x :: rest -> d_progress x = Wrote e (Ok ()) -> carries e (d_message x) ->
  tables b = tables (backend w) -> st_broadcast b = Broadcast.publish e (st_broadcast (backend w)) ->
  sees w l ->
  exists l', rtc Live.step l l' /\
    sees {| queue := settled x d lost (queue w); inflight := rest; backend := b;
            gauge := gauge w; sessions := ss; accepted := accepted w |} l' /\
    Live.ws_session l' = Live.ws_session l /\ Live.snap_read l' = Live.snap_read l /\
    Live.dropped l' = Live.dropped l || match Live.ws_session l with
                                       | Some c => overflows (st_broadcast (backend w)) c
                                       | None => false
                                       end.
Proof.
  intros Hp Hx [p Hd] Ht Hb [Hc Hbr Hpe Ho].
  set (w' := {| queue := _ |}).
  assert (forall e', e' ∈ Live.pending l -> expected w' e' \/ e' = e) as Hdis.
  { intros e' Hin. destruct (Hpe e' Hin) as [Hm|Hw].
    - apply Exists_exists in Hm as (m & Hm & Hca). unfold at_broker in Hm. rewrite Hp in Hm.
      destruct (settled_keeps x d lost (queue w) rest m Hm) as [Hm'|[-> _]].
      + left; left. apply Exists_exists. by exists m.
      + right. destruct Hca as [p' Hd']. rewrite Hd in Hd'. by injection Hd' as ->.
    - apply (owes_proper w x rest e' Hp) in Hw as [Hw|Hw]; [|by left; right].
      unfold owes in Hw. rewrite Hx in Hw. injection Hw as ->. by right. }
  destruct (keep_needed (expected w') e _ Hdis) as (kept & Hsub & Hkeep).
  set (owed := omap (fun y => match d_progress y with Wrote e' (Ok _) => Some e' | _ => None end) rest).
  assert (forall e', e' ∈ owed <-> Exists (owes e') rest) as Howed.
  { intros e'. unfold owed. rewrite list_elem_of_omap, Exists_exists. unfold owes.
    apply exist_proper. intros y. destruct (d_progress y) as [|e0 [[]|]]; naive_solver. }
  assert (forall e', e' ∈ owed -> e' ∈ Live.pending l) as Howed_in.
  { intros e' Hin. apply Ho, (owes_proper w x rest e' Hp). right. by apply Howed. }
  eexists. split; [apply rtc_once, (Live.step_broadcast l e (kept ++ owed))|].
  - apply Ho, (owes_proper w x rest e Hp). by left.
  - split; intros e'; rewrite elem_of_app; [intros [Hin|Hin]; [by apply Hsub|by apply Howed_in]|].
    intros Hin. destruct (Hkeep e' Hin); tauto.
  - split; [constructor; cbn [Live.current Live.server Live.pending Live.set_broadcast Ws.sv_broadcast]|].
    + change (backend w') with b. by rewrite Ht.
    + change (backend w') with b. by rewrite Hb, Hbr.
    + intros e' [Hin|Hin]%elem_of_app; [by apply Hsub|right]. by apply Howed.
    + intros e' Hin. apply elem_of_app. right. by apply Howed.
    + split; [done|]. split; [done|]. cbn [Live.dropped]. unfold Live.queue_full, overflows.
      by rewrite Hbr.
Qed.

(** ** Sessions *)

Lemma sees_session w w' l l' :
  queue w' = queue w -> inflight w' = inflight w -> tables (backend w') = tables (backend w) ->
  Live.current l' = Live.current l -> Live.pending l' = Live.pending l ->
  Ws.sv_broadcast (Live.server l') = st_broadcast (backend w') -> sees w l -> sees w' l'.
Proof.
  intros Hq Hi Ht Hc Hp Hb [Hc' Hb' Hp' Ho']. constructor; rewrite ?Hc, ?Hp, ?Ht, ?Hi; try done.
  intros e He. unfold expected, at_broker. rewrite Hq, Hi. by apply Hp'.
Qed.

(** The pipeline after its session was resumed. *)
Definition resumed (ev : Ws.event) (c : Ws.client) (l : Live.live) : Live.live :=
  {| Live.current := Live.current l; Live.pending := Live.pending l;
     Live.server := (Ws.resume ev c (Live.server l)).2;
     Live.ws_session := Some (Ws.resume ev c (Live.server l)).1;
     Live.snap_read := Live.snap_read l; Live.dropped := Live.dropped l |}.

Lemma resumed_views w i x ev l :
  sessions w !! i = Some x -> views w i l ->
  views (session_resumed i x ev w) i (resumed ev (w_client x) l).
Proof.
  intros Hx [Hs (Hw & Hr & Hd)]. rewrite Hx in Hw, Hr, Hd.
  destruct (resume_agree ev (w_client x) (server_of w) (Live.server l)) as [Ha Hb].
  { symmetry. apply (see_broadcast _ _ Hs). }
  unfold session_resumed. destruct (Ws.resume ev (w_client x) (server_of w)) as [c sv].
  cbn [fst snd] in Ha, Hb. split.
  - apply (sees_session w _ l); [done..|symmetry; exact Hb|exact Hs].
  - cbn [sessions]. rewrite lookup_insert_eq. unfold session_view, resumed.
    cbn [Live.ws_session Live.snap_read Live.dropped fmap option_fmap option_map mbind option_bind].
    rewrite <- Ha, Hr. split; [done|]. split; [done|]. intros x' [= <-]. exact (Hd x eq_refl).
Qed.

Lemma resumed_idle ev c l :
  Live.ws_session l = Some c -> Ws.resume ev c (Live.server l) = (c, Live.server l) -> resumed ev c l = l.
Proof. unfold resumed. intros Hw ->. cbn. rewrite <- Hw. by destruct l. Qed.

(** What can resume a session of the world. *)
Definition resumable (x : session_state) (ev : Ws.event) : Prop :=
  match ev with
  | Ws.SnapshotReady r _ => w_snapshot x = Some r /\ Ws.c_phase (w_client x) = Ws.Subscribed
  | _ => True
  end.

Lemma own_run x ev l :
  session_view (Some x) l -> resumable x ev -> rtc Live.step l (resumed ev (w_client x) l).
Proof.
  intros (Hw & Hr & _) Hev. cbn in Hw, Hr. destruct ev as [[rows|e] send|send|e].
  - destruct Hev as [Hs Hph]. apply rtc_once. unfold read_rows in Hr. rewrite Hs in Hr.
    pose proof (Live.step_snapshot l (w_client x) rows send Hw Hr Hph) as Hst. unfold resumed.
    by rewrite Hr.
  - destruct Hev as [_ Hph]. apply rtc_once.
    pose proof (Live.step_leave l (w_client x) e Hw) as Hst. unfold resumed, Ws.resume in *.
    by rewrite Hph in *.
  - destruct (Ws.c_phase (w_client x)) as [|m|r] eqn:Hph.
    + rewrite resumed_idle; [apply rtc_refl|done|]. unfold Ws.resume. by rewrite Hph.
    + apply rtc_once. by apply (Live.step_receive l (w_client x) m send).
    + rewrite resumed_idle; [apply rtc_refl|done|]. unfold Ws.resume. by rewrite Hph.
  - apply rtc_once. by apply (Live.step_leave l (w_client x) e).
Qed.

Lemma explained_own w i x ev :
  sessions w !! i = Some x -> resumable x ev -> explained w i ->
  explained (session_resumed i x ev w) i.
Proof.
  intros Hx Hev. apply explained_next. intros l _ Hv. exists (resumed ev (w_client x) l).
  split; [|by apply resumed_views]. apply own_run; [|done]. rewrite <- Hx. apply Hv.
Qed.

(** Another session's operations on the broadcast *)
Lemma explained_ops w w' i ops :
  queue w' = queue w -> inflight w' = inflight w -> tables (backend w') = tables (backend w) ->
  st_broadcast (backend w') = after_ops ops (st_broadcast (backend w)) ->
  sessions w' !! i = sessions w !! i ->
  Forall (Live.foreign_op (w_client <$> sessions w !! i)) ops ->
  explained w i -> explained w' i.
Proof.
  intros Hq Hi Ht Hb Hs Hops. apply explained_next. intros l _ [Hv (Hw & Hr & Hd)].
  eexists. split; [apply (other_run ops); by rewrite Hw|]. split.
  - apply (sees_session w _ l); [done..| |exact Hv]. cbn. by rewrite (see_broadcast _ _ Hv), Hb.
  - rewrite Hs. by split.
Qed.

Lemma own_foreign id ops (c : option Ws.client) :
  (forall c', c = Some c' -> Ws.c_queue c' ≠ id) -> Forall (own_op id) ops ->
  Forall (Live.foreign_op c) ops.
Proof.
  intros Hne Hops. eapply Forall_impl; [exact Hops|]. intros o [-> | ->];
    (destruct c as [c|]; [cbn; intros E; by apply (Hne c)|done]).
Qed.

Lemma explained_other w i j x ev :
  sessions w !! j = Some x -> j ≠ i ->
  (forall y, sessions w !! i = Some y -> Ws.c_queue (w_client y) ≠ Ws.c_queue (w_client x)) ->
  explained w i -> explained (session_resumed j x ev w) i.
Proof.
  intros Hx Hne Hq. destruct (resume_ops ev (w_client x) (server_of w)) as (ops & Hops & Hb).
  unfold session_resumed. destruct (Ws.resume ev (w_client x) (server_of w)) as [c sv].
  apply (explained_ops _ _ _ ops); cbn; [done|done|done|done|by rewrite lookup_insert_ne|].
  eapply own_foreign; [|exact Hops]. intros c' (y & Hy & ->)%fmap_Some. by apply Hq.
Qed.

(** The session's executor has read the table. *)
Lemma explained_read w i j x r s :
  sessions w !! j = Some x -> w_snapshot x = None -> Ws.c_phase (w_client x) = Ws.Subscribed ->
  Ws.snapshot (st_session (backend w)) = (r, s) -> explained w i ->
  explained {| queue := queue w; inflight := inflight w;
               backend := {| st_session := s; st_broadcast := st_broadcast (backend w);
                             st_metrics := st_metrics (backend w) |};
               gauge := gauge w; sessions := <[j := with_snapshot r x]> (sessions w);
               accepted := accepted w |} i.
Proof.
  intros Hx Hn Hph Hs. destruct (snapshot_spec _ _ _ Hs) as [Ht Hrows]. apply explained_next.
  intros l _ [Hv (Hw & Hr & Hd)]. destruct (decide (j = i)) as [->|Hne].
  2: { exists l. split; [apply rtc_refl|]. split.
       - apply (sees_session w _ l); [done..|apply (see_broadcast _ _ Hv)|done].
       - cbn. rewrite lookup_insert_ne by done. by split. }
  rewrite Hx in Hw, Hr, Hd. cbn in Hw, Hr. unfold read_rows in Hr. rewrite Hn in Hr.
  destruct r as [rows|e].
  - destruct (Hrows rows eq_refl) as (ls & Hls & ->). eexists. split.
    + apply rtc_once, (Live.step_read l (w_client x) ls); [done..|]. by rewrite (see_current _ _ Hv).
    + split; [apply (sees_session w _ l); [done..|apply (see_broadcast _ _ Hv)|done]|].
      cbn. rewrite lookup_insert_eq. split; [done|]. split; [done|]. intros x' [= <-]. exact (Hd x eq_refl).
  - exists l. split; [apply rtc_refl|].
    split; [apply (sees_session w _ l); [done..|apply (see_broadcast _ _ Hv)|done]|].
    cbn. rewrite lookup_insert_eq. split; [done|]. split; [done|]. intros x' [= <-]. exact (Hd x eq_refl).
Qed.

(** A session opens. *)
Lemma explained_open w i j :
  sessions w !! j = None -> explained w i ->
  explained {| queue := queue w; inflight := inflight w;
               backend := set_server (backend w) (Ws.open (server_of w)).2;
               gauge := Ws.sv_active (Ws.open (server_of w)).2;
               sessions := <[j := opened (Ws.open (server_of w)).1]> (sessions w);
               accepted := accepted w |} i.
Proof.
  intros Hj. destruct (decide (j = i)) as [->|Hne].
  - apply explained_next. intros l _ [Hv (Hw & Hr & Hd)]. rewrite Hj in Hw.
    destruct (open_agree (server_of w) (Live.server l)) as [Ha Hb].
    { symmetry. apply (see_broadcast _ _ Hv). }
    eexists. split; [by apply rtc_once, (Live.step_open l)|]. split.
    + apply (sees_session w _ l); [done..|symmetry; exact Hb|done].
    + cbn [sessions]. rewrite lookup_insert_eq. split; [exact (f_equal Some (eq_sym Ha))|]. split; [done|].
      by intros x' [= <-].
  - apply (explained_ops _ _ _ [Broadcast.Subscribe]); cbn [queue inflight backend sessions];
      [done..|by rewrite lookup_insert_ne|by repeat constructor].
Qed.

(** ** All sessions at once *)

Definition queue_of (w : world) (i : nat) : option nat :=
  (fun x => Ws.c_queue (w_client x)) <$> sessions w !! i.

Record sim (w : world) : Prop := {
  sim_explained : forall i, explained w i;
  sim_distinct : forall i j q, queue_of w i = Some q -> queue_of w j = Some q -> i = j;
}.

(** A session's queue is one of the heap. *)
Lemma explained_queue w i q :
  explained w i -> queue_of w i = Some q -> q ∈ dom (Broadcast.queues (st_broadcast (backend w))).
Proof.
  intros (l & Hi & Hv & Hw & _)%explained_inv (x & Hx & ->)%fmap_Some. rewrite Hx in Hw.
  destruct (inv_attached _ Hi _ Hw) as [Ha _]. rewrite (see_broadcast _ _ Hv) in Ha.
  by apply elem_of_dom.
Qed.

Lemma sim_next w w' :
  (forall i, explained w i -> explained w' i) -> (forall i, queue_of w' i = queue_of w i) ->
  sim w -> sim w'.
Proof. intros He Hq [He' Hd]. split; [auto|]. intros i j q. rewrite !Hq. apply Hd. Qed.

Lemma sim_resumed w i x ev :
  sessions w !! i = Some x -> resumable x ev -> sim w -> sim (session_resumed i x ev w).
Proof.
  intros Hx Hev Hs. apply (sim_next w); [| |done].
  - intros k Hk. destruct (decide (i = k)) as [->|Hne]; [by apply explained_own|].
    apply explained_other; [done..| |done]. intros y Hy Hyx. apply Hne.
    apply (sim_distinct _ Hs i k (Ws.c_queue (w_client x))); unfold queue_of;
      [by rewrite Hx|by rewrite Hy; cbn; rewrite Hyx].
  - intros k. unfold queue_of, session_resumed. pose proof (resume_queue ev (w_client x) (server_of w)) as Hq.
    destruct (Ws.resume ev (w_client x) (server_of w)) as [c sv]. cbn in *.
    destruct (decide (i = k)) as [->|Hne]; [rewrite lookup_insert_eq, Hx; cbn; by rewrite Hq|].
    by rewrite lookup_insert_ne.
Qed.

Lemma sim_open w j :
  sessions w !! j = None -> sim w ->
  sim {| queue := queue w; inflight := inflight w;
         backend := set_server (backend w) (Ws.open (server_of w)).2;
         gauge := Ws.sv_active (Ws.open (server_of w)).2;
         sessions := <[j := opened (Ws.open (server_of w)).1]> (sessions w);
         accepted := accepted w |}.
Proof.
  intros Hj [He Hd]. split; [intros i; by apply explained_open|].
  assert (forall i q, queue_of w i = Some q ->
            q ≠ fresh (dom (Broadcast.queues (st_broadcast (backend w))))) as Hfresh.
  { intros i q Hi ->. apply (explained_queue w i) in Hi; [|done]. by apply is_fresh in Hi. }
  intros i k q. unfold queue_of. cbn [sessions].
  destruct (decide (j = i)) as [<-|Hi], (decide (j = k)) as [<-|Hk]; [done| | |];
    rewrite ?lookup_insert_eq, ?lookup_insert_ne by done.
  - intros [= <-] Hq. by destruct (Hfresh k _ Hq).
  - intros Hq [= <-]. by destruct (Hfresh i _ Hq).
  - apply Hd.
Qed.

(** ** Every step *)

Lemma explained_write rs w x rest e r b i :
  ledger self rs w -> timestamped (d_message x) -> inflight w ≡ₚ x :: rest ->
  d_progress x = Delivered -> start_handler (d_message x) (backend w) = (Awaits e r, b) ->
  explained w i ->
  explained {| queue := queue w; inflight := rest ++ [written x e r]; backend := b;
               gauge := gauge w; sessions := sessions w; accepted := accepted w |} i.
Proof.
  intros Hl Hm Hp Hx Hs. apply explained_next. intros l Hi [Hv (Hw & Hr & Hd)].
  destruct (write_run rs w x rest e r b l Hl Hm Hp Hx Hs Hv Hi) as (l' & Hrun & Hv' & E1 & E2 & E3).
  exists l'. split; [done|]. split; [done|]. cbn [sessions]. unfold session_view.
  by rewrite E1, E2, E3.
Qed.

Lemma explained_resume rs w x rest e r d b lost i :
  ledger self rs w -> inflight w ≡ₚ x :: rest -> d_progress x = Wrote e r ->
  resume_handler e r (backend w) = (d, b) -> explained w i ->
  explained {| queue := settled x d lost (queue w); inflight := rest; backend := b;
               gauge := gauge w; sessions := after_broadcast r w; accepted := accepted w |} i.
Proof.
  intros Hl Hp Hx Hs. destruct (resume_spec _ _ _ _ _ Hs) as [Ht Hb].
  destruct (ledger_inflight self _ _ _ _ Hl Hp) as [_ Hok]. unfold handler_ok in Hok. rewrite Hx in Hok.
  destruct r as [[]|e']; destruct Hb as [-> Hb].
  - apply explained_next. intros l _ [Hv (Hw & Hr & Hd)].
    destruct (broadcast_run w x rest e b Acked lost (after_broadcast (Ok ()) w) l Hp Hx (proj1 Hok) Ht Hb Hv)
      as (l' & Hrun & Hv' & E1 & E2 & E3).
    exists l'. split; [done|]. split; [done|]. cbn [sessions after_broadcast]. unfold session_view.
    rewrite lookup_fmap, E1, E2, E3, Hw, Hr. destruct (sessions w !! i) as [y|]; [|done].
    split; [done|]. split; [done|]. intros x' [= <-]. cbn. by rewrite (Hd y eq_refl).
  - apply explained_requeued; [done| |done..]. unfold owes. rewrite Hx. by intros e0.
Qed.

Lemma explained_restart w b n i :
  tables b = tables (backend w) -> blank b n -> explained w i ->
  explained {| queue := queue w ++ unsettled (inflight w); inflight := []; backend := b;
               gauge := 0; sessions := ∅; accepted := accepted w |} i.
Proof.
  intros Ht [Hb _] (l & Hi & Hv & _)%explained_inv.
  pose proof (see_current _ _ Hv) as Hc. apply (explained_fresh _ (current_positions (tables b)) n);
    [rewrite Ht, <- Hc; apply Hi..|done|done|done|done].
Qed.

Variable so : text.
Hypothesis Hconfig : config_ok self.
Hypothesis Hnormalizer : json_normalizer self = Some so.

Lemma sim_step rs w w' :
  ledger self rs w -> Forall timestamped (accepted w) -> sim w -> step self w w' -> sim w'.
Proof using Hconfig Hnormalizer.
  intros Hl Hts Hsim Hst. rewrite Forall_forall in Hts.
  destruct Hst as [w env data addr p Hp|w m rest Hq _|w|w x rest d b lost Hp Hx Hs|w x rest e r b Hp Hx Hs
    |w x rest e r d b lost Hp Hx Hs|w b n Hb Hbl|w i Hi|w i x r s Hi Hn Hph Hs|w i x r send Hi Hr Hph
    |w i x send Hi|w i x e Hi]; try (by apply sim_resumed); try (by apply sim_open).
  - apply (sim_next w); [|done|done]. intros i. apply explained_broker; [done..| |done|done].
    intros m. unfold at_broker. cbn. set_solver.
  - apply (sim_next w); [|done|done]. intros i. apply explained_broker; [done..| | |done];
      unfold at_broker; cbn [queue inflight].
    + intros m'. rewrite Hq, unsettled_app, unsettled_cons. cbn. set_solver.
    + intros e. rewrite Exists_app, Exists_cons, Exists_nil. unfold owes at 2. cbn. naive_solver.
  - apply (sim_next w); [|done|done]. intros i. apply explained_broker; [done..| | |done];
      unfold at_broker; cbn [queue inflight].
    + intros m. set_solver.
    + intros e. by rewrite Exists_fmap.
  - pose proof (accepted_starts_to_write self so Hconfig Hnormalizer _ _ _ _ _ _ Hl Hp Hs) as ->.
    destruct (start_settles _ _ _ _ Hs) as (Ht & Hb & _).
    apply (sim_next w); [|done|done]. intros i. apply explained_requeued; [done| |done..].
    unfold owes. rewrite Hx. by intros e.
  - apply (sim_next w); [|done|done]. intros i. eapply explained_write; [done| |done..].
    by apply Hts, (ledger_inflight self _ _ _ _ Hl Hp).
  - apply (sim_next w); [|intros i|done]; [intros i; by eapply explained_resume|].
    unfold queue_of. cbn [sessions]. unfold after_broadcast. destruct r; [|done].
    rewrite lookup_fmap. by destruct (sessions w !! i).
  - split; [intros i; by eapply explained_restart, Hsim|]. intros i j q. unfold queue_of. cbn [sessions].
    by rewrite lookup_empty.
  - apply (sim_next w); [|intros k|done]; [intros k; by apply explained_read|].
    unfold queue_of. cbn [sessions]. destruct (decide (i = k)) as [<-|Hne]; [by rewrite lookup_insert_eq, Hi|].
    by rewrite lookup_insert_ne.
Qed.

Lemma step_accepted w w' : step self w w' -> accepted w ⊆ accepted w'.
Proof.
  destruct 1; cbn; try (match goal with |- context [session_resumed ?i ?x ?ev ?w] =>
    destruct (session_resumed_shared i x ev w) as (_ & _ & -> & _) end); set_solver.
Qed.

Lemma reachable_sim b n w :
  tables b = empty_database -> blank b n -> reachable self (init b) w ->
  Forall timestamped (accepted w) -> sim w.
Proof using Hconfig Hnormalizer.
  intros Hb Hbl. revert w.
  apply (reachable_ind self (fun w => Forall timestamped (accepted w) -> sim w)); [intros _|].
  - split; [|intros i j q; unfold queue_of; cbn; by rewrite lookup_empty].
    intros i. apply (explained_fresh _ ∅ n); cbn; [apply keyed_empty|apply epoch_empty|by rewrite Hb|apply Hbl|done|done].
  - intros w w' Hr IH Hst Hts.
    destruct (reachable_ledger self so Hconfig Hnormalizer b w Hb Hr) as [rs Hl].
    assert (Forall timestamped (accepted w)) as Hts'.
    { rewrite Forall_forall in *. intros m Hm. by apply Hts, (step_accepted w w'). }
    by eapply sim_step; [|..|apply IH|].
Qed.

(** ** The theorems *)

(** C5. Every session is a live pipeline, whatever the handlers, the other sessions, the
    broker and restarts do, as long as every accepted event has an integer timestamp that
    is not negative ([ws.py] compares with a default of 0): in each reachable state of the
    system, what session [i], its client and the tables look like is a reachable state of
    [Live].  In it every commit that a running handler has still to broadcast is pending,
    and whatever is pending is the envelope of such a commit or of a message that is still
    at the broker, which will be delivered and broadcast again. *)
Theorem sessions_refine_live b n w i :
  tables b = empty_database -> blank b n -> reachable self (init b) w ->
  Forall timestamped (accepted w) ->
  exists db k l, Live.keyed db /\ Live.epoch db /\ Live.reachable (Live.init db k) l /\ views w i l.
Proof using Hconfig Hnormalizer.
  intros Hb Hbl Hr Hts. apply (sim_explained _ (reachable_sim b n w Hb Hbl Hr Hts)).
Qed.

(** The event [(t, z)] is accepted, and no newer one of its tag is. *)
Definition newest (w : world) (t : text) (z : Z) : Prop :=
  Exists (fun m => System.says self m t z) (accepted w) /\
  Forall (fun m => forall z', System.says self m t z' -> (z' <= z)%Z) (accepted w).

(** The row of a message that says something has its key. *)
Lemma row_says m r : timestamped m -> System.row_for m r -> System.says self m (r_tag r) (r_ts r).
Proof.
  intros (t & z & Hz & _) Hr. by destruct (row_for_says self m r t z Hr Hz) as [-> ->].
Qed.

(** A row of the current table is an accepted event's. *)
Lemma current_accepted rs w t r :
  ledger self rs w -> Forall timestamped (accepted w) ->
  current_positions (tables (backend w)) !! t = Some r ->
  Exists (fun m => System.says self m t (r_ts r)) (accepted w).
Proof.
  intros Hl Hts Hr. rewrite (lg_tables _ _ _ Hl), ingest_current in Hr.
  cbn [current_positions empty_database] in Hr. pose proof (upserts_latest rs t) as Hlat.
  rewrite Hr in Hlat. destruct (latest_elem _ _ _ Hlat) as [Hin <-].
  pose proof (lg_rows _ _ _ Hl) as Hrows. rewrite Forall_forall in Hrows. rewrite Forall_forall in Hts.
  specialize (Hrows r Hin). apply Exists_exists in Hrows as (m & Hm & Hrow). apply Exists_exists.
  exists m. split; [done|]. by apply row_says; [apply Hts|].
Qed.

(** With nothing at the broker the current table holds the newest events. *)
Lemma settled_current rs w t z m :
  ledger self rs w -> Forall timestamped (accepted w) -> at_broker w = [] ->
  m ∈ accepted w -> System.says self m t z ->
  exists r, current_positions (tables (backend w)) !! t = Some r /\ newest w t (r_ts r).
Proof.
  intros Hl Hts Hb Hm Hz.
  assert (forall m' z', m' ∈ accepted w -> System.says self m' t z' ->
    exists r, current_positions (tables (backend w)) !! t = Some r /\ (z' <= r_ts r)%Z) as Hall.
  { intros m' z' Hm' Hz'. pose proof (lg_messages _ _ _ Hl) as Hmsg. rewrite Forall_forall in Hmsg.
    destruct (Hmsg m' Hm') as [Hin|Hrow]; [rewrite Hb in Hin; by apply elem_of_nil in Hin|].
    destruct (has_row_current rs w m' t z' Hl Hrow Hz') as (r & Hr & Hle & _). by exists r. }
  destruct (Hall m z Hm Hz) as (r & Hr & _). exists r. split; [done|].
  split; [by eapply current_accepted|]. apply Forall_forall. intros m' Hm' z' Hz'.
  destruct (Hall m' z' Hm' Hz') as (r' & Hr' & Hle). by simplify_eq.
Qed.

(** C6. No client is told of an event that did not happen: as long as every accepted
    event has an integer timestamp that is not negative, at every moment each tag and
    timestamp that a session has sent is at most the timestamp of the tag's row in the
    table, and that row is of an accepted event. *)
Theorem told_is_accepted b n w i x t z :
  tables b = empty_database -> blank b n -> reachable self (init b) w ->
  Forall timestamped (accepted w) -> sessions w !! i = Some x -> Live.told (w_client x) t z ->
  exists r, current_positions (tables (backend w)) !! t = Some r /\ (z <= r_ts r)%Z /\
    Exists (fun m => System.says self m t (r_ts r)) (accepted w).
Proof using Hconfig Hnormalizer.
  intros Hb Hbl Hr Hts Hx Ht.
  destruct (reachable_ledger self so Hconfig Hnormalizer b w Hb Hr) as [rs Hl].
  destruct (explained_inv w i (sim_explained _ (reachable_sim b n w Hb Hbl Hr Hts) i))
    as (l & Hi & Hv & Hw & _). rewrite Hx in Hw.
  destruct (inv_told l Hi _ Hw t z Ht) as (r & Hcur & Hle). rewrite (see_current _ _ Hv) in Hcur.
  exists r. split; [done|]. split; [done|]. by eapply current_accepted.
Qed.

(** C1. From the datagram to the client: provided that every accepted event has an integer
    timestamp that is not negative ([_is_stale] compares the first event of a tag with 0,
    so that one with a negative timestamp would not be sent), once the broker's queue is
    empty and no handler runs, a session that streams, whose queue is empty and was never
    full at a broadcast, has told its client the newest accepted event of every tag, and of
    no tag anything newer, whatever the order of deliveries, commits and broadcasts, lost
    acknowledgements, reconnections and restarts before. *)
Theorem end_to_end b n w i x ts m t z :
  tables b = empty_database -> blank b n -> reachable self (init b) w ->
  Forall timestamped (accepted w) -> queue w = [] -> inflight w = [] ->
  sessions w !! i = Some x -> Ws.c_phase (w_client x) = Ws.Streaming ts ->
  items (Ws.c_queue (w_client x)) (st_broadcast (backend w)) = [] -> w_dropped x = false ->
  m ∈ accepted w -> System.says self m t z ->
  exists z', newest w t z' /\ Live.told (w_client x) t z' /\
    forall z'', Live.told (w_client x) t z'' -> (z'' <= z')%Z.
Proof using Hconfig Hnormalizer.
  intros Hb Hbl Hr Hts Hq Hinf Hx Hph Hit Hdr Hm Hz.
  destruct (reachable_ledger self so Hconfig Hnormalizer b w Hb Hr) as [rs Hl].
  assert (at_broker w = []) as Hab by (unfold at_broker; by rewrite Hq, Hinf).
  destruct (settled_current rs w t z m Hl Hts Hab Hm Hz) as (r & Hcur & Hnew).
  destruct (sim_explained _ (reachable_sim b n w Hb Hbl Hr Hts) i)
    as (db & k & l & Hk & He & Hlr & Hv & Hw & _ & Hd). rewrite Hx in Hw.
  exists (r_ts r). split; [done|].
  apply (no_update_missed db k l (w_client x) ts t r Hk He Hlr Hw Hph).
  - unfold Live.queued. by rewrite (see_broadcast _ _ Hv).
  - destruct (Live.pending l) as [|e p] eqn:Ep; [done|]. destruct (see_pending _ _ Hv e) as [Ha|Ha].
    + rewrite Ep. set_solver.
    + rewrite Hab in Ha. by apply Exists_nil in Ha.
    + rewrite Hinf in Ha. by apply Exists_nil in Ha.
  - by rewrite (Hd x Hx).
  - by rewrite (see_current _ _ Hv).
Qed.

End Simulation.
(** ** A concrete run: a session opens, reads and sends its snapshot; a datagram is
    published, delivered, written and broadcast; the session sends the update. *)

#[local] Existing Instance ascii_unicode.

Definition published_as (data : bytes) : publication :=
  match prepared data with
  | Ok p => p
  | Raise _ => {| pub_topic := ""; pub_message := []; pub_headers := ∅ |}
  end.

Definition run_message : message := System.message_of (published_as display_datagram).

Notation mem_state := (state (H1 := mem_columns) (H2 := mem_driver)).

Definition run_backend : mem_state :=
  {| st_session := (empty_database, empty_database); st_broadcast := Broadcast.init 256;
     st_metrics := no_metrics |}.

Notation mem_world := (world (H1 := mem_columns) (H2 := mem_driver)).

(** The same world with other messages, handlers and backend, and session 0. *)
Definition run_next (q : list message) (fl : list delivery) (b : mem_state) (x : session_state)
    (acc : list message) : mem_world :=
  {| queue := q; inflight := fl; backend := b; gauge := 1; sessions := <[0 := x]> ∅; accepted := acc |}.

Definition run_open : Ws.client * Ws.server := Ws.open (server_of (init run_backend)).
Definition run_1 : mem_world := run_next [] [] (set_server run_backend run_open.2) (opened run_open.1) [].

Definition run_snapshot := Ws.snapshot (st_session run_backend).
Definition run_2 : mem_world :=
  run_next [] [] {| st_session := run_snapshot.2; st_broadcast := st_broadcast (backend run_1);
                    st_metrics := no_metrics |} (with_snapshot (Ok []) (opened run_open.1)) [].

Definition run_sent : Ws.client * Ws.server :=
  Ws.resume (Ws.SnapshotReady (Ok []) (Ok ())) run_open.1 (server_of run_2).
Definition run_session : session_state := with_client run_sent.1 (with_snapshot (Ok []) (opened run_open.1)).
Definition run_ready : mem_state := set_server (backend run_2) run_sent.2.
Definition run_3 : mem_world := run_next [] [] run_ready run_session [].
Definition run_4 : mem_world := run_next [run_message] [] run_ready run_session [run_message].
Definition run_5 : mem_world :=
  run_next [] [fresh_delivery run_message] run_ready run_session [run_message].

Definition run_start : part_end * mem_state :=
  start_handler (H := ascii_unicode) (H0 := plain_propagator) run_message run_ready.
Definition run_envelope : pydict :=
  match run_start.1 with
  | Awaits e _ => e
  | Settles _ => []
  end.
Definition run_6 : mem_world :=
  run_next [] [written (fresh_delivery run_message) run_envelope (Ok ())] run_start.2 run_session [run_message].

Definition run_resume : disposition * mem_state :=
  resume_handler (H3 := aio_pika_process) run_envelope (Ok ()) run_start.2.
Definition run_noted : session_state := note_drops (st_broadcast run_start.2) run_session.
Definition run_7 : mem_world := run_next [] [] run_resume.2 run_noted [run_message].

Definition run_8 : mem_world := session_resumed 0 run_noted (Ws.QueueReady (Ok ())) run_7.

Lemma run_prepared : prepared display_datagram = Ok (published_as display_datagram).
Proof. unfold published_as. destruct (prepared display_datagram) eqn:E; [done|]. vm_compute in E. done. Qed.

(** A pair by its first component *)
Lemma pair_eq {A B} (p : A * B) a : p.1 = a -> p = (a, p.2).
Proof. destruct p. by intros <-. Qed.

Lemma run_snapshot_ok : run_snapshot = (Ok [], run_snapshot.2).
Proof. apply pair_eq. vm_compute. reflexivity. Qed.

Lemma run_start_ok : run_start = (Awaits run_envelope (Ok ()), run_start.2).
Proof. apply pair_eq. vm_compute. reflexivity. Qed.

Lemma run_resume_ok : run_resume = (Acked, run_resume.2).
Proof. apply pair_eq. vm_compute. reflexivity. Qed.

Notation run_steps := (step (H := ascii_unicode) (H0 := plain_propagator)
  (H3 := aio_pika_process) (sample_server "1.0")).

Notation run_reaches := (reachable (H := ascii_unicode) (H0 := plain_propagator)
  (H3 := aio_pika_process) (sample_server "1.0") (init run_backend)).

Lemma run_reaches_5 : run_reaches run_5.
Proof.
  assert (run_steps (init run_backend) run_1) as R1
    by (refine (step_open _ (init run_backend) 0 _); reflexivity).
  assert (run_steps run_1 run_2) as R2
    by (apply (step_read _ run_1 0 (opened run_open.1) (Ok []) run_snapshot.2);
        [reflexivity..|exact run_snapshot_ok]).
  assert (run_steps run_2 run_3) as R3
    by (apply (step_snapshot _ run_2 0 (with_snapshot (Ok []) (opened run_open.1)) (Ok []) (Ok ()));
        reflexivity).
  assert (run_steps run_3 run_4) as R4 by exact (step_publish _ run_3 _ _ _ _ run_prepared).
  assert (run_steps run_4 run_5) as R5
    by (apply (step_deliver _ run_4 run_message []); [reflexivity|vm_compute; lia]).
  exact (rtc_l _ _ _ _ R1 (rtc_l _ _ _ _ R2 (rtc_l _ _ _ _ R3 (rtc_l _ _ _ _ R4 (rtc_once _ _ R5))))).
Qed.

Lemma run_reachable : run_reaches run_8.
Proof.
  assert (run_steps run_5 run_6) as R6
    by (apply (step_write _ run_5 (fresh_delivery run_message) []); [reflexivity..|exact run_start_ok]).
  assert (run_steps run_6 run_7) as R7
    by (apply (step_resume _ run_6 (written (fresh_delivery run_message) run_envelope (Ok ())) [] run_envelope
                 (Ok ()) Acked run_resume.2 false); [reflexivity..|exact run_resume_ok]).
  assert (run_steps run_7 run_8) as R8 by (apply (step_receive _ run_7 0 run_noted (Ok ())); reflexivity).
  refine (transitivity run_reaches_5 _). exact ((rtc_l _ _ _ _ R6 (rtc_l _ _ _ _ R7 (rtc_once _ _ R8)))).
Qed.

Lemma run_says : System.says (sample_server "1.0") run_message "7" 1700000000000.
Proof. exact (LiveRefinement.sample_says _ run_prepared). Qed.

Lemma run_timestamped : Forall (timestamped (sample_server "1.0")) (accepted run_8).
Proof.
  change (accepted run_8) with [run_message]. repeat constructor. exists "7", 1700000000000%Z.
  split; [exact run_says|lia].
Qed.

Definition run_client : session_state := default run_noted (sessions run_8 !! 0).

Lemma run_client_at : sessions run_8 !! 0 = Some run_client.
Proof. vm_compute. reflexivity. Qed.

Definition run_map : gmap text pyval :=
  match Ws.c_phase (w_client run_client) with
  | Ws.Streaming m => m
  | _ => ∅
  end.

Lemma run_streams :
  Ws.c_phase (w_client run_client) = Ws.Streaming run_map /\
  items (Ws.c_queue (w_client run_client)) (st_broadcast (backend run_8)) = [] /\
  w_dropped run_client = false /\ queue run_8 = [] /\ inflight run_8 = [].
Proof. repeat split; vm_compute; reflexivity. Qed.

Lemma run_accepted : run_message ∈ accepted run_8.
Proof. change (accepted run_8) with [run_message]. apply elem_of_cons. left. reflexivity. Qed.

Lemma run_empty : tables run_backend = empty_database.
Proof. reflexivity. Qed.

Lemma run_blank : blank run_backend 256.
Proof. split; reflexivity. Qed.

Lemma end_to_end_witness :
  exists z', newest (sample_server "1.0") run_8 "7" z' /\ Live.told (w_client run_client) "7" z' /\
    forall z'', Live.told (w_client run_client) "7" z'' -> (z'' <= z')%Z.
Proof.
  destruct run_streams as (Hph & Hit & Hdr & Hq & Hinf).
  apply (end_to_end (H := ascii_unicode) (H0 := plain_propagator) (H3 := aio_pika_process)
           (sample_server "1.0") "stream" (sample_config_ok _) eq_refl run_backend 256 run_8 0 run_client
           run_map run_message "7" 1700000000000 run_empty run_blank run_reachable run_timestamped
           Hq Hinf run_client_at Hph Hit Hdr run_accepted run_says).
Defined.

Definition tells (x : session_state) (t : text) (z : Z) : bool :=
  existsb (fun f => match f with
                    | Ws.UpdateFrame e => bool_decide (Live.envelope_key e = Some (t, z))
                    | Ws.SnapshotFrame _ => false
                    end) (Ws.c_sent (w_client x)).

Lemma tells_told x t z : tells x t z = true -> Live.told (w_client x) t z.
Proof.
  unfold tells, Live.told. rewrite existsb_exists, Exists_exists. intros ([rows|e] & Hin & He); [done|].
  exists (Ws.UpdateFrame e). split; [by apply list_elem_of_In|]. by apply bool_decide_eq_true_1 in He.
Qed.

Lemma told_is_accepted_witness :
  exists r, current_positions (tables (backend run_8)) !! txt "7" = Some r /\
    (1700000000000 <= r_ts r)%Z /\
    Exists (fun m => System.says (sample_server "1.0") m "7" (r_ts r)) (accepted run_8).
Proof.
  apply (told_is_accepted (H := ascii_unicode) (H0 := plain_propagator) (H3 := aio_pika_process)
           (sample_server "1.0") "stream" (sample_config_ok _) eq_refl run_backend 256 run_8 0 run_client
           "7" 1700000000000 run_empty run_blank run_reachable run_timestamped run_client_at).
  apply tells_told. vm_compute. reflexivity.
Defined.

Lemma sessions_refine_live_witness :
  exists db k l, Live.reachable (Live.init db k) l /\ views run_8 0 l.
Proof.
  destruct (sessions_refine_live (H := ascii_unicode) (H0 := plain_propagator) (H3 := aio_pika_process)
              (sample_server "1.0") "stream" (sample_config_ok _) eq_refl run_backend 256 run_8 0 eq_refl
              run_blank run_reachable run_timestamped) as (db & k & l & _ & _ & Hr & Hv).
  exists db, k, l. split; [exact Hr|exact Hv].
Defined.

Lemma sessions_accounted_witness :
  gauge run_8 = 1%Z /\
  Ws.c_queue (w_client run_client) ∈ Broadcast.subscribers (st_broadcast (backend run_8)).
Proof.
  destruct (sessions_accounted (H := ascii_unicode) (H0 := plain_propagator) (H3 := aio_pika_process)
              (sample_server "1.0") run_backend 256 run_8 run_blank run_reachable) as (Hs & _ & _ & _).
  split; [vm_compute; reflexivity|]. apply Hs. exists 0, run_client. split; [exact run_client_at|].
  split; [vm_compute; reflexivity|reflexivity].
Defined.

Lemma prefetch_respected_witness :
  length (unsettled (inflight run_5)) = 1 /\ length (unsettled (inflight run_5)) <= prefetch_count.
Proof.
  split; [reflexivity|].
  exact (prefetch_respected (H := ascii_unicode) (H0 := plain_propagator) (H3 := aio_pika_process)
           (sample_server "1.0") run_backend run_5 run_reaches_5).
Defined.

Lemma nothing_lost_in_parts_witness :
  exists rs, tables (backend run_8) = ingest rs empty_database /\
    Exists (System.row_for run_message) rs.
Proof.
  destruct run_streams as (_ & _ & _ & Hq & Hinf).
  destruct (nothing_lost_in_parts (H := ascii_unicode) (H0 := plain_propagator) (H3 := aio_pika_process)
              (sample_server "1.0") "stream" (sample_config_ok _) eq_refl run_backend run_8
              run_empty run_reachable) as (rs & Ht & _ & Hm).
  exists rs. split; [exact Ht|]. rewrite Hq, Hinf in Hm. rewrite Forall_forall in Hm.
  destruct (Hm run_message run_accepted) as [Hin|[Hin|Hrow]];
    [destruct (not_elem_of_nil _ Hin)|destruct (not_elem_of_nil _ Hin)|exact Hrow].
Defined.

End WorldLive.
