(* ===== verification/Writers.v ===== *)
(** * Concurrent writers: [_write_to_db] in the threads of an executor

    [Repository] runs a block on one session with nothing in between.  In the program
    every handler writes in a thread of the executor, and the standalone consumer is
    another process: between two calls of one transaction, the calls of others reach the
    same tables.  Here the code is a program over its calls to the driver; threads take
    their calls in any order, and [ReadCommitted] is what PostgreSQL documents of
    transactions at psycopg's isolation level. *)

From S2P Require Export Consumer.

Module Writers.

(** ** Programs over the driver's calls *)

Inductive call :=
  | Acquire                                  (* [pool.connection().__enter__] *)
  | Execute (q : text) (params : pydict)
  | Commit
  | ExitOk                                   (* leaving the connection's block *)
  | ExitRaise.                               (* leaving it with an exception *)

(** What is left to do: nothing, or a call and what follows for each of its outcomes. *)
Inductive prog (A : Type) :=
  | Ends (r : res A)
  | Does (c : call) (k : res () -> prog A).
Arguments Ends {A} r.
Arguments Does {A} c k.

#[export] Instance prog_ret : MRet prog := fun A a => Ends (Ok a).
#[export] Instance prog_bind : MBind prog := fun A B f =>
  fix bind m :=
    match m with
    | Ends (Ok a) => f a
    | Ends (Raise e) => Ends (Raise e)
    | Does c k => Does c (fun r => bind (k r))
    end.

Definition does (c : call) : prog () := Does c Ends.

(** ** [positions.py], [db.py] and [_write_to_db] *)

Section Programs.
Context `{Interpreter}.

Definition insert_position_event (envelope : pydict) : prog () :=
  params ← Ends (Repository.extract_params envelope);
  q ← Ends (Repository.load_sql "insert_position_event");
  does (Execute q params).

Definition upsert_current_position (envelope : pydict) : prog () :=
  params ← Ends (Repository.extract_params envelope);
  q ← Ends (Repository.load_sql "upsert_current_position");
  does (Execute q params).

Definition persist_envelope (envelope : pydict) : prog () :=
  _ ← insert_position_event envelope;
  _ ← upsert_current_position envelope;
  _ ← does Commit;
  _ ← Ends (Repository.get_or (dget_or "payload" (VDict []) envelope) "tag_id" VNone);
  mret ().

(** The block of a [with] statement over the connection *)
Fixpoint within_connection {A} (body : prog A) : prog A :=
  match body with
  | Ends (Ok a) => _ ← does ExitOk; mret a
  | Ends (Raise e) => Does ExitRaise (fun _ => Ends (Raise e))
  | Does c k => Does c (fun r => within_connection (k r))
  end.

Definition with_connection {A} (body : prog A) : prog A :=
  _ ← does Acquire; within_connection body.

Definition write_to_db (envelope : pydict) : prog () := with_connection (persist_envelope envelope).
End Programs.

(** ** A program on a session of its own *)

Section Alone.
Context `{Driver} `{Interpreter}.

Definition perform (c : call) : io session () :=
  match c with
  | Acquire => acquire
  | Execute q params => _ ← execute q params; mret ()
  | Commit => commit
  | ExitOk => exit_ok
  | ExitRaise => fun s => (Ok (), exit_raise s)
  end.

Fixpoint alone {A} (p : prog A) : io session A := fun s =>
  match p with
  | Ends r => (r, s)
  | Does c k => let '(r, s') := perform c s in alone (k r) s'
  end.
End Alone.

(** ** Transactions at READ COMMITTED *)

(** What an open transaction has done that no other session sees, and the row of
    [current_positions] that it has locked. *)
Record transaction := {
  tx_inserted : list row;         (* into [position_events] *)
  tx_lock : option text;          (* the [tag_id] of the locked row *)
  tx_row : option row;            (* what replaces it, if the upsert's guard held *)
}.

Definition idle : transaction := {| tx_inserted := []; tx_lock := None; tx_row := None |}.

Definition with_event (r : row) (t : transaction) : transaction :=
  {| tx_inserted := tx_inserted t ++ [r]; tx_lock := tx_lock t; tx_row := tx_row t |}.

(** The guard of the upsert *)
Definition replaces (r : row) (m : gmap text row) : bool :=
  match m !! r_tag r with Some old => (r_ts old <=? r_ts r)%Z | None => true end.

(** [ON CONFLICT (tag_id) DO UPDATE ... WHERE]: the row is locked whether or not the guard
    holds, and the guard is tested on the row as it is committed when the lock is taken. *)
Definition with_upsert (r : row) (db : database) (t : transaction) : transaction :=
  {| tx_inserted := tx_inserted t; tx_lock := Some (r_tag r);
     tx_row := if replaces r (current_positions db) then Some r else None |}.

Definition current_after (o : option row) (m : gmap text row) : gmap text row :=
  match o with Some r => <[r_tag r := r]> m | None => m end.

(** The tables once a transaction is committed *)
Definition committed_onto (t : transaction) (db : database) : database :=
  {| position_events := position_events db ++ tx_inserted t;
     current_positions := current_after (tx_row t) (current_positions db) |}.

(** The same tables but for the order of the events: the [id] of an event is drawn when it
    is inserted, which need not be the order of the commits. *)
#[export] Instance database_equiv : Equiv database := fun db db' =>
  position_events db ≡ₚ position_events db' /\ current_positions db = current_positions db'.

(** The shared tables, with sessions numbered.  A call that no outcome is related to has
    to wait. *)
Class ReadCommitted `{Columns} := {
  store : Type;
  tables : store -> database;                       (* what is committed *)
  transaction_of : nat -> store -> transaction;
  execute_in : nat -> text -> pydict -> store -> res () -> store -> Prop;
  commit_in : nat -> store -> res () -> store -> Prop;
  rollback_in : nat -> store -> store;

  (* a statement is seen by its own session only *)
  execute_isolated i q p s r s' : execute_in i q p s r s' ->
    tables s' = tables s /\ forall j, j ≠ i -> transaction_of j s' = transaction_of j s;
  execute_insert i p s s' : execute_in i insert_position_event_sql p s (Ok ()) s' ->
    exists row, row_of p = Ok row /\ transaction_of i s' = with_event row (transaction_of i s);
  (* the first upsert of a transaction: no other session holds the row's lock *)
  execute_upsert i p s s' : execute_in i upsert_current_position_sql p s (Ok ()) s' ->
    tx_lock (transaction_of i s) = None ->
    exists row, row_of p = Ok row /\
      (forall j, j ≠ i -> tx_lock (transaction_of j s) ≠ Some (r_tag row)) /\
      transaction_of i s' = with_upsert row (tables s) (transaction_of i s);
  (* nothing waits but an upsert, for a lock that another session holds *)
  execute_answers i q p s :
    (q = upsert_current_position_sql -> forall j row, j ≠ i -> row_of p = Ok row ->
       tx_lock (transaction_of j s) ≠ Some (r_tag row)) ->
    exists r s', execute_in i q p s r s';
  commit_isolated i s r s' : commit_in i s r s' ->
    forall j, j ≠ i -> transaction_of j s' = transaction_of j s;
  commit_done i s s' : commit_in i s (Ok ()) s' ->
    tables s' ≡ committed_onto (transaction_of i s) (tables s) /\ transaction_of i s' = idle;
  (* a commit whose answer is lost may have taken place *)
  commit_unknown i s e s' : commit_in i s (Raise e) s' ->
    (tables s' = tables s \/ tables s' ≡ committed_onto (transaction_of i s) (tables s)) /\
    (transaction_of i s' = transaction_of i s \/ transaction_of i s' = idle);
  commit_answers i s : exists r s', commit_in i s r s';
  rollback_undoes i s :
    tables (rollback_in i s) = tables s /\ transaction_of i (rollback_in i s) = idle /\
    forall j, j ≠ i -> transaction_of j (rollback_in i s) = transaction_of j s;
}.

(** ** Threads *)

Section Threads.
Context `{ReadCommitted} `{Interpreter}.

Record thread := { th_envelope : pydict; th_prog : prog () }.

Record world := { shared : store; threads : gmap nat thread }.

Definition init (s : store) : world := {| shared := s; threads := ∅ |}.

(** The call of session [i] on the shared tables; taking a connection may fail at any
    time, and leaving the block normally commits what is left. *)
Inductive call_step (i : nat) : call -> store -> res () -> store -> Prop :=
  | acquire_step s r : call_step i Acquire s r s
  | execute_step q p s r s' : execute_in i q p s r s' -> call_step i (Execute q p) s r s'
  | commit_step s r s' : commit_in i s r s' -> call_step i Commit s r s'
  | exit_ok_step s r s' : commit_in i s r s' -> call_step i ExitOk s r s'
  | exit_raise_step s : call_step i ExitRaise s (Ok ()) (rollback_in i s).

(** One thread's next call *)
Inductive runs_call : relation world :=
  | runs_call_intro w i th c k r s :
      threads w !! i = Some th -> th_prog th = Does c k -> call_step i c (shared w) r s ->
      runs_call w
        {| shared := s;
           threads := <[i := {| th_envelope := th_envelope th; th_prog := k r |}]> (threads w) |}.

(** [run_in_executor] submits a write, or a thread takes its next call. *)
Inductive step : relation world :=
  | step_submit w i envelope :
      threads w !! i = None ->
      step w
        {| shared := shared w;
           threads := <[i := {| th_envelope := envelope; th_prog := write_to_db envelope |}]>
                        (threads w) |}
  | step_call w w' : runs_call w w' -> step w w'.

Definition reachable : relation world := rtc step.

Definition ended (th : thread) : bool := match th_prog th with Ends _ => true | _ => false end.
End Threads.
End Writers.
