(* ===== verification/WritersFacts.v ===== *)
(** * Concurrent writers are serial

    A thread alone is the repository's block; threads together leave the tables of the
    same writes made one after another in the order of their commits, which no query can
    tell apart; and every thread ends. *)

From S2P Require Export Writers MemDriver HistoryFacts ConsumerFacts.
Import Writers.

Module WritersFacts.

(** ** A thread with nothing in between *)

Section Alone.
Context `{Driver} `{Interpreter}.

Lemma alone_bind {A B} (p : prog A) (f : A -> prog B) s :
  alone (p ≫= f) s = (alone p ≫= fun a => alone (f a)) s.
Proof.
  revert s. induction p as [[a|e]|c k IH]; intros s; [done..|].
  change (alone (Does c k ≫= f) s) with (let '(r, s') := perform c s in alone (k r ≫= f) s').
  unfold mbind, io_bind. cbn [alone]. destruct (perform c s) as [r s'].
  rewrite (IH r). done.
Qed.

Lemma alone_does c s : alone (does c) s = perform c s.
Proof. unfold does. cbn. by destruct (perform c s). Qed.

(** The next step of two programs that begin alike *)
Lemma io_bind_ext {S A B} (m m' : io S A) (f f' : A -> io S B) s :
  m s = m' s -> (forall a s', f a s' = f' a s') -> (m ≫= f) s = (m' ≫= f') s.
Proof.
  intros Hm Hf. unfold mbind, io_bind. rewrite Hm. destruct (m' s) as [[a|e] s']; [apply Hf|done].
Qed.

Lemma alone_execute q p s :
  alone (does (Execute q p)) s = (_ ← execute q p; mret ()) s.
Proof. apply alone_does. Qed.

Lemma alone_insert envelope s :
  alone (insert_position_event envelope) s = Repository.insert_position_event envelope s.
Proof.
  unfold insert_position_event, Repository.insert_position_event. rewrite alone_bind.
  apply io_bind_ext; [done|]. intros params s1. rewrite alone_bind.
  apply io_bind_ext; [done|]. intros q s2. apply alone_execute.
Qed.

Lemma alone_upsert envelope s :
  alone (upsert_current_position envelope) s = Repository.upsert_current_position envelope s.
Proof.
  unfold upsert_current_position, Repository.upsert_current_position. rewrite alone_bind.
  apply io_bind_ext; [done|]. intros params s1. rewrite alone_bind.
  apply io_bind_ext; [done|]. intros q s2. apply alone_execute.
Qed.

Lemma alone_persist envelope s :
  alone (persist_envelope envelope) s = Repository.persist_envelope envelope s.
Proof.
  unfold persist_envelope, Repository.persist_envelope. rewrite alone_bind.
  apply io_bind_ext; [apply alone_insert|]. intros _ s1. rewrite alone_bind.
  apply io_bind_ext; [apply alone_upsert|]. intros _ s2. rewrite alone_bind.
  apply io_bind_ext; [apply alone_does|]. intros _ s3. rewrite alone_bind.
  by apply io_bind_ext.
Qed.

(** The block of a [with] over the connection, with what follows its body. *)
Lemma alone_within {A} (body : prog A) s :
  alone (within_connection body) s =
  match alone body s with
  | (Ok a, s2) => match exit_ok s2 with (Ok _, s3) => (Ok a, s3) | (Raise e, s3) => (Raise e, s3) end
  | (Raise e, s2) => (Raise e, exit_raise s2)
  end.
Proof.
  revert s. induction body as [[a|e]|c k IH]; intros s; [|done|].
  - cbn. by destruct (exit_ok s) as [[u|e] s3].
  - cbn. destruct (perform c s) as [r s']. apply IH.
Qed.

(** The program of a writer is the repository's block: taken without interruption,
    its calls to the driver give the outcome and the session of [_write_to_db]. *)
Lemma writer_alone envelope s : alone (write_to_db envelope) s = Consumer.write_to_db envelope s.
Proof.
  unfold write_to_db, with_connection, Consumer.write_to_db, Repository.with_connection.
  rewrite alone_bind. unfold mbind, io_bind. rewrite alone_does. cbn [perform].
  destruct (acquire s) as [[u|e] s1]; [|done]. rewrite alone_within, alone_persist. done.
Qed.
End Alone.

(** ** The tables up to the order of the events *)

#[export] Instance database_equiv_equivalence : Equivalence (≡@{database}).
Proof.
  split.
  - by intros db.
  - intros db db' [Hp Hc]. by split.
  - intros a b c [Hp Hc] [Hp' Hc']. split; [by etrans|congruence].
Qed.

#[export] Instance insert_event_proper r : Proper ((≡) ==> (≡)) (insert_event r).
Proof. intros db db' [Hp Hc]. split; [|done]. cbn. by rewrite Hp. Qed.

#[export] Instance upsert_current_proper r : Proper ((≡) ==> (≡)) (upsert_current r).
Proof. intros db db' [Hp Hc]. split; [done|]. cbn. by rewrite Hc. Qed.

#[export] Instance apply_row_proper : Proper ((≡) ==> (=) ==> (≡)) apply_row.
Proof. intros db db' Hdb r ? <-. unfold apply_row. by rewrite Hdb. Qed.

#[export] Instance committed_onto_proper t : Proper ((≡) ==> (≡)) (committed_onto t).
Proof. intros db db' [Hp Hc]. split; cbn; by rewrite ?Hp, ?Hc. Qed.

Lemma filter_permutation {A} (f : A -> bool) (l l' : list A) :
  l ≡ₚ l' -> List.filter f l ≡ₚ List.filter f l'.
Proof.
  intros Hp. induction Hp as [|r l l' _ IH|r r' l|l1 l2 l3 _ IH1 _ IH2]; simpl;
    [done| |by repeat case_match; try constructor|by rewrite IH1].
  by destruct (f r); rewrite IH.
Qed.

Lemma history_matches_proper tag from_ts to_ts db db' :
  db ≡ db' -> history_matches tag from_ts to_ts db ≡ₚ history_matches tag from_ts to_ts db'.
Proof. intros [Hp _]. by apply filter_permutation. Qed.

(** Whatever a statement does and returns on some tables, it may do and return on
    equivalent ones. *)
Lemma runs_proper `{Columns} q p db1 db2 db1' rows :
  db1 ≡ db2 -> runs q p db1 db1' rows -> exists db2', db1' ≡ db2' /\ runs q p db2 db2' rows.
Proof.
  intros Heq Hr. destruct Hr.
  - eexists. split; [|by apply run_insert]. by rewrite Heq.
  - eexists. split; [|by apply run_upsert]. by rewrite Heq.
  - exists db2. split; [done|]. apply run_select_all; [|done]. by destruct Heq as [_ <-].
  - exists db2. split; [done|]. eapply run_history; try done.
    by rewrite <- (history_matches_proper _ _ _ _ _ Heq).
  - exists db2. split; [done|].
    assert (length (history_matches tag from_ts to_ts db) = length (history_matches tag from_ts to_ts db2))
      as -> by by apply Permutation_length, history_matches_proper.
    by apply run_count.
  - exists db2. split; [done|]. apply run_probe.
Qed.

(** ** Where a thread is *)

(** What is left of the program at each call, by what follows the call's outcomes. *)

Definition failing (p : prog ()) : Prop :=
  exists k, p = Does ExitRaise k /\ forall r, exists e, k r = Ends (Raise e).

Definition leaving (p : prog ()) : Prop :=
  failing p \/ exists k, p = Does ExitOk k /\ forall r, k r = Ends r.

(** A call whose failure leads to the rollback *)
Definition at_call (c : call) (after : prog () -> Prop) (p : prog ()) : Prop :=
  exists k, p = Does c k /\ after (k (Ok ())) /\ forall e, failing (k (Raise e)).

Definition committing : prog () -> Prop := at_call Commit leaving.
Definition upserting (params : pydict) : prog () -> Prop :=
  at_call (Execute upsert_current_position_sql params) committing.
Definition inserting (params : pydict) : prog () -> Prop :=
  at_call (Execute insert_position_event_sql params) (upserting params).

Definition connecting `{Interpreter} (envelope : pydict) (p : prog ()) : Prop :=
  exists k, p = Does Acquire k /\ (forall e, k (Raise e) = Ends (Raise e)) /\
    match Repository.extract_params envelope with
    | Ok params => inserting params (k (Ok ()))
    | Raise _ => failing (k (Ok ()))
    end.

Lemma within_raise e : failing (within_connection (Ends (Raise e))).
Proof. eexists. split; [reflexivity|]. intros r. by exists e. Qed.

Lemma write_to_db_connecting `{Interpreter} envelope : connecting envelope (write_to_db envelope).
Proof.
  unfold write_to_db, persist_envelope, insert_position_event, upsert_current_position.
  rewrite load_insert, load_upsert. unfold connecting.
  eexists. split; [reflexivity|]. split; [done|].
  destruct (Repository.extract_params envelope) as [params|e]; [|apply within_raise].
  eexists. split; [reflexivity|]. split; [|intros e; apply within_raise].
  eexists. split; [reflexivity|]. split; [|intros e; apply within_raise].
  eexists. split; [reflexivity|]. split; [|intros e; apply within_raise].
  cbn. destruct (Repository.get_or _ _ _) as [v|e]; [right|left; apply within_raise].
  eexists. split; [reflexivity|]. intros [[]|e]; done.
Qed.

(** ** What a thread's transaction holds *)

Definition envelope_row `{Columns} `{Interpreter} (envelope : pydict) : res row :=
  params ← Repository.extract_params envelope; row_of params.

Definition prepared (db : database) (r : row) : transaction :=
  with_upsert r db (with_event r idle).

Section Invariant.
Context `{ReadCommitted} `{Interpreter}.

(** The thread's program, its transaction, and whether its row is committed. *)
Inductive thread_inv (db : database) (envelope : pydict) :
    prog () -> transaction -> bool -> Prop :=
  | Connecting p : connecting envelope p -> thread_inv db envelope p idle false
  | Inserting p params :
      Repository.extract_params envelope = Ok params -> inserting params p ->
      thread_inv db envelope p idle false
  | Upserting p params r :
      Repository.extract_params envelope = Ok params -> row_of params = Ok r ->
      upserting params p -> thread_inv db envelope p (with_event r idle) false
  | Committing p r :
      envelope_row envelope = Ok r -> committing p -> thread_inv db envelope p (prepared db r) false
  | Leaving p : leaving p -> thread_inv db envelope p idle true
  | Failing p t b : failing p -> thread_inv db envelope p t b
  | Returned : thread_inv db envelope (Ends (Ok ())) idle true
  | Raised e b : thread_inv db envelope (Ends (Raise e)) idle b.

(** The upsert that a thread has prepared is what the upsert does to the committed
    tables. *)
Lemma upsert_replaces r m :
  upsert_row r m = current_after (if replaces r m then Some r else None) m.
Proof. unfold upsert_row, replaces. destruct (m !! r_tag r); [|done]. by destruct (_ <=? _)%Z. Qed.

Lemma prepared_commits db r : committed_onto (prepared db r) db = apply_row db r.
Proof. unfold committed_onto, apply_row, upsert_current. cbn. by rewrite upsert_replaces. Qed.

Lemma idle_commits db : committed_onto idle db ≡ db.
Proof. split; cbn; [by rewrite app_nil_r|done]. Qed.

(** It stays so while others commit other tags. *)
Lemma prepared_kept db db' r :
  current_positions db' !! r_tag r = current_positions db !! r_tag r -> prepared db' r = prepared db r.
Proof. intros Heq. unfold prepared, with_upsert, replaces. by rewrite Heq. Qed.

Definition at_commit (w : world) (i : nat) (t : text) : Prop :=
  exists th k, threads w !! i = Some th /\ th_prog th = Does Commit k /\
    tx_lock (transaction_of i (shared w)) = Some t.

(** [rs]: the rows that are committed, in this order, with their threads. *)
Record inv (db0 : database) (rs : list (nat * row)) (w : world) : Prop := {
  inv_once : NoDup rs.*1;
  inv_tables : tables (shared w) ≡ ingest rs.*2 db0;
  inv_rows i r : (i, r) ∈ rs -> exists th, threads w !! i = Some th /\
    envelope_row (th_envelope th) = Ok r;
  inv_threads i th : threads w !! i = Some th ->
    thread_inv (tables (shared w)) (th_envelope th) (th_prog th)
      (transaction_of i (shared w)) (bool_decide (i ∈ rs.*1));
  inv_outside i : threads w !! i = None -> transaction_of i (shared w) = idle;
  inv_locks i j t : at_commit w i t -> at_commit w j t -> i = j;
}.

(** ** One step *)

Lemma thread_inv_kept db db' envelope p t b :
  thread_inv db envelope p t b ->
  (forall r, committing p -> t = prepared db r ->
     current_positions db' !! r_tag r = current_positions db !! r_tag r) ->
  thread_inv db' envelope p t b.
Proof.
  intros Hi Hk. destruct Hi as [| | |p r Hr Hp| | | |]; try by econstructor.
  rewrite <- (prepared_kept db db' r) by by apply Hk. by apply Committing.
Qed.

Definition with_thread (w : world) (i : nat) (th : thread) (p : prog ()) (s : store) : world :=
  {| shared := s; threads := <[i := {| th_envelope := th_envelope th; th_prog := p |}]> (threads w) |}.

(** What every step of a thread has to show: its own part, and that what it commits is not
    locked by others. *)
Lemma inv_thread db0 rs rs' w i th p s :
  inv db0 rs w -> threads w !! i = Some th ->
  (forall j, j ≠ i -> transaction_of j s = transaction_of j (shared w)) ->
  tables s ≡ ingest (rs ++ rs').*2 db0 ->
  (rs' = [] \/ exists r, rs' = [(i, r)] /\ i ∉ rs.*1 /\ envelope_row (th_envelope th) = Ok r) ->
  thread_inv (tables s) (th_envelope th) p (transaction_of i s) (bool_decide (i ∈ (rs ++ rs').*1)) ->
  (forall j th' r, j ≠ i -> threads w !! j = Some th' -> committing (th_prog th') ->
     transaction_of j (shared w) = prepared (tables (shared w)) r ->
     current_positions (tables s) !! r_tag r = current_positions (tables (shared w)) !! r_tag r) ->
  (forall k t j, p = Does Commit k -> tx_lock (transaction_of i s) = Some t -> j ≠ i ->
     tx_lock (transaction_of j (shared w)) ≠ Some t) ->
  inv db0 (rs ++ rs') (with_thread w i th p s).
Proof.
  intros Hw Hi Hother Htables Hrs Hme Hkept Hlock.
  assert (forall j, j ≠ i -> j ∈ (rs ++ rs').*1 <-> j ∈ rs.*1) as Hsame.
  { intros j Hj. rewrite fmap_app, elem_of_app. destruct Hrs as [->|(r & -> & _)]; set_solver. }
  constructor; cbn [shared threads with_thread].
  - rewrite fmap_app. apply NoDup_app. split; [apply Hw|].
    destruct Hrs as [->|(r & -> & Hn & _)]; cbn.
    + split; [|constructor]. intros j _ Hj. by apply elem_of_nil in Hj.
    + split; [|apply NoDup_singleton]. set_solver.
  - done.
  - intros j r Hin. destruct (decide (j = i)) as [->|Hj].
    + rewrite lookup_insert_eq. eexists. split; [done|]. cbn.
      apply elem_of_app in Hin as [Hin|Hin].
      * destruct (inv_rows _ _ _ Hw _ _ Hin) as (th' & Hth & He). congruence.
      * destruct Hrs as [->|(r' & -> & _ & He)]; set_solver.
    + rewrite lookup_insert_ne by done. apply (inv_rows _ _ _ Hw).
      apply elem_of_app in Hin as [Hin|Hin]; [done|].
      destruct Hrs as [->|(r' & -> & _)]; set_solver.
  - intros j th'. destruct (decide (j = i)) as [->|Hj].
    { rewrite lookup_insert_eq. by intros [= <-]. }
    rewrite lookup_insert_ne by done. intros Hth. rewrite Hother by done.
    rewrite (bool_decide_ext _ _ (Hsame j Hj)).
    eapply thread_inv_kept; [by apply (inv_threads _ _ _ Hw)|].
    intros r Hc Ht. by eapply Hkept.
  - intros j. destruct (decide (j = i)) as [->|Hj]; [by rewrite lookup_insert_eq|].
    rewrite lookup_insert_ne, Hother by done. apply Hw.
  - assert (forall j t, j ≠ i -> at_commit (with_thread w i th p s) j t -> at_commit w j t) as Hback.
    { intros j t Hj (th' & k & Hth & Hp & Hl). cbn in *. rewrite lookup_insert_ne in Hth by done.
      rewrite Hother in Hl by done. by exists th', k. }
    assert (forall j t, j ≠ i -> at_commit (with_thread w i th p s) i t ->
              at_commit (with_thread w i th p s) j t -> False) as Hno.
    { intros j t Hj (th' & k & Hth & Hp & Hl) Hjc. cbn in *. rewrite lookup_insert_eq in Hth.
      injection Hth as <-. cbn in Hp. apply Hback in Hjc as (_ & _ & _ & _ & Hl'); [|done].
      by apply (Hlock k t j). }
    intros j j' t Hj Hj'. destruct (decide (j = i)) as [->|Hn], (decide (j' = i)) as [->|Hn'].
    + done.
    + destruct (Hno j' t Hn' Hj Hj').
    + destruct (Hno j t Hn Hj' Hj).
    + by eapply (inv_locks _ _ _ Hw); apply Hback.
Qed.

(** A step that leaves the tables as they are *)
Lemma inv_quiet db0 rs w i th p s :
  inv db0 rs w -> threads w !! i = Some th ->
  (forall j, j ≠ i -> transaction_of j s = transaction_of j (shared w)) ->
  tables s ≡ tables (shared w) ->
  thread_inv (tables s) (th_envelope th) p (transaction_of i s) (bool_decide (i ∈ rs.*1)) ->
  (forall k t j, p = Does Commit k -> tx_lock (transaction_of i s) = Some t -> j ≠ i ->
     tx_lock (transaction_of j (shared w)) ≠ Some t) ->
  exists rs', inv db0 (rs ++ rs') (with_thread w i th p s).
Proof.
  intros Hw Hi Hother Heq Hme Hlock. exists [].
  apply inv_thread; rewrite ?app_nil_r; try done.
  - rewrite Heq. apply Hw.
  - by left.
  - intros. by destruct Heq as [_ ->].
Qed.

(** A commit that takes place *)
Lemma inv_takes_place db0 rs w i th k r p s :
  inv db0 rs w -> threads w !! i = Some th -> th_prog th = Does Commit k ->
  envelope_row (th_envelope th) = Ok r ->
  transaction_of i (shared w) = prepared (tables (shared w)) r -> i ∉ rs.*1 ->
  (forall j, j ≠ i -> transaction_of j s = transaction_of j (shared w)) ->
  tables s ≡ committed_onto (transaction_of i (shared w)) (tables (shared w)) ->
  thread_inv (tables s) (th_envelope th) p (transaction_of i s) true ->
  (forall k, p ≠ Does Commit k) ->
  exists rs', inv db0 (rs ++ rs') (with_thread w i th p s).
Proof.
  intros Hw Hi Hp Hr Ht Hn Hother Htables Hme Hnc. exists [(i, r)].
  rewrite Ht, prepared_commits in Htables.
  apply inv_thread; try done.
  - rewrite Htables, fmap_app. unfold ingest. rewrite foldl_app. cbn.
    by rewrite (inv_tables _ _ _ Hw).
  - right. by exists r.
  - rewrite bool_decide_true; [done|]. rewrite fmap_app. set_solver.
  - intros j th' r' Hj Hth Hc Htj. destruct Htables as [_ ->]. cbn.
    apply upsert_row_ne. intros Htag. apply Hj. destruct Hc as (k' & Hk' & _).
    apply (inv_locks _ _ _ Hw j i (r_tag r')).
    + exists th', k'. by rewrite Htj.
    + exists th, k. rewrite Ht, <- Htag. done.
  - intros k' t j Hk'. by destruct (Hnc k').
Qed.

Lemma failing_not_commit p k : failing p -> p ≠ Does Commit k.
Proof. intros (k' & -> & _). done. Qed.

Lemma leaving_not_commit p k : leaving p -> p ≠ Does Commit k.
Proof. intros [Hf|(k' & -> & _)]; [by apply failing_not_commit|done]. Qed.

Lemma connecting_not_commit envelope p k : connecting envelope p -> p ≠ Does Commit k.
Proof. intros (k' & -> & _). done. Qed.

(** A step to a program that does not commit next *)
Lemma inv_quiet_other db0 rs w i th p s :
  inv db0 rs w -> threads w !! i = Some th ->
  (forall j, j ≠ i -> transaction_of j s = transaction_of j (shared w)) ->
  tables s ≡ tables (shared w) -> (forall k, p ≠ Does Commit k) ->
  thread_inv (tables s) (th_envelope th) p (transaction_of i s) (bool_decide (i ∈ rs.*1)) ->
  exists rs', inv db0 (rs ++ rs') (with_thread w i th p s).
Proof.
  intros Hw Hi Hother Heq Hnc Hme. apply inv_quiet; [done..|]. intros k t j Hp. by destruct (Hnc k).
Qed.

(** The rollback and what follows it *)
Lemma inv_rolls_back db0 rs w i th c k r s :
  inv db0 rs w -> threads w !! i = Some th -> th_prog th = Does c k -> failing (th_prog th) ->
  call_step i c (shared w) r s ->
  exists rs', inv db0 (rs ++ rs') (with_thread w i th (k r) s).
Proof.
  intros Hw Hi Hp (k' & Hf & He) Hc. rewrite Hp in Hf. injection Hf as -> ->.
  inversion Hc; subst. destruct (rollback_undoes i (shared w)) as (Ht & Hx & Ho).
  destruct (He (Ok ())) as [e ->].
  apply inv_quiet_other; [done..|by rewrite Ht|done|]. rewrite Hx. apply Raised.
Qed.

Lemma inv_connects db0 rs w i th k r :
  inv db0 rs w -> threads w !! i = Some th -> th_prog th = Does Acquire k ->
  connecting (th_envelope th) (Does Acquire k) -> transaction_of i (shared w) = idle ->
  bool_decide (i ∈ rs.*1) = false ->
  exists rs', inv db0 (rs ++ rs') (with_thread w i th (k r) (shared w)).
Proof.
  intros Hw Hi Hp (k' & [= <-] & He & Hk) Hx Hb.
  assert (forall k2, k r ≠ Does Commit k2) as Hnc.
  { intros k2 Hk2. destruct r as [[]|e]; [|by rewrite He in Hk2].
    destruct (Repository.extract_params _) as [params|e].
    - destruct Hk as (k3 & Hk3 & _). congruence.
    - by apply (failing_not_commit _ k2) in Hk. }
  apply inv_quiet_other; [done..|]. rewrite Hx, Hb. destruct r as [[]|e].
  - destruct (Repository.extract_params _) as [params|e] eqn:Ep; [by eapply Inserting|by apply Failing].
  - rewrite He. apply Raised.
Qed.

Lemma inv_inserts db0 rs w i th k params r s :
  inv db0 rs w -> threads w !! i = Some th -> th_prog th = Does (Execute insert_position_event_sql params) k ->
  Repository.extract_params (th_envelope th) = Ok params -> inserting params (th_prog th) ->
  transaction_of i (shared w) = idle -> bool_decide (i ∈ rs.*1) = false ->
  execute_in i insert_position_event_sql params (shared w) r s ->
  exists rs', inv db0 (rs ++ rs') (with_thread w i th (k r) s).
Proof.
  intros Hw Hi Hp Hx (k' & Hp' & Hk & Hf) Ht Hb He. rewrite Hp in Hp'. injection Hp' as ->.
  destruct (execute_isolated _ _ _ _ _ _ He) as [Htab Ho]. destruct r as [[]|e].
  - destruct (execute_insert _ _ _ _ He) as (row & Hrow & Hx').
    apply inv_quiet_other; [done..|by rewrite Htab| |].
    + destruct Hk as (k2 & -> & _). done.
    + rewrite Hx', Ht, Hb. by eapply Upserting.
  - apply inv_quiet_other; [done..|by rewrite Htab| |by apply Failing].
    intros k2. by apply failing_not_commit.
Qed.

Lemma inv_upserts db0 rs w i th k params row r s :
  inv db0 rs w -> threads w !! i = Some th -> th_prog th = Does (Execute upsert_current_position_sql params) k ->
  Repository.extract_params (th_envelope th) = Ok params -> row_of params = Ok row ->
  upserting params (th_prog th) ->
  transaction_of i (shared w) = with_event row idle -> bool_decide (i ∈ rs.*1) = false ->
  execute_in i upsert_current_position_sql params (shared w) r s ->
  exists rs', inv db0 (rs ++ rs') (with_thread w i th (k r) s).
Proof.
  intros Hw Hi Hp Hx Hrow (k' & Hp' & Hk & Hf) Ht Hb He. rewrite Hp in Hp'. injection Hp' as ->.
  destruct (execute_isolated _ _ _ _ _ _ He) as [Htab Ho]. destruct r as [[]|e].
  - destruct (execute_upsert _ _ _ _ He) as (row' & Hrow' & Hfree & Hx'); [by rewrite Ht|].
    rewrite Hrow in Hrow'. injection Hrow' as <-. rewrite Ht in Hx'.
    apply inv_quiet; [done..|by rewrite Htab| |].
    + rewrite Hx', Hb, Htab. apply (Committing _ _ _ row); [|done].
      unfold envelope_row. by rewrite Hx.
    + intros k2 t j _ Hl Hj. rewrite Hx' in Hl. injection Hl as <-. by apply Hfree.
  - apply inv_quiet_other; [done..|by rewrite Htab| |by apply Failing].
    intros k2. by apply failing_not_commit.
Qed.

Lemma inv_commits db0 rs w i th k row r s :
  inv db0 rs w -> threads w !! i = Some th -> th_prog th = Does Commit k ->
  envelope_row (th_envelope th) = Ok row -> committing (th_prog th) ->
  transaction_of i (shared w) = prepared (tables (shared w)) row ->
  bool_decide (i ∈ rs.*1) = false -> commit_in i (shared w) r s ->
  exists rs', inv db0 (rs ++ rs') (with_thread w i th (k r) s).
Proof.
  intros Hw Hi Hp Hrow (k' & Hp' & Hk & Hf) Ht Hb Hc. rewrite Hp in Hp'. injection Hp' as ->.
  pose proof (commit_isolated _ _ _ _ Hc) as Ho. apply bool_decide_eq_false in Hb as Hn.
  destruct r as [[]|e].
  - destruct (commit_done _ _ _ Hc) as [Htab Hx].
    apply (inv_takes_place db0 rs w i th k' row); try done.
    + rewrite Hx. by apply Leaving.
    + intros k2. by apply leaving_not_commit.
  - destruct (commit_unknown _ _ _ _ Hc) as [[Htab|Htab] _].
    + apply inv_quiet_other; [done..|by rewrite Htab| |by apply Failing].
      intros k2. by apply failing_not_commit.
    + apply (inv_takes_place db0 rs w i th k' row); try done; [by apply Failing|].
      intros k2. by apply failing_not_commit.
Qed.

Lemma inv_leaves db0 rs w i th k r s :
  inv db0 rs w -> threads w !! i = Some th -> th_prog th = Does ExitOk k ->
  (forall r, k r = Ends r) -> transaction_of i (shared w) = idle ->
  bool_decide (i ∈ rs.*1) = true -> commit_in i (shared w) r s ->
  exists rs', inv db0 (rs ++ rs') (with_thread w i th (k r) s).
Proof.
  intros Hw Hi Hp Hk Ht Hb Hc. pose proof (commit_isolated _ _ _ _ Hc) as Ho.
  rewrite Hk. assert (tables s ≡ tables (shared w) /\ transaction_of i s = idle) as [Htab Hx].
  { destruct r as [[]|e].
    - destruct (commit_done _ _ _ Hc) as [Htab Hx]. by rewrite Ht, idle_commits in Htab.
    - destruct (commit_unknown _ _ _ _ Hc) as [Htab Hx]. rewrite Ht in Hx, Htab.
      split; [|by destruct Hx]. rewrite idle_commits in Htab. by destruct Htab as [->|]. }
  apply inv_quiet_other; [done..|]. rewrite Hx, Hb. destruct r as [[]|e]; [apply Returned|apply Raised].
Qed.

Lemma inv_call db0 rs w w' : inv db0 rs w -> runs_call w w' -> exists rs', inv db0 (rs ++ rs') w'.
Proof.
  intros Hw Hst. destruct Hst as [w i th c k r s Hi Hp Hc].
  change (exists rs', inv db0 (rs ++ rs') (with_thread w i th (k r) s)).
  pose proof (inv_threads _ _ _ Hw i th Hi) as Hth.
  remember (th_prog th) as p eqn:Eq. remember (transaction_of i (shared w)) as t eqn:Et.
  remember (bool_decide (i ∈ rs.*1)) as b eqn:Eb. symmetry in Eq, Et, Eb.
  destruct Hth as [p Hk|p params Hx Hk|p params row Hx Hr Hk|p row Hr Hk|p [Hk|Hk]|p t b Hk| |e b];
    try discriminate Hp; try (eapply inv_rolls_back; by rewrite ?Eq); pose proof Hk as Hk0.
  - destruct Hk0 as (k' & -> & _). injection Hp as <- <-. inversion Hc; subst. by apply inv_connects.
  - destruct Hk0 as (k' & -> & _). injection Hp as <- <-. inversion Hc; subst.
    eapply inv_inserts; by rewrite ?Eq.
  - destruct Hk0 as (k' & -> & _). injection Hp as <- <-. inversion Hc; subst.
    eapply inv_upserts; by rewrite ?Eq.
  - destruct Hk0 as (k' & -> & _). injection Hp as <- <-. inversion Hc; subst.
    eapply inv_commits; by rewrite ?Eq.
  - destruct Hk0 as (k' & -> & Hend). injection Hp as <- <-. inversion Hc; subst.
    eapply inv_leaves; by rewrite ?Eq.
Qed.

Lemma inv_submit db0 rs w i envelope :
  inv db0 rs w -> threads w !! i = None ->
  inv db0 rs {| shared := shared w;
     threads := <[i := {| th_envelope := envelope; th_prog := write_to_db envelope |}]> (threads w) |}.
Proof.
  intros Hw Hi.
  assert (i ∉ rs.*1) as Hn.
  { intros ((j & r) & -> & Hin)%list_elem_of_fmap.
    destruct (inv_rows _ _ _ Hw _ _ Hin) as (th & Hth & _). simpl in Hi. congruence. }
  pose proof (write_to_db_connecting envelope) as Hc.
  constructor; cbn [shared threads]; try apply Hw.
  - intros j r Hin. destruct (inv_rows _ _ _ Hw _ _ Hin) as (th & Hth & He).
    exists th. split; [|done]. rewrite lookup_insert_ne; [done|]. intros ->. congruence.
  - intros j th. destruct (decide (j = i)) as [->|Hj].
    + rewrite lookup_insert_eq. intros [= <-]. rewrite (inv_outside _ _ _ Hw i Hi).
      rewrite bool_decide_false by done. by apply Connecting.
    + rewrite lookup_insert_ne by done. apply Hw.
  - intros j. destruct (decide (j = i)) as [->|Hj]; [by rewrite lookup_insert_eq|].
    rewrite lookup_insert_ne by done. apply Hw.
  - assert (forall j t, at_commit {| shared := shared w; threads := <[i := {|
        th_envelope := envelope; th_prog := write_to_db envelope |}]> (threads w) |} j t ->
        at_commit w j t) as Hback.
    { intros j t (th & k & Hth & Hp & Hl). cbn in *. destruct (decide (j = i)) as [->|Hj].
      - rewrite lookup_insert_eq in Hth. injection Hth as <-.
        change (write_to_db envelope = Does Commit k) in Hp.
        by destruct (connecting_not_commit _ _ k Hc).
      - rewrite lookup_insert_ne in Hth by done. by exists th, k. }
    intros j j' t Hj Hj'. by eapply (inv_locks _ _ _ Hw); apply Hback.
Qed.

Lemma inv_start s : (forall i, transaction_of i s = idle) -> inv (tables s) [] (init s).
Proof.
  intros Hs. constructor; cbn.
  - constructor.
  - done.
  - intros i r Hin. by apply elem_of_nil in Hin.
  - intros i th Hi. by rewrite lookup_empty in Hi.
  - done.
  - intros i j t (th & k & Hi & _). cbn in Hi. by rewrite lookup_empty in Hi.
Qed.

(** What is committed stays so. *)
Lemma steps_inv db0 rs w w' : inv db0 rs w -> rtc step w w' -> exists rs', inv db0 (rs ++ rs') w'.
Proof.
  intros Hw Hr. revert rs Hw. induction Hr as [w|w1 w2 w3 Hst _ IH]; intros rs Hw.
  { exists []. by rewrite app_nil_r. }
  destruct Hst as [w i envelope Hi|w w' Hc]; [by eapply IH, inv_submit|].
  destruct (inv_call _ _ _ _ Hw Hc) as [rs1 Hw1]. destruct (IH _ Hw1) as [rs2 Hw2].
  exists (rs1 ++ rs2). by rewrite app_assoc.
Qed.

Lemma reachable_inv s w :
  (forall i, transaction_of i s = idle) -> reachable (init s) w -> exists rs, inv (tables s) rs w.
Proof. intros Hs Hr. destruct (steps_inv _ _ _ _ (inv_start s Hs) Hr) as [rs Hw]. by exists rs. Qed.

Lemma events_grow s w w' :
  (forall i, transaction_of i s = idle) -> reachable (init s) w -> rtc step w w' ->
  exists l, position_events (tables (shared w')) ≡ₚ position_events (tables (shared w)) ++ l.
Proof.
  intros Hs Hr Hst. destruct (reachable_inv s w Hs Hr) as [rs Hw].
  destruct (steps_inv _ _ _ _ Hw Hst) as [rs' Hw'].
  destruct (inv_tables _ _ _ Hw) as [Hp _], (inv_tables _ _ _ Hw') as [Hp' _].
  exists rs'.*2. rewrite Hp, Hp', !ingest_events, fmap_app. by rewrite app_assoc.
Qed.

(** A thread that returned has committed its row. *)
Lemma inv_returned db0 rs w : inv db0 rs w ->
  forall i th, threads w !! i = Some th -> th_prog th = Ends (Ok ()) -> i ∈ rs.*1.
Proof.
  intros Hw i th Hi Hp. pose proof (inv_threads _ _ _ Hw i th Hi) as Hth. rewrite Hp in Hth.
  apply (bool_decide_eq_true_1 (i ∈ rs.*1)).
  inversion Hth as [? (? & ? & _)|? ? _ (? & ? & _)|? ? ? _ _ (? & ? & _)|? ? _ (? & ? & _)
    |? [(? & ? & _)|(? & ? & _)]|? ? ? (? & ? & _)| |]; congruence.
Qed.

(** ** The writes, one after another *)

(** The durable tables of blocks that run one after another ([persist_atomic]) *)
Inductive one_by_one : list pydict -> database -> database -> Prop :=
  | none_left db : one_by_one [] db db
  | then_next envelope es db db1 db2 :
      stored envelope db db1 -> one_by_one es db1 db2 -> one_by_one (envelope :: es) db db2.

Lemma ingest_one_by_one es rs db :
  Forall2 (fun envelope r => envelope_row envelope = Ok r) es rs -> one_by_one es db (ingest rs db).
Proof.
  intros Hf. revert db. induction Hf as [|envelope r es rs Hr _ IH]; intros db; [constructor|].
  apply (then_next _ _ _ (apply_row db r)); [|apply IH].
  unfold envelope_row in Hr. apply bind_Ok in Hr as (params & Hp & Hr). by exists params, r.
Qed.

(** C4. Concurrent writers are serial: whatever the order in which the threads take their
    calls, wherever they fail and whether or not the answer of a commit is lost, there is
    an order of some of the threads, each once and every one that returned among them,
    such that the tables are those of their writes made one after another, up to the order
    of the events; and whatever a query returns it may return after those writes. *)
Theorem writers_serialize s w :
  (forall i, transaction_of i s = idle) -> reachable (init s) w ->
  exists order es db, NoDup order /\
    Forall2 (fun i e => exists th, threads w !! i = Some th /\ th_envelope th = e) order es /\
    (forall i th, threads w !! i = Some th -> th_prog th = Ends (Ok ()) -> i ∈ order) /\
    one_by_one es (tables s) db /\ tables (shared w) ≡ db /\
    forall q p db1 rows, runs q p (tables (shared w)) db1 rows -> exists db2, runs q p db db2 rows.
Proof.
  intros Hs Hr. destruct (reachable_inv s w Hs Hr) as [rs Hw].
  assert (exists es, Forall2 (fun i e => exists th, threads w !! i = Some th /\ th_envelope th = e)
                       rs.*1 es /\ Forall2 (fun e r => envelope_row e = Ok r) es rs.*2) as (es & Hes & Hrs).
  { pose proof (inv_rows _ _ _ Hw) as Hrows. clear -Hrows. induction rs as [|[i r] rs IH].
    - exists []. by split.
    - destruct IH as (es & He1 & He2); [intros; apply Hrows; by right|].
      destruct (Hrows i r) as (th & Hth & Hr); [by left|].
      exists (th_envelope th :: es). split; constructor; try done. by exists th. }
  exists rs.*1, es, (ingest rs.*2 (tables s)).
  split; [apply Hw|]. split; [done|]. split; [|split; [by apply ingest_one_by_one|split; [apply Hw|]]].
  2: { intros q p db1 rows Hq. destruct (runs_proper _ _ _ _ _ _ (inv_tables _ _ _ Hw) Hq)
         as (db2 & _ & Hq2). by exists db2. }
  by apply (inv_returned _ _ _ Hw).
Qed.

(** C7. No update is lost to a concurrent one: when a thread has returned, the table of
    current positions holds for its tag its own row or one that is at least as new, of
    another thread that committed; an older event that commits later does not replace a
    newer one. *)
Theorem newest_survives s w i th r :
  (forall j, transaction_of j s = idle) -> tables s = empty_database -> reachable (init s) w ->
  threads w !! i = Some th -> th_prog th = Ends (Ok ()) -> envelope_row (th_envelope th) = Ok r ->
  exists r' j th', current_positions (tables (shared w)) !! r_tag r = Some r' /\ (r_ts r <= r_ts r')%Z /\
    threads w !! j = Some th' /\ envelope_row (th_envelope th') = Ok r'.
Proof.
  intros Hs Hempty Hr Hi Hp Hrow. destruct (reachable_inv s w Hs Hr) as [rs Hw].
  destruct (inv_tables _ _ _ Hw) as [_ Hcur]. rewrite Hempty, ingest_current in Hcur.
  assert (r ∈ rs.*2) as Hin.
  { pose proof (inv_returned _ _ _ Hw i th Hi Hp) as ((j & r') & -> & Hin)%list_elem_of_fmap.
    destruct (inv_rows _ _ _ Hw _ _ Hin) as (th' & Hth & Hr').
    apply list_elem_of_fmap. exists (j, r'). simpl in Hi. split; [|done]. cbn. congruence. }
  pose proof (upserts_latest rs.*2 (r_tag r)) as Hl. cbn in Hcur. rewrite <- Hcur in Hl.
  destruct (current_positions (tables (shared w)) !! r_tag r) as [r'|].
  2: { rewrite Forall_forall in Hl. by destruct (Hl r Hin). }
  pose proof (latest_elem _ _ _ Hl) as [Hin' Ht].
  apply list_elem_of_fmap in Hin' as ((j & r2) & -> & Hin').
  destruct (inv_rows _ _ _ Hw _ _ Hin') as (th' & Hth & Hr').
  exists r2, j, th'. split; [done|]. split; [|done]. by eapply (latest_max _ _ _ _ Hl).
Qed.

(** ** A page of the history while writers run *)

(** What the first query of [position_history] may return on some tables *)
Definition page_query (tag : text) (from_ts to_ts : option Z) (limit offset : Z) (db : database)
    (rows : list (list pyval)) : Prop :=
  exists q db', Repository.history_text (Repository.build_time_filters from_ts to_ts).1 = Ok q /\
    runs q (all_params tag limit offset from_ts to_ts) db db' rows.

(** What the second may return *)
Definition total_query (tag : text) (from_ts to_ts : option Z) (db : database) (total : Z) : Prop :=
  exists q db', Repository.count_text (Repository.build_time_filters from_ts to_ts).1 = Ok q /\
    runs q (count_params tag from_ts to_ts) db db' [[VInt total]].

Lemma page_query_length tag from_ts to_ts limit offset db rows :
  page_query tag from_ts to_ts limit offset db rows ->
  length rows = Nat.min (Z.to_nat limit) (length (history_matches tag from_ts to_ts db) - Z.to_nat offset).
Proof.
  intros (q & db' & Hq & Hr). rewrite history_text_ok in Hq. injection Hq as <-.
  destruct (runs_history _ _ _ _ _ _ Hr) as (t & f & o & lim & off & l & Q1 & Q2 & Q3 & Q4 & Q5 & Hp & _ & _ & ->).
  destruct (history_param_values tag limit offset from_ts to_ts) as (P1 & P2 & P3 & P4 & P5).
  unfold all_params in *. rewrite P1 in Q1. injection Q1 as <-. rewrite P2 in Q4. injection Q4 as <-.
  rewrite P3 in Q5. injection Q5 as <-.
  rewrite (bound_param_fun _ _ _ _ _ P4 Q2), (bound_param_fun _ _ _ _ _ P5 Q3).
  by rewrite length_fmap, length_take, length_drop, Hp.
Qed.

Lemma total_query_value tag from_ts to_ts db total :
  total_query tag from_ts to_ts db total -> total = Z.of_nat (length (history_matches tag from_ts to_ts db)).
Proof.
  intros (q & db' & Hq & Hr). rewrite count_text_ok in Hq. injection Hq as <-.
  destruct (runs_count _ _ _ _ _ _ Hr) as (t & f & o & Q1 & Q2 & Q3 & _ & Ht).
  destruct (count_param_values tag from_ts to_ts) as (P1 & P2 & P3).
  unfold count_params in *. rewrite P1 in Q1. injection Q1 as <-.
  rewrite (bound_param_fun _ _ _ _ _ P2 Q2), (bound_param_fun _ _ _ _ _ P3 Q3). by injection Ht.
Qed.

(** C28. The two queries of a history request see the tables at two moments, with commits
    between them.  The page is then still consistent with the total: it has at most the
    page size of rows, the total counts every event that the page was cut from, so that a
    page that is not empty ends within the total, and a total that is more than the page
    and the events before it means that a full page was returned or that events were
    committed in between. *)
Theorem page_within_total s w1 w2 tag from_ts to_ts limit offset rows total :
  (forall i, transaction_of i s = idle) -> reachable (init s) w1 -> rtc step w1 w2 ->
  (0 <= limit)%Z -> (0 <= offset)%Z ->
  page_query tag from_ts to_ts limit offset (tables (shared w1)) rows ->
  total_query tag from_ts to_ts (tables (shared w2)) total ->
  (Z.of_nat (length rows) <= limit)%Z /\
  (rows ≠ [] -> offset + Z.of_nat (length rows) <= total)%Z /\
  (offset + Z.of_nat (length rows) < total ->
     Z.of_nat (length rows) = limit \/
     exists l, l ≠ [] /\
       position_events (tables (shared w2)) ≡ₚ position_events (tables (shared w1)) ++ l)%Z.
Proof.
  intros Hs Hr Hst Hl Ho Hpage Htotal. apply page_query_length in Hpage. apply total_query_value in Htotal.
  destruct (events_grow s w1 w2 Hs Hr Hst) as [l Hgrow].
  assert (history_matches tag from_ts to_ts (tables (shared w2)) ≡ₚ
          history_matches tag from_ts to_ts (tables (shared w1)) ++ List.filter (in_window tag from_ts to_ts) l)
    as Hm.
  { unfold history_matches. rewrite <- List.filter_app. by apply filter_permutation. }
  rewrite Hm, length_app in Htotal. split; [lia|]. split.
  - intros Hne. destruct rows as [|x rows]; [done|]. cbn [length] in *. lia.
  - intros Hlt. destruct l as [|x l]; [|right; by exists (x :: l)]. left. cbn in Htotal. lia.
Qed.

(** ** Every thread ends *)

Fixpoint at_most (n : nat) (p : prog ()) {struct p} : Prop :=
  match p with
  | Ends _ => True
  | Does _ k => match n with O => False | S n => forall r, at_most n (k r) end
  end.

Lemma at_most_weaken n m p : n <= m -> at_most n p -> at_most m p.
Proof.
  revert m p. induction n as [|n IH]; intros m [r|c k] Hle Hp; try done.
  destruct m as [|m]; [lia|]. intros r. apply IH; [lia|apply Hp].
Qed.

Lemma at_most_failing p : failing p -> at_most 1 p.
Proof. intros (k & -> & He) r. destruct (He r) as [e ->]. done. Qed.

Lemma at_most_call c n after p :
  (forall p, after p -> at_most (S n) p) -> at_call c after p -> at_most (S (S n)) p.
Proof.
  intros Ha (k & -> & Hk & Hf) [[]|e]; [by apply Ha|].
  apply (at_most_weaken 1); [lia|]. by apply at_most_failing.
Qed.

Lemma at_most_write envelope : at_most 5 (write_to_db envelope).
Proof.
  destruct (write_to_db_connecting envelope) as (k & -> & He & Hk). intros [[]|e]; [|by rewrite He].
  destruct (Repository.extract_params envelope) as [params|e].
  - revert Hk. apply at_most_call. intros p. apply at_most_call. intros p'. apply at_most_call.
    intros p2 [Hf|(k' & -> & Hk')]; [by apply at_most_failing|]. intros r. by rewrite Hk'.
  - apply (at_most_weaken 1); [lia|]. by apply at_most_failing.
Qed.

(** The calls that the threads may still take, as a bound for each of them *)
Definition bounded (w : world) (b : gmap nat nat) : Prop :=
  forall i, match threads w !! i, b !! i with
            | Some th, Some n => at_most n (th_prog th)
            | None, None => True
            | _, _ => False
            end.

Definition total (b : gmap nat nat) : nat := sum_list (map_to_list b).*2.

Lemma total_delete b i n : b !! i = Some n -> total b = n + total (delete i b).
Proof. intros Hi. unfold total. by rewrite <- (map_to_list_delete b i n Hi). Qed.

Lemma total_new b i n : b !! i = None -> total (<[i := n]> b) = n + total b.
Proof. intros Hi. unfold total. by rewrite map_to_list_insert. Qed.

Lemma total_insert b i n m : b !! i = Some n -> total (<[i := m]> b) + n = total b + m.
Proof.
  intros Hi. rewrite (total_delete b i n Hi), (total_delete (<[i:=m]> b) i m) by apply lookup_insert_eq.
  rewrite delete_insert_eq. lia.
Qed.

Lemma runs_call_bounded w w' b :
  bounded w b -> runs_call w w' -> exists b', bounded w' b' /\ S (total b') = total b.
Proof.
  intros Hb Hst. destruct Hst as [w i th c k r s Hi Hp Hc].
  pose proof (Hb i) as Hbi. rewrite Hi in Hbi. destruct (b !! i) as [n|] eqn:En; [|done].
  rewrite Hp in Hbi. destruct n as [|n]; [done|]. exists (<[i := n]> b). split.
  - intros j. cbn. destruct (decide (j = i)) as [->|Hj].
    + rewrite !lookup_insert_eq. apply Hbi.
    + rewrite !lookup_insert_ne by done. apply Hb.
  - pose proof (total_insert b i (S n) n En). lia.
Qed.

Lemma nsteps_bounded n w w' b : bounded w b -> nsteps runs_call n w w' -> n <= total b.
Proof.
  revert w b. induction n as [|n IH]; intros w b Hb Hn; [lia|].
  inversion Hn as [|? ? w1 ? Hst Hrest]; subst.
  destruct (runs_call_bounded _ _ _ Hb Hst) as (b' & Hb' & Ht).
  pose proof (IH _ _ Hb' Hrest). lia.
Qed.

Lemma step_bounded w w' : (exists b, bounded w b /\ total b <= 5 * size (threads w)) -> step w w' ->
  exists b, bounded w' b /\ total b <= 5 * size (threads w').
Proof.
  intros (b & Hb & Ht) Hst. destruct Hst as [w i envelope Hi|w w' Hst].
  - pose proof (Hb i) as Hbi. rewrite Hi in Hbi. destruct (b !! i) as [n|] eqn:En; [done|].
    exists (<[i := 5]> b). cbn [threads]. split.
    + intros j. cbn [threads]. destruct (decide (j = i)) as [->|Hj].
      * rewrite !lookup_insert_eq. cbn [th_prog]. apply at_most_write.
      * rewrite !lookup_insert_ne by done. apply Hb.
    + rewrite map_size_insert_None, total_new by done. lia.
  - destruct (runs_call_bounded _ _ _ Hb Hst) as (b' & Hb' & Hlt). exists b'. split; [done|].
    destruct Hst as [w i th c k r s Hi _ _]. cbn [threads]. rewrite map_size_insert_Some by done. lia.
Qed.

Lemma reachable_bounded s w : reachable (init s) w ->
  exists b, bounded w b /\ total b <= 5 * size (threads w).
Proof.
  intros Hr. remember (init s) as w0 eqn:E0.
  assert (exists b, bounded w0 b /\ total b <= 5 * size (threads w0)) as Hw0.
  { exists ∅. subst. split; [|done]. intros i. cbn. by rewrite !lookup_empty. }
  clear E0. induction Hr as [w|w1 w2 w3 Hst _ IH]; [done|]. by apply IH, (step_bounded w1).
Qed.

Lemma thread_moves w i th c k r s :
  threads w !! i = Some th -> th_prog th = Does c k -> call_step i c (shared w) r s ->
  exists w', runs_call w w'.
Proof. intros Hi Hp Hc. eexists. by econstructor. Qed.

Lemma rollback_moves w i th : threads w !! i = Some th -> failing (th_prog th) -> exists w', runs_call w w'.
Proof. intros Hi (k & Hp & _). eapply thread_moves; [done..|constructor]. Qed.

Lemma commit_moves w i th k :
  threads w !! i = Some th -> th_prog th = Does Commit k -> exists w', runs_call w w'.
Proof.
  intros Hi Hp. destruct (commit_answers i (shared w)) as (r & s & Hc).
  eapply thread_moves; [done..|]. by constructor.
Qed.

(** Who holds a lock does not wait. *)
Lemma holder_moves db0 rs w j th t :
  inv db0 rs w -> threads w !! j = Some th -> tx_lock (transaction_of j (shared w)) = Some t ->
  exists w', runs_call w w'.
Proof.
  intros Hw Hj Hl. pose proof (inv_threads _ _ _ Hw j th Hj) as Hth.
  inversion Hth as [p Hk Ep Et|p params ? Hk Ep Et|p params r ? ? Hk Ep Et|p r ? Hk Ep Et|p Hk Ep Et
    |p x b Hk Ep Et|Ep Et|e b Ep Et]; subst; rewrite <- ?Et in Hl; try done.
  - destruct Hk as (k & Hp & _). by eapply commit_moves.
  - by eapply rollback_moves.
Qed.

Lemma insert_not_upsert : insert_position_event_sql ≠ upsert_current_position_sql.
Proof. intros Hq. query_absurd. Qed.

Lemma some_thread_moves db0 rs w i th :
  inv db0 rs w -> threads w !! i = Some th -> ended th = false -> exists w', runs_call w w'.
Proof.
  intros Hw Hi He. pose proof (inv_threads _ _ _ Hw i th Hi) as Hth. unfold ended in He.
  inversion Hth as [p (k & Hp & _)|p params ? (k & Hp & _)|p params r Hx Hr (k & Hp & _)
    |p r ? (k & Hp & _)|p [Hk|(k & Hp & _)]|p x b Hk|Ep|e b Ep]; subst.
  - eapply thread_moves; [done..|]. by apply (acquire_step i (shared w) (Ok ())).
  - destruct (execute_answers i insert_position_event_sql params (shared w)) as (r & s & Hs).
    { intros Hq. by destruct insert_not_upsert. }
    eapply thread_moves; [done..|]. by constructor.
  - destruct (decide (map_Exists (fun j _ => j ≠ i /\
      tx_lock (transaction_of j (shared w)) = Some (r_tag r)) (threads w))) as [(j & thj & Hj & Hn & Hl)|Hfree].
    { by eapply holder_moves. }
    destruct (execute_answers i upsert_current_position_sql params (shared w)) as (r' & s & Hs).
    { intros _ j row Hn Hrow Hl. rewrite Hr in Hrow. injection Hrow as <-.
      destruct (threads w !! j) as [thj|] eqn:Ej.
      - apply Hfree. by exists j, thj.
      - by rewrite (inv_outside _ _ _ Hw j Ej) in Hl. }
    eapply thread_moves; [done..|]. by constructor.
  - by eapply commit_moves.
  - by eapply rollback_moves.
  - destruct (commit_answers i (shared w)) as (r & s & Hc). eapply thread_moves; [done..|]. by constructor.
  - by eapply rollback_moves.
  - by rewrite <- Ep in He.
  - by rewrite <- Ep in He.
Qed.

(** C20. Writers neither run for ever nor wait for each other for ever: from every state no
    more than five calls for each thread can be taken, in any order, and where none can be
    taken every thread has ended; a thread that waits for a row waits for one that can
    move. *)
Theorem writers_finish s w w' n :
  (forall i, transaction_of i s = idle) -> reachable (init s) w -> nsteps runs_call n w w' ->
  n <= 5 * size (threads w) /\
  ((forall w2, ~ runs_call w' w2) -> map_Forall (fun _ th => ended th = true) (threads w')).
Proof.
  intros Hs Hr Hn. split.
  { destruct (reachable_bounded s w Hr) as (b & Hb & Ht). pose proof (nsteps_bounded n w w' b Hb Hn). lia. }
  intros Hstuck i th Hi. destruct (ended th) eqn:He; [done|].
  assert (reachable (init s) w') as Hr'.
  { etrans; [exact Hr|]. apply rtc_nsteps. exists n. eapply (nsteps_congruence id); [|exact Hn].
    intros. by apply step_call. }
  destruct (reachable_inv s w' Hs Hr') as [rs Hw].
  destruct (some_thread_moves _ _ _ i th Hw Hi He) as [w2 Hst]. by destruct (Hstuck w2).
Qed.
End Invariant.

(** ** Tables in memory, and two writers of one tag *)

#[local] Existing Instance ascii_unicode.

Record mem_store := { ms_tables : database; ms_open : gmap nat transaction }.

Definition mem_transaction (i : nat) (s : mem_store) : transaction := default idle (ms_open s !! i).

Definition mem_held (i : nat) (t : text) (s : mem_store) : bool :=
  bool_decide (map_Exists (fun j x => j ≠ i /\ tx_lock x = Some t) (ms_open s)).

Definition mem_set (i : nat) (x : transaction) (s : mem_store) : mem_store :=
  {| ms_tables := ms_tables s; ms_open := <[i := x]> (ms_open s) |}.

(** [None]: the statement has to wait. *)
Definition mem_statement (i : nat) (q : text) (p : pydict) (s : mem_store) :
    option (res () * mem_store) :=
  match mem_row_of p with
  | Raise e => Some (Raise e, s)
  | Ok r =>
      if text_eqb q insert_position_event_sql then
        Some (Ok (), mem_set i (with_event r (mem_transaction i s)) s)
      else if text_eqb q upsert_current_position_sql then
        if mem_held i (r_tag r) s then None
        else Some (Ok (), mem_set i (with_upsert r (ms_tables s) (mem_transaction i s)) s)
      else Some (raise Foreign "syntax error", s)
  end.

Definition mem_end (i : nat) (db : database) (s : mem_store) : mem_store :=
  {| ms_tables := db; ms_open := delete i (ms_open s) |}.

Definition mem_commit (i : nat) (s : mem_store) : res () * mem_store :=
  (Ok (), mem_end i (committed_onto (mem_transaction i s) (ms_tables s)) s).

Lemma mem_transaction_set i x s : mem_transaction i (mem_set i x s) = x.
Proof. unfold mem_transaction, mem_set. cbn. by rewrite lookup_insert_eq. Qed.

Lemma mem_transaction_set_ne i j x s : j ≠ i -> mem_transaction j (mem_set i x s) = mem_transaction j s.
Proof. intros Hj. unfold mem_transaction, mem_set. cbn. by rewrite lookup_insert_ne. Qed.

Lemma mem_transaction_end i db s : mem_transaction i (mem_end i db s) = idle.
Proof. unfold mem_transaction, mem_end. cbn. by rewrite lookup_delete_eq. Qed.

Lemma mem_transaction_end_ne i j db s : j ≠ i -> mem_transaction j (mem_end i db s) = mem_transaction j s.
Proof. intros Hj. unfold mem_transaction, mem_end. cbn. by rewrite lookup_delete_ne. Qed.

Lemma mem_held_spec i t s : mem_held i t s = true <-> exists j, j ≠ i /\ tx_lock (mem_transaction j s) = Some t.
Proof.
  unfold mem_held, mem_transaction. rewrite bool_decide_eq_true. split.
  - intros (j & x & Hj & Hn & Hl). exists j. by rewrite Hj.
  - intros (j & Hn & Hl). destruct (ms_open s !! j) as [x|] eqn:E; [|done]. by exists j, x.
Qed.

#[export, program] Instance mem_read_committed : ReadCommitted := {|
  store := mem_store;
  tables := ms_tables;
  transaction_of := mem_transaction;
  execute_in := fun i q p s r s' => mem_statement i q p s = Some (r, s');
  commit_in := fun i s r s' => mem_commit i s = (r, s');
  rollback_in := fun i s => mem_end i (ms_tables s) s;
|}.
Next Obligation.
  intros i q p s r s'. unfold mem_statement. repeat case_match; intros [= <- <-]; split; try done;
    intros j Hj; by apply mem_transaction_set_ne.
Qed.
Next Obligation.
  intros i p s s'. unfold mem_statement. change (row_of p) with (mem_row_of p).
  destruct (mem_row_of p) as [r|e]; [|done]. rewrite text_eqb_refl. intros [= <-].
  exists r. by rewrite mem_transaction_set.
Qed.
Next Obligation.
  intros i p s s'. unfold mem_statement. change (row_of p) with (mem_row_of p).
  destruct (mem_row_of p) as [r|e]; [|done].
  destruct (text_eqb _ insert_position_event_sql) eqn:Eq.
  { apply text_eqb_eq, eq_sym, insert_not_upsert in Eq. done. }
  rewrite text_eqb_refl. destruct (mem_held i (r_tag r) s) eqn:Eh; [done|]. intros [= <-] _.
  exists r. rewrite mem_transaction_set. split; [done|]. split; [|done]. intros j Hj Hl.
  assert (mem_held i (r_tag r) s = true) by (apply mem_held_spec; by exists j). congruence.
Qed.
Next Obligation.
  intros i q p s Hfree. unfold mem_statement. change (row_of p) with (mem_row_of p) in Hfree.
  destruct (mem_row_of p) as [r|e]; [|by do 2 eexists].
  destruct (text_eqb q insert_position_event_sql); [by do 2 eexists|].
  destruct (text_eqb q upsert_current_position_sql) eqn:Eq; [|by do 2 eexists].
  destruct (mem_held i (r_tag r) s) eqn:Eh; [|by do 2 eexists].
  apply mem_held_spec in Eh as (j & Hj & Hl). apply text_eqb_eq in Eq.
  by destruct (Hfree Eq j r Hj eq_refl).
Qed.
Next Obligation. intros i s r s' [= <- <-] j Hj. by apply mem_transaction_end_ne. Qed.
Next Obligation. intros i s s' [= <-]. split; [done|]. apply mem_transaction_end. Qed.
Next Obligation. intros i s e s' [=]. Qed.
Next Obligation. intros i s. by do 2 eexists. Qed.
Next Obligation.
  intros i s. split; [done|]. split; [apply mem_transaction_end|].
  intros j Hj. by apply mem_transaction_end_ne.
Qed.

(** One thread's call, and a schedule of such calls *)
Definition take_call (i : nat) (w : world) : option world :=
  match threads w !! i with
  | Some {| th_envelope := envelope; th_prog := Does c k |} =>
      let next r s := {| shared := s;
        threads := <[i := {| th_envelope := envelope; th_prog := k r |}]> (threads w) |} in
      match c with
      | Acquire => Some (next (Ok ()) (shared w))
      | Execute q p => '(r, s) ← mem_statement i q p (shared w); Some (next r s)
      | Commit | ExitOk => let '(r, s) := mem_commit i (shared w) in Some (next r s)
      | ExitRaise => Some (next (Ok ()) (mem_end i (ms_tables (shared w)) (shared w)))
      end
  | _ => None
  end.

Fixpoint schedule (order : list nat) (w : world) : option world :=
  match order with
  | [] => Some w
  | i :: order => w' ← take_call i w; schedule order w'
  end.

Lemma take_call_runs i w w' : take_call i w = Some w' -> runs_call w w'.
Proof.
  unfold take_call. destruct (threads w !! i) as [[envelope [r|c k]]|] eqn:Ei; [done| |done].
  assert (forall r s, call_step i c (shared w) r s -> runs_call w {| shared := s;
      threads := <[i := {| th_envelope := envelope; th_prog := k r |}]> (threads w) |}) as Hgo.
  { intros r s Hc. by apply (runs_call_intro w i {| th_envelope := envelope; th_prog := Does c k |} c k r s). }
  destruct c as [|q p| | |].
  - intros [= <-]. apply Hgo. constructor.
  - destruct (mem_statement i q p (shared w)) as [[r s]|] eqn:Es; [|done]. intros [= <-].
    apply Hgo. by constructor.
  - intros [= <-]. apply Hgo. by constructor.
  - intros [= <-]. apply Hgo. by constructor.
  - intros [= <-]. apply Hgo. constructor.
Qed.

Lemma schedule_runs order w w' : schedule order w = Some w' -> nsteps runs_call (length order) w w'.
Proof.
  revert w. induction order as [|i order IH]; intros w; cbn.
  - intros [= <-]. constructor.
  - destruct (take_call i w) as [w1|] eqn:Et; [|done]. intros Hs.
    econstructor; [by eapply take_call_runs|]. by apply IH.
Qed.

Lemma schedule_reachable order w w' : schedule order w = Some w' -> reachable w w'.
Proof.
  intros Hs%schedule_runs. apply rtc_nsteps. exists (length order).
  eapply (nsteps_congruence id); [|exact Hs]. intros. by apply step_call.
Qed.

(** Two events of one tag; the older one is the second thread's. *)
Definition older_envelope : pydict :=
  dset "payload" (VDict (dset "ts_utc_ms" (VInt 5) sample_payload)) sample_envelope.

Definition older_row : row :=
  {| r_tag := "a"; r_ts := 5;
     r_cols := match Repository.extract_params older_envelope with Ok p => p | Raise _ => [] end |}.

Lemma older_row_of : envelope_row older_envelope = Ok older_row.
Proof. vm_compute. reflexivity. Qed.

Definition empty_store : store (ReadCommitted := mem_read_committed) := {| ms_tables := empty_database; ms_open := ∅ |}.

Definition submit (i : nat) (envelope : pydict) (w : world) : world :=
  {| shared := shared w;
     threads := <[i := {| th_envelope := envelope; th_prog := write_to_db envelope |}]> (threads w) |}.

Definition two_writers : world := submit 1 older_envelope (submit 0 sample_envelope (init empty_store)).

Lemma two_writers_reachable : reachable (init empty_store) two_writers.
Proof.
  eapply rtc_l; [by apply (step_submit (init empty_store) 0 sample_envelope)|].
  apply rtc_once. by apply (step_submit (submit 0 sample_envelope (init empty_store)) 1 older_envelope).
Qed.

Lemma empty_store_idle i : transaction_of i empty_store = idle.
Proof. done. Qed.

(** The second thread inserts first and has to wait for the row until the first has
    committed. *)
Definition interleaved : list nat := [0; 1; 1; 0; 0].
Definition one_after_another : list nat := [0; 0; 1; 1; 1].

Definition current_ts (w : world) : option Z :=
  r_ts <$> current_positions (tables (shared w)) !! txt "a".

Definition waits (i : nat) (o : option world) : bool :=
  match o with Some w => if take_call i w then false else true | None => false end.

Definition returned (i : nat) (w : world) : bool :=
  match threads w !! i with
  | Some {| th_prog := Ends (Ok _) |} => true
  | _ => false
  end.

Definition all_calls : list nat := interleaved ++ one_after_another.

Lemma second_waits :
  waits 1 (schedule interleaved two_writers) = true /\
  schedule all_calls two_writers ≫= current_ts = Some 7%Z.
Proof. split; vm_compute; reflexivity. Qed.

(** Where the two writers are after all their calls *)
Definition two_written (w : world) : Prop := schedule all_calls two_writers = Some w.

Lemma two_written_exists : exists w, two_written w /\ returned 1 w = true.
Proof.
  unfold two_written. destruct (schedule all_calls two_writers) as [w|] eqn:Ew.
  - exists w. split; [done|]. change (default false (returned 1 <$> Some w) = true). rewrite <- Ew.
    vm_compute. reflexivity.
  - assert (default false (returned 1 <$> schedule all_calls two_writers) = true) as Hr
      by (vm_compute; reflexivity). by rewrite Ew in Hr.
Qed.

Lemma two_written_envelope w th : two_written w -> threads w !! 1 = Some th -> th_envelope th = older_envelope.
Proof.
  intros Hw%schedule_runs. revert th. unfold two_writers in Hw.
  assert (forall n w w', nsteps runs_call n w w' -> forall i th, threads w' !! i = Some th ->
    exists th0, threads w !! i = Some th0 /\ th_envelope th0 = th_envelope th) as Hkeep.
  { intros n. induction n as [|n IH]; intros w1 w2 Hn i th Hi; inversion Hn as [|? ? w3 ? Hst Hrest]; subst.
    - by exists th.
    - destruct (IH _ _ Hrest i th Hi) as (th3 & H3 & <-).
      destruct Hst as [w1 j thj c k r s Hj _ _]. cbn [threads] in H3.
      destruct (decide (i = j)) as [->|Hne].
      + rewrite lookup_insert_eq in H3. injection H3 as <-. by exists thj.
      + rewrite lookup_insert_ne in H3 by done. by exists th3. }
  intros th Hi. destruct (Hkeep _ _ _ Hw 1 th Hi) as (th0 & H0 & <-).
  cbn [threads submit] in H0. rewrite lookup_insert_eq in H0. by injection H0 as <-.
Qed.

Lemma two_written_counts w : two_written w ->
  length (history_matches "a" None None (tables (shared w))) = 2.
Proof.
  intros Hw. assert (default 0 ((fun w => length (history_matches "a" None None (tables (shared w)))) <$>
    schedule all_calls two_writers) = 2) as Hn by (vm_compute; reflexivity).
  by rewrite Hw in Hn.
Qed.

Lemma two_written_reachable w : two_written w -> reachable (init empty_store) w.
Proof. intros Hw. etrans; [apply two_writers_reachable|]. by eapply schedule_reachable. Qed.

Lemma writers_serialize_witness :
  exists w order es db, two_written w /\ Forall2 (fun i e => exists th, threads w !! i = Some th /\
    th_envelope th = e) order es /\ one_by_one es empty_database db /\ tables (shared w) ≡ db.
Proof.
  destruct two_written_exists as (w & Hw & _). exists w.
  destruct (writers_serialize empty_store w empty_store_idle (two_written_reachable w Hw))
    as (order & es & db & _ & He & _ & Ho & Hdb & _).
  exists order, es, db. exact (conj Hw (conj He (conj Ho Hdb))).
Defined.

Lemma newest_survives_witness :
  exists w r', two_written w /\ current_positions (tables (shared w)) !! txt "a" = Some r' /\ (5 <= r_ts r')%Z.
Proof.
  destruct two_written_exists as (w & Hw & Hp). exists w. unfold returned in Hp.
  destruct (threads w !! 1) as [[envelope [[[]|e]|c k]]|] eqn:Eth; try discriminate Hp.
  pose proof (two_written_envelope w _ Hw Eth) as He. cbn in He. subst envelope.
  destruct (newest_survives empty_store w 1 _ older_row empty_store_idle eq_refl
              (two_written_reachable w Hw) Eth eq_refl older_row_of) as (r' & j & th' & Hc & Hle & _).
  exists r'. exact (conj Hw (conj Hc Hle)).
Defined.

(** The first query before the two writers, the second after them: an empty page, and a
    total of two. *)
Lemma page_within_total_witness :
  exists w, two_written w /\ page_query "a" None None 10 0 (tables (shared two_writers)) [] /\
    total_query "a" None None (tables (shared w)) 2 /\ exists l, l ≠ [] /\
      position_events (tables (shared w)) ≡ₚ position_events (tables (shared two_writers)) ++ l.
Proof.
  destruct two_written_exists as (w & Hw & _). exists w.
  assert (page_query "a" None None 10 0 (tables (shared two_writers)) []) as Hpage.
  { do 2 eexists. split; [apply (history_text_ok None None)|].
    change (tables (shared two_writers)) with empty_database.
    apply (run_history false false _ _ "a" None None 10 0 []);
      [reflexivity|reflexivity|reflexivity|reflexivity|reflexivity|lia|lia|constructor|constructor]. }
  assert (total_query "a" None None (tables (shared w)) 2) as Htotal.
  { do 2 eexists. split; [apply (count_text_ok None None)|].
    pose proof (two_written_counts w Hw) as Hn.
    replace 2%Z with (Z.of_nat (length (history_matches "a" None None (tables (shared w))))) by by rewrite Hn.
    by apply run_count. }
  destruct (page_within_total empty_store two_writers w "a" None None 10 0 [] 2 empty_store_idle
              two_writers_reachable (schedule_reachable _ _ _ Hw) ltac:(lia) ltac:(lia) Hpage Htotal)
    as (_ & _ & Hmore).
  split; [exact Hw|]. split; [exact Hpage|]. split; [exact Htotal|].
  destruct (Hmore ltac:(cbn; lia)) as [Hfull|Hnew]; [discriminate Hfull|exact Hnew].
Defined.

Lemma writers_finish_witness :
  exists w, two_written w /\ length all_calls <= 5 * size (threads two_writers) /\
    map_Forall (fun _ th => ended th = true) (threads w).
Proof.
  destruct two_written_exists as (w & Hw & _). exists w. split; [exact Hw|].
  destruct (writers_finish empty_store two_writers w _ empty_store_idle two_writers_reachable
              (schedule_runs _ _ _ Hw)) as [Hle Hend].
  split; [exact Hle|]. apply Hend. intros w2 Hst.
  destruct (writers_finish empty_store two_writers w2 _ empty_store_idle two_writers_reachable
              (nsteps_r _ _ _ _ (schedule_runs _ _ _ Hw) Hst)) as [Hmany _].
  vm_compute in Hmany. lia.
Defined.
End WritersFacts.
